(* ===== verification/_CoqProject ===== *)
-Q . S2P
Prelude.v
Doubles.v
Events.v
Paths.v
Bytes.v
OrderBook.v
SpscQueue.v
Exchange.v
ShardQueue.v
TelemetrySlot.v
MpscQueue.v
Config.v
Process.v
SecureString.v
Gateway.v
Engine.v
ProcessManager.v
Supervisor.v
Timestamp.v
Csv.v
Mmap.v
Schema.v
Dolphin.v
Contention.v
Router.v
Singleton.v
PubWorker.v
BufferPool.v
PubRun.v
Dispatcher.v
Receiver.v
FromChars.v
Json.v
OnDemand.v
Binance.v
Gateio.v
Adapters.v
Decode.v
Messages.v
Channel.v
Reconnect.v
Ingest.v
Pipeline.v
Telemetry.v
Factory.v
Lifecycle.v
Shutdown.v
Startup.v
