(* ===== verification/Prelude.v ===== *)
(** * Smart Quant Collector: a verification development

    The collector records market data.  Two sources feed it: crypto exchanges
    over websockets (parsed by shard workers in the same process) and futures
    through the Rithmic API, which runs in a child process (the gateway) and
    hands events over in shared memory.  Every event is stored (CSV files,
    memory-mapped files or DolphinDB), published over ZeroMQ and accounted for in
    telemetry slots.  All paths below are relative to src/ of the repository.

    ** Files and the code they model

    - [Prelude]: machine integers with their wrap-around, fixed arrays and
      [memcpy], C strings, executions, tactics and the [sqc] hint databases.
    - [Doubles]: the C++ [double] as executable binary64 ([SpecFloat]) with an
      order-theoretic rank that reduces comparisons to linear arithmetic.
    - [Events]: src/common/tick_data.h, src/orderbook/orderbook_event.h,
      src/common/storage_envelope.h, the three symbol copy routines.
    - [Paths]: src/common/path_util.h and decimal file numbers.
    - [Bytes]: object representation of the binary records (little-endian
      integers, binary64, padding) and the decoder of tick records.
    - [OrderBook]: src/rithmic_gateway/rithmic_orderbook.h.
    - [SpscQueue]: src/common/spsc_queue.h, and the [FifoQueue] interface.
    - [Exchange]: channel identifiers and registries (src/exchange/channel_mapping.h,
      src/common/channel_id_hash.h, src/exchange/exchange_adapter.h,
      src/exchange/rithmic/rithmic_types.h).
    - [ShardQueue]: src/exchange/shard_queue.h and .cpp.
    - [TelemetrySlot]: src/common/telemetry_slot.h, as a function, as interleaved steps, and
      with the memory orders of its accesses on a machine that may reorder them.
    - [MpscQueue]: src/exchange/rithmic/rithmic_queue.h.
    - [Config]: src/config/config_struct.h, src/config/config_loader.cpp.
    - [Process]: src/common/logger_init.cpp, src/common/cpu_affinity.cpp,
      src/common/signal_handler.cpp.
    - [SecureString]: src/config/secure_string.h.
    - [Gateway]: src/rithmic_gateway/rithmic_callbacks.cpp.
    - [Engine]: src/rithmic_gateway/rithmic_engine.cpp and main.cpp.
    - [ProcessManager]: src/exchange/rithmic/rithmic_process_manager.cpp, one call at a
      time; [Supervisor]: the monitor thread interleaved with shutdown, the destructor and
      the processes themselves.
    - [Timestamp]: src/storage/timestamp_util.h.
    - [Csv]: src/storage/engine/csv_writer.cpp, src/storage/backend/csv_backend.cpp.
    - [Mmap]: src/storage/engine/mmap_engine.cpp, src/storage/backend/mmap_backend.cpp.
    - [Schema]: src/storage/client/dolphindb_schema.cpp.
    - [Dolphin]: src/storage/channel_registry.h, src/storage/client/dolphindb_client.cpp,
      src/storage/backend/dolphindb_backend.cpp, one call at a time; [Contention]: the
      backend called by any number of threads, with its reader-writer lock, the
      reconnection gate and the spinning threads behind it.
    - [Router]: src/storage/i_storage_backend.h, storage_backend_factory.cpp,
      storage_router.cpp; [Singleton]: the racing creation of the router.
    - [PubWorker]: src/pubsub/ (queues, buffer pool, dispatch, drain) over any
      [FifoQueue]; [BufferPool]: the publisher and ZeroMQ's I/O thread on the shared
      buffers; [PubRun]: the life of the publisher thread.
    - [Dispatcher]: src/exchange/data_dispatcher.cpp and
      src/exchange/crypto/shard_parser_worker.cpp.
    - [Receiver]: src/exchange/rithmic/rithmic_receiver.cpp and the shared-memory
      layout of src/exchange/rithmic/rithmic_shm.h.
    - [FromChars]: [std::from_chars] on doubles and src/common/string_utils.h.
    - [Json]: the parser monad over simdjson's on-demand interface and
      src/exchange/crypto/json_parse_helpers.h; [OnDemand]: the documented behaviour of
      that interface as a class, and a document that has it.
    - [Binance], [Gateio]: src/exchange/crypto/binance/ and gateio/; [Adapters]: what
      the parsers guarantee whatever the library answers; [Decode]: their result on
      every document of the documented library; [Messages]: the messages of the
      exchanges as data, their encoding, and what the parsers make of it.
    - [Channel]: src/exchange/crypto/symbol_channel.cpp and src/network/ws_client.cpp as
      handlers of an event loop; [Reconnect]: every interleaving of these handlers;
      [Ingest]: [OnMessage], from the connection to the parser.
    - [Pipeline]: the components put together, from a text of an exchange and from a
      callback of R|API to the storage and the publisher.
    - [Telemetry]: src/telemetry/.
    - [Factory]: src/exchange/crypto/crypto_factory.cpp and the registration order of
      src/main.cpp.
    - [Lifecycle]: src/main.cpp and the start, stop and join of all threads as one
      transition system; [Shutdown]: that shutdown ends; [Startup]: the first half of
      [main], from the command line to the initial state of that system.

    A comment "Source: file:lines, symbol" before a definition says what it
    translates.  Structures are records with the members of the source, methods
    are functions from the old state to the new one, undefined behaviour and
    exceptions are values ([None], [Throw]), lock-free code is a step relation
    whose steps are the atomic accesses of the source.

    ** Interfaces

    [FifoQueue] (what a queue promises to its users, implemented by the
    single-producer queue), [ServerLaws] and [RowLog] (what the database code
    relies on), [FallbackSink] (what the DolphinDB backend needs of the mmap
    storage, discharged by [MmapSinkFallback] on a [Disk] that does not fail), [IStorageBackend] (the three
    storage engines as the router sees them), [Zmq] and [KeepsUp] (the transport of
    the publisher), [Simdjson] and [OnDemand] (the JSON library), [Prometheus] and
    [PrometheusOk] (the metrics library), [Parsing] (which messages lead to an event, as the life cycle of the
    threads sees it; [worker_parsing] is the parser worker's).

    ** What the theorems show

    - Order book: the invariant (strictly sorted sides, bounded counts,
      positive quantities) under every operation; an incremental update refines the
      update of a sorted map; a committed batch equals the sequential updates; a
      snapshot is exactly the first levels.
    - Queues: the single-producer ring is linearizable to a bounded FIFO in every
      interleaving; the multi-producer ring and the shard ring deliver the
      published elements in order; the sequence lock never returns torn data on
      x86, and may under the memory orders alone.
    - Gateway: the book pool and its books stay consistent in every sequence of
      callbacks; a batch of quote callbacks is published as one update; a started engine has
      logged in with no unaccepted mandatory agreement and subscribed exactly the registered channels.
    - Supervision: a child with a fresh heartbeat is left alone, one that keeps failing is restarted
      exactly as often as configured; in every interleaving of the monitor with shutdown there is at most one
      gateway process, the manager knows it, and none outlives the manager.
    - Registries and configuration: identifiers are FNV-1a of the topic, the
      registry never maps an identifier to two channels, configured symbols fit
      their buffers, collector and gateway agree on identifiers.
    - Calendar: the civil date is inverse to the day count; the cached validation
      equals the uncached one; validated dates against partition boundaries.
    - Storage: CSV rows are filed under their UTC date; mapped files are a rolling
      log, never accessed out of bounds, from which every tick is recovered bit
      for bit; with DolphinDB no valid trade is lost and books are written exactly
      once in spite of refusals, exceptions and reconnections; a schema that was
      initialised is there, but for one case, and passes the check; with any number of storing
      threads one at a time reconnects, none inserts meanwhile, every finished book is in
      the table or in the fallback once, no trade is lost track of, and every call can
      return; persistence flags.
    - Parsers: with any JSON library an accepted message gives a well-formed event of
      the announced kind on the right channel; its integers
      in range; with the documented library parsing the encoding of a message gives back what it means, books
      truncated to 100 levels, and every other document what a reference says.
    - Channels: in every interleaving of completions, failures and signals a channel has
      one reconnect timer (1 to 60 seconds) or listens on every group; a received text
      reaches the parser of its shard intact and is dispatched with the channel's symbol.
    - Dispatch and publishing: a dispatched event reaches storage, publisher and
      telemetry; over a run of the publisher every published event is sent once or
      counted; no buffer that ZeroMQ still reads is handed out again; the receiver empties its queues; a poll exports what the parsers wrote.
    - Secrets and singletons: no credential survives in memory that was given back;
      threads that race to create the router all get the same one.
    - End to end: a text that an exchange sends is stored and published as the event it
      encodes, under the channel's identifier, and so is what an R|API callback reports,
      through the shared-memory queues and the receiver.
    - Life cycle: start-up builds exactly the configured channels, queues and parsers;
      draining ends every parser after its last message; in every interleaving of
      the threads nothing is stored after the storage closed nor published after the
      publisher's last drain, and [main] returns with every thread joined; without the two
      races below, shutdown can be completed from every state and every parser has stored
      and published exactly those of the messages pushed to its queue that lead to an event.
    - Defects: theorems that exhibit what the code does where it departs from its
      comments (a wedged consumer, a lost buffer, a killed child, a queue with two
      producers, a read on a destroyed client, futures that the storage never
      learns of, a stop that comes before the thread has started, a poison pill that
      races with the network thread, a gateway that is spawned while it is being shut
      down, a gateway killed between claiming and publishing a slot, a healthy database
      connection that a late thread tears down, records dropped when the degradation file
      cannot be opened, a torn read of the sequence lock, a quantity that is no number and is
      published as zero, the second trade of a message, a file that hides a missing stream table); they are stated of the same definitions.

    ** Bounds and fuel

    The search loops of the order book, the batch loops and the drains are
    structural or bounded by array lengths.  [NextPowerOf2] gets 65 rounds, enough
    for every argument up to 2^63 (part of the shard queue theorem), and its
    divergence beyond is a lemma.  The login loops of the engine take their fuel as
    an argument.  Decimal file numbers have fuel 10, the digits of an [int].  The
    spin loops of the queues are unbounded step sequences, not functions; the spin of
    [TryReconnect] gives up after the 10000 rounds of the source.  The
    loops of the parser worker, the receiver, the publisher and the telemetry agent
    take their rounds as an argument, and their theorems say how many are enough; the
    iteration over a JSON array takes the number of its elements.

    ** What is not modelled

    Lock-free code is a sequentially consistent interleaving of its atomic accesses, but for
    the sequence lock of the telemetry slot, whose memory orders are modelled: the reorderings that relaxed and
    acquire/release accesses allow in the queues are not covered.  After undefined behaviour (a handler
    of a destroyed client, a null pointer where R|API promises text) the model goes on in one definite way: the former raises a
    flag that stays up, the latter reads an empty string.  Text formatting
    (fmt) keeps the values instead of the text.  yaml-cpp, simdjson, R|API,
    ZeroMQ, the Prometheus client, the DolphinDB client and the operating system
    are parameters or inputs of the steps.  The event loop is a set of pending
    handlers completed in any order; Boost.Asio's own ordering guarantees are not
    used, so what is proved holds under weaker ones.  [Stop] runs on the main thread
    between two handlers of the model.  In [Lifecycle] a round of a thread is a few
    steps, its effect on the data is in the file of the component; the network thread's
    channels appear there as messages that arrive at any moment.  The bytes on the wire,
    the HTTP server of the metrics and the text of log lines are outside the model.
    What the map leaves of the implementation are comments, includes, declarations of
    members and deleted copies, and one-line accessors: no function of the collector
    or of the gateway that changes state, but for test helpers and destructors that only
    call a modelled close. *)
From Stdlib Require Export ZArith Lia Bool Ascii String.
From stdpp Require Export base list gmap strings fin_maps relations.
Open Scope Z_scope.

(** ** Machine integers

    A [w]-bit unsigned integer of the source is a [Z] in [[0, 2^w)]; every
    operation that can leave the range is followed by one of these wraps. *)

Definition wrap (w : Z) (x : Z) : Z := x mod 2 ^ w.
Abbreviation u8 := (wrap 8).
Abbreviation u16 := (wrap 16).
Abbreviation u32 := (wrap 32).
Abbreviation u64 := (wrap 64).

(** Two's complement reinterpretation, for [static_cast] to a signed type. *)
Definition swrap (w : Z) (x : Z) : Z := (x + 2 ^ (w - 1)) mod 2 ^ w - 2 ^ (w - 1).
Abbreviation i32 := (swrap 32).
Abbreviation i64 := (swrap 64).

Definition in_range (w x : Z) : Prop := 0 <= x < 2 ^ w.
Definition UINT32_MAX : Z := 2 ^ 32 - 1.
Definition UINT64_MAX : Z := 2 ^ 64 - 1.

Create HintDb sqc.
Create Rewrite HintDb sqc.

Lemma wrap_range w x : 0 <= w -> in_range w (wrap w x).
Proof. intros Hw. apply Z.mod_pos_bound. lia. Qed.

Lemma wrap_small w x : in_range w x -> wrap w x = x.
Proof. apply Z.mod_small. Qed.

Lemma wrap_idemp w x : 0 <= w -> wrap w (wrap w x) = wrap w x.
Proof. intros. apply wrap_small, wrap_range; lia. Qed.

Lemma wrap_add_l w x y : wrap w (wrap w x + y) = wrap w (x + y).
Proof. apply Zplus_mod_idemp_l. Qed.

Lemma wrap_sub_wrap w x y : wrap w (wrap w x - wrap w y) = wrap w (x - y).
Proof. unfold wrap. by rewrite <- Zminus_mod. Qed.

(** [x & (2^k - 1)] is the remainder by [2^k]: how every ring buffer of the
    program turns a monotonic position into a slot index. *)
Lemma land_mask k x : 0 <= k -> Z.land x (2 ^ k - 1) = x mod 2 ^ k.
Proof. intros. rewrite <- Z.land_ones by done. by rewrite Z.ones_equiv, <- Z.sub_1_r. Qed.

(** Masking ignores the wrap of a wider counter. *)
Lemma wrap_mod_pow2 k w x : 0 <= k <= w -> (wrap w x) mod 2 ^ k = x mod 2 ^ k.
Proof.
  intros [Hk Hw]. unfold wrap.
  rewrite Z.mod_mod_divide; [done|].
  exists (2 ^ (w - k)). rewrite <- Z.pow_add_r by lia. f_equal; lia.
Qed.

(** Two positions less than [n] apart fall in the same slot only if equal. *)
Lemma mod_inj_window n x y : 0 < n -> x mod n = y mod n -> Z.abs (x - y) < n -> x = y.
Proof.
  intros Hn Hm Habs.
  assert (Hd : (x - y) mod n = 0) by (rewrite Zminus_mod, Hm, Z.sub_diag; apply Zmod_0_l).
  apply Z.mod_divide in Hd; [|lia]. destruct Hd as [q Hq].
  assert (q = 0) by nia. lia.
Qed.

(** ** Fixed-size arrays

    A C array is a list of fixed length; a write out of range would be
    undefined behaviour, so every component proves that its writes are in
    range.  [splice off bs dst] is [memcpy(dst + off, bs, |bs|)]. *)

Definition splice {A} (off : nat) (bs dst : list A) : list A :=
  take off dst ++ bs ++ drop (off + length bs)%nat dst.

Lemma length_splice {A} off (bs dst : list A) :
  (off + length bs <= length dst)%nat -> length (splice off bs dst) = length dst.
Proof. intros. unfold splice. rewrite !length_app, length_take, length_drop. lia. Qed.

Lemma lookup_splice_in {A} off (bs dst : list A) i :
  (off + length bs <= length dst)%nat -> (i < length bs)%nat ->
  splice off bs dst !! (off + i)%nat = bs !! i.
Proof.
  intros H1 H2. unfold splice.
  rewrite lookup_app_r; rewrite length_take; [|lia].
  rewrite lookup_app_l by lia. f_equal. lia.
Qed.

Lemma lookup_splice_lt {A} off (bs dst : list A) i :
  (off <= length dst)%nat -> (i < off)%nat -> splice off bs dst !! i = dst !! i.
Proof.
  intros H1 H2. unfold splice. rewrite lookup_app_l by (rewrite length_take; lia).
  by rewrite lookup_take_lt.
Qed.

Lemma lookup_splice_ge {A} off (bs dst : list A) i :
  (off + length bs <= length dst)%nat -> (off + length bs <= i)%nat ->
  splice off bs dst !! i = dst !! i.
Proof.
  intros H1 H2. unfold splice.
  rewrite lookup_app_r; rewrite length_take; [|lia].
  rewrite lookup_app_r by lia. rewrite lookup_drop. f_equal. lia.
Qed.

(** Writing the slot after the first [n] extends them. *)
Lemma take_S_insert {A} (l : list A) n x :
  (n < length l)%nat -> take (S n) (<[n := x]> l) = take n l ++ [x].
Proof.
  intros H. rewrite (take_S_r _ n x) by (by apply list_lookup_insert_eq).
  f_equal. rewrite take_insert_ge; done || lia.
Qed.

Lemma Forall_sublist {A} (P : A -> Prop) (l1 l2 : list A) :
  l1 `sublist_of` l2 -> Forall P l2 -> Forall P l1.
Proof. rewrite !Forall_forall. eauto using elem_of_sublist. Qed.

Lemma elem_of_concat_fmap {A B} (f : A -> list B) (l : list A) (x : B) :
  x ∈ concat (f <$> l) <-> exists y, y ∈ l /\ x ∈ f y.
Proof.
  induction l as [|a l IH]; csimpl.
  - split; [intros H; by apply elem_of_nil in H|intros (y & H & _); by apply elem_of_nil in H].
  - rewrite elem_of_app, IH. split.
    + intros [H|(y & H1 & H2)]; [exists a|exists y]; split; try done; apply elem_of_cons; auto.
    + intros (y & H1 & H2). apply elem_of_cons in H1 as [->|H1]; [by left|right; by exists y].
Qed.

Lemma Forall_concat_fmap {A B} (P : B -> Prop) (f : A -> list B) l :
  Forall (fun x => Forall P (f x)) l -> Forall P (concat (f <$> l)).
Proof. induction 1; csimpl; [constructor|]. by apply Forall_app. Qed.

(** ** Bytes and C strings *)

Definition NUL : ascii := Ascii.zero.

(** Characters of a NUL-terminated buffer up to the first NUL ([strlen]). *)
Fixpoint c_str (l : list ascii) : list ascii :=
  match l with
  | [] => []
  | c :: l' => if Ascii.eqb c NUL then [] else c :: c_str l'
  end.

Definition no_nul (l : list ascii) : Prop := Forall (fun c => c <> NUL) l.

Lemma c_str_app_nul l rest : no_nul l -> c_str (l ++ NUL :: rest) = l.
Proof.
  unfold no_nul. induction l as [|c l IH]; intros H; [done|].
  apply Forall_cons in H as [Hc Hl]. simpl.
  destruct (Ascii.eqb_spec c NUL); [done|]. by rewrite IH.
Qed.

Lemma no_nul_take n l : no_nul l -> no_nul (take n l).
Proof. apply Forall_take. Qed.

(** A double quote as a one-character string. *)
Definition dquote : string := String (ascii_of_nat 34) EmptyString.

(** ** Executions

    Step relations are closed with stdpp's [rtc]; an invariant established by
    the first state and preserved by each step holds of every reachable state. *)

Lemma rtc_invariant {A} (R : relation A) (I : A -> Prop) x y :
  (forall a b, I a -> R a b -> I b) -> rtc R x y -> I x -> I y.
Proof. intros Hstep. induction 1 as [|a b c Hab _ IH]; eauto. Qed.

(** ** Automation *)

(** Split the conjunctions of the context and normalise its equalities. *)
Ltac inv_hyps :=
  repeat match goal with
         | H : _ /\ _ |- _ => destruct H
         | H : exists _, _ |- _ => destruct H
         | H : Some _ = Some _ |- _ => injection H as H; subst
         | H : (_, _) = (_, _) |- _ => injection H as H; subst
         end; simplify_eq.

(** Case analysis on the scrutinee of a [match] or [if] of the goal. *)
Ltac case_goal :=
  match goal with
  | |- context [match ?x with _ => _ end] => destruct x eqn:?
  end.

(** Case analysis on a whole [decide], conjunctions included. *)
Ltac case_dec :=
  match goal with
  | |- context [@decide ?P ?d] => destruct (@decide P d)
  end.

(** Turn boolean comparisons on [Z] and [nat] into propositions. *)
Ltac bool_to_prop :=
  repeat match goal with
         | H : (_ && _)%bool = true |- _ => apply andb_true_iff in H as [? ?]
         | H : negb _ = true |- _ => apply negb_true_iff in H
         | H : negb _ = false |- _ => apply negb_false_iff in H
         | H : (_ <? _)%Z = true |- _ => apply Z.ltb_lt in H
         | H : (_ <? _)%Z = false |- _ => apply Z.ltb_ge in H
         | H : (_ <=? _)%Z = true |- _ => apply Z.leb_le in H
         | H : (_ <=? _)%Z = false |- _ => apply Z.leb_gt in H
         | H : (_ =? _)%Z = true |- _ => apply Z.eqb_eq in H
         | H : (_ =? _)%Z = false |- _ => apply Z.eqb_neq in H
         | H : (_ <? _)%nat = true |- _ => apply Nat.ltb_lt in H
         | H : (_ <? _)%nat = false |- _ => apply Nat.ltb_ge in H
         | H : (_ <=? _)%nat = true |- _ => apply Nat.leb_le in H
         | H : (_ <=? _)%nat = false |- _ => apply Nat.leb_gt in H
         | H : (_ =? _)%nat = true |- _ => apply Nat.eqb_eq in H
         | H : (_ =? _)%nat = false |- _ => apply Nat.eqb_neq in H
         end.

#[export] Hint Resolve wrap_range length_splice : sqc.
#[export] Hint Rewrite @length_insert @length_app @length_take @length_drop @length_replicate : sqc.
