(* ===== verification/Doubles.v ===== *)
(** * IEEE 754 binary64 values

    The C++ [double] is modelled by the Standard Library's executable
    specification of binary64 ([SpecFloat] at precision 53, exponent bound
    1024).  NaN is a value, so the comparisons the program writes ([<], [>],
    [==], [!=]) have exactly their C++ meaning: every comparison with NaN but
    [!=] is false.  The file gives the comparisons a rank, which turns every
    question about their order into linear arithmetic. *)
From Stdlib Require Import SpecFloat.
From S2P Require Import Prelude.

Abbreviation double := spec_float.

Definition prec64 : Z := 53.
Definition emax64 : Z := 1024.

Definition dzero : double := S754_zero false.
Definition dnan : double := S754_nan.

(** [static_cast<double>] of an integer: round to nearest, ties to even. *)
Definition d_of_Z (z : Z) : double := binary_normalize prec64 emax64 z 0 false.

Definition d_lt : double -> double -> bool := SFltb.
Definition d_le : double -> double -> bool := SFleb.
Definition d_eq : double -> double -> bool := SFeqb.
Definition d_gt (x y : double) : bool := d_lt y x.
Definition d_neq (x y : double) : bool := negb (d_eq x y).

Definition is_nan (x : double) : bool :=
  match x with S754_nan => true | _ => false end.

Definition not_nan (x : double) : Prop := x <> S754_nan.

#[export] Instance not_nan_dec x : Decision (not_nan x).
Proof. destruct x; [left|left|right|left]; unfold not_nan; congruence. Defined.

#[export] Instance double_eq_dec : EqDecision double.
Proof. intros x y. unfold Decision. repeat decide equality. Defined.

(** ** Rank of a value that is not NaN *)

Definition rank (x : double) : Z * Z * Z :=
  match x with
  | S754_zero _ | S754_nan => (0, 0, 0)
  | S754_infinity true => (-2, 0, 0)
  | S754_infinity false => (2, 0, 0)
  | S754_finite false m e => (1, e, Zpos m)
  | S754_finite true m e => (-1, - e, Zneg m)
  end.

Definition rank_lt (a b : Z * Z * Z) : Prop :=
  let '(c1, e1, m1) := a in
  let '(c2, e2, m2) := b in
  c1 < c2 \/ (c1 = c2 /\ (e1 < e2 \/ (e1 = e2 /\ m1 < m2))).

Lemma SFcompare_rank x y :
  not_nan x -> not_nan y ->
  match SFcompare x y with
  | Some Lt => rank_lt (rank x) (rank y)
  | Some Gt => rank_lt (rank y) (rank x)
  | Some Eq => rank x = rank y
  | None => False
  end.
Proof.
  unfold not_nan; intros Hx Hy.
  destruct x as [[]|[]| |[] mx ex], y as [[]|[]| |[] my ey]; try done; simpl; try lia.
  all: change (Pos.compare_cont Eq mx my) with (Pos.compare mx my);
    destruct (Z.compare_spec ex ey); simpl; try lia; subst;
    destruct (Pos.compare_spec mx my); simpl; try lia; by subst.
Qed.

Lemma SFcompare_nan_l y : SFcompare S754_nan y = None.
Proof. done. Qed.

Lemma SFcompare_nan_r x : SFcompare x S754_nan = None.
Proof. by destruct x. Qed.

Lemma d_lt_spec x y : d_lt x y = true <-> not_nan x /\ not_nan y /\ rank_lt (rank x) (rank y).
Proof.
  unfold d_lt, SFltb. destruct (decide (not_nan x)) as [Hx|Hx].
  2: { destruct x; try (exfalso; apply Hx; done). simpl. split; [done|]. by intros [? _]. }
  destruct (decide (not_nan y)) as [Hy|Hy].
  2: { destruct y; try (exfalso; apply Hy; done). rewrite SFcompare_nan_r.
       split; [done|]. by intros (_ & ? & _). }
  pose proof (SFcompare_rank x y Hx Hy) as H.
  destruct (SFcompare x y) as [[]|]; destruct (rank x) as [[]], (rank y) as [[]]; simplify_eq/=;
    split; try done; try (intros (_ & _ & ?)); try lia; intuition.
Qed.

Lemma d_eq_spec x y : d_eq x y = true <-> not_nan x /\ not_nan y /\ rank x = rank y.
Proof.
  unfold d_eq, SFeqb. destruct (decide (not_nan x)) as [Hx|Hx].
  2: { destruct x; try (exfalso; apply Hx; done). simpl. split; [done|]. by intros [? _]. }
  destruct (decide (not_nan y)) as [Hy|Hy].
  2: { destruct y; try (exfalso; apply Hy; done). rewrite SFcompare_nan_r.
       split; [done|]. by intros (_ & ? & _). }
  pose proof (SFcompare_rank x y Hx Hy) as H.
  destruct (SFcompare x y) as [[]|]; destruct (rank x) as [[]], (rank y) as [[]]; simplify_eq/=;
    split; try done; try (intros (_ & _ & [=])); try lia; intuition.
Qed.

(** Decides comparison facts: every [d_lt]/[d_eq] in the context becomes a
    statement about ranks, and linear arithmetic does the rest. *)
Ltac double_facts :=
  repeat match goal with
         | H : d_gt _ _ = _ |- _ => unfold d_gt in H
         | |- d_gt _ _ = _ => unfold d_gt
         | H : d_lt _ _ = true |- _ => apply d_lt_spec in H as (? & ? & ?)
         | H : d_eq _ _ = true |- _ => apply d_eq_spec in H as (? & ? & ?)
         | H : d_lt ?x ?y = false |- _ =>
             assert (~ (not_nan x /\ not_nan y /\ rank_lt (rank x) (rank y)))
               by (rewrite <- d_lt_spec; rewrite H; discriminate); clear H
         | H : d_eq ?x ?y = false |- _ =>
             assert (~ (not_nan x /\ not_nan y /\ rank x = rank y))
               by (rewrite <- d_eq_spec; rewrite H; discriminate); clear H
         end.

Ltac double_solve :=
  double_facts;
  try (apply d_lt_spec); try (apply d_eq_spec);
  try (apply not_true_is_false; first [rewrite d_lt_spec | rewrite d_eq_spec]; intros (? & ? & ?));
  unfold rank_lt in *;
  repeat match goal with
         | |- context [rank ?x] => destruct (rank x) as [[? ?] ?] eqn:?
         | H : context [rank ?x] |- _ => destruct (rank x) as [[? ?] ?] eqn:?
         end;
  simplify_eq; try (intuition (first [done | lia | congruence])).

Lemma d_lt_irrefl x : d_lt x x = false.
Proof. apply not_true_is_false. rewrite d_lt_spec. intros (_ & _ & H).
  destruct (rank x) as [[]]; simpl in H; lia. Qed.

Lemma d_lt_trans x y z : d_lt x y = true -> d_lt y z = true -> d_lt x z = true.
Proof.
  rewrite !d_lt_spec. intros (? & ? & H1) (? & ? & H2). split_and!; [done..|].
  destruct (rank x) as [[]], (rank y) as [[]], (rank z) as [[]]. simpl in *. lia.
Qed.

Lemma d_lt_asym x y : d_lt x y = true -> d_lt y x = false.
Proof. intros H. apply not_true_is_false. intros H'.
  pose proof (d_lt_trans _ _ _ H H') as H''. by rewrite d_lt_irrefl in H''. Qed.

Lemma d_eq_refl x : not_nan x -> d_eq x x = true.
Proof. intros. by apply d_eq_spec. Qed.

Lemma d_eq_sym x y : d_eq x y = d_eq y x.
Proof. apply eq_iff_eq_true. rewrite !d_eq_spec. naive_solver. Qed.

Lemma d_eq_trans x y z : d_eq x y = true -> d_eq y z = true -> d_eq x z = true.
Proof. rewrite !d_eq_spec. intros (? & ? & ->) (? & ? & ->). done. Qed.

Lemma d_lt_eq_l x y z : d_eq x y = true -> d_lt x z = d_lt y z.
Proof. rewrite d_eq_spec. intros (? & ? & H). apply eq_iff_eq_true. rewrite !d_lt_spec, H. tauto. Qed.

Lemma d_lt_eq_r x y z : d_eq x y = true -> d_lt z x = d_lt z y.
Proof. rewrite d_eq_spec. intros (? & ? & H). apply eq_iff_eq_true. rewrite !d_lt_spec, H. tauto. Qed.

Lemma d_eq_eq_l x y z : d_eq x y = true -> d_eq x z = d_eq y z.
Proof. rewrite d_eq_spec. intros (? & ? & H). apply eq_iff_eq_true. rewrite !d_eq_spec, H. tauto. Qed.

(** On values that are not NaN the three comparisons are exhaustive. *)
Lemma d_trichotomy x y :
  not_nan x -> not_nan y -> d_lt x y = true \/ d_eq x y = true \/ d_lt y x = true.
Proof.
  intros Hx Hy. rewrite !d_lt_spec, d_eq_spec.
  pose proof (SFcompare_rank x y Hx Hy) as H. destruct (SFcompare x y) as [[]|]; tauto.
Qed.

Lemma d_lt_neq x y : d_lt x y = true -> d_eq x y = false.
Proof.
  intros H. apply not_true_is_false. intros E.
  rewrite (d_lt_eq_l x y) in H by done. by rewrite d_lt_irrefl in H.
Qed.

Lemma d_lt_not_nan x y : d_lt x y = true -> not_nan x /\ not_nan y.
Proof. rewrite d_lt_spec. tauto. Qed.

Lemma d_le_gt x y : not_nan x -> not_nan y -> d_le x y = negb (d_gt x y).
Proof.
  intros Hx Hy. unfold d_le, SFleb, d_gt, d_lt, SFltb.
  pose proof (SFcompare_rank x y Hx Hy) as H. pose proof (SFcompare_rank y x Hy Hx) as H'.
  destruct (rank x) as [[]], (rank y) as [[]].
  destruct (SFcompare x y) as [[]|], (SFcompare y x) as [[]|]; simpl in *; simplify_eq; try done; lia.
Qed.

(** ** Conversion of a positive integer is positive

    Rounding never flushes a positive integer to zero: a level whose size is
    positive has a positive quantity. *)

Definition digits (m : Z) : Z := Zdigits2 m.

Lemma digits_nonneg m : 0 <= digits m.
Proof. destruct m; simpl; lia. Qed.

Lemma digits_pos m : 0 < m <-> 0 <= m /\ 0 < digits m.
Proof. destruct m; simpl; lia. Qed.

Lemma shr_1_digits r :
  0 <= shr_m r -> 0 <= shr_m (shr_1 r) /\ digits (shr_m (shr_1 r)) = Z.max 0 (digits (shr_m r) - 1).
Proof.
  destruct r as [m r s]. simpl. intros Hm. destruct m as [|[p|p|]|p]; simpl; lia.
Qed.

Lemma iter_shr_digits n r :
  0 <= shr_m r ->
  0 <= shr_m (SpecFloat.iter_pos shr_1 n r) /\
  digits (shr_m (SpecFloat.iter_pos shr_1 n r)) = Z.max 0 (digits (shr_m r) - Zpos n).
Proof.
  revert r. induction n as [n IH|n IH|]; intros r Hr; cbn [SpecFloat.iter_pos].
  - destruct (shr_1_digits r Hr) as [H1 D1].
    destruct (IH _ H1) as [H2 D2]. destruct (IH _ H2) as [H3 D3]. lia.
  - destruct (IH _ Hr) as [H2 D2]. destruct (IH _ H2) as [H3 D3]. lia.
  - apply shr_1_digits. done.
Qed.

Lemma shr_fexp_positive m e l :
  0 < m -> -1074 <= e ->
  0 < shr_m (shr_fexp prec64 emax64 m e l).1 /\ e <= (shr_fexp prec64 emax64 m e l).2.
Proof.
  intros Hm He. unfold shr_fexp.
  set (r := shr_record_of_loc m l).
  assert (Hr : shr_m r = m) by (destruct l as [|[]]; done).
  assert (Hd : 0 < digits m) by (apply digits_pos in Hm; lia).
  unfold shr. set (n := fexp prec64 emax64 (Zdigits2 m + e) - e).
  assert (Hn : n < digits m).
  { unfold n, fexp, emin, prec64, emax64. change (Zdigits2 m) with (digits m). lia. }
  destruct n as [|k|k] eqn:En; simpl; rewrite ?Hr; try lia.
  destruct (iter_shr_digits k r) as [H1 H2]; [lia|]. rewrite Hr in H2.
  split; [|lia]. apply digits_pos. split; [done|]. lia.
Qed.

Lemma round_nearest_even_ge m l : m <= round_nearest_even m l.
Proof. destruct l as [|[]]; simpl; try lia. destruct (Z.even m); lia. Qed.

(** Rounding a positive magnitude gives a finite number of the sign asked for,
    or an infinity. *)
Lemma binary_round_aux_shape sx m e :
  0 < m -> -1074 <= e ->
  (exists m' e', binary_round_aux prec64 emax64 sx m e loc_Exact = S754_finite sx m' e') \/
  binary_round_aux prec64 emax64 sx m e loc_Exact = S754_infinity sx.
Proof.
  intros Hm He. unfold binary_round_aux.
  destruct (shr_fexp_positive m e loc_Exact Hm He) as [H1 H2].
  destruct (shr_fexp prec64 emax64 m e loc_Exact) as [r1 e1]. simpl in *.
  pose proof (round_nearest_even_ge (shr_m r1) (loc_of_shr_record r1)) as Hge.
  set (m2 := round_nearest_even (shr_m r1) (loc_of_shr_record r1)) in *.
  destruct (shr_fexp_positive m2 e1 loc_Exact) as [H3 _]; [lia|lia|].
  destruct (shr_fexp prec64 emax64 m2 e1 loc_Exact) as [r2 e2]. simpl in *.
  destruct (shr_m r2) as [|p|p]; try lia.
  destruct (e2 <=? emax64 - prec64); [left; by eexists _, _|by right].
Qed.

Lemma d_of_Z_shape z :
  z = 0 \/ (exists m e, d_of_Z z = S754_finite (z <? 0) m e) \/ d_of_Z z = S754_infinity (z <? 0).
Proof.
  destruct (decide (z = 0)) as [->|Hz]; [by left|right].
  assert (Hp : exists sx p, sx = (z <? 0) /\ d_of_Z z = binary_round prec64 emax64 sx p 0).
  { destruct z as [|p|p]; [lia| |]; by eexists _, p. }
  destruct Hp as (sx & p & Hsx & ->). rewrite <- Hsx. unfold binary_round.
  set (ex' := fexp prec64 emax64 (Z.pos (digits2_pos p) + 0)).
  assert (Hex : -52 <= ex') by (unfold ex', fexp, emin, prec64, emax64; lia).
  unfold shl_align. destruct (ex' - 0) as [|q|q] eqn:E; apply binary_round_aux_shape; lia.
Qed.

Lemma d_of_Z_pos z : 0 < z -> d_gt (d_of_Z z) dzero = true.
Proof.
  intros Hz. destruct (d_of_Z_shape z) as [?|H]; [lia|].
  replace (z <? 0) with false in H by (symmetry; apply Z.ltb_ge; lia).
  by destruct H as [(m & e & ->)| ->].
Qed.

Lemma d_of_Z_not_nan z : not_nan (d_of_Z z).
Proof. destruct (d_of_Z_shape z) as [->|[(m & e & ->)| ->]]; done. Qed.
