(* ===== verification/Events.v ===== *)
(** * Market data records

    The three event structures that flow through the collector
    ([TickData], [DepthUpdateEvent], [BookTickerEvent]), the storage envelope,
    and the routines that copy a symbol into a fixed, NUL-terminated buffer.
    A [char[n]] field is a list of exactly [n] bytes ([wf_*] below). *)
From Stdlib Require Import SpecFloat.
From S2P Require Import Prelude Doubles.

(** Source: src/common/tick_data.h:8-21, TickData. *)
Record TickData := mkTick {
  tk_exchange_timestamp : Z;  (* microseconds since the epoch *)
  tk_local_diff : Z;          (* nanoseconds *)
  tk_trade_id : Z;
  tk_price : double;
  tk_quantity : double;
  tk_channel_id : Z;
  tk_symbol : list ascii;     (* 12 bytes *)
  tk_is_buyer_maker : bool;
  tk_padding : list ascii     (* 3 bytes *)
}.

(** Source: src/orderbook/orderbook_event.h:7-7, kMaxOrderbookLevels. *)
Definition kMaxOrderbookLevels : nat := 100.
#[global] Arguments kMaxOrderbookLevels : simpl never.

(** Source: src/orderbook/orderbook_event.h:16-19, PriceLevel. *)
Record PriceLevel := mkLevel { lv_price : double; lv_quantity : double }.

Definition level0 : PriceLevel := mkLevel dzero dzero.

(** Source: src/orderbook/orderbook_event.h:21-32, DepthUpdateEvent. *)
Record DepthUpdateEvent := mkDepth {
  dp_last_update_id : Z;
  dp_channel_id : Z;
  dp_exchange_timestamp : Z;
  dp_local_diff : Z;
  dp_symbol : list ascii;       (* 12 bytes *)
  dp_bids : list PriceLevel;    (* 100 entries *)
  dp_asks : list PriceLevel;    (* 100 entries *)
  dp_bid_count : nat;
  dp_ask_count : nat
}.

(** Source: src/orderbook/orderbook_event.h:34-43, BookTickerEvent. *)
Record BookTickerEvent := mkBookTicker {
  bt_channel_id : Z;
  bt_exchange_timestamp : Z;
  bt_local_diff : Z;
  bt_symbol : list ascii;       (* 12 bytes *)
  bt_best_bid_price : double;
  bt_best_bid_qty : double;
  bt_best_ask_price : double;
  bt_best_ask_qty : double
}.

(** Source: src/common/storage_envelope.h:11-15, StorageTickEnvelope. *)
Record StorageTickEnvelope := mkEnvelope {
  env_data : TickData;
  env_storage_target : Z;
  env_recovery_status : Z
}.

#[export] Instance PriceLevel_eq_dec : EqDecision PriceLevel.
Proof. solve_decision. Defined.
#[export] Instance PriceLevel_inhabited : Inhabited PriceLevel := populate level0.

(** Value initialisation, [T{}]: every byte zero. *)
Definition symbol0 : list ascii := replicate 12 NUL.
Definition tick0 : TickData :=
  mkTick 0 0 0 dzero dzero 0 symbol0 false (replicate 3 NUL).
Definition depth0 : DepthUpdateEvent :=
  mkDepth 0 0 0 0 symbol0 (replicate kMaxOrderbookLevels level0)
    (replicate kMaxOrderbookLevels level0) 0 0.
Definition book_ticker0 : BookTickerEvent :=
  mkBookTicker 0 0 0 symbol0 dzero dzero dzero dzero.

#[export] Instance TickData_inhabited : Inhabited TickData := populate tick0.
#[export] Instance DepthUpdateEvent_inhabited : Inhabited DepthUpdateEvent := populate depth0.
#[export] Instance BookTickerEvent_inhabited : Inhabited BookTickerEvent := populate book_ticker0.

(** The levels of an event that its counts declare valid. *)
Definition depth_bids (e : DepthUpdateEvent) : list PriceLevel := take (dp_bid_count e) (dp_bids e).
Definition depth_asks (e : DepthUpdateEvent) : list PriceLevel := take (dp_ask_count e) (dp_asks e).

(** Representation invariants of the three structures. *)
Record wf_tick (t : TickData) : Prop := {
  wt_symbol : length (tk_symbol t) = 12%nat;
  wt_padding : length (tk_padding t) = 3%nat;
  wt_ts : in_range 64 (tk_exchange_timestamp t);
  wt_diff : in_range 64 (tk_local_diff t);
  wt_id : in_range 64 (tk_trade_id t);
  wt_chan : in_range 32 (tk_channel_id t)
}.

Record wf_depth (e : DepthUpdateEvent) : Prop := {
  wd_symbol : length (dp_symbol e) = 12%nat;
  wd_bids : length (dp_bids e) = kMaxOrderbookLevels;
  wd_asks : length (dp_asks e) = kMaxOrderbookLevels;
  wd_bid_count : (dp_bid_count e <= kMaxOrderbookLevels)%nat;
  wd_ask_count : (dp_ask_count e <= kMaxOrderbookLevels)%nat
}.

(** ** Symbol buffers *)

(** Source: src/common/string_utils.h:18-24, CopySymbol.
    Copies [src] into [dst[0..dst_size-1]]; the flag reports a truncation. *)
Definition CopySymbol (dst : list ascii) (dst_size : nat) (src : list ascii) : list ascii * bool :=
  let truncated := (dst_size <=? length src)%nat in
  let len := if truncated then (dst_size - 1)%nat else length src in
  (<[len := NUL]> (splice 0 (take len src) dst), truncated).

(** Source: src/rithmic_gateway/rithmic_callbacks.cpp:39-43, CopySymbol. *)
Definition GatewayCopySymbol (dst : list ascii) (src : list ascii) : list ascii :=
  let n := if (length src <? 11)%nat then length src else 11%nat in
  <[n := NUL]> (splice 0 (take n src) dst).

(** Source: src/storage/record_layout.h:19-19, kSymbolFieldBytes. *)
Definition kSymbolFieldBytes : nat := 32.

(** Source: src/storage/record_layout.h:25-30, record_layout::CopySymbol. *)
Definition RecordCopySymbol (dst : list ascii) (src : list ascii) (src_size : nat) : list ascii :=
  let n := if (src_size <? kSymbolFieldBytes)%nat then src_size else kSymbolFieldBytes in
  let dst := splice 0 (take n src) dst in
  if (n <? kSymbolFieldBytes)%nat then <[n := NUL]> dst else <[(kSymbolFieldBytes - 1)%nat := NUL]> dst.

(** Writing [len] bytes and a terminator at [len] leaves exactly those bytes
    as the C string of the buffer. *)
Lemma terminated_copy_c_str (dst bs : list ascii) :
  (length bs < length dst)%nat -> no_nul bs ->
  c_str (<[length bs := NUL]> (splice 0 bs dst)) = bs.
Proof.
  intros Hl Hn. unfold splice. rewrite take_0; simpl.
  rewrite insert_app_r_alt by lia. rewrite Nat.sub_diag.
  destruct (drop (length bs) dst) as [|c rest] eqn:E.
  - apply (f_equal length) in E. rewrite length_drop in E. simpl in E. lia.
  - simpl. by apply c_str_app_nul.
Qed.

Lemma CopySymbol_length dst src :
  (0 < length dst)%nat -> length (CopySymbol dst (length dst) src).1 = length dst.
Proof.
  intros H. unfold CopySymbol. cbn [fst]. rewrite length_insert. apply length_splice.
  rewrite length_take. destruct (Nat.leb_spec (length dst) (length src)); lia.
Qed.

Lemma CopySymbol_c_str dst src :
  (0 < length dst)%nat -> no_nul src ->
  c_str (CopySymbol dst (length dst) src).1 = take (length dst - 1) src.
Proof.
  intros H Hn. unfold CopySymbol. cbn [fst].
  destruct (Nat.leb_spec (length dst) (length src)).
  - replace (length dst - 1)%nat with (length (take (length dst - 1) src)) at 1
      by (rewrite length_take; lia).
    apply terminated_copy_c_str; [rewrite length_take; lia|by apply no_nul_take].
  - rewrite (take_ge src) by lia. rewrite (take_ge src) by lia.
    apply terminated_copy_c_str; [lia|done].
Qed.

Lemma GatewayCopySymbol_c_str dst src :
  length dst = 12%nat -> no_nul src -> c_str (GatewayCopySymbol dst src) = take 11 src.
Proof.
  intros H Hn. unfold GatewayCopySymbol. destruct (Nat.ltb_spec (length src) 11).
  - rewrite !(take_ge src) by lia. apply terminated_copy_c_str; [lia|done].
  - replace 11%nat with (length (take 11 src)) at 1 by (rewrite length_take; lia).
    apply terminated_copy_c_str; [rewrite length_take; lia|by apply no_nul_take].
Qed.

Lemma GatewayCopySymbol_length dst src :
  length dst = 12%nat -> length (GatewayCopySymbol dst src) = 12%nat.
Proof.
  intros H. unfold GatewayCopySymbol. rewrite length_insert, length_splice; [done|].
  rewrite length_take. destruct (Nat.ltb_spec (length src) 11); lia.
Qed.

#[export] Hint Resolve CopySymbol_length GatewayCopySymbol_length : sqc.
