(* ===== verification/Paths.v ===== *)
(** * Paths and file names

    The helpers of src/common/path_util.h and the decimal output of [snprintf]
    that the storage engines build their file names with. *)
From S2P Require Import Prelude.

(** ** Decimal numbers *)

Definition digit (n : Z) : ascii := ascii_of_nat (48 + Z.to_nat n).
Definition two_digits (n : Z) (rest : string) : string :=
  String (digit (n / 10 mod 10)) (String (digit (n mod 10)) rest).
Definition four_digits (n : Z) (rest : string) : string := two_digits (n / 100) (two_digits (n mod 100) rest).

(** ["%d"] of a non-negative number below [10 ^ fuel]. *)
Fixpoint decimal (fuel : nat) (n : Z) : list ascii :=
  match fuel with
  | O => []
  | S fuel' => if n <? 10 then [digit n] else decimal fuel' (n / 10) ++ [digit (n mod 10)]
  end.

(** ["%04d"] of a non-negative [int], which has at most ten digits. *)
Definition decimal04 (n : Z) : list ascii :=
  let ds := decimal 10 n in replicate (4 - length ds) "0"%char ++ ds.

Definition digit_value (c : ascii) : Z := Z.of_nat (nat_of_ascii c) - 48.
Definition decimal_value (ds : list ascii) : Z := fold_left (fun acc c => 10 * acc + digit_value c) ds 0.

Lemma digit_value_digit n : 0 <= n < 10 -> digit_value (digit n) = n.
Proof.
  intros H. unfold digit_value, digit. rewrite nat_ascii_embedding by lia. lia.
Qed.

Lemma decimal_value_decimal fuel n : 0 <= n < 10 ^ Z.of_nat fuel -> decimal_value (decimal fuel n) = n.
Proof.
  unfold decimal_value. revert n. induction fuel as [|fuel IH]; intros n Hn.
  - change (10 ^ Z.of_nat 0) with 1 in Hn. cbn. lia.
  - cbn [decimal]. destruct (Z.ltb_spec n 10) as [H|H].
    + cbn [fold_left]. rewrite digit_value_digit; lia.
    + rewrite fold_left_app, IH; cbn [fold_left].
      * rewrite digit_value_digit by (apply Z.mod_pos_bound; lia). pose proof (Z.div_mod n 10). lia.
      * rewrite Nat2Z.inj_succ, Z.pow_succ_r in Hn by lia.
        split; [apply Z.div_pos; lia|apply Z.div_lt_upper_bound; lia].
Qed.

Lemma decimal_value_zeros k ds : decimal_value (replicate k "0"%char ++ ds) = decimal_value ds.
Proof. unfold decimal_value. induction k as [|k IH]; [done|]. exact IH. Qed.

Lemma decimal04_value n : 0 <= n < 10 ^ 10 -> decimal_value (decimal04 n) = n.
Proof. intros H. unfold decimal04. rewrite decimal_value_zeros. by apply decimal_value_decimal. Qed.

(** ** Path helpers *)

Section dirs.
(** [mkdir p] is false when the call fails with anything but [EEXIST]. *)
Context (mkdir : string -> bool).

Fixpoint mkdir_prefixes (cur : list ascii) (path : list ascii) : bool :=
  match path with
  | [] => true
  | ch :: path' =>
      let cur := cur ++ [ch] in
      if Ascii.eqb ch "/" then if mkdir (string_of_list_ascii cur) then mkdir_prefixes cur path' else false
      else mkdir_prefixes cur path'
  end.

(** Source: src/common/path_util.h:15-33, EnsureDirExists. *)
Definition EnsureDirExists (path : string) : bool :=
  if mkdir_prefixes [] (list_ascii_of_string path) then
    match last (list_ascii_of_string path) with
    | Some c => if Ascii.eqb c "/" then true else mkdir path
    | None => true
    end
  else false.
End dirs.

(** Source: src/common/path_util.h:38-42, EnsureTrailingSlash. *)
Definition EnsureTrailingSlash (path : string) : string :=
  if (path =? "")%string then "/"%string
  else if bool_decide (last (list_ascii_of_string path) = Some "/"%char) then path
  else (path ++ "/")%string.

(** Source: src/common/path_util.h:46-50, JoinPath. *)
Definition JoinPath (head tail : string) : string :=
  let head := if (head =? "")%string then head
              else if bool_decide (last (list_ascii_of_string head) = Some "/"%char) then head
              else (head ++ "/")%string in
  (head ++ tail)%string.
