(* ===== verification/Bytes.v ===== *)
(** * Object representations

    The bytes that [memcpy] moves when a record is written to a mapped file:
    little-endian integers, binary64 doubles and the three record layouts of
    the storage (src/common/storage_envelope.h, src/storage/record_layout.h),
    with the decoders a reader of the files needs.  Padding bytes, whose value
    the language leaves open, are zero here and ignored by the decoders. *)
From Stdlib Require Import SpecFloat.
From S2P Require Import Prelude Doubles Events.

Abbreviation byte := ascii.

Definition byte_of_Z (z : Z) : byte := ascii_of_N (Z.to_N (z mod 256)).
Definition Z_of_byte (b : byte) : Z := Z.of_N (N_of_ascii b).

Lemma Z_of_byte_of_Z z : Z_of_byte (byte_of_Z z) = z mod 256.
Proof.
  unfold Z_of_byte, byte_of_Z. pose proof (Z.mod_pos_bound z 256 ltac:(lia)).
  rewrite N_ascii_embedding by lia. lia.
Qed.

(** ** Integers *)

Fixpoint le_bytes (n : nat) (x : Z) : list byte :=
  match n with
  | O => []
  | S n' => byte_of_Z x :: le_bytes n' (x / 256)
  end.

Fixpoint le_value (bs : list byte) : Z :=
  match bs with
  | [] => 0
  | b :: bs' => Z_of_byte b + 256 * le_value bs'
  end.

Lemma length_le_bytes n x : length (le_bytes n x) = n.
Proof. revert x. induction n as [|n IH]; intros x; csimpl; [done|]. by rewrite IH. Qed.

Lemma le_value_bytes n x : in_range (8 * Z.of_nat n) x -> le_value (le_bytes n x) = x.
Proof.
  unfold in_range. revert x. induction n as [|n IH]; intros x Hx; csimpl.
  - change (2 ^ (8 * Z.of_nat 0)) with 1 in Hx. lia.
  - rewrite Z_of_byte_of_Z, IH.
    + pose proof (Z.div_mod x 256). lia.
    + replace (8 * Z.of_nat (S n)) with (8 + 8 * Z.of_nat n) in Hx by lia.
      rewrite Z.pow_add_r in Hx by lia. change (2 ^ 8) with 256 in Hx.
      split; [apply Z.div_pos; lia|]. apply Z.div_lt_upper_bound; lia.
Qed.

(** ** Doubles

    Sign bit, eleven exponent bits biased by 1023, fifty-two fraction bits. *)

Definition double_bits (x : double) : Z :=
  let sign (s : bool) := if s then 2 ^ 63 else 0 in
  match x with
  | S754_zero s => sign s
  | S754_infinity s => sign s + 2047 * 2 ^ 52
  | S754_nan => 2047 * 2 ^ 52 + 2 ^ 51
  | S754_finite s m e =>
      sign s + (if Zpos m <? 2 ^ 52 then Zpos m else (e + 1075) * 2 ^ 52 + (Zpos m - 2 ^ 52))
  end.

Definition double_of_bits (b : Z) : double :=
  let s := 2 ^ 63 <=? b in
  let ex := b / 2 ^ 52 mod 2048 in
  let fr := b mod 2 ^ 52 in
  if ex =? 0 then if fr =? 0 then S754_zero s else S754_finite s (Z.to_pos fr) (-1074)
  else if ex =? 2047 then if fr =? 0 then S754_infinity s else S754_nan
  else S754_finite s (Z.to_pos (fr + 2 ^ 52)) (ex - 1075).

(** The values a binary64 object can hold. *)
Definition valid_double (x : double) : bool := valid_binary prec64 emax64 x.

Lemma digits2_log2 m : Zpos (digits2_pos m) = Z.log2 (Zpos m) + 1.
Proof.
  induction m as [m IH|m IH|]; cbn [digits2_pos]; [..|done];
    rewrite Pos2Z.inj_succ, IH; [rewrite Pos2Z.inj_xI|rewrite Pos2Z.inj_xO];
    [rewrite Z.log2_succ_double by lia|rewrite Z.log2_double by lia]; lia.
Qed.

(** A valid finite value is normal (53 digits) or has the least exponent. *)
Lemma valid_finite s m e :
  valid_double (S754_finite s m e) = true ->
  (2 ^ 52 <= Zpos m < 2 ^ 53 /\ -1074 <= e <= 971) \/ (Zpos m < 2 ^ 52 /\ e = -1074).
Proof.
  unfold valid_double, valid_binary, bounded, canonical_mantissa, fexp, emin.
  intros H. bool_to_prop. pose proof (digits2_log2 m) as Hd. rewrite Hd in *.
  unfold prec64, emax64 in *.
  pose proof (Z.log2_spec (Zpos m) ltac:(lia)) as [Hl Hu].
  destruct (Z.ltb_spec (Zpos m) (2 ^ 52)) as [Hlt|Hge].
  - right. split; [done|]. apply (Z.log2_lt_pow2 (Zpos m) 52) in Hlt; lia.
  - left. assert (52 <= Z.log2 (Zpos m)) by (apply Z.log2_le_pow2; lia).
    assert (Z.log2 (Zpos m) = 52) by lia.
    assert (Zpos m < 2 ^ 53) by (apply Z.log2_lt_pow2; lia). lia.
Qed.

Lemma double_bits_range x : valid_double x = true -> in_range 64 (double_bits x).
Proof.
  unfold in_range, double_bits. destruct x as [[]|[]| |s m e]; intros H; try lia.
  apply valid_finite in H. destruct s, (Z.ltb_spec (Zpos m) (2 ^ 52)); lia.
Qed.

Lemma double_of_bits_bits x : valid_double x = true -> double_of_bits (double_bits x) = x.
Proof.
  destruct x as [[]|[]| |s m e]; [intros; vm_compute; reflexivity..|].
  intros H. apply valid_finite in H. unfold double_of_bits, double_bits.
  set (lo := if Zpos m <? 2 ^ 52 then _ else _).
  assert (Hlo : 0 < lo < 2 ^ 63) by (unfold lo; destruct (Z.ltb_spec (Zpos m) (2 ^ 52)); lia).
  assert (Hs : (2 ^ 63 <=? (if s then 2 ^ 63 else 0) + lo) = s)
    by (destruct s; [apply Z.leb_le|apply Z.leb_gt]; lia).
  assert (He : ((if s then 2 ^ 63 else 0) + lo) / 2 ^ 52 mod 2048 = lo / 2 ^ 52).
  { destruct s; [replace (2 ^ 63 + lo) with (lo + 2048 * 2 ^ 52) by lia; rewrite Z.div_add by lia;
      replace (lo / 2 ^ 52 + 2048) with (lo / 2 ^ 52 + 1 * 2048) by lia; rewrite Z.mod_add by lia|];
      apply Z.mod_small; (split; [apply Z.div_pos; lia|apply Z.div_lt_upper_bound; lia]). }
  assert (Hf : ((if s then 2 ^ 63 else 0) + lo) mod 2 ^ 52 = lo mod 2 ^ 52).
  { destruct s; [|done]. replace (2 ^ 63 + lo) with (lo + 2048 * 2 ^ 52) by lia. by rewrite Z.mod_add by lia. }
  rewrite Hs, He, Hf. unfold lo in *. clear Hs He Hf.
  destruct (Z.ltb_spec (Zpos m) (2 ^ 52)) as [Hm|Hm].
  - rewrite Z.div_small, Z.mod_small by lia. cbn.
    destruct H as [[? _]|[_ ->]]; [lia|done].
  - destruct H as [[Hm1 He1]|[? _]]; [|lia].
    rewrite Z.div_add_l by lia. rewrite (Z.div_small (Zpos m - 2 ^ 52)) by lia.
    rewrite (Z.add_comm ((e + 1075) * 2 ^ 52)), Z.mod_add by lia. rewrite Z.mod_small by lia.
    destruct (Z.eqb_spec (e + 1075 + 0) 0); [lia|]. destruct (Z.eqb_spec (e + 1075 + 0) 2047); [lia|].
    f_equal; [|lia]. replace (Zpos m - 2 ^ 52 + 2 ^ 52) with (Zpos m) by lia. done.
Qed.

Definition double_bytes (x : double) : list byte := le_bytes 8 (double_bits x).
Definition double_value (bs : list byte) : double := double_of_bits (le_value bs).

Lemma double_value_bytes x : valid_double x = true -> double_value (double_bytes x) = x.
Proof.
  intros H. unfold double_value, double_bytes.
  rewrite le_value_bytes by (apply double_bits_range, H). by apply double_of_bits_bits.
Qed.

(** ** Records *)

(** The size of a structure is its end rounded up to its alignment. *)
Definition sizeof_struct (fields_end alignment : Z) : Z := (fields_end + alignment - 1) / alignment * alignment.

Definition pad_to (n : nat) (bs : list byte) : list byte := bs ++ replicate (n - length bs) NUL.

Definition bool_byte (b : bool) : byte := if b then Ascii.one else NUL.
Definition byte_bool (b : byte) : bool := negb (Ascii.eqb b NUL).

(** [alignas(64)] makes the size a multiple of 64. *)
Definition sizeof_TickData : Z := sizeof_struct 60 64.
(** The structure inherits the alignment of its first member: its 72 bytes of
    fields occupy 128. *)
Definition sizeof_StorageTickEnvelope : Z := sizeof_struct (sizeof_TickData + 8) 64.
Definition sizeof_PriceLevel : Z := 16.
Definition sizeof_OrderbookRecordHeader : Z := sizeof_struct 56 8.
Definition sizeof_BookTickerRecord : Z := sizeof_struct 80 8.

Definition tick_fields (t : TickData) : list byte :=
  le_bytes 8 (tk_exchange_timestamp t) ++ le_bytes 8 (tk_local_diff t) ++ le_bytes 8 (tk_trade_id t) ++
  double_bytes (tk_price t) ++ double_bytes (tk_quantity t) ++ le_bytes 4 (tk_channel_id t) ++
  tk_symbol t ++ [bool_byte (tk_is_buyer_maker t)] ++ tk_padding t.

Definition tick_bytes (t : TickData) : list byte := pad_to (Z.to_nat sizeof_TickData) (tick_fields t).

Definition envelope_bytes (e : StorageTickEnvelope) : list byte :=
  pad_to (Z.to_nat sizeof_StorageTickEnvelope)
    (tick_bytes (env_data e) ++ le_bytes 4 (env_storage_target e) ++ le_bytes 4 (env_recovery_status e)).

(** Source: src/storage/record_layout.h:34-40, OrderbookRecordHeader. *)
Record OrderbookRecordHeader := mkBookHeader {
  oh_exchange_timestamp : Z;
  oh_local_diff : Z;
  oh_symbol : list ascii;     (* 32 bytes *)
  oh_bid_count : nat;
  oh_ask_count : nat
}.

(** Source: src/storage/record_layout.h:43-51, BookTickerRecord. *)
Record BookTickerRecord := mkTickerRecord {
  br_exchange_timestamp : Z;
  br_local_diff : Z;
  br_symbol : list ascii;     (* 32 bytes *)
  br_best_bid_price : double;
  br_best_bid_qty : double;
  br_best_ask_price : double;
  br_best_ask_qty : double
}.

Definition book_header_bytes (h : OrderbookRecordHeader) : list byte :=
  le_bytes 8 (oh_exchange_timestamp h) ++ le_bytes 8 (oh_local_diff h) ++ oh_symbol h ++
  le_bytes 4 (Z.of_nat (oh_bid_count h)) ++ le_bytes 4 (Z.of_nat (oh_ask_count h)).

Definition level_bytes (l : PriceLevel) : list byte := double_bytes (lv_price l) ++ double_bytes (lv_quantity l).
Definition levels_bytes (ls : list PriceLevel) : list byte := concat (level_bytes <$> ls).

Definition ticker_record_bytes (r : BookTickerRecord) : list byte :=
  le_bytes 8 (br_exchange_timestamp r) ++ le_bytes 8 (br_local_diff r) ++ br_symbol r ++
  double_bytes (br_best_bid_price r) ++ double_bytes (br_best_bid_qty r) ++
  double_bytes (br_best_ask_price r) ++ double_bytes (br_best_ask_qty r).

(** ** Reading a tick record back *)

Definition split_at (n : nat) (bs : list byte) : list byte * list byte := (take n bs, drop n bs).

Definition tick_of_bytes (bs : list byte) : TickData :=
  let '(ts, bs) := split_at 8 bs in
  let '(diff, bs) := split_at 8 bs in
  let '(id, bs) := split_at 8 bs in
  let '(price, bs) := split_at 8 bs in
  let '(qty, bs) := split_at 8 bs in
  let '(chan, bs) := split_at 4 bs in
  let '(sym, bs) := split_at 12 bs in
  let '(maker, bs) := split_at 1 bs in
  mkTick (le_value ts) (le_value diff) (le_value id) (double_value price) (double_value qty) (le_value chan)
    sym (byte_bool (default NUL (head maker))) (take 3 bs).

Definition envelope_of_bytes (bs : list byte) : StorageTickEnvelope :=
  let '(tick, bs) := split_at (Z.to_nat sizeof_TickData) bs in
  let '(target, bs) := split_at 4 bs in
  mkEnvelope (tick_of_bytes tick) (le_value target) (le_value (take 4 bs)).

Lemma split_at_app n a b : length a = n -> split_at n (a ++ b) = (a, b).
Proof. intros <-. unfold split_at. by rewrite take_app_length, drop_app_length. Qed.

Lemma length_double_bytes x : length (double_bytes x) = 8%nat.
Proof. apply length_le_bytes. Qed.

Lemma length_pad_to n bs : (length bs <= n)%nat -> length (pad_to n bs) = n.
Proof. intros. unfold pad_to. rewrite length_app, length_replicate. lia. Qed.

Lemma length_tick_bytes t : wf_tick t -> length (tick_bytes t) = Z.to_nat sizeof_TickData.
Proof.
  intros []. apply length_pad_to. unfold tick_fields. autorewrite with sqc.
  rewrite !length_le_bytes, !length_double_bytes, wt_symbol, wt_padding. vm_compute. lia.
Qed.

Lemma length_envelope_bytes e : wf_tick (env_data e) -> length (envelope_bytes e) = Z.to_nat sizeof_StorageTickEnvelope.
Proof.
  intros H. apply length_pad_to. autorewrite with sqc.
  rewrite !length_le_bytes, length_tick_bytes by done. vm_compute. lia.
Qed.

Lemma length_levels_bytes ls : Z.of_nat (length (levels_bytes ls)) = Z.of_nat (length ls) * sizeof_PriceLevel.
Proof.
  induction ls as [|l ls IH]; [done|].
  change (levels_bytes (l :: ls)) with (level_bytes l ++ levels_bytes ls).
  rewrite length_app, Nat2Z.inj_add, IH, length_cons. unfold level_bytes. rewrite length_app, !length_double_bytes.
  unfold sizeof_PriceLevel. lia.
Qed.

Lemma length_book_header_bytes h :
  length (oh_symbol h) = kSymbolFieldBytes -> Z.of_nat (length (book_header_bytes h)) = sizeof_OrderbookRecordHeader.
Proof. intros H. unfold book_header_bytes. autorewrite with sqc. by rewrite !length_le_bytes, H. Qed.

Lemma length_ticker_record_bytes r :
  length (br_symbol r) = kSymbolFieldBytes -> Z.of_nat (length (ticker_record_bytes r)) = sizeof_BookTickerRecord.
Proof. intros H. unfold ticker_record_bytes. autorewrite with sqc. by rewrite !length_le_bytes, !length_double_bytes, H. Qed.

(** A tick whose fields fit their types. *)
Definition valid_tick (t : TickData) : Prop :=
  wf_tick t /\ valid_double (tk_price t) = true /\ valid_double (tk_quantity t) = true.

Lemma tick_of_bytes_bytes t : valid_tick t -> tick_of_bytes (tick_bytes t) = t.
Proof.
  intros ([] & Hp & Hq). unfold tick_of_bytes, tick_bytes, pad_to, tick_fields.
  rewrite <- !app_assoc.
  rewrite !split_at_app by (apply length_le_bytes || apply length_double_bytes || done).
  rewrite take_app_length' by done. rewrite !double_value_bytes by done.
  rewrite !le_value_bytes by done. destruct t as [? ? ? ? ? ? ? [] ?]; done.
Qed.

Lemma envelope_of_bytes_bytes e :
  valid_tick (env_data e) -> in_range 32 (env_storage_target e) -> in_range 32 (env_recovery_status e) ->
  envelope_of_bytes (envelope_bytes e) = e.
Proof.
  intros Ht H1 H2. unfold envelope_of_bytes, envelope_bytes. unfold pad_to at 1.
  rewrite <- !app_assoc.
  rewrite split_at_app by (apply length_tick_bytes, Ht). rewrite split_at_app by apply length_le_bytes.
  rewrite take_app_length' by (symmetry; apply length_le_bytes).
  rewrite tick_of_bytes_bytes, !le_value_bytes by done. by destruct e.
Qed.
