(* ===== verification/OrderBook.v ===== *)
(** * The gateway's per-symbol order book

    [RithmicOrderBook] keeps two fixed arrays of 100 price levels with their
    counts, a second pair of arrays that buffers a multi-part update, and a
    spinlock.  The operations are the array loops of the source; [active] is
    the list of levels a side declares valid, and the [spec_*] functions are
    the reference definitions over that list that the loops are proved to
    implement. *)
From Stdlib Require Import SpecFloat Sorted.
From S2P Require Import Prelude Doubles Events.

(** Source: src/rithmic_gateway/rithmic_orderbook.h:227-246, RithmicOrderBook (data members). *)
Record RithmicOrderBook := mkBook {
  bids_ : list PriceLevel;
  asks_ : list PriceLevel;
  bid_count_ : nat;
  ask_count_ : nat;
  pending_bids_ : list PriceLevel;
  pending_asks_ : list PriceLevel;
  pending_bid_count_ : nat;
  pending_ask_count_ : nat;
  batch_active_ : bool;
  ob_channel_id_ : Z;
  ob_symbol_ : list ascii;
  lock_ : bool
}.

Definition book0 : RithmicOrderBook :=
  let z := replicate kMaxOrderbookLevels level0 in
  mkBook z z 0 0 z z 0 0 false 0 (replicate 12 NUL) false.

(** [auto& levels = is_ask ? asks_ : bids_; auto& n = is_ask ? ...]: the side
    an operation works on, and writing it back. *)
Definition get_side (is_ask : bool) (b : RithmicOrderBook) : list PriceLevel * nat :=
  if is_ask then (asks_ b, ask_count_ b) else (bids_ b, bid_count_ b).

Definition set_side (is_ask : bool) (s : list PriceLevel * nat) (b : RithmicOrderBook) : RithmicOrderBook :=
  if is_ask
  then mkBook (bids_ b) s.1 (bid_count_ b) s.2 (pending_bids_ b) (pending_asks_ b)
         (pending_bid_count_ b) (pending_ask_count_ b) (batch_active_ b)
         (ob_channel_id_ b) (ob_symbol_ b) (lock_ b)
  else mkBook s.1 (asks_ b) s.2 (ask_count_ b) (pending_bids_ b) (pending_asks_ b)
         (pending_bid_count_ b) (pending_ask_count_ b) (batch_active_ b)
         (ob_channel_id_ b) (ob_symbol_ b) (lock_ b).

Definition set_pending (pb pa : list PriceLevel) (npb npa : nat) (act : bool)
    (b : RithmicOrderBook) : RithmicOrderBook :=
  mkBook (bids_ b) (asks_ b) (bid_count_ b) (ask_count_ b) pb pa npb npa act
    (ob_channel_id_ b) (ob_symbol_ b) (lock_ b).

Definition level_at (l : list PriceLevel) (i : nat) : PriceLevel := default level0 (l !! i).

(** ** Identity and spinlock *)

(** The copy loop [while(n < 11 && src[n] != 0) dst[n] = src[n], ++n] shared by
    [Init] and [SnapshotTo]: the bytes of [src] before the first NUL or byte
    11, whichever is first. *)
Fixpoint copy_until_nul (budget : nat) (src : list ascii) : list ascii :=
  match budget, src with
  | S k, c :: src' => if Ascii.eqb c NUL then [] else c :: copy_until_nul k src'
  | _, _ => []
  end.

Definition copy_symbol_11 (src dst : list ascii) : list ascii :=
  let bs := copy_until_nul 11 src in
  <[length bs := NUL]> (splice 0 bs dst).

(** Source: src/rithmic_gateway/rithmic_orderbook.h:52-60, RithmicOrderBook::Init.
    [symbol] is the memory behind the [const char*]: the bytes from the pointer on. *)
Definition Init (channel_id : Z) (symbol : list ascii) (b : RithmicOrderBook) : RithmicOrderBook :=
  mkBook (bids_ b) (asks_ b) (bid_count_ b) (ask_count_ b) (pending_bids_ b) (pending_asks_ b)
    (pending_bid_count_ b) (pending_ask_count_ b) (batch_active_ b)
    channel_id (copy_symbol_11 symbol (ob_symbol_ b)) (lock_ b).

Definition set_lock (v : bool) (b : RithmicOrderBook) : RithmicOrderBook :=
  mkBook (bids_ b) (asks_ b) (bid_count_ b) (ask_count_ b) (pending_bids_ b) (pending_asks_ b)
    (pending_bid_count_ b) (pending_ask_count_ b) (batch_active_ b)
    (ob_channel_id_ b) (ob_symbol_ b) v.

(** Source: src/rithmic_gateway/rithmic_orderbook.h:67-71, RithmicOrderBook::Lock.
    [None]: the flag is already set, and the caller spins. *)
Definition Lock (b : RithmicOrderBook) : option RithmicOrderBook :=
  if lock_ b then None else Some (set_lock true b).

(** Source: src/rithmic_gateway/rithmic_orderbook.h:73-73, RithmicOrderBook::Unlock. *)
Definition Unlock (b : RithmicOrderBook) : RithmicOrderBook := set_lock false b.

(** ** Full image *)

(** The body of the loop of [ApplyImage], over the [count] pairs the callback
    passes: stop at 100 levels, skip a size that is not positive. *)
Fixpoint apply_image_loop (entries : list (double * Z)) (levels : list PriceLevel) (n : nat)
    : list PriceLevel * nat :=
  match entries with
  | [] => (levels, n)
  | (p, sz) :: rest =>
      if (n <? kMaxOrderbookLevels)%nat then
        if 0 <? sz
        then apply_image_loop rest (<[n := mkLevel p (d_of_Z sz)]> levels) (S n)
        else apply_image_loop rest levels n
      else (levels, n)
  end.

(** Source: src/rithmic_gateway/rithmic_orderbook.h:78-91, RithmicOrderBook::ApplyImage.
    [entries] pairs [prices[i]] with [sizes[i]] for [i < count] (none when
    [count] is not positive). *)
Definition ApplyImage (entries : list (double * Z)) (is_ask : bool) (b : RithmicOrderBook)
    : RithmicOrderBook :=
  set_side is_ask (apply_image_loop entries (get_side is_ask b).1 0) b.

(** ** Single level *)

(** [while(pos < n && levels[pos].price != price) ++pos] *)
Fixpoint scan_price (fuel : nat) (levels : list PriceLevel) (n pos : nat) (price : double) : nat :=
  match fuel with
  | O => pos
  | S k =>
      if (pos <? n)%nat && d_neq (lv_price (level_at levels pos)) price
      then scan_price k levels n (S pos) price
      else pos
  end.

(** [for(j = pos; j + 1 < n; ++j) levels[j] = levels[j + 1]] *)
Fixpoint shift_left (fuel : nat) (levels : list PriceLevel) (j n : nat) : list PriceLevel :=
  match fuel with
  | O => levels
  | S k =>
      if (S j <? n)%nat
      then shift_left k (<[j := level_at levels (S j)]> levels) (S j) n
      else levels
  end.

(** [while(i < n && levels[i].price (< or >) price) ++i] *)
Fixpoint insert_position (fuel : nat) (is_ask : bool) (levels : list PriceLevel) (n i : nat)
    (price : double) : nat :=
  match fuel with
  | O => i
  | S k =>
      let p := lv_price (level_at levels i) in
      if (i <? n)%nat && (if is_ask then d_lt p price else d_gt p price)
      then insert_position k is_ask levels n (S i) price
      else i
  end.

(** [for(j = n; j > insert_pos; --j) levels[j] = levels[j - 1]] *)
Fixpoint shift_right (levels : list PriceLevel) (j insert_pos : nat) : list PriceLevel :=
  match j with
  | O => levels
  | S j' =>
      if (insert_pos <? S j')%nat
      then shift_right (<[S j' := level_at levels j']> levels) j' insert_pos
      else levels
  end.

(** Source: src/rithmic_gateway/rithmic_orderbook.h:98-142, RithmicOrderBook::ApplyLevel (one side). *)
Definition apply_level_side (is_ask : bool) (price qty : double) (s : list PriceLevel * nat)
    : list PriceLevel * nat :=
  let '(levels, n) := s in
  let pos := scan_price n levels n 0 price in
  if (pos <? n)%nat then
    if d_gt qty dzero
    then (<[pos := mkLevel (lv_price (level_at levels pos)) qty]> levels, n)
    else (shift_left n levels pos n, (n - 1)%nat)
  else if d_le qty dzero then (levels, n)
  else if (kMaxOrderbookLevels <=? n)%nat then (levels, n)
  else
    let insert_pos := insert_position n is_ask levels n 0 price in
    let levels := shift_right levels n insert_pos in
    (<[insert_pos := mkLevel price qty]> levels, S n).

(** Source: src/rithmic_gateway/rithmic_orderbook.h:98-142, RithmicOrderBook::ApplyLevel. *)
Definition ApplyLevel (price qty : double) (is_ask : bool) (b : RithmicOrderBook) : RithmicOrderBook :=
  set_side is_ask (apply_level_side is_ask price qty (get_side is_ask b)) b.

(** ** Multi-part batches *)

(** Source: src/rithmic_gateway/rithmic_orderbook.h:148-152, RithmicOrderBook::BeginBatch. *)
Definition BeginBatch (b : RithmicOrderBook) : RithmicOrderBook :=
  set_pending (pending_bids_ b) (pending_asks_ b) 0 0 true b.

(** Source: src/rithmic_gateway/rithmic_orderbook.h:154-161, RithmicOrderBook::BufferLevel. *)
Definition BufferLevel (price qty : double) (is_ask : bool) (b : RithmicOrderBook) : RithmicOrderBook :=
  if is_ask then
    if (kMaxOrderbookLevels <=? pending_ask_count_ b)%nat then b
    else set_pending (pending_bids_ b) (<[pending_ask_count_ b := mkLevel price qty]> (pending_asks_ b))
           (pending_bid_count_ b) (S (pending_ask_count_ b)) (batch_active_ b) b
  else
    if (kMaxOrderbookLevels <=? pending_bid_count_ b)%nat then b
    else set_pending (<[pending_bid_count_ b := mkLevel price qty]> (pending_bids_ b)) (pending_asks_ b)
           (S (pending_bid_count_ b)) (pending_ask_count_ b) (batch_active_ b) b.

(** [for(i = 0; i < count; ++i) ApplyLevel(pending[i].price, pending[i].quantity, is_ask)] *)
Definition apply_levels (is_ask : bool) (ls : list PriceLevel) (b : RithmicOrderBook) : RithmicOrderBook :=
  fold_left (fun b l => ApplyLevel (lv_price l) (lv_quantity l) is_ask b) ls b.

(** Source: src/rithmic_gateway/rithmic_orderbook.h:175-179, RithmicOrderBook::CancelBatch. *)
Definition CancelBatch (b : RithmicOrderBook) : RithmicOrderBook :=
  set_pending (pending_bids_ b) (pending_asks_ b) 0 0 false b.

(** Source: src/rithmic_gateway/rithmic_orderbook.h:163-173, RithmicOrderBook::CommitBatch. *)
Definition CommitBatch (b : RithmicOrderBook) : RithmicOrderBook :=
  let b := apply_levels false (take (pending_bid_count_ b) (pending_bids_ b)) b in
  let b := apply_levels true (take (pending_ask_count_ b) (pending_asks_ b)) b in
  CancelBatch b.

(** Source: src/rithmic_gateway/rithmic_orderbook.h:183-189, RithmicOrderBook::Clear. *)
Definition Clear (b : RithmicOrderBook) : RithmicOrderBook :=
  mkBook (bids_ b) (asks_ b) 0 0 (pending_bids_ b) (pending_asks_ b) 0 0 false
    (ob_channel_id_ b) (ob_symbol_ b) (lock_ b).

(** Source: src/rithmic_gateway/rithmic_orderbook.h:194-215, RithmicOrderBook::SnapshotTo.
    [out.local_diff] is left for the caller. *)
Definition SnapshotTo (b : RithmicOrderBook) (out : DepthUpdateEvent) (exchange_ts : Z) : DepthUpdateEvent :=
  mkDepth 0 (ob_channel_id_ b) exchange_ts (dp_local_diff out)
    (copy_symbol_11 (ob_symbol_ b) (dp_symbol out))
    (splice 0 (take (bid_count_ b) (bids_ b)) (dp_bids out))
    (splice 0 (take (ask_count_ b) (asks_ b)) (dp_asks out))
    (bid_count_ b) (ask_count_ b).

(** ** Reference definitions over the active levels *)

(** The levels of a side that its count declares valid. *)
Definition active (s : list PriceLevel * nat) : list PriceLevel := take s.2 s.1.

Definition side_active (is_ask : bool) (b : RithmicOrderBook) : list PriceLevel :=
  active (get_side is_ask b).

(** [better is_ask p q]: a level at [p] stands before one at [q]: lower for
    asks, higher for bids. *)
Definition better (is_ask : bool) (p q : double) : bool :=
  if is_ask then d_lt p q else d_gt p q.

Fixpoint spec_insert (is_ask : bool) (x : PriceLevel) (l : list PriceLevel) : list PriceLevel :=
  match l with
  | [] => [x]
  | y :: l' => if better is_ask (lv_price y) (lv_price x) then y :: spec_insert is_ask x l' else x :: l
  end.

Fixpoint spec_update (price qty : double) (l : list PriceLevel) : list PriceLevel :=
  match l with
  | [] => []
  | y :: l' => if d_eq (lv_price y) price then mkLevel (lv_price y) qty :: l'
               else y :: spec_update price qty l'
  end.

Fixpoint spec_delete (price : double) (l : list PriceLevel) : list PriceLevel :=
  match l with
  | [] => []
  | y :: l' => if d_eq (lv_price y) price then l' else y :: spec_delete price l'
  end.

Definition has_price (price : double) (l : list PriceLevel) : bool :=
  existsb (fun y => d_eq (lv_price y) price) l.

Definition spec_apply (is_ask : bool) (price qty : double) (l : list PriceLevel) : list PriceLevel :=
  if has_price price l then
    if d_gt qty dzero then spec_update price qty l else spec_delete price l
  else if d_le qty dzero then l
  else if (kMaxOrderbookLevels <=? length l)%nat then l
  else spec_insert is_ask (mkLevel price qty) l.

(** ** The array loops implement the reference definitions *)

Fixpoint price_index (price : double) (l : list PriceLevel) : nat :=
  match l with
  | [] => 0
  | y :: l' => if d_eq (lv_price y) price then 0 else S (price_index price l')
  end.

Fixpoint insert_index (is_ask : bool) (price : double) (l : list PriceLevel) : nat :=
  match l with
  | [] => 0
  | y :: l' => if better is_ask (lv_price y) price then S (insert_index is_ask price l') else 0
  end.

Lemma drop_take_cons (levels : list PriceLevel) n i :
  (n <= length levels)%nat -> (i < n)%nat ->
  drop i (take n levels) = level_at levels i :: drop (S i) (take n levels).
Proof.
  intros Hn Hi. unfold level_at.
  destruct (lookup_lt_is_Some_2 levels i ltac:(lia)) as [x Hx]. rewrite Hx. simpl.
  apply drop_S. by rewrite lookup_take_lt.
Qed.

Lemma scan_price_index fuel levels n pos price :
  (n <= length levels)%nat -> (pos <= n)%nat -> (n - pos <= fuel)%nat ->
  scan_price fuel levels n pos price = (pos + price_index price (drop pos (take n levels)))%nat.
Proof.
  revert pos. induction fuel as [|k IH]; intros pos Hn Hp Hf; simpl.
  - rewrite drop_ge by (rewrite length_take; lia). simpl. lia.
  - destruct (Nat.ltb_spec pos n); simpl.
    + rewrite drop_take_cons by lia. unfold d_neq. simpl.
      destruct (d_eq (lv_price (level_at levels pos)) price); simpl; [lia|].
      rewrite IH by lia. lia.
    + rewrite drop_ge by (rewrite length_take; lia). simpl. lia.
Qed.

Lemma insert_position_index fuel is_ask levels n i price :
  (n <= length levels)%nat -> (i <= n)%nat -> (n - i <= fuel)%nat ->
  insert_position fuel is_ask levels n i price
  = (i + insert_index is_ask price (drop i (take n levels)))%nat.
Proof.
  revert i. induction fuel as [|k IH]; intros i Hn Hp Hf; simpl.
  - rewrite drop_ge by (rewrite length_take; lia). simpl. lia.
  - destruct (Nat.ltb_spec i n); simpl.
    + rewrite drop_take_cons by lia. simpl. fold (better is_ask (lv_price (level_at levels i)) price).
      destruct (better is_ask (lv_price (level_at levels i)) price); simpl; [|lia].
      rewrite IH by lia. lia.
    + rewrite drop_ge by (rewrite length_take; lia). simpl. lia.
Qed.

Lemma level_at_lookup levels i : (i < length levels)%nat -> levels !! i = Some (level_at levels i).
Proof. intros H. unfold level_at. by destruct (lookup_lt_is_Some_2 levels i H) as [x ->]. Qed.

Lemma shift_left_lookup fuel levels j n i :
  (n <= length levels)%nat -> (n - j <= fuel)%nat ->
  shift_left fuel levels j n !! i
  = if decide (j <= i < n - 1)%nat then levels !! S i else levels !! i.
Proof.
  revert levels j. induction fuel as [|k IH]; intros levels j Hn Hf; cbn [shift_left].
  - case_dec; [lia|done].
  - destruct (Nat.ltb_spec (S j) n) as [H|H]; [|case_dec; [lia|done]].
    rewrite IH by (rewrite ?length_insert; lia).
    destruct (decide (i = j)) as [->|Hij].
    + rewrite decide_False by lia. rewrite decide_True by lia.
      rewrite list_lookup_insert_eq by lia. symmetry. apply level_at_lookup. lia.
    + repeat case_dec; try lia; by rewrite list_lookup_insert_ne by lia.
Qed.

Lemma shift_left_length fuel levels j n : length (shift_left fuel levels j n) = length levels.
Proof.
  revert levels j. induction fuel as [|k IH]; intros levels j; simpl; [done|].
  destruct (S j <? n)%nat; [|done]. by rewrite IH, length_insert.
Qed.

Lemma shift_right_lookup levels j p i :
  (j < length levels)%nat ->
  shift_right levels j p !! i
  = if decide (p < i <= j)%nat then levels !! (i - 1)%nat else levels !! i.
Proof.
  revert levels. induction j as [|j IH]; intros levels Hj; cbn [shift_right].
  - case_dec; [lia|done].
  - destruct (Nat.ltb_spec p (S j)) as [H|H]; [|case_dec; [lia|done]].
    rewrite IH by (rewrite length_insert; lia).
    destruct (decide (i = S j)) as [->|Hij].
    + rewrite decide_False by lia. rewrite decide_True by lia.
      rewrite list_lookup_insert_eq by lia. replace (S j - 1)%nat with j by lia.
      symmetry. apply level_at_lookup. lia.
    + repeat case_dec; try lia; by rewrite list_lookup_insert_ne by lia.
Qed.

Lemma shift_right_length levels j p : length (shift_right levels j p) = length levels.
Proof.
  revert levels. induction j as [|j IH]; intros levels; simpl; [done|].
  destruct (p <? S j)%nat; [|done]. by rewrite IH, length_insert.
Qed.

Lemma price_index_le price l : (price_index price l <= length l)%nat.
Proof. induction l as [|y l IH]; simpl; [lia|]. destruct (d_eq _ _); simpl; lia. Qed.

Lemma insert_index_le is_ask price l : (insert_index is_ask price l <= length l)%nat.
Proof. induction l as [|y l IH]; simpl; [lia|]. destruct (better _ _ _); simpl; lia. Qed.

Lemma has_price_index price l : has_price price l = (price_index price l <? length l)%nat.
Proof.
  unfold has_price. induction l as [|y l IH]; simpl; [done|].
  destruct (d_eq _ _); simpl; [done|]. by rewrite IH.
Qed.

Lemma spec_update_index price qty l :
  spec_update price qty l
  = <[price_index price l := mkLevel (lv_price (level_at l (price_index price l))) qty]> l.
Proof.
  induction l as [|y l IH]; simpl; [done|].
  destruct (d_eq _ _) eqn:E; simpl; [done|]. by rewrite IH.
Qed.

Lemma spec_delete_index price l :
  spec_delete price l = take (price_index price l) l ++ drop (S (price_index price l)) l.
Proof.
  induction l as [|y l IH]; simpl; [done|]. destruct (d_eq _ _); simpl; [done|]. by rewrite IH.
Qed.

Lemma spec_insert_index is_ask x l :
  spec_insert is_ask x l
  = take (insert_index is_ask (lv_price x) l) l ++ x :: drop (insert_index is_ask (lv_price x) l) l.
Proof.
  induction l as [|y l IH]; simpl; [done|]. destruct (better _ _ _); simpl; [|done]. by rewrite IH.
Qed.

Definition wf_side (s : list PriceLevel * nat) : Prop :=
  length s.1 = kMaxOrderbookLevels /\ (s.2 <= kMaxOrderbookLevels)%nat.

Lemma length_active s : wf_side s -> length (active s) = s.2.
Proof. intros [? ?]. unfold active. rewrite length_take. lia. Qed.

Lemma level_at_take levels n i : (i < n)%nat -> level_at (take n levels) i = level_at levels i.
Proof. intros. unfold level_at. by rewrite lookup_take_lt. Qed.

(** Deleting the level at [p] by shifting is list deletion on the active prefix. *)
Lemma shift_left_active levels n p :
  (n <= length levels)%nat -> (p < n)%nat ->
  take (n - 1) (shift_left n levels p n) = take p (take n levels) ++ drop (S p) (take n levels).
Proof.
  intros Hn Hp. apply list_eq. intros i.
  destruct (decide (i < n - 1)%nat) as [Hi|Hi].
  - rewrite lookup_take_lt, shift_left_lookup by lia. case_dec.
    + rewrite lookup_app_r; rewrite !length_take; [|lia].
      rewrite lookup_drop, lookup_take_lt by lia. f_equal. lia.
    + rewrite lookup_app_l by (rewrite !length_take; lia).
      by rewrite !lookup_take_lt by lia.
  - rewrite !lookup_ge_None_2; [done| |].
    + rewrite length_app, length_drop, !length_take. lia.
    + rewrite length_take. lia.
Qed.

(** Shifting right and writing at [p] is list insertion on the active prefix. *)
Lemma shift_right_active levels n p x :
  (n < length levels)%nat -> (p <= n)%nat ->
  take (S n) (<[p := x]> (shift_right levels n p))
  = take p (take n levels) ++ x :: drop p (take n levels).
Proof.
  intros Hn Hp. apply list_eq. intros i.
  assert (Hl : length (take p (take n levels)) = p) by (rewrite !length_take; lia).
  destruct (decide (i < S n)%nat) as [Hi|Hi].
  - rewrite lookup_take_lt by lia.
    destruct (decide (i = p)) as [->|Hip].
    + rewrite list_lookup_insert_eq by (rewrite shift_right_length; lia).
      rewrite lookup_app_r by lia. by rewrite Hl, Nat.sub_diag.
    + rewrite list_lookup_insert_ne, shift_right_lookup by lia. case_dec.
      * rewrite lookup_app_r by lia. rewrite Hl.
        rewrite lookup_cons_ne_0 by lia. rewrite lookup_drop, lookup_take_lt by lia. f_equal. lia.
      * rewrite lookup_app_l by lia. by rewrite !lookup_take_lt by lia.
  - rewrite !lookup_ge_None_2; [done| |].
    + rewrite length_app; simpl. rewrite length_drop, !length_take. lia.
    + rewrite length_take, length_insert, shift_right_length. lia.
Qed.

Lemma apply_level_side_wf is_ask price qty s :
  wf_side s -> wf_side (apply_level_side is_ask price qty s).
Proof.
  destruct s as [levels n]. unfold wf_side, apply_level_side. cbn [fst snd]. intros [Hl Hn].
  destruct (scan_price n levels n 0 price <? n)%nat.
  - destruct (d_gt qty dzero); cbn [fst snd]; rewrite ?length_insert, ?shift_left_length; lia.
  - destruct (d_le qty dzero); [done|]. destruct (Nat.leb_spec kMaxOrderbookLevels n); [done|].
    cbn [fst snd]. rewrite length_insert, shift_right_length. lia.
Qed.

Lemma apply_level_side_active is_ask price qty s :
  wf_side s -> active (apply_level_side is_ask price qty s) = spec_apply is_ask price qty (active s).
Proof.
  destruct s as [levels n]. unfold wf_side, active, apply_level_side. cbn [fst snd]. intros [Hl Hn].
  assert (Hlen : length (take n levels) = n) by (rewrite length_take; lia).
  rewrite (scan_price_index n levels n 0 price), drop_0 by lia. cbn [Nat.add].
  unfold spec_apply. rewrite has_price_index, Hlen.
  destruct (Nat.ltb_spec (price_index price (take n levels)) n) as [Hlt|Hge].
  - destruct (d_gt qty dzero); cbn [fst snd].
    + rewrite spec_update_index, take_insert_lt by done. by rewrite level_at_take.
    + rewrite spec_delete_index. by apply shift_left_active; [lia|].
  - destruct (d_le qty dzero); [done|].
    destruct (Nat.leb_spec kMaxOrderbookLevels n) as [Hfull|Hroom]; [done|].
    rewrite (insert_position_index n is_ask levels n 0 price), drop_0 by lia.
    rewrite spec_insert_index. cbn [fst snd Nat.add lv_price].
    apply shift_right_active; [lia|].
    pose proof (insert_index_le is_ask price (take n levels)). lia.
Qed.

(** ** Well-formed sides: strictly sorted, positive, without NaN *)

Lemma better_trans is_ask p q r :
  better is_ask p q = true -> better is_ask q r = true -> better is_ask p r = true.
Proof. destruct is_ask; unfold better, d_gt; eauto using d_lt_trans. Qed.

Lemma better_neq is_ask p q : better is_ask p q = true -> d_eq p q = false.
Proof.
  destruct is_ask; unfold better, d_gt; intros H; [by apply d_lt_neq|].
  rewrite d_eq_sym. by apply d_lt_neq.
Qed.

Lemma better_total is_ask p q :
  not_nan p -> not_nan q -> d_eq p q = false -> better is_ask p q = false -> better is_ask q p = true.
Proof.
  intros Hp Hq He Hb. destruct (d_trichotomy p q Hp Hq) as [H|[H|H]]; [|congruence|];
    destruct is_ask; unfold better, d_gt in *; congruence.
Qed.

Lemma better_eq_l is_ask p q r : d_eq p q = true -> better is_ask p r = better is_ask q r.
Proof. destruct is_ask; unfold better, d_gt; [apply d_lt_eq_l|apply d_lt_eq_r]. Qed.

Lemma better_eq_r is_ask p q r : d_eq p q = true -> better is_ask r p = better is_ask r q.
Proof. destruct is_ask; unfold better, d_gt; [apply d_lt_eq_r|apply d_lt_eq_l]. Qed.

Definition before (is_ask : bool) (a b : PriceLevel) : Prop :=
  better is_ask (lv_price a) (lv_price b) = true.

Definition good_level (l : PriceLevel) : Prop :=
  not_nan (lv_price l) /\ d_gt (lv_quantity l) dzero = true.

Record wf_levels (is_ask : bool) (l : list PriceLevel) : Prop := {
  wl_sorted : StronglySorted (before is_ask) l;
  wl_good : Forall good_level l;
  wl_len : (length l <= kMaxOrderbookLevels)%nat
}.

(** Quantity standing at a price, by the comparison the program uses. *)
Fixpoint qty_at (price : double) (l : list PriceLevel) : option double :=
  match l with
  | [] => None
  | y :: l' => if d_eq (lv_price y) price then Some (lv_quantity y) else qty_at price l'
  end.

Lemma has_price_cons price y l :
  has_price price (y :: l) = d_eq (lv_price y) price || has_price price l.
Proof. done. Qed.

Lemma spec_update_prices price qty l : lv_price <$> spec_update price qty l = lv_price <$> l.
Proof.
  induction l as [|y l IH]; csimpl; [done|]. destruct (d_eq _ _); csimpl; [done|]. by rewrite IH.
Qed.

Lemma Forall_before_prices is_ask x l l' :
  lv_price <$> l = lv_price <$> l' -> Forall (before is_ask x) l -> Forall (before is_ask x) l'.
Proof.
  revert l'. induction l as [|y l IH]; intros [|y' l'] Heq H; simplify_eq/=; [done|].
  apply Forall_cons in H as [Hy Hl]. constructor; [|by apply IH]. unfold before in *. congruence.
Qed.

Lemma sorted_before_prices is_ask l l' :
  lv_price <$> l = lv_price <$> l' ->
  StronglySorted (before is_ask) l -> StronglySorted (before is_ask) l'.
Proof.
  revert l'. induction l as [|y l IH]; intros [|y' l'] Heq H; simplify_eq/=; [constructor|].
  apply StronglySorted_inv in H as [Hl Hy]. constructor; [by apply IH|].
  apply (Forall_before_prices is_ask y' l); [done|].
  eapply Forall_impl; [exact Hy|]. intros z Hz. unfold before in *. congruence.
Qed.

Lemma spec_update_wf is_ask price qty l :
  d_gt qty dzero = true -> wf_levels is_ask l -> wf_levels is_ask (spec_update price qty l).
Proof.
  intros Hq [Hs Hg Hl]. split.
  - eapply sorted_before_prices; [|exact Hs]. by rewrite spec_update_prices.
  - clear Hs Hl. induction Hg as [|y l [Hy1 Hy2] Hg IH]; simpl; [done|].
    destruct (d_eq _ _); constructor; done.
  - rewrite spec_update_index, length_insert. done.
Qed.

Lemma spec_delete_sublist price l : spec_delete price l `sublist_of` l.
Proof.
  induction l as [|y l IH]; simpl; [done|].
  destruct (d_eq _ _); [by apply sublist_cons|by apply sublist_skip].
Qed.

Lemma StronglySorted_sublist {A} (R : relation A) (l l' : list A) :
  l' `sublist_of` l -> StronglySorted R l -> StronglySorted R l'.
Proof.
  induction 1 as [|x l1 l2 Hsub IH|x l1 l2 Hsub IH]; intros Hs; [done| |];
    apply StronglySorted_inv in Hs as [H1 H2]; [|by apply IH].
  constructor; [by apply IH|]. eapply Forall_sublist; done.
Qed.

Lemma wf_levels_sublist is_ask l l' : l' `sublist_of` l -> wf_levels is_ask l -> wf_levels is_ask l'.
Proof.
  intros Hsub [Hs Hg Hl]. split.
  - by eapply StronglySorted_sublist.
  - by eapply Forall_sublist.
  - apply sublist_length in Hsub. lia.
Qed.

Lemma spec_insert_Forall (P : PriceLevel -> Prop) is_ask x l :
  P x -> Forall P l -> Forall P (spec_insert is_ask x l).
Proof.
  intros Hx. induction 1 as [|y l Hy Hl IH]; simpl; [by constructor|].
  destruct (better _ _ _); constructor; try done. by constructor.
Qed.

Lemma spec_insert_length is_ask x l : length (spec_insert is_ask x l) = S (length l).
Proof. induction l as [|y l IH]; simpl; [done|]. destruct (better _ _ _); simpl; lia. Qed.

Lemma spec_insert_wf is_ask x l :
  good_level x -> has_price (lv_price x) l = false -> (length l < kMaxOrderbookLevels)%nat ->
  wf_levels is_ask l -> wf_levels is_ask (spec_insert is_ask x l).
Proof.
  intros Hx Hnot Hroom [Hs Hg Hl]. split.
  - clear Hroom Hl. induction Hs as [|y l Hs IH Hy]; simpl; [by repeat constructor|].
    rewrite has_price_cons in Hnot. apply orb_false_iff in Hnot as [Hne Hnot].
    apply Forall_cons in Hg as [Hgy Hg].
    destruct (better is_ask (lv_price y) (lv_price x)) eqn:E.
    + constructor; [by apply IH|]. apply spec_insert_Forall; [done|done].
    + assert (Hxy : before is_ask x y) by (apply better_total; [apply Hgy|apply Hx|done|done]).
      constructor; [by constructor|]. constructor; [done|].
      eapply Forall_impl; [exact Hy|]. intros z Hz. eapply better_trans; done.
  - by apply spec_insert_Forall.
  - rewrite spec_insert_length. lia.
Qed.

Lemma spec_apply_wf is_ask price qty l :
  not_nan price -> not_nan qty -> wf_levels is_ask l -> wf_levels is_ask (spec_apply is_ask price qty l).
Proof.
  intros Hp Hq Hwf. unfold spec_apply. destruct (has_price price l) eqn:Eh.
  - destruct (d_gt qty dzero) eqn:Eq; [by apply spec_update_wf|].
    eapply wf_levels_sublist; [apply spec_delete_sublist|done].
  - rewrite d_le_gt by done. destruct (d_gt qty dzero) eqn:Eq; cbn [negb]; [|done].
    destruct (Nat.leb_spec kMaxOrderbookLevels (length l)); [done|].
    by apply spec_insert_wf.
Qed.

(** Levels after one at [p] in a sorted side do not stand at [p]. *)
Lemma sorted_no_dup is_ask y l p :
  Forall (before is_ask y) l -> d_eq (lv_price y) p = true -> qty_at p l = None.
Proof.
  intros H E. induction H as [|z l Hz Hl IH]; simpl; [done|].
  replace (d_eq (lv_price z) p) with false; [done|].
  symmetry. apply not_true_is_false. intros Ez.
  assert (d_eq (lv_price y) (lv_price z) = true) by (eapply d_eq_trans; [done|by rewrite d_eq_sym]).
  by rewrite (better_neq _ _ _ Hz) in *.
Qed.

Lemma qty_at_update price qty p l :
  has_price price l = true ->
  qty_at p (spec_update price qty l) = if d_eq price p then Some qty else qty_at p l.
Proof.
  induction l as [|y l IH]; simpl; [done|]. intros H.
  destruct (d_eq (lv_price y) price) eqn:E; simpl in *.
  - rewrite (d_eq_eq_l _ _ p E). by destruct (d_eq price p).
  - rewrite IH by done. destruct (d_eq (lv_price y) p) eqn:E2; [|done].
    destruct (d_eq price p) eqn:E3; [|done].
    assert (d_eq (lv_price y) price = true) by (eapply d_eq_trans; [done|by rewrite d_eq_sym]).
    congruence.
Qed.

Lemma qty_at_delete is_ask price p l :
  StronglySorted (before is_ask) l -> has_price price l = true ->
  qty_at p (spec_delete price l) = if d_eq price p then None else qty_at p l.
Proof.
  induction 1 as [|y l Hs IH Hy]; simpl; [done|]. intros H.
  destruct (d_eq (lv_price y) price) eqn:E; simpl in *.
  - rewrite (d_eq_eq_l _ _ p E). destruct (d_eq price p) eqn:E2; [|done].
    eapply sorted_no_dup; [done|]. eapply d_eq_trans; done.
  - rewrite IH by done. destruct (d_eq (lv_price y) p) eqn:E2; [|done].
    destruct (d_eq price p) eqn:E3; [|done].
    assert (d_eq (lv_price y) price = true) by (eapply d_eq_trans; [done|by rewrite d_eq_sym]).
    congruence.
Qed.

Lemma qty_at_insert is_ask x p l :
  has_price (lv_price x) l = false ->
  qty_at p (spec_insert is_ask x l) = if d_eq (lv_price x) p then Some (lv_quantity x) else qty_at p l.
Proof.
  induction l as [|y l IH]; simpl; [done|]. intros H. apply orb_false_iff in H as [E H].
  destruct (better _ _ _); simpl; [|done].
  rewrite IH by done. destruct (d_eq (lv_price y) p) eqn:E2; [|done].
  destruct (d_eq (lv_price x) p) eqn:E3; [|done].
  assert (d_eq (lv_price y) (lv_price x) = true) by (eapply d_eq_trans; [done|by rewrite d_eq_sym]).
  congruence.
Qed.

Lemma has_price_qty_at price l : has_price price l = false -> qty_at price l = None.
Proof.
  induction l as [|y l IH]; simpl; [done|]. intros H. apply orb_false_iff in H as [-> H]. auto.
Qed.

Lemma qty_at_eq p p' l : d_eq p p' = true -> qty_at p l = qty_at p' l.
Proof.
  intros E. induction l as [|y l IH]; simpl; [done|].
  rewrite (d_eq_sym _ p), (d_eq_sym _ p'), (d_eq_eq_l _ _ (lv_price y) E), IH. done.
Qed.

(** What one update does to the quantity at every price. *)
Definition spec_qty (price qty : double) (l : list PriceLevel) (p : double) : option double :=
  if d_eq price p then
    if d_gt qty dzero
    then if has_price price l || (length l <? kMaxOrderbookLevels)%nat then Some qty else None
    else None
  else qty_at p l.

Lemma spec_apply_qty is_ask price qty l p :
  not_nan qty -> StronglySorted (before is_ask) l ->
  qty_at p (spec_apply is_ask price qty l) = spec_qty price qty l p.
Proof.
  intros Hq Hs. unfold spec_apply, spec_qty. destruct (has_price price l) eqn:Eh; cbn [orb].
  - destruct (d_gt qty dzero).
    + by rewrite qty_at_update.
    + by rewrite (qty_at_delete is_ask).
  - rewrite d_le_gt by (done || discriminate).
    destruct (d_gt qty dzero); cbn [negb orb].
    + destruct (Nat.leb_spec kMaxOrderbookLevels (length l)) as [H|H].
      * replace (length l <? kMaxOrderbookLevels)%nat with false by (symmetry; apply Nat.ltb_ge; lia).
        destruct (d_eq price p) eqn:E; [|done].
        rewrite <- (qty_at_eq price p l E). by apply has_price_qty_at.
      * replace (length l <? kMaxOrderbookLevels)%nat with true by (symmetry; apply Nat.ltb_lt; lia).
        by rewrite qty_at_insert.
    + destruct (d_eq price p) eqn:E; [|done].
      rewrite <- (qty_at_eq price p l E). by apply has_price_qty_at.
Qed.

(** ** Whole-book invariant *)

Record wf_book (b : RithmicOrderBook) : Prop := {
  wb_bids : wf_side (get_side false b);
  wb_asks : wf_side (get_side true b);
  wb_pbids : length (pending_bids_ b) = kMaxOrderbookLevels;
  wb_pasks : length (pending_asks_ b) = kMaxOrderbookLevels;
  wb_npb : (pending_bid_count_ b <= kMaxOrderbookLevels)%nat;
  wb_npa : (pending_ask_count_ b <= kMaxOrderbookLevels)%nat;
  wb_sym : length (ob_symbol_ b) = 12%nat
}.

Lemma wb_side is_ask b : wf_book b -> wf_side (get_side is_ask b).
Proof. intros H. destruct is_ask; apply H. Qed.

(** A level whose price and quantity are numbers. *)
Definition numeric_level (l : PriceLevel) : Prop := not_nan (lv_price l) /\ not_nan (lv_quantity l).

Definition pending (is_ask : bool) (b : RithmicOrderBook) : list PriceLevel :=
  if is_ask then take (pending_ask_count_ b) (pending_asks_ b)
  else take (pending_bid_count_ b) (pending_bids_ b).

(** The invariant of the gateway's book: both sides strictly sorted (best
    first) with positive quantities and no repeated price, and only numbers in
    the batch buffer. *)
Record good_book (b : RithmicOrderBook) : Prop := {
  gb_wf : wf_book b;
  gb_side : forall is_ask, wf_levels is_ask (side_active is_ask b);
  gb_pending : forall is_ask, Forall numeric_level (pending is_ask b)
}.

Lemma get_set_side is_ask s b : get_side is_ask (set_side is_ask s b) = s.
Proof. by destruct is_ask, s. Qed.

Lemma get_set_side_other is_ask s b : get_side (negb is_ask) (set_side is_ask s b) = get_side (negb is_ask) b.
Proof. by destruct is_ask, s. Qed.

Lemma get_set_side_dec a is_ask s b :
  get_side a (set_side is_ask s b) = if Bool.eqb a is_ask then s else get_side a b.
Proof. by destruct a, is_ask, s. Qed.

Lemma pending_set_side a is_ask s b : pending a (set_side is_ask s b) = pending a b.
Proof. by destruct a, is_ask. Qed.

Lemma wf_book_set_side is_ask s b : wf_side s -> wf_book b -> wf_book (set_side is_ask s b).
Proof. intros Hs []. split; destruct is_ask; simpl; try done; by destruct s. Qed.

(** Replacing one side by a well-formed one keeps the invariant. *)
Lemma good_book_set_side is_ask s b :
  wf_side s -> wf_levels is_ask (active s) -> good_book b -> good_book (set_side is_ask s b).
Proof.
  intros Hs Hl [Hwf Hside Hpend]. split.
  - by apply wf_book_set_side.
  - intros a. unfold side_active. rewrite get_set_side_dec.
    destruct (Bool.eqb a is_ask) eqn:E; [apply eqb_prop in E; by subst|]. apply Hside.
  - intros a. rewrite pending_set_side. apply Hpend.
Qed.

Lemma ApplyLevel_good price qty is_ask b :
  not_nan price -> not_nan qty -> good_book b -> good_book (ApplyLevel price qty is_ask b).
Proof.
  intros Hp Hq Hb. pose proof (wb_side is_ask b (gb_wf _ Hb)) as Hs.
  apply good_book_set_side; [by apply apply_level_side_wf| |done].
  rewrite apply_level_side_active by done. apply spec_apply_wf; [done|done|]. by apply Hb.
Qed.

Lemma apply_levels_good is_ask ls b :
  Forall numeric_level ls -> good_book b -> good_book (apply_levels is_ask ls b).
Proof.
  intros Hls. revert b. induction Hls as [|l ls [Hp Hq] _ IH]; intros b Hb; simpl; [done|].
  by apply IH, ApplyLevel_good.
Qed.

Lemma pending_apply_levels a is_ask ls b : pending a (apply_levels is_ask ls b) = pending a b.
Proof.
  revert b. induction ls as [|l ls IH]; intros b; simpl; [done|].
  unfold apply_levels in *. rewrite IH. apply pending_set_side.
Qed.

Lemma CancelBatch_good b : good_book b -> good_book (CancelBatch b).
Proof. intros [[] Hs Hp]. split; [split; simpl; (done || lia)|exact Hs|]. by intros []. Qed.

Lemma CommitBatch_good b : good_book b -> good_book (CommitBatch b).
Proof.
  intros Hb. unfold CommitBatch. apply CancelBatch_good.
  pose proof (gb_pending _ Hb false) as Hpf. pose proof (gb_pending _ Hb true) as Hpt.
  apply apply_levels_good; [|by apply apply_levels_good].
  change (Forall numeric_level (pending true (apply_levels false (pending false b) b))).
  by rewrite pending_apply_levels.
Qed.

Lemma BufferLevel_pending price qty is_ask b :
  wf_book b ->
  pending is_ask (BufferLevel price qty is_ask b)
  = (if (length (pending is_ask b) <? kMaxOrderbookLevels)%nat
     then pending is_ask b ++ [mkLevel price qty] else pending is_ask b) /\
  pending (negb is_ask) (BufferLevel price qty is_ask b) = pending (negb is_ask) b.
Proof.
  intros []. unfold BufferLevel, pending. destruct is_ask; rewrite length_take.
  - destruct (Nat.leb_spec kMaxOrderbookLevels (pending_ask_count_ b)); split; try done.
    + destruct (Nat.ltb_spec (pending_ask_count_ b `min` length (pending_asks_ b)) kMaxOrderbookLevels); [lia|done].
    + destruct (Nat.ltb_spec (pending_ask_count_ b `min` length (pending_asks_ b)) kMaxOrderbookLevels); [|lia].
      simpl. apply take_S_insert. lia.
  - destruct (Nat.leb_spec kMaxOrderbookLevels (pending_bid_count_ b)); split; try done.
    + destruct (Nat.ltb_spec (pending_bid_count_ b `min` length (pending_bids_ b)) kMaxOrderbookLevels); [lia|done].
    + destruct (Nat.ltb_spec (pending_bid_count_ b `min` length (pending_bids_ b)) kMaxOrderbookLevels); [|lia].
      simpl. apply take_S_insert. lia.
Qed.

Lemma BufferLevel_sides price qty is_ask a b :
  side_active a (BufferLevel price qty is_ask b) = side_active a b.
Proof. unfold BufferLevel. by repeat case_match. Qed.

Lemma BufferLevel_wf price qty is_ask b : wf_book b -> wf_book (BufferLevel price qty is_ask b).
Proof.
  intros []. unfold BufferLevel.
  destruct is_ask; case_match; bool_to_prop; split; simpl; rewrite ?length_insert; (done || lia).
Qed.

Lemma BufferLevel_good price qty is_ask b :
  not_nan price -> not_nan qty -> good_book b -> good_book (BufferLevel price qty is_ask b).
Proof.
  intros Hp Hq Hb. split.
  - apply BufferLevel_wf, Hb.
  - intros a. rewrite BufferLevel_sides. apply Hb.
  - intros a. destruct (BufferLevel_pending price qty is_ask b (gb_wf _ Hb)) as [H1 H2].
    destruct (Bool.eqb_spec a is_ask) as [->|Hne].
    + rewrite H1. case_match; [|apply Hb]. apply Forall_app. split; [apply Hb|]. by repeat constructor.
    + replace a with (negb is_ask) by (by destruct a, is_ask). rewrite H2. apply Hb.
Qed.

Lemma BeginBatch_good b : good_book b -> good_book (BeginBatch b).
Proof. intros [[] Hs Hp]. split; [split; simpl; (done || lia)|exact Hs|]. by intros []. Qed.

Lemma Clear_good b : good_book b -> good_book (Clear b).
Proof.
  intros [[[] []] Hs Hp]. split.
  - split; simpl; try done; try lia; split; simpl; (done || lia).
  - intros []; split; simpl; try constructor; lia.
  - by intros [].
Qed.

(** ** Images *)

(** The levels an image describes: entries with a positive size. *)
Fixpoint image_levels (entries : list (double * Z)) : list PriceLevel :=
  match entries with
  | [] => []
  | (p, sz) :: rest => if 0 <? sz then mkLevel p (d_of_Z sz) :: image_levels rest else image_levels rest
  end.

Lemma apply_image_loop_spec entries levels n :
  length levels = kMaxOrderbookLevels -> (n <= kMaxOrderbookLevels)%nat ->
  wf_side (apply_image_loop entries levels n) /\
  active (apply_image_loop entries levels n)
  = take kMaxOrderbookLevels (take n levels ++ image_levels entries).
Proof.
  revert levels n. induction entries as [|[p sz] rest IH]; intros levels n Hl Hn; cbn [apply_image_loop].
  - split; [done|]. unfold active. cbn [fst snd image_levels]. rewrite app_nil_r, (take_ge (take n levels)); [done|].
    rewrite length_take. lia.
  - destruct (Nat.ltb_spec n kMaxOrderbookLevels) as [H|H].
    + cbn [image_levels]. destruct (0 <? sz).
      * destruct (IH (<[n := mkLevel p (d_of_Z sz)]> levels) (S n)) as [H1 H2];
          [by rewrite length_insert|lia|].
        split; [done|]. rewrite H2, take_S_insert by lia. by rewrite <- app_assoc.
      * by apply IH.
    + split; [done|]. unfold active. cbn [fst snd].
      rewrite take_app_le by (rewrite length_take; lia). rewrite take_take. f_equal. lia.
Qed.

Lemma ApplyImage_active entries is_ask b :
  wf_book b -> side_active is_ask (ApplyImage entries is_ask b) = take kMaxOrderbookLevels (image_levels entries).
Proof.
  intros Hb. unfold ApplyImage, side_active. rewrite get_set_side.
  destruct (wb_side is_ask b Hb) as [Hl _].
  destruct (apply_image_loop_spec entries (get_side is_ask b).1 0 Hl) as [_ ->]; [lia|done].
Qed.

(** What the feed promises of an image: its levels arrive best first, with
    prices that are numbers. *)
Definition image_ok (is_ask : bool) (entries : list (double * Z)) : Prop :=
  StronglySorted (before is_ask) (image_levels entries) /\
  Forall (fun l => not_nan (lv_price l)) (image_levels entries).

Lemma image_levels_good entries :
  Forall (fun l => not_nan (lv_price l)) (image_levels entries) -> Forall good_level (image_levels entries).
Proof.
  induction entries as [|[p sz] rest IH]; simpl; [done|].
  destruct (Z.ltb_spec 0 sz); [|done]. intros H'. apply Forall_cons in H' as [Hp Hrest].
  constructor; [|by apply IH]. split; [done|]. by apply d_of_Z_pos.
Qed.

Lemma ApplyImage_good entries is_ask b :
  image_ok is_ask entries -> good_book b -> good_book (ApplyImage entries is_ask b).
Proof.
  intros [Hs Hn] Hb. destruct (wb_side is_ask b (gb_wf _ Hb)) as [Hl _].
  destruct (apply_image_loop_spec entries (get_side is_ask b).1 0) as [H1 H2]; [done|lia|].
  apply good_book_set_side; [done| |done]. rewrite H2. cbn [app take].
  assert (Hsub : take kMaxOrderbookLevels (image_levels entries) `sublist_of` image_levels entries)
    by apply sublist_take.
  split; [by eapply StronglySorted_sublist| |rewrite length_take; lia].
  eapply Forall_sublist; [done|]. by apply image_levels_good.
Qed.

(** ** Sequences of operations *)

Inductive book_op :=
| OpImage (entries : list (double * Z)) (is_ask : bool)
| OpLevel (price qty : double) (is_ask : bool)
| OpBegin
| OpBuffer (price qty : double) (is_ask : bool)
| OpCommit
| OpCancel
| OpClear.

Definition run_op (o : book_op) (b : RithmicOrderBook) : RithmicOrderBook :=
  match o with
  | OpImage es a => ApplyImage es a b
  | OpLevel p q a => ApplyLevel p q a b
  | OpBegin => BeginBatch b
  | OpBuffer p q a => BufferLevel p q a b
  | OpCommit => CommitBatch b
  | OpCancel => CancelBatch b
  | OpClear => Clear b
  end.

(** What an operation's arguments must satisfy: numbers, and images best first. *)
Definition op_ok (o : book_op) : Prop :=
  match o with
  | OpImage es a => image_ok a es
  | OpLevel p q _ | OpBuffer p q _ => not_nan p /\ not_nan q
  | _ => True
  end.

Definition run_ops (os : list book_op) (b : RithmicOrderBook) : RithmicOrderBook :=
  fold_left (fun b o => run_op o b) os b.

Lemma book0_good : good_book book0.
Proof.
  split.
  - split; [split|split| | | | |]; (reflexivity || apply Nat.le_0_l).
  - intros a. assert (side_active a book0 = []) as -> by (by destruct a).
    split; [constructor|constructor|apply Nat.le_0_l].
  - intros []; constructor.
Qed.

Lemma run_op_good o b : op_ok o -> good_book b -> good_book (run_op o b).
Proof.
  destruct o; simpl; intros Ho Hb;
    [by apply ApplyImage_good|apply ApplyLevel_good; tauto|by apply BeginBatch_good
    |apply BufferLevel_good; tauto|by apply CommitBatch_good|by apply CancelBatch_good|by apply Clear_good].
Qed.

(** C1: After any sequence of images, single-level updates, batches and clears
    on a fresh book (prices and quantities that are numbers, images best
    first), both sides are strictly sorted best-first, hold no duplicate price
    and only positive quantities, and never exceed 100 levels. *)
Theorem order_book_invariant (os : list book_op) :
  Forall op_ok os ->
  good_book (run_ops os book0) /\
  forall is_ask, wf_levels is_ask (side_active is_ask (run_ops os book0)).
Proof.
  intros Hos. assert (H : good_book (run_ops os book0)); [|split; [done|apply H]].
  unfold run_ops. pose proof book0_good as Hb. revert Hb. generalize book0.
  induction Hos as [|o os Ho Hos IH]; intros b Hb; simpl; [done|]. by apply IH, run_op_good.
Qed.

(** C2: One [ApplyLevel] on a book that satisfies the invariant is the reference
    update on its side's active levels: the array scan, shifts and writes
    change the quantity at exactly the given price (set when positive and there
    is room, removed otherwise), and the other side is untouched. *)
Theorem ApplyLevel_refines (b : RithmicOrderBook) (price qty : double) (is_ask : bool) :
  good_book b -> not_nan qty ->
  side_active is_ask (ApplyLevel price qty is_ask b) = spec_apply is_ask price qty (side_active is_ask b) /\
  side_active (negb is_ask) (ApplyLevel price qty is_ask b) = side_active (negb is_ask) b /\
  forall p, qty_at p (side_active is_ask (ApplyLevel price qty is_ask b))
            = spec_qty price qty (side_active is_ask b) p.
Proof.
  intros Hb Hq. pose proof (wb_side is_ask b (gb_wf _ Hb)) as Hs.
  assert (H1 : side_active is_ask (ApplyLevel price qty is_ask b)
               = spec_apply is_ask price qty (side_active is_ask b)).
  { unfold side_active, ApplyLevel. rewrite get_set_side. by apply apply_level_side_active. }
  split_and!; [done|unfold side_active, ApplyLevel; by rewrite get_set_side_other|].
  intros p. rewrite H1. apply spec_apply_qty; [done|]. apply Hb.
Qed.

(** [BufferLevel]s between a [BeginBatch] and its [CommitBatch]. *)
Definition buffer_all (ls : list (PriceLevel * bool)) (b : RithmicOrderBook) : RithmicOrderBook :=
  fold_left (fun b x => BufferLevel (lv_price x.1) (lv_quantity x.1) x.2 b) ls b.

(** The buffered levels of one side, in order. *)
Definition side_levels (is_ask : bool) (ls : list (PriceLevel * bool)) : list PriceLevel :=
  fst <$> filter (fun x => x.2 = is_ask) ls.

Lemma buffer_all_spec ls b :
  wf_book b ->
  wf_book (buffer_all ls b) /\
  forall is_ask,
    side_active is_ask (buffer_all ls b) = side_active is_ask b /\
    pending is_ask (buffer_all ls b)
    = take kMaxOrderbookLevels (pending is_ask b ++ side_levels is_ask ls).
Proof.
  revert b. induction ls as [|[[p q] a] ls IH]; intros b Hb; simpl.
  - split; [done|]. intros is_ask. split; [done|]. unfold side_levels. simpl. rewrite app_nil_r.
    symmetry. apply take_ge. unfold pending. destruct is_ask; rewrite length_take; destruct Hb; lia.
  - destruct (IH (BufferLevel p q a b) (BufferLevel_wf _ _ _ _ Hb)) as [H1 H2].
    split; [done|]. intros is_ask. destruct (H2 is_ask) as [H3 H4].
    rewrite BufferLevel_sides in H3. split; [done|]. unfold buffer_all in *. rewrite H4.
    destruct (BufferLevel_pending p q a b Hb) as [H5 H6]. unfold side_levels.
    destruct (Bool.eqb_spec is_ask a) as [->|Hne].
    + rewrite filter_cons_True by done. rewrite H5. csimpl.
      destruct (Nat.ltb_spec (length (pending a b)) kMaxOrderbookLevels); [by rewrite <- app_assoc|].
      rewrite !take_app_le by lia. done.
    + rewrite filter_cons_False by naive_solver.
      replace is_ask with (negb a) in * by (by destruct a, is_ask). by rewrite H6.
Qed.

Lemma apply_levels_active is_ask a ls b :
  wf_book b ->
  wf_book (apply_levels a ls b) /\
  side_active is_ask (apply_levels a ls b)
  = if Bool.eqb is_ask a
    then fold_left (fun l x => spec_apply a (lv_price x) (lv_quantity x) l) ls (side_active a b)
    else side_active is_ask b.
Proof.
  revert b. induction ls as [|[p q] ls IH]; intros b Hb; simpl.
  - split; [done|]. destruct (Bool.eqb is_ask a) eqn:E; [|done]. apply eqb_prop in E. by subst.
  - destruct (IH (ApplyLevel p q a b)) as [H1 H2].
    { apply wf_book_set_side; [apply apply_level_side_wf; by apply wb_side|done]. }
    unfold apply_levels in *. split; [done|]. rewrite H2.
    unfold side_active, ApplyLevel. rewrite get_set_side, get_set_side_dec.
    rewrite apply_level_side_active by (by apply wb_side). by destruct (Bool.eqb is_ask a).
Qed.

Lemma batch_commit_spec (b : RithmicOrderBook) (ls : list (PriceLevel * bool)) (is_ask : bool) :
  wf_book b ->
  let buffered := buffer_all ls (BeginBatch b) in
  side_active is_ask buffered = side_active is_ask b /\
  side_active is_ask (CommitBatch buffered)
  = fold_left (fun l x => spec_apply is_ask (lv_price x) (lv_quantity x) l)
      (take kMaxOrderbookLevels (side_levels is_ask ls)) (side_active is_ask b) /\
  batch_active_ (CommitBatch buffered) = false /\
  pending is_ask (CommitBatch buffered) = [].
Proof.
  intros Hb buffered.
  assert (Hbb : wf_book (BeginBatch b)) by (destruct Hb; split; simpl; (done || lia)).
  destruct (buffer_all_spec ls _ Hbb) as [Hw Hs]. fold buffered in Hw, Hs.
  assert (Hp : forall a, pending a buffered = take kMaxOrderbookLevels (side_levels a ls))
    by (intros a; destruct (Hs a) as [_ ->]; by destruct a).
  split_and!; [destruct (Hs is_ask) as [-> _]; by destruct is_ask| |reflexivity|destruct is_ask; apply take_0].
  unfold CommitBatch. cbv zeta.
  set (b1 := apply_levels false (pending false buffered) buffered).
  destruct (apply_levels_active is_ask false (pending false buffered) buffered Hw) as [Hw1 H1].
  fold b1 in Hw1, H1.
  destruct (apply_levels_active is_ask true (pending true b1) b1 Hw1) as [_ H2].
  change (side_active is_ask (apply_levels true (pending true b1) b1)
          = fold_left (fun l x => spec_apply is_ask (lv_price x) (lv_quantity x) l)
              (take kMaxOrderbookLevels (side_levels is_ask ls)) (side_active is_ask b)).
  assert (Hpb : pending true b1 = pending true buffered) by apply pending_apply_levels.
  rewrite H2, Hpb, !Hp. destruct (Hs is_ask) as [Hside _].
  destruct is_ask; cbn [Bool.eqb] in *; by rewrite H1, ?Hp, Hside.
Qed.

(** A multi-part update is atomic: while levels are buffered after
    [BeginBatch] the visible book does not change, and [CommitBatch] then
    applies each side's first 100 buffered levels in arrival order, empties the
    buffer and ends the batch. *)
Theorem batch_commit_atomic (b : RithmicOrderBook) (ls : list (PriceLevel * bool)) (is_ask : bool) :
  wf_book b ->
  let buffered := buffer_all ls (BeginBatch b) in
  side_active is_ask buffered = side_active is_ask b /\
  side_active is_ask (CommitBatch buffered)
  = fold_left (fun l x => spec_apply is_ask (lv_price x) (lv_quantity x) l)
      (take kMaxOrderbookLevels (side_levels is_ask ls)) (side_active is_ask b) /\
  batch_active_ (CommitBatch buffered) = false /\
  pending is_ask (CommitBatch buffered) = [].
Proof. apply batch_commit_spec. Qed.

Lemma copy_until_nul_c_str k l : copy_until_nul k l = take k (c_str l).
Proof.
  revert l. induction k as [|k IH]; intros [|c l]; simpl; try done.
  destruct (Ascii.eqb c NUL); [done|]. simpl. by rewrite IH.
Qed.

Lemma c_str_no_nul l : no_nul (c_str l).
Proof.
  induction l as [|c l IH]; simpl; [constructor|].
  destruct (Ascii.eqb_spec c NUL); constructor; done.
Qed.

Lemma copy_symbol_11_c_str src dst :
  length dst = 12%nat ->
  c_str (copy_symbol_11 src dst) = take 11 (c_str src) /\ length (copy_symbol_11 src dst) = 12%nat.
Proof.
  intros Hd. unfold copy_symbol_11. rewrite copy_until_nul_c_str.
  assert (Hl : (length (take 11 (c_str src)) <= 11)%nat) by (rewrite length_take; lia).
  split.
  - apply terminated_copy_c_str; [lia|]. apply no_nul_take, c_str_no_nul.
  - rewrite length_insert, length_splice; [done|lia].
Qed.

Lemma SnapshotTo_spec (b : RithmicOrderBook) (out : DepthUpdateEvent) (ts : Z) :
  wf_book b -> wf_depth out ->
  let e := SnapshotTo b out ts in
  depth_bids e = side_active false b /\ depth_asks e = side_active true b /\
  dp_channel_id e = ob_channel_id_ b /\ dp_exchange_timestamp e = ts /\
  c_str (dp_symbol e) = take 11 (c_str (ob_symbol_ b)) /\ wf_depth e.
Proof.
  intros Hb Ho. destruct Hb as [[Hlb Hnb] [Hla Hna] _ _ _ _ _], Ho as [Hs Hob Hoa _ _]. simpl in *.
  destruct (copy_symbol_11_c_str (ob_symbol_ b) (dp_symbol out) Hs) as [Hc Hcl].
  assert (Htake : forall n (l d : list PriceLevel), length l = kMaxOrderbookLevels -> length d = kMaxOrderbookLevels ->
            (n <= kMaxOrderbookLevels)%nat -> take n (splice 0 (take n l) d) = take n l).
  { intros n l d H1 H2 H3. unfold splice. rewrite take_0. simpl.
    rewrite take_app_le by (rewrite length_take; lia). rewrite take_take. f_equal. lia. }
  assert (Hlen : forall n (l d : list PriceLevel), length l = kMaxOrderbookLevels -> length d = kMaxOrderbookLevels ->
            (n <= kMaxOrderbookLevels)%nat -> length (splice 0 (take n l) d) = kMaxOrderbookLevels).
  { intros n l d H1 H2 H3. rewrite length_splice; [done|]. rewrite length_take. lia. }
  split_and!; try done; [by apply Htake|by apply Htake|]. split; simpl; try done; by apply Hlen.
Qed.

(** [SnapshotTo] exports exactly the book: the event's declared bids and
    asks are the two active sides, its channel, timestamp and symbol are the
    book's, and the event is well formed whatever was in the output buffer. *)
Theorem SnapshotTo_exact (b : RithmicOrderBook) (out : DepthUpdateEvent) (ts : Z) :
  wf_book b -> wf_depth out ->
  let e := SnapshotTo b out ts in
  depth_bids e = side_active false b /\ depth_asks e = side_active true b /\
  dp_channel_id e = ob_channel_id_ b /\ dp_exchange_timestamp e = ts /\
  c_str (dp_symbol e) = take 11 (c_str (ob_symbol_ b)) /\ wf_depth e.
Proof. apply SnapshotTo_spec. Qed.

(** ** Witnesses *)

Definition d1 : double := d_of_Z 1.
Definition d2 : double := d_of_Z 2.
Definition d3 : double := d_of_Z 3.

Lemma order_book_invariant_witness :
  let os := [OpLevel d2 d1 false; OpLevel d3 d2 false; OpBegin; OpBuffer d1 d3 true; OpCommit] in
  Forall op_ok os /\
  side_active false (run_ops os book0) = [mkLevel d3 d2; mkLevel d2 d1] /\
  good_book (run_ops os book0).
Proof.
  intros os. assert (H : Forall op_ok os) by (repeat constructor; discriminate).
  split; [exact H|]. split; [reflexivity|]. exact (proj1 (order_book_invariant os H)).
Defined.

Lemma ApplyLevel_refines_witness :
  good_book book0 /\
  side_active true (ApplyLevel d2 d3 true book0) = spec_apply true d2 d3 [] /\
  qty_at d2 (side_active true (ApplyLevel d2 d3 true book0)) = Some d3.
Proof.
  destruct (ApplyLevel_refines book0 d2 d3 true book0_good ltac:(discriminate)) as (H & _ & Hq).
  split; [exact book0_good|]. split; [exact H|]. rewrite Hq. reflexivity.
Defined.

Lemma batch_commit_atomic_witness :
  wf_book book0 /\
  side_active false (buffer_all [(mkLevel d2 d1, false)] (BeginBatch book0)) = [] /\
  side_active false (CommitBatch (buffer_all [(mkLevel d2 d1, false)] (BeginBatch book0))) = [mkLevel d2 d1].
Proof.
  pose proof (gb_wf _ book0_good) as Hw. split; [exact Hw|].
  destruct (batch_commit_atomic book0 [(mkLevel d2 d1, false)] false Hw) as (H1 & H2 & _).
  split; [exact H1|]. rewrite H2. reflexivity.
Defined.

Lemma depth0_wf : wf_depth depth0.
Proof. split; simpl; rewrite ?length_replicate; (reflexivity || lia). Qed.

Lemma SnapshotTo_exact_witness :
  let b := ApplyLevel d2 d1 true book0 in
  wf_book b /\ depth_asks (SnapshotTo b depth0 7) = [mkLevel d2 d1].
Proof.
  intros b. assert (Hw : wf_book b) by (apply ApplyLevel_good; [discriminate|discriminate|apply book0_good]).
  split; [exact Hw|].
  destruct (SnapshotTo_exact b depth0 7 Hw depth0_wf) as (_ & H & _). rewrite H. reflexivity.
Defined.
