(* ===== verification/SpscQueue.v ===== *)
(** * The single-producer single-consumer ring buffer

    [SPSCQueue<T, kCapacity>] of src/common/spsc_queue.h: a fixed array and
    two 64-bit positions that only grow (modulo [2^64]).  The operations are
    first the sequential functions; then the same code as two threads whose
    loads and stores interleave, each atomic access being a step, with the
    theorem that every interleaving is a run of a bounded FIFO.  The
    [FifoQueue] class is what the queue's clients rely on. *)
From S2P Require Import Prelude.

(** ** What a queue promises to its clients *)

Class FifoQueue (Q A : Type) := {
  fq_cap : nat;
  fq_wf : Q -> Prop;
  fq_contents : Q -> list A;
  fq_push : A -> Q -> bool * Q;
  fq_pop : Q -> option (A * Q);
  fq_bounded q : fq_wf q -> (length (fq_contents q) <= fq_cap)%nat;
  fq_push_full q x : fq_wf q -> length (fq_contents q) = fq_cap -> fq_push x q = (false, q);
  fq_push_room q x : fq_wf q -> (length (fq_contents q) < fq_cap)%nat ->
    exists q', fq_push x q = (true, q') /\ fq_wf q' /\ fq_contents q' = fq_contents q ++ [x];
  fq_pop_nil q : fq_wf q -> fq_contents q = [] -> fq_pop q = None;
  fq_pop_cons q x l : fq_wf q -> fq_contents q = x :: l ->
    exists q', fq_pop q = Some (x, q') /\ fq_wf q' /\ fq_contents q' = l
}.

(** ** The bounded FIFO as a labelled transition system *)

Inductive fifo_event (A : Type) :=
| EvPush (x : A)
| EvPushFull
| EvPop (x : A)
| EvPopEmpty.
Arguments EvPush {A} x.
Arguments EvPushFull {A}.
Arguments EvPop {A} x.
Arguments EvPopEmpty {A}.

Inductive fifo_step {A} (cap : nat) : list A -> fifo_event A -> list A -> Prop :=
| fifo_push l x : (length l < cap)%nat -> fifo_step cap l (EvPush x) (l ++ [x])
| fifo_full l : length l = cap -> fifo_step cap l EvPushFull l
| fifo_pop x l : fifo_step cap (x :: l) (EvPop x) l
| fifo_empty : fifo_step cap [] EvPopEmpty [].

Inductive fifo_run {A} (cap : nat) : list A -> list (fifo_event A) -> list A -> Prop :=
| fifo_run_nil l : fifo_run cap l [] l
| fifo_run_snoc l tr l1 e l2 :
    fifo_run cap l tr l1 -> fifo_step cap l1 e l2 -> fifo_run cap l (tr ++ [e]) l2.

(** The values a trace pushed, and those it popped. *)
Definition pushed_of {A} (tr : list (fifo_event A)) : list A :=
  omap (fun e => match e with EvPush x => Some x | _ => None end) tr.
Definition popped_of {A} (tr : list (fifo_event A)) : list A :=
  omap (fun e => match e with EvPop x => Some x | _ => None end) tr.

(** Nothing is lost, duplicated or reordered. *)
Lemma fifo_run_conserves {A} cap (l0 l : list A) tr :
  fifo_run cap l0 tr l -> l0 ++ pushed_of tr = popped_of tr ++ l.
Proof.
  induction 1 as [l|l tr l1 e l2 _ IH Hs]; [by rewrite app_nil_r|].
  unfold pushed_of, popped_of in *. rewrite !omap_app.
  destruct Hs; simpl in *; rewrite ?app_nil_r in *.
  - by rewrite !app_assoc, IH.
  - done.
  - by rewrite IH, <- app_assoc.
  - done.
Qed.

Lemma fifo_run_bounded {A} cap (l0 l : list A) tr :
  fifo_run cap l0 tr l -> (length l0 <= cap)%nat -> (length l <= cap)%nat.
Proof.
  induction 1 as [l|l tr l1 e l2 _ IH Hs]; intros H0; [done|]. specialize (IH H0).
  destruct Hs; simpl in *; rewrite ?length_app; simpl; lia.
Qed.

Section queue.
Context {A : Type} `{Inhabited A}.
(** [kCapacity = 2^k]; the [static_assert] of the source demands a power of two. *)
Context (k : Z).

Definition kCapacity : Z := 2 ^ k.

(** Source: src/common/spsc_queue.h:60-64, SPSCQueue (data members). *)
Record SPSCQueue := mkSPSC {
  slots_ : list A;
  write_pos_ : Z;
  read_pos_ : Z
}.

Definition spsc0 : SPSCQueue := mkSPSC (replicate (Z.to_nat kCapacity) inhabitant) 0 0.

(** Source: src/common/spsc_queue.h:29-29, SPSCQueue::kMask.
    The slot of a position: [pos & kMask]. *)
Definition slot_of (pos : Z) : nat := Z.to_nat (Z.land pos (kCapacity - 1)).

(** Source: src/common/spsc_queue.h:39-48, SPSCQueue::try_push. *)
Definition try_push (item : A) (q : SPSCQueue) : bool * SPSCQueue :=
  let w := write_pos_ q in
  let r := read_pos_ q in
  if kCapacity <=? u64 (w - r) then (false, q)
  else (true, mkSPSC (<[slot_of w := item]> (slots_ q)) (u64 (w + 1)) r).

(** Source: src/common/spsc_queue.h:51-60, SPSCQueue::try_pop. *)
Definition try_pop (q : SPSCQueue) : option (A * SPSCQueue) :=
  let r := read_pos_ q in
  let w := write_pos_ q in
  if r =? w then None
  else Some (slots_ q !!! slot_of r, mkSPSC (slots_ q) w (u64 (r + 1))).

(** ** The representation: unbounded ghost positions [R <= W]

    [rep q R l]: the queue holds [l], its oldest element was the [R]-th ever
    pushed.  The machine positions are [R] and [R + |l|] modulo [2^64]. *)

Hypothesis Hk : 0 <= k <= 63.

Record rep (q : SPSCQueue) (R : Z) (l : list A) : Prop := {
  rep_len : length (slots_ q) = Z.to_nat kCapacity;
  rep_R : 0 <= R;
  rep_read : read_pos_ q = u64 R;
  rep_write : write_pos_ q = u64 (R + Z.of_nat (length l));
  rep_bound : Z.of_nat (length l) <= kCapacity;
  rep_slots i x : l !! i = Some x -> slots_ q !! slot_of (R + Z.of_nat i) = Some x
}.

Lemma kCapacity_pos : 0 < kCapacity <= 2 ^ 63.
Proof using Hk.
  unfold kCapacity. split; [apply Z.pow_pos_nonneg; lia|]. apply Z.pow_le_mono_r; lia.
Qed.

Lemma slot_of_mod x : slot_of x = Z.to_nat (x mod kCapacity).
Proof using Hk. unfold slot_of, kCapacity. by rewrite land_mask by lia. Qed.

Lemma slot_of_u64 x : slot_of (u64 x) = slot_of x.
Proof using Hk. rewrite !slot_of_mod. unfold kCapacity. by rewrite wrap_mod_pow2 by lia. Qed.

Lemma slot_of_lt x : (slot_of x < Z.to_nat kCapacity)%nat.
Proof using Hk.
  rewrite slot_of_mod. pose proof kCapacity_pos.
  pose proof (Z.mod_pos_bound x kCapacity ltac:(lia)). lia.
Qed.

Lemma slot_of_inj x y : Z.abs (x - y) < kCapacity -> slot_of x = slot_of y -> x = y.
Proof using Hk.
  rewrite !slot_of_mod. pose proof kCapacity_pos as [Hp _]. intros Ha He.
  apply (mod_inj_window kCapacity); [lia| |done].
  pose proof (Z.mod_pos_bound x kCapacity Hp). pose proof (Z.mod_pos_bound y kCapacity Hp). lia.
Qed.

(** The distance the code computes from the wrapped positions is the number of elements. *)
Lemma u64_distance R n : 0 <= n <= 2 ^ 63 -> u64 (u64 (R + n) - u64 R) = n.
Proof using.
  intros Hn. rewrite wrap_sub_wrap. replace (R + n - R) with n by lia.
  apply wrap_small. unfold in_range. lia.
Qed.

Lemma u64_eq_distance R n : 0 <= n <= 2 ^ 63 -> u64 R = u64 (R + n) <-> n = 0.
Proof using.
  intros Hn. split; [|intros ->; f_equal; lia]. intros He.
  rewrite <- (u64_distance R n Hn), <- He, Z.sub_diag. done.
Qed.

Lemma rep_full q R l : rep q R l -> (kCapacity <=? u64 (write_pos_ q - read_pos_ q))
  = (Z.to_nat kCapacity <=? length l)%nat.
Proof using Hk.
  intros Hr. pose proof kCapacity_pos. pose proof (rep_bound _ _ _ Hr).
  rewrite (rep_write _ _ _ Hr), (rep_read _ _ _ Hr), u64_distance by lia.
  destruct (Z.leb_spec kCapacity (Z.of_nat (length l))), (Nat.leb_spec (Z.to_nat kCapacity) (length l)); lia.
Qed.

Lemma rep_empty q R l : rep q R l -> (read_pos_ q =? write_pos_ q) = bool_decide (l = []).
Proof using Hk.
  intros Hr. pose proof kCapacity_pos. pose proof (rep_bound _ _ _ Hr).
  rewrite (rep_write _ _ _ Hr), (rep_read _ _ _ Hr).
  assert (Hb : 0 <= Z.of_nat (length l) <= 2 ^ 63) by lia.
  pose proof (u64_eq_distance R _ Hb) as Hd.
  destruct l as [|x l]; simpl in *.
  - apply Z.eqb_eq, Hd. done.
  - apply Z.eqb_neq. intros He. apply Hd in He. lia.
Qed.

(** Writing the slot at the write position keeps every slot in use. *)
Lemma rep_write_slot q R l x :
  rep q R l -> (length l < Z.to_nat kCapacity)%nat ->
  rep (mkSPSC (<[slot_of (write_pos_ q) := x]> (slots_ q)) (write_pos_ q) (read_pos_ q)) R l /\
  rep (mkSPSC (<[slot_of (write_pos_ q) := x]> (slots_ q)) (u64 (write_pos_ q + 1)) (read_pos_ q))
      R (l ++ [x]).
Proof using Hk.
  intros Hr Hlt. pose proof kCapacity_pos. destruct Hr as [Hl HR Hread Hw Hb Hs].
  assert (Hold : forall i y, l !! i = Some y ->
     <[slot_of (write_pos_ q) := x]> (slots_ q) !! slot_of (R + Z.of_nat i) = Some y).
  { intros i y Hi. pose proof (lookup_lt_Some _ _ _ Hi). rewrite list_lookup_insert_ne; [by apply Hs|].
    rewrite Hw, slot_of_u64. intros He. apply slot_of_inj in He; lia. }
  split; split; simpl; rewrite ?length_insert; try done.
  - rewrite Hw, wrap_add_l, length_app. simpl. f_equal. lia.
  - rewrite length_app. simpl. lia.
  - intros i y Hi. apply lookup_snoc_Some in Hi as [[? Hi]|[-> <-]]; [by apply Hold|].
    rewrite Hw, slot_of_u64. apply list_lookup_insert_eq. rewrite Hl. apply slot_of_lt.
Qed.

(** Moving the read position drops the oldest element. *)
Lemma rep_read_slot q R x l :
  rep q R (x :: l) ->
  slots_ q !!! slot_of (read_pos_ q) = x /\
  rep (mkSPSC (slots_ q) (write_pos_ q) (u64 (read_pos_ q + 1))) (R + 1) l.
Proof using Hk.
  intros [Hl HR Hread Hw Hb Hs]. simpl in Hb, Hw. split.
  - apply list_lookup_total_correct. rewrite Hread, slot_of_u64.
    rewrite <- (Hs 0%nat x eq_refl). f_equal. f_equal. lia.
  - split; simpl; try (done || lia).
    + by rewrite Hread, wrap_add_l.
    + rewrite Hw. f_equal. lia.
    + intros i y Hi. rewrite <- (Hs (S i) y Hi). f_equal. f_equal. lia.
Qed.

Lemma spsc0_rep : rep spsc0 0 [].
Proof using Hk.
  pose proof kCapacity_pos. split; simpl; rewrite ?length_replicate; (done || lia).
Qed.

Lemma try_push_rep q R l x :
  rep q R l ->
  if (length l <? Z.to_nat kCapacity)%nat
  then exists q', try_push x q = (true, q') /\ rep q' R (l ++ [x])
  else try_push x q = (false, q).
Proof using Hk.
  intros Hr. unfold try_push. cbv zeta. rewrite (rep_full _ _ _ Hr).
  destruct (Nat.ltb_spec (length l) (Z.to_nat kCapacity)) as [Hlt|Hge].
  - destruct (Nat.leb_spec (Z.to_nat kCapacity) (length l)); [lia|].
    eexists. split; [done|]. by apply rep_write_slot.
  - destruct (Nat.leb_spec (Z.to_nat kCapacity) (length l)); [done|lia].
Qed.

Lemma try_pop_rep q R l :
  rep q R l ->
  match l with
  | [] => try_pop q = None
  | x :: l' => exists q', try_pop q = Some (x, q') /\ rep q' (R + 1) l'
  end.
Proof using Hk.
  intros Hr. unfold try_pop. cbv zeta. rewrite (rep_empty _ _ _ Hr).
  destruct l as [|x l]; [done|]. rewrite bool_decide_false by done.
  destruct (rep_read_slot _ _ _ _ Hr) as [Hx Hr']. eexists. rewrite Hx. by split.
Qed.
End queue.
Arguments SPSCQueue A : clear implicits.

(** ** The contents as a function of the machine state *)

Section contents.
Context {A : Type} `{Inhabited A} (k : Z) (Hk : 0 <= k <= 63).

Definition contents (q : SPSCQueue A) : list A :=
  (fun i => slots_ q !!! slot_of k (read_pos_ q + Z.of_nat i))
    <$> seq 0 (Z.to_nat (u64 (write_pos_ q - read_pos_ q))).

Lemma rep_contents q R l : rep k q R l -> contents q = l.
Proof using Hk.
  intros Hr. unfold contents. pose proof (kCapacity_pos k Hk). destruct Hr as [Hl HR Hread Hw Hb Hs].
  rewrite Hw, Hread, u64_distance by lia. rewrite Nat2Z.id.
  apply list_eq. intros i. rewrite list_lookup_fmap.
  destruct (l !! i) as [x|] eqn:Hi.
  - pose proof (lookup_lt_Some _ _ _ Hi). rewrite lookup_seq_lt by done. simpl. f_equal.
    apply list_lookup_total_correct. rewrite <- (Hs i x Hi).
    rewrite <- (slot_of_u64 k Hk (u64 R + _)), wrap_add_l, (slot_of_u64 k Hk). done.
  - apply lookup_ge_None in Hi. rewrite lookup_seq_ge by done. done.
Qed.

Definition spsc_wf (q : SPSCQueue A) : Prop := exists R, rep k q R (contents q).

Lemma rep_wf q R l : rep k q R l -> spsc_wf q /\ contents q = l.
Proof using Hk. intros Hr. pose proof (rep_contents _ _ _ Hr) as Hc. split; [exists R; by rewrite Hc|done]. Qed.

#[export] Program Instance spsc_fifo : FifoQueue (SPSCQueue A) A := {|
  fq_cap := Z.to_nat (kCapacity k);
  fq_wf := spsc_wf;
  fq_contents := contents;
  fq_push := try_push k;
  fq_pop := try_pop k
|}.
Next Obligation. intros q [R Hr]. pose proof (rep_bound _ _ _ _ Hr). lia. Qed.
Next Obligation.
  intros q x [R Hr] Hf. pose proof (try_push_rep k Hk _ _ _ x Hr) as Hp.
  destruct (Nat.ltb_spec (length (contents q)) (Z.to_nat (kCapacity k))); [lia|done].
Qed.
Next Obligation.
  intros q x [R Hr] Hf. pose proof (try_push_rep k Hk _ _ _ x Hr) as Hp.
  destruct (Nat.ltb_spec (length (contents q)) (Z.to_nat (kCapacity k))); [|lia].
  destruct Hp as (q' & Hq & Hr'). exists q'. split; [done|]. by eapply rep_wf.
Qed.
Next Obligation. intros q [R Hr] Hf. pose proof (try_pop_rep k Hk _ _ _ Hr) as Hp. by rewrite Hf in Hp. Qed.
Next Obligation.
  intros q x l [R Hr] Hf. pose proof (try_pop_rep k Hk _ _ _ Hr) as Hp. rewrite Hf in Hp.
  destruct Hp as (q' & Hq & Hr'). exists q'. split; [done|]. by eapply rep_wf.
Qed.
End contents.

(** ** Two threads

    The producer's and the consumer's program counters with their local
    variables.  A step is one atomic access (the load of the own position is
    merged with the first access to shared data that follows it, since only
    its owner writes it).  The slot write and the position store are separate
    steps, so the consumer may run between them. *)

Section threads.
Context {A : Type} `{Inhabited A} (k : Z) (Hk : 0 <= k <= 63).

Inductive producer_pc :=
| PIdle
| PStart (item : A)            (* inside try_push, nothing loaded yet *)
| PReady (item : A) (w : Z)    (* space seen; about to write slots_[w & kMask] *)
| PWrote (item : A) (w : Z).   (* slot written; about to publish w + 1 *)

Inductive consumer_pc :=
| CIdle
| CStart
| CReady (r : Z)               (* data seen; about to read slots_[r & kMask] *)
| CRead (r : Z) (v : A).       (* slot copied to out; about to publish r + 1 *)

Record spsc_state := mkState { st_q : SPSCQueue A; st_p : producer_pc; st_c : consumer_pc }.

Inductive spsc_step : spsc_state -> option (fifo_event A) -> spsc_state -> Prop :=
| st_push_call q c item : spsc_step (mkState q PIdle c) None (mkState q (PStart item) c)
| st_push_full q c item :
    kCapacity k <= u64 (write_pos_ q - read_pos_ q) ->
    spsc_step (mkState q (PStart item) c) (Some EvPushFull) (mkState q PIdle c)
| st_push_load q c item :
    u64 (write_pos_ q - read_pos_ q) < kCapacity k ->
    spsc_step (mkState q (PStart item) c) None (mkState q (PReady item (write_pos_ q)) c)
| st_push_slot s w r c item w0 :
    spsc_step (mkState (mkSPSC s w r) (PReady item w0) c) None
              (mkState (mkSPSC (<[slot_of k w0 := item]> s) w r) (PWrote item w0) c)
| st_push_publish s w r c item w0 :
    spsc_step (mkState (mkSPSC s w r) (PWrote item w0) c) (Some (EvPush item))
              (mkState (mkSPSC s (u64 (w0 + 1)) r) PIdle c)
| st_pop_call q p : spsc_step (mkState q p CIdle) None (mkState q p CStart)
| st_pop_empty q p :
    read_pos_ q = write_pos_ q ->
    spsc_step (mkState q p CStart) (Some EvPopEmpty) (mkState q p CIdle)
| st_pop_load q p :
    read_pos_ q <> write_pos_ q ->
    spsc_step (mkState q p CStart) None (mkState q p (CReady (read_pos_ q)))
| st_pop_slot q p r :
    spsc_step (mkState q p (CReady r)) None (mkState q p (CRead r (slots_ q !!! slot_of k r)))
| st_pop_publish s w r p r0 v :
    spsc_step (mkState (mkSPSC s w r) p (CRead r0 v)) (Some (EvPop v))
              (mkState (mkSPSC s w (u64 (r0 + 1))) p CIdle).

Inductive spsc_run : spsc_state -> list (fifo_event A) -> spsc_state -> Prop :=
| spsc_run_nil s : spsc_run s [] s
| spsc_run_silent s tr s1 s2 : spsc_run s tr s1 -> spsc_step s1 None s2 -> spsc_run s tr s2
| spsc_run_event s tr s1 e s2 :
    spsc_run s tr s1 -> spsc_step s1 (Some e) s2 -> spsc_run s (tr ++ [e]) s2.

Definition spsc_init : spsc_state := mkState (spsc0 k) PIdle CIdle.

(** What each program counter knows about the shared queue. *)
Definition producer_ok (q : SPSCQueue A) (l : list A) (p : producer_pc) : Prop :=
  match p with
  | PIdle | PStart _ => True
  | PReady _ w => w = write_pos_ q /\ (length l < Z.to_nat (kCapacity k))%nat
  | PWrote x w => w = write_pos_ q /\ (length l < Z.to_nat (kCapacity k))%nat /\
                  slots_ q !! slot_of k w = Some x
  end.

Definition consumer_ok (q : SPSCQueue A) (l : list A) (c : consumer_pc) : Prop :=
  match c with
  | CIdle | CStart => True
  | CReady r => r = read_pos_ q /\ l <> []
  | CRead r v => r = read_pos_ q /\ head l = Some v
  end.

Definition spsc_inv (s : spsc_state) (l : list A) : Prop :=
  exists R, rep k (st_q s) R l /\ producer_ok (st_q s) l (st_p s) /\ consumer_ok (st_q s) l (st_c s).

(** The two slots the threads are about to touch differ: no data race. *)
Definition race_free (s : spsc_state) : Prop :=
  match st_p s, st_c s with
  | PReady _ w, CReady r => slot_of k w <> slot_of k r
  | _, _ => True
  end.

Lemma rep_publish (q : SPSCQueue A) R (l : list A) x :
  rep k q R l -> (length l < Z.to_nat (kCapacity k))%nat ->
  slots_ q !! slot_of k (write_pos_ q) = Some x ->
  rep k (mkSPSC (slots_ q) (u64 (write_pos_ q + 1)) (read_pos_ q)) R (l ++ [x]).
Proof using Hk.
  intros Hr Hlt Hx. destruct (rep_write_slot k Hk _ _ _ x Hr Hlt) as [_ H2].
  by rewrite (list_insert_id _ _ _ Hx) in H2.
Qed.

Lemma spsc_inv_race_free s l : spsc_inv s l -> race_free s.
Proof using Hk.
  destruct s as [q p c]. intros (R & Hr & Hp & Hc). unfold race_free. simpl in *.
  destruct p, c; try done. destruct Hp as [-> Hlt], Hc as [-> Hne].
  pose proof (kCapacity_pos k Hk). destruct Hr as [Hl HR Hread Hw Hb Hs].
  rewrite Hread, Hw, !(slot_of_u64 k Hk). intros He.
  apply (slot_of_inj k Hk) in He; destruct l; simpl in *; (done || lia).
Qed.

Lemma consumer_ok_app q q' l x c :
  read_pos_ q' = read_pos_ q -> consumer_ok q l c -> consumer_ok q' (l ++ [x]) c.
Proof using.
  intros Hr Hc. destruct c; simpl in *; try done; rewrite Hr.
  - by destruct Hc as [-> ?], l.
  - destruct Hc as [-> Hh], l; [done|]. by split.
Qed.

Lemma producer_ok_tail q q' l x p :
  write_pos_ q' = write_pos_ q -> slots_ q' = slots_ q ->
  producer_ok q (x :: l) p -> producer_ok q' l p.
Proof using.
  intros Hw Hs Hp. destruct p; simpl in *; try done; rewrite Hw, ?Hs;
    (destruct Hp as (? & ? & ?) || destruct Hp as [? ?]); split_and!; (done || lia).
Qed.

(** Each step is a step of the bounded FIFO (or no step) that keeps the invariant. *)
Lemma spsc_step_sim s e s' l :
  spsc_step s e s' -> spsc_inv s l ->
  match e with
  | None => spsc_inv s' l
  | Some ev => exists l', fifo_step (Z.to_nat (kCapacity k)) l ev l' /\ spsc_inv s' l'
  end.
Proof using Hk.
  pose proof (kCapacity_pos k Hk) as Hcap.
  intros Hs (R & Hr & Hp & Hc). destruct Hs; simpl in *.
  - exists R. by split_and!.
  - exists l. split; [|exists R; by split_and!]. constructor.
    pose proof (rep_full k Hk _ _ _ Hr) as Hf. pose proof (rep_bound _ _ _ _ Hr).
    destruct (Z.leb_spec (kCapacity k) (u64 (write_pos_ q - read_pos_ q))); [|lia].
    symmetry in Hf. bool_to_prop. lia.
  - exists R. split_and!; try done. simpl. split; [done|].
    pose proof (rep_full k Hk _ _ _ Hr) as Hf.
    destruct (Z.leb_spec (kCapacity k) (u64 (write_pos_ q - read_pos_ q))); [lia|].
    symmetry in Hf. by bool_to_prop.
  - destruct Hp as [-> Hlt]. exists R. destruct (rep_write_slot k Hk _ _ _ item Hr Hlt) as [H1 _].
    simpl in *. split_and!; try done.
    apply list_lookup_insert_eq. pose proof (rep_len _ _ _ _ Hr) as Hlen. simpl in Hlen.
    rewrite Hlen. by apply slot_of_lt.
  - destruct Hp as (-> & Hlt & Hx). exists (l ++ [item]). split; [by constructor|].
    exists R. split_and!; [by apply (rep_publish (mkSPSC s w r))|done|by eapply consumer_ok_app].
  - exists R. by split_and!.
  - assert (l = []) as ->.
    { pose proof (rep_empty k Hk _ _ _ Hr) as He.
      rewrite (proj2 (Z.eqb_eq _ _)) in He by done. symmetry in He. by apply bool_decide_eq_true in He. }
    exists []. split; [constructor|]. exists R. by split_and!.
  - exists R. split_and!; try done. simpl. split; [done|].
    pose proof (rep_empty k Hk _ _ _ Hr) as He.
    rewrite (proj2 (Z.eqb_neq _ _)) in He by done. symmetry in He. by apply bool_decide_eq_false in He.
  - destruct Hc as [-> Hne]. exists R. split_and!; try done. simpl. split; [done|].
    destruct l as [|x l]; [done|]. destruct (rep_read_slot k Hk _ _ _ _ Hr) as [-> _]. done.
  - destruct Hc as [-> Hh]. destruct l as [|x l]; [done|]. simplify_eq/=.
    exists l. split; [constructor|]. exists (R + 1).
    split_and!; [by apply (rep_read_slot k Hk _ _ _ _ Hr)|by eapply (producer_ok_tail _ _ _ v)|done].
Qed.

Lemma spsc_run_sim s0 tr s l0 :
  spsc_run s0 tr s -> spsc_inv s0 l0 ->
  exists l, fifo_run (Z.to_nat (kCapacity k)) l0 tr l /\ spsc_inv s l.
Proof using Hk.
  induction 1 as [s|s tr s1 s2 _ IH Hs|s tr s1 e s2 _ IH Hs]; intros Hi.
  - exists l0. split; [constructor|done].
  - destruct (IH Hi) as (l & Hr & Hl). exists l. split; [done|]. apply (spsc_step_sim _ _ _ _ Hs Hl).
  - destruct (IH Hi) as (l & Hr & Hl). destruct (spsc_step_sim _ _ _ _ Hs Hl) as (l' & Hf & Hl').
    exists l'. split; [by econstructor|done].
Qed.

Lemma spsc_init_inv : spsc_inv spsc_init [].
Proof using Hk. exists 0. split_and!; try done. by apply spsc0_rep. Qed.

(** A [try_push] or [try_pop] that runs without interruption is the sequential function. *)
Lemma producer_runs_try_push q c item :
  let '(ok, q') := try_push k item q in
  spsc_run (mkState q PIdle c) [if ok then EvPush item else EvPushFull] (mkState q' PIdle c).
Proof using.
  unfold try_push. cbv zeta.
  assert (H1 : spsc_run (mkState q PIdle c) [] (mkState q (PStart item) c))
    by (econstructor; [constructor|constructor]).
  destruct (Z.leb_spec (kCapacity k) (u64 (write_pos_ q - read_pos_ q))) as [Hf|Hf].
  - apply (spsc_run_event _ [] _ EvPushFull _ H1). by constructor.
  - destruct q as [s w r]. eapply (spsc_run_event _ [] _ (EvPush item)); [|constructor].
    eapply spsc_run_silent; [|constructor]. eapply spsc_run_silent; [exact H1|by constructor].
Qed.

Lemma consumer_runs_try_pop q p :
  match try_pop k q with
  | None => spsc_run (mkState q p CIdle) [EvPopEmpty] (mkState q p CIdle)
  | Some (v, q') => spsc_run (mkState q p CIdle) [EvPop v] (mkState q' p CIdle)
  end.
Proof using.
  unfold try_pop. cbv zeta.
  assert (H1 : spsc_run (mkState q p CIdle) [] (mkState q p CStart))
    by (econstructor; [constructor|constructor]).
  destruct (Z.eqb_spec (read_pos_ q) (write_pos_ q)) as [Hf|Hf].
  - apply (spsc_run_event _ [] _ EvPopEmpty _ H1). by constructor.
  - destruct q as [s w r]. eapply (spsc_run_event _ [] _ (EvPop _)); [|constructor].
    eapply spsc_run_silent; [|constructor]. eapply spsc_run_silent; [exact H1|by constructor].
Qed.
End threads.

(** C6: Linearizability of [SPSCQueue]: in every interleaving of one producer
    and one consumer, for every capacity [2^k] with [k <= 63] and across the
    [2^64] wrap of the positions, the sequence of completed operations
    is a run of a bounded FIFO: a push fails only when [kCapacity] elements
    are in the queue, a pop fails only when it is empty, and pops return the
    pushed values in order; and the slot being written is never the slot being
    read. *)
Theorem spsc_linearizable {A} `{Inhabited A} (k : Z) (tr : list (fifo_event A)) (s : @spsc_state A) :
  0 <= k <= 63 ->
  spsc_run k (spsc_init k) tr s ->
  (exists l, fifo_run (Z.to_nat (kCapacity k)) [] tr l /\ pushed_of tr = popped_of tr ++ l) /\
  race_free k s.
Proof.
  intros Hk Hrun.
  destruct (spsc_run_sim k Hk _ _ _ _ Hrun (spsc_init_inv k Hk)) as (l & Hf & Hi).
  split; [|by eapply spsc_inv_race_free].
  exists l. split; [done|]. apply (fifo_run_conserves _ _ _ _ Hf).
Qed.

(** Sequential functional correctness of [try_push] and [try_pop] from any
    state that holds [l] (after any number of operations, the position
    counters possibly wrapped): a push on a full queue changes nothing and
    returns false, otherwise it appends; a pop on an empty queue returns
    nothing, otherwise it returns and removes the oldest element. *)
Theorem spsc_try_push_pop {A} `{Inhabited A} (k R : Z) (q : SPSCQueue A) (l : list A) (x : A) :
  0 <= k <= 63 -> rep k q R l ->
  (if (length l <? Z.to_nat (kCapacity k))%nat
   then exists q', try_push k x q = (true, q') /\ rep k q' R (l ++ [x])
   else try_push k x q = (false, q)) /\
  match l with
  | [] => try_pop k q = None
  | y :: l' => exists q', try_pop k q = Some (y, q') /\ rep k q' (R + 1) l'
  end.
Proof. intros Hk Hr. split; [by apply try_push_rep|by apply try_pop_rep]. Qed.

(** *** Witnesses *)

(** One push and one pop, the consumer starting between the slot write and the
    publication. *)
Lemma spsc_linearizable_witness :
  exists s : spsc_state,
    spsc_run 1 (spsc_init 1) [EvPopEmpty; EvPush 7%nat; EvPop 7%nat] s /\
    exists l, fifo_run 2 [] [EvPopEmpty; EvPush 7%nat; EvPop 7%nat] l.
Proof.
  set (tr := [EvPopEmpty; EvPush 7%nat; EvPop 7%nat]).
  assert (Hrun : exists s, spsc_run 1 (spsc_init 1) tr s).
  { set (q1 := mkSPSC [7; 0]%nat 0 0). set (q2 := mkSPSC [7; 0]%nat 1 0). set (q3 := mkSPSC [7; 0]%nat 1 1).
    exists (mkState q3 PIdle CIdle).
    apply (spsc_run_event _ _ [EvPopEmpty; EvPush 7%nat] (mkState q2 PIdle (CRead 0 7%nat))); [|apply st_pop_publish].
    apply (spsc_run_silent _ _ _ (mkState q2 PIdle (CReady 0))); [|apply st_pop_slot].
    apply (spsc_run_silent _ _ _ (mkState q2 PIdle CStart)); [|by apply (st_pop_load 1 q2)].
    apply (spsc_run_silent _ _ _ (mkState q2 PIdle CIdle)); [|apply st_pop_call].
    apply (spsc_run_event _ _ [EvPopEmpty] (mkState q1 (PWrote 7%nat 0) CIdle)); [|apply st_push_publish].
    apply (spsc_run_event _ _ [] (mkState q1 (PWrote 7%nat 0) CStart)); [|by apply st_pop_empty].
    apply (spsc_run_silent _ _ _ (mkState q1 (PWrote 7%nat 0) CIdle)); [|apply st_pop_call].
    apply (spsc_run_silent _ _ _ (mkState (spsc0 1) (PReady 7%nat 0) CIdle)); [|exact (st_push_slot 1 [0; 0]%nat 0 0 CIdle 7%nat 0)].
    apply (spsc_run_silent _ _ _ (mkState (spsc0 1) (PStart 7%nat) CIdle)); [|by apply (st_push_load 1 (spsc0 1))].
    apply (spsc_run_silent _ _ _ (mkState (spsc0 1) PIdle CIdle)); [|apply st_push_call]. apply spsc_run_nil. }
  destruct Hrun as [s Hs]. exists s. split; [exact Hs|].
  destruct (spsc_linearizable 1 tr s ltac:(lia) Hs) as [(l & Hl & _) _]. exists l. exact Hl.
Defined.

(** A full queue of capacity 2 whose write position has wrapped to 0. *)
Definition wrapped_queue : SPSCQueue nat := mkSPSC [10; 11]%nat 0 (2 ^ 64 - 2).

Lemma wrapped_queue_rep : rep 1 wrapped_queue (2 ^ 64 - 2) [10; 11]%nat.
Proof.
  split; [reflexivity|lia|reflexivity|reflexivity|unfold kCapacity; simpl; lia|].
  intros [|[|i]] x Hi; simplify_eq/=; reflexivity.
Qed.

Lemma spsc_try_push_pop_witness :
  try_push 1 12%nat wrapped_queue = (false, wrapped_queue) /\
  exists q', try_pop 1 wrapped_queue = Some (10%nat, q') /\ rep 1 q' (2 ^ 64 - 1) [11%nat].
Proof.
  exact (spsc_try_push_pop 1 _ wrapped_queue _ 12%nat ltac:(lia) wrapped_queue_rep).
Defined.
