(* ===== verification/Exchange.v ===== *)
(** * Channels: identifiers, the registry, and the exchange types

    [ComputeChannelId] of src/common/channel_id_hash.h, which the collector and
    the gateway process both evaluate, the process-wide [ChannelRegistry] of
    src/exchange/channel_mapping.cpp, the gateway's [RithmicChannelMap] and the
    Rithmic timestamp helpers of src/exchange/rithmic/rithmic_types.h. *)
From S2P Require Import Prelude Doubles Events.

(** The bytes of a [std::string] or [std::string_view]. *)
Definition bytes (s : string) : list ascii := list_ascii_of_string s.

Definition byte_of (c : ascii) : Z := Z.of_N (N_of_ascii c).

(** ** Exchange types *)

(** Source: src/exchange/exchange_adapter.h:22-22, ParsedType. *)
Inductive ParsedType := PT_NONE | PT_TICK | PT_DEPTH | PT_BOOK_TICKER.

(** Source: src/exchange/exchange_adapter.h:24-24, EventType. *)
Inductive EventType := ET_UNKNOWN | ET_TICK | ET_DEPTH | ET_BOOK_TICKER.

(** Source: src/exchange/exchange_adapter.h:26-31, ParseResult. *)
Record ParseResult := mkParse {
  pr_type : ParsedType;
  pr_tick : TickData;
  pr_depth : DepthUpdateEvent;
  pr_book_ticker : BookTickerEvent
}.

(** Source: src/exchange/exchange_adapter.h:33-33, ChannelType. *)
Inductive ChannelType := Spot | Perpetual | Futures.

#[export] Instance EventType_eq_dec : EqDecision EventType.
Proof. solve_decision. Defined.
#[export] Instance ChannelType_eq_dec : EqDecision ChannelType.
Proof. solve_decision. Defined.

(** Source: src/exchange/exchange_adapter.h:35-40, ParseChannelType.
    [None] stands for the [std::invalid_argument] it throws. *)
Definition ParseChannelType (s : string) : option ChannelType :=
  if (s =? "spot")%string then Some Spot
  else if (s =? "perpetual")%string then Some Perpetual
  else if (s =? "futures")%string then Some Futures
  else None.

(** Source: src/exchange/exchange_adapter.h:42-52, ChannelTypeName. *)
Definition ChannelTypeName (t : ChannelType) : string :=
  match t with
  | Spot => "spot"
  | Perpetual => "perpetual"
  | Futures => "futures"
  end.

(** Source: src/exchange/exchange_adapter.h:54-58, SubscriptionMessage. *)
Record SubscriptionMessage := mkSubMsg {
  sm_payload : string;
  sm_delay_ms : Z;
  sm_event_type : EventType
}.

(** Source: src/exchange/exchange_adapter.h:61-64, SubscriptionGroup. *)
Record SubscriptionGroup := mkSubGroup {
  sg_ws_url : string;
  sg_messages : list SubscriptionMessage
}.

(** ** Channel identifiers *)

Definition kBasis : Z := 14695981039346656037.
Definition kPrime : Z := 1099511628211.

(** One round, [h ^= c; h *= kPrime] in 64 bits. *)
Definition fnv_round (h : Z) (c : ascii) : Z := u64 (Z.lxor h (byte_of c) * kPrime).

Definition fnv_bytes (h : Z) (l : list ascii) : Z := fold_left fnv_round l h.

(** Source: src/common/channel_id_hash.h:13-37, ComputeChannelId. *)
Definition ComputeChannelId (exchange type_name symbol : list ascii) : Z :=
  let h := kBasis in
  let h := fnv_bytes h exchange in
  let h := fnv_round h ":" in
  let h := fnv_bytes h type_name in
  let h := fnv_round h ":" in
  let h := fnv_bytes h symbol in
  u32 (Z.lxor h (Z.shiftr h 32)).

(** The 64-bit FNV-1a hash of a byte string, and the xor-fold to 32 bits. *)
Definition fnv1a (l : list ascii) : Z := fnv_bytes kBasis l.
Definition fold32 (h : Z) : Z := u32 (Z.lxor h (Z.shiftr h 32)).

Lemma fnv_bytes_app h l1 l2 : fnv_bytes h (l1 ++ l2) = fnv_bytes (fnv_bytes h l1) l2.
Proof. apply fold_left_app. Qed.

Lemma ComputeChannelId_joined e t s :
  ComputeChannelId e t s = fold32 (fnv1a (e ++ [":"%char] ++ t ++ [":"%char] ++ s)).
Proof. unfold ComputeChannelId, fnv1a. by rewrite !fnv_bytes_app. Qed.

Lemma ComputeChannelId_range e t s : in_range 32 (ComputeChannelId e t s).
Proof. apply wrap_range. lia. Qed.

(** ** The registry *)

(** Source: src/exchange/channel_mapping.h:12-19, ChannelInfo. *)
Record ChannelInfo := mkChannel {
  ci_id : Z;
  ci_exchange : string;
  ci_type : ChannelType;
  ci_symbol : string;
  ci_depth_level : Z;
  ci_topic_prefix : string
}.

#[export] Instance ChannelInfo_eq_dec : EqDecision ChannelInfo.
Proof. solve_decision. Defined.

(** [ChannelRegistry] holds one map, [channels_] (channel_mapping.h:33). *)
Abbreviation ChannelRegistry := (gmap Z ChannelInfo).

Definition channel_id_of (info : ChannelInfo) : Z :=
  ComputeChannelId (bytes (ci_exchange info)) (bytes (ChannelTypeName (ci_type info))) (bytes (ci_symbol info)).

Definition topic_of (info : ChannelInfo) : string :=
  (ci_exchange info ++ ":" ++ ChannelTypeName (ci_type info) ++ ":" ++ ci_symbol info)%string.

(** [existing.exchange == info.exchange && existing.type == info.type && existing.symbol == info.symbol] *)
Definition same_channel (a b : ChannelInfo) : bool :=
  (ci_exchange a =? ci_exchange b)%string && bool_decide (ci_type a = ci_type b)
  && (ci_symbol a =? ci_symbol b)%string.

(** Source: src/exchange/channel_mapping.cpp:13-36, ChannelRegistry::Register.
    [None]: the [std::runtime_error] of an identifier collision. *)
Definition Register (info : ChannelInfo) (reg : ChannelRegistry) : option (Z * ChannelRegistry) :=
  let id := channel_id_of info in
  match reg !! id with
  | Some existing => if same_channel existing info then Some (id, reg) else None
  | None =>
      let entry := mkChannel id (ci_exchange info) (ci_type info) (ci_symbol info) (ci_depth_level info)
                     (topic_of info) in
      Some (id, <[id := entry]> reg)
  end.

(** Source: src/exchange/channel_mapping.cpp:38-42, ChannelRegistry::Lookup. *)
Definition Lookup (id : Z) (reg : ChannelRegistry) : option ChannelInfo := reg !! id.

(** Every entry sits under its own identifier and carries its own topic. *)
Definition registry_ok (reg : ChannelRegistry) : Prop :=
  map_Forall (fun id e => ci_id e = id /\ channel_id_of e = id /\ ci_topic_prefix e = topic_of e) reg.

Lemma same_channel_spec a b :
  same_channel a b = true <->
  ci_exchange a = ci_exchange b /\ ci_type a = ci_type b /\ ci_symbol a = ci_symbol b.
Proof.
  unfold same_channel. rewrite !andb_true_iff, !String.eqb_eq, bool_decide_eq_true. tauto.
Qed.

Lemma Register_ok info reg id reg' :
  registry_ok reg -> Register info reg = Some (id, reg') ->
  registry_ok reg' /\ id = channel_id_of info /\ reg ⊆ reg' /\
  exists e, Lookup id reg' = Some e /\ same_channel e info = true.
Proof.
  unfold Register, Lookup. intros Hok. destruct (reg !! channel_id_of info) as [e|] eqn:E.
  - destruct (same_channel e info) eqn:Es; intros ?; simplify_eq. split_and!; eauto.
  - intros ?; simplify_eq. split_and!; try done.
    + apply map_Forall_insert_2; [|done]. simpl. split_and!; done.
    + by apply insert_subseteq.
    + eexists. rewrite lookup_insert_eq. split; [done|]. by apply same_channel_spec.
Qed.

(** Register a list in order, as the start-up code does; stop at an exception. *)
Fixpoint register_all (infos : list ChannelInfo) (reg : ChannelRegistry) : option ChannelRegistry :=
  match infos with
  | [] => Some reg
  | i :: rest => match Register i reg with
                 | Some (_, reg') => register_all rest reg'
                 | None => None
                 end
  end.

Lemma register_all_ok infos reg reg' :
  registry_ok reg -> register_all infos reg = Some reg' ->
  registry_ok reg' /\ reg ⊆ reg' /\
  forall i, i ∈ infos -> exists e, Lookup (channel_id_of i) reg' = Some e /\ same_channel e i = true.
Proof.
  revert reg. induction infos as [|i infos IH]; intros reg Hok; simpl.
  - intros ?; simplify_eq. split_and!; try done. intros i Hi. by apply elem_of_nil in Hi.
  - destruct (Register i reg) as [[id reg1]|] eqn:E; [|done]. intros Hr.
    destruct (Register_ok _ _ _ _ Hok E) as (Hok1 & -> & Hsub1 & e & Hl & Hs).
    destruct (IH _ Hok1 Hr) as (Hok' & Hsub & Hall). split_and!; [done|by etrans|].
    intros j Hj. apply elem_of_cons in Hj as [->|Hj]; [|by apply Hall].
    exists e. split; [|done]. eapply lookup_weaken; [apply Hl|done].
Qed.

(** ** The gateway's view of the channels *)

(** Source: src/exchange/rithmic/rithmic_types.h:48-53, RithmicChannelMap::SubEntry. *)
Record SubEntry := mkSub {
  sub_enabled : bool;
  sub_exchange : list ascii;
  sub_ticker : list ascii;
  sub_channel_id : Z
}.

(** Source: src/exchange/rithmic/rithmic_types.h:24-58, RithmicChannelMap. *)
Record RithmicChannelMap := mkChannelMap {
  registered_ids_ : gset Z;
  sub_list_ : list SubEntry
}.

Definition channel_map0 : RithmicChannelMap := mkChannelMap ∅ [].

(** Source: src/exchange/rithmic/rithmic_types.h:26-26, RithmicChannelMap::kNotFound. *)
Definition kNotFound : Z := UINT32_MAX.

(** Source: src/exchange/rithmic/rithmic_types.h:32-35, RithmicChannelMap::Register. *)
Definition MapRegister (exchange ticker : list ascii) (channel_id : Z) (enabled : bool)
    (m : RithmicChannelMap) : RithmicChannelMap :=
  mkChannelMap ({[channel_id]} ∪ registered_ids_ m)
    (sub_list_ m ++ [mkSub enabled exchange ticker channel_id]).

(** Source: src/exchange/rithmic/rithmic_types.h:39-43, RithmicChannelMap::Lookup. *)
Definition MapLookup (exchange ticker : list ascii) (m : RithmicChannelMap) : Z :=
  let id := ComputeChannelId exchange (bytes "futures") ticker in
  if bool_decide (id ∈ registered_ids_ m) then id else kNotFound.

(** ** Rithmic timestamps *)

(** Source: src/exchange/rithmic/rithmic_types.h:96-98, SsboeConverter::ToEpochMicros.
    The [static_cast<uint64_t>] of an [int] sign-extends. *)
Definition ToEpochMicros (ssboe usecs : Z) : Z := u64 (u64 (u64 ssboe * 1000000) + u64 usecs).

(** Source: src/exchange/rithmic/rithmic_types.h:100-111, ResolveRithmicExchangeTimestamp.
    [now] is the wall clock in microseconds; [None] when it returns false. *)
Definition ResolveRithmicExchangeTimestamp (now raw_ts : Z) (bid_count ask_count : nat) : option Z :=
  if negb (raw_ts =? 0) then Some raw_ts
  else if (bid_count =? 0)%nat && (ask_count =? 0)%nat then None
  else Some now.

(** For valid Rithmic times (a non-negative [int] of seconds and microseconds
    below one second) the conversion is exact, without wrap-around. *)
Lemma ToEpochMicros_exact s u :
  0 <= s < 2 ^ 31 -> 0 <= u < 1000000 -> ToEpochMicros s u = s * 1000000 + u.
Proof.
  intros Hs Hu. unfold ToEpochMicros.
  rewrite (wrap_small 64 s), (wrap_small 64 u) by (unfold in_range; lia).
  rewrite (wrap_small 64 (s * 1000000)) by (unfold in_range; lia).
  apply wrap_small. unfold in_range. lia.
Qed.

(** ** Properties *)

(** The registry's contract: after registering any list of channels
    without an exception, every entry sits under the identifier hashed from its
    own exchange, type and symbol with its own topic, every channel of the list
    is found under its identifier, and no entry that was there before changed. *)
Theorem registry_contract (infos : list ChannelInfo) (reg reg' : ChannelRegistry) :
  registry_ok reg -> register_all infos reg = Some reg' ->
  registry_ok reg' /\ reg ⊆ reg' /\
  forall i, i ∈ infos -> exists e, Lookup (channel_id_of i) reg' = Some e /\ same_channel e i = true.
Proof. apply register_all_ok. Qed.

(** The collision check is exact: [Register] fails precisely when its
    identifier is already taken by a different channel, so no two
    different channels ever share an identifier in the registry. *)
Theorem register_rejects_collisions (info : ChannelInfo) (reg : ChannelRegistry) :
  registry_ok reg ->
  (Register info reg = None <->
   exists e, Lookup (channel_id_of info) reg = Some e /\ channel_id_of e = channel_id_of info /\
     ~ (ci_exchange e = ci_exchange info /\ ci_type e = ci_type info /\ ci_symbol e = ci_symbol info)).
Proof.
  intros Hok. unfold Register, Lookup. destruct (reg !! channel_id_of info) as [e|] eqn:E.
  - destruct (Hok _ _ E) as (_ & Hid & _). destruct (same_channel e info) eqn:Es.
    + split; [done|]. intros (e' & He & _ & Hn). simplify_eq. by apply same_channel_spec in Es.
    + split; [|done]. intros _. exists e. split_and!; [done|done|]. by rewrite <- same_channel_spec, Es.
  - split; [done|]. by intros (e' & ? & _).
Qed.

(** [ComputeChannelId] is the 64-bit FNV-1a hash of the channel's topic
    string "exchange:type:symbol", folded to 32 bits: hashing the parts in
    sequence is hashing the string, and the result fits a [uint32_t]. *)
Theorem channel_id_is_fnv1a_of_topic (info : ChannelInfo) :
  channel_id_of info = fold32 (fnv1a (bytes (topic_of info))) /\ in_range 32 (channel_id_of info).
Proof.
  split; [|apply ComputeChannelId_range]. unfold channel_id_of. rewrite ComputeChannelId_joined.
  f_equal. f_equal. unfold topic_of, bytes.
  assert (Happ : forall a b, list_ascii_of_string (a ++ b)%string = list_ascii_of_string a ++ list_ascii_of_string b).
  { intros a b. induction a as [|c a IH]; [done|]. exact (f_equal (cons c) IH). }
  by rewrite !Happ.
Qed.

(** *** Witnesses *)

Definition es_future : ChannelInfo := mkChannel 0 "CME" Futures "ESZ5" 10 "".
Definition btc_spot : ChannelInfo := mkChannel 0 "binance" Spot "BTCUSDT" 20 "".

Lemma registry0_ok : registry_ok ∅.
Proof. apply map_Forall_empty. Qed.

(** The registry that registering a list on an empty one gives. *)
Definition demo_registry (infos : list ChannelInfo) : ChannelRegistry := default ∅ (register_all infos ∅).

Lemma demo_registry_eq infos :
  bool_decide (is_Some (register_all infos ∅)) = true -> register_all infos ∅ = Some (demo_registry infos).
Proof. intros H. apply bool_decide_eq_true in H as [r Hr]. unfold demo_registry. by rewrite Hr. Qed.

Lemma registry_contract_witness :
  let infos := [es_future; btc_spot; es_future] in
  register_all infos ∅ = Some (demo_registry infos) /\
  exists e, Lookup (channel_id_of btc_spot) (demo_registry infos) = Some e /\ same_channel e btc_spot = true.
Proof.
  intros infos. assert (H : register_all infos ∅ = Some (demo_registry infos)) by (apply demo_registry_eq; vm_compute; reflexivity).
  split; [exact H|]. apply (registry_contract _ _ _ registry0_ok H).
  apply elem_of_cons. right. apply elem_of_cons. by left.
Defined.

(** Two different channels with one topic string: a symbol and an exchange
    name that contain the separator. *)
Definition clash : ChannelInfo := mkChannel 0 "CME:futures" Futures "Z5" 10 "".
Definition clash' : ChannelInfo := mkChannel 0 "CME" Futures "futures:Z5" 10 "".

Lemma register_rejects_collisions_witness :
  registry_ok (demo_registry [clash]) /\ Register clash' (demo_registry [clash]) = None.
Proof.
  assert (H : register_all [clash] ∅ = Some (demo_registry [clash]))
    by (apply demo_registry_eq; vm_compute; reflexivity).
  destruct (register_all_ok _ _ _ registry0_ok H) as (Hok & _).
  split; [exact Hok|]. apply (register_rejects_collisions _ _ Hok).
  exists (default clash (Lookup (channel_id_of clash') (demo_registry [clash]))).
  split; [vm_compute; reflexivity|]. split; [vm_compute; reflexivity|].
  vm_compute. intros (Hx & _). discriminate.
Defined.
