(* ===== verification/ShardQueue.v ===== *)
(** * Raw messages and the network-to-parser queue

    [RawMessage] (src/exchange/shard_queue.h) owns either an inline buffer of
    16384 bytes or a heap buffer; moving it transfers the heap buffer.
    [ShardQueue] (src/exchange/shard_queue.cpp) is the ring of messages between
    the network thread and a parser thread; it is the ring of SpscQueue with a
    capacity chosen at run time and elements that are moved in and out. *)
From S2P Require Import Prelude Doubles Events Exchange SpscQueue.

(** [simdjson::SIMDJSON_PADDING] and the parsed document are simdjson's. *)
Section shard_queue.
Context {Doc : Type} (kSimdjsonPadding : Z).

(** Source: src/exchange/shard_queue.h:14-14, RawMessage::kInlineSize. *)
Definition kInlineSize : Z := 16384.

(** Source: src/exchange/shard_queue.h:36-45, RawMessage (data members).
    [heap_] is the array a [unique_ptr] owns; a call of [parse_fn] may throw
    ([None]); its first argument is [system_clock] in microseconds, which it may read. *)
Record RawMessage := mkRaw {
  inline_ : list ascii;
  heap_ : option (list ascii);
  heap_size_ : Z;
  rm_size : Z;
  rm_channel_id : Z;
  recv_timestamp : Z;
  rm_symbol : list ascii;
  rm_event_type : EventType;
  parse_fn : option (Z -> Doc -> Z -> EventType -> option ParseResult)
}.

(** [RawMessage{}]; the inline array is not initialised by the default member
    initialisers, but value initialisation zeroes it. *)
Definition raw0 : RawMessage :=
  mkRaw (replicate (Z.to_nat kInlineSize) NUL) None 0 0 0 0 (replicate 32 NUL) ET_TICK None.

#[global] Instance RawMessage_inhabited : Inhabited RawMessage := populate raw0.

Definition set_heap (h : option (list ascii)) (n : Z) (m : RawMessage) : RawMessage :=
  mkRaw (inline_ m) h n (rm_size m) (rm_channel_id m) (recv_timestamp m) (rm_symbol m)
    (rm_event_type m) (parse_fn m).

(** Source: src/exchange/shard_queue.h:16-17, RawMessage::buffer. *)
Definition buffer (m : RawMessage) : list ascii :=
  match heap_ m with Some h => h | None => inline_ m end.

(** Source: src/exchange/shard_queue.h:18-18, RawMessage::capacity. *)
Definition capacity (m : RawMessage) : Z :=
  match heap_ m with Some _ => heap_size_ m | None => kInlineSize end.

(** Source: src/exchange/shard_queue.h:20-34, RawMessage::allocate.
    [alloc_ok] says whether [make_unique] gets its memory. *)
Definition allocate (alloc_ok : bool) (needed : Z) (m : RawMessage) : bool * RawMessage :=
  let total := u64 (needed + kSimdjsonPadding) in
  if total <=? kInlineSize then (true, set_heap None 0 m)
  else if alloc_ok then (true, set_heap (Some (replicate (Z.to_nat total) NUL)) total m)
  else (false, m).

(** What [std::move] leaves behind: the [unique_ptr] is null, every other member
    is copied by the implicit move. *)
Definition moved_from (m : RawMessage) : RawMessage := set_heap None (heap_size_ m) m.

(** The bytes [msg.size + kSimdjsonPadding] that the parser is told it may read exist. *)
Definition readable (m : RawMessage) : Prop :=
  rm_size m + kSimdjsonPadding <= Z.of_nat (length (buffer m)).

(** ** The queue *)

(** Source: src/exchange/shard_queue.h:77-81, ShardQueue (data members). *)
Record ShardQueue := mkShard {
  sq_write_pos : Z;
  sq_capacity : Z;
  sq_mask : Z;
  sq_slots : list RawMessage;
  sq_read_pos : Z
}.

Fixpoint next_pow2_loop (fuel : nat) (p n : Z) : option Z :=
  match fuel with
  | O => None
  | S k => if p <? n then next_pow2_loop k (u64 (Z.shiftl p 1)) n else Some p
  end.

(** Source: src/exchange/shard_queue.cpp:10-14, NextPowerOf2.
    [None]: the loop is still running after [fuel] rounds. *)
Definition NextPowerOf2 (fuel : nat) (n : Z) : option Z := next_pow2_loop fuel 1 n.

(** Source: src/exchange/shard_queue.cpp:17-17, ShardQueue::ShardQueue. *)
Definition shard_queue_new (n : Z) : option ShardQueue :=
  match NextPowerOf2 65 n with
  | Some c => Some (mkShard 0 c (u64 (c - 1)) (replicate (Z.to_nat c) raw0) 0)
  | None => None
  end.

(** Source: src/exchange/shard_queue.cpp:19-29, ShardQueue::TryPush. *)
Definition TryPush (msg : RawMessage) (q : ShardQueue) : bool * ShardQueue :=
  let w := sq_write_pos q in
  let r := sq_read_pos q in
  if sq_capacity q <=? u64 (w - r) then (false, q)
  else (true, mkShard (u64 (w + 1)) (sq_capacity q) (sq_mask q)
                (<[Z.to_nat (Z.land w (sq_mask q)) := msg]> (sq_slots q)) r).

(** Source: src/exchange/shard_queue.cpp:31-33, ShardQueue::Push.
    [TryPush] takes its argument by value, so each round move-constructs the
    parameter from [msg]; a failed round destroys it.  [env i] is what the
    consumer does to the queue while the producer yields after round [i]. *)
Fixpoint Push (fuel : nat) (env : nat -> ShardQueue -> ShardQueue) (msg : RawMessage) (q : ShardQueue)
    : option ShardQueue :=
  match fuel with
  | O => None
  | S k =>
      match TryPush msg q with
      | (true, q') => Some q'
      | (false, q') => Push k (fun i => env (S i)) (moved_from msg) (env O q')
      end
  end.

(** Source: src/exchange/shard_queue.cpp:35-42, ShardQueue::TryPop. *)
Definition TryPop (q : ShardQueue) : option (RawMessage * ShardQueue) :=
  let r := sq_read_pos q in
  let w := sq_write_pos q in
  if w <=? r then None
  else
    let i := Z.to_nat (Z.land r (sq_mask q)) in
    let m := sq_slots q !!! i in
    Some (m, mkShard w (sq_capacity q) (sq_mask q) (<[i := moved_from m]> (sq_slots q)) (u64 (r + 1))).

(** Source: src/exchange/shard_queue.cpp:44-50, ShardQueue::PopBlocking.
    [env i] is what the producer does while the consumer spins after round [i]. *)
Fixpoint PopBlocking (fuel : nat) (env : nat -> ShardQueue -> ShardQueue) (q : ShardQueue)
    : option (RawMessage * ShardQueue) :=
  match fuel with
  | O => None
  | S k => match TryPop q with
           | Some x => Some x
           | None => PopBlocking k (fun i => env (S i)) (env O q)
           end
  end.

(** Source: src/exchange/shard_queue.cpp:52-52, ShardQueue::PushPoisonPill. *)
Definition PushPoisonPill (fuel : nat) (env : nat -> ShardQueue -> ShardQueue) (q : ShardQueue)
    : option ShardQueue := Push fuel env raw0 q.

(** Source: src/exchange/shard_queue.h:70-74, ShardQueue::size. *)
Definition sq_size (q : ShardQueue) : Z := u64 (sq_write_pos q - sq_read_pos q).

(** ** The message buffer *)

Lemma allocate_readable alloc_ok needed m m' :
  length (inline_ m) = Z.to_nat kInlineSize ->
  0 <= needed -> 0 <= kSimdjsonPadding -> needed + kSimdjsonPadding < 2 ^ 64 ->
  allocate alloc_ok needed m = (true, m') ->
  needed + kSimdjsonPadding <= Z.of_nat (length (buffer m')) /\
  Z.of_nat (length (buffer m')) = capacity m'.
Proof using.
  intros Hi Hn Hp Hlt. unfold allocate. cbv zeta. rewrite wrap_small by (unfold in_range; lia).
  destruct (Z.leb_spec (needed + kSimdjsonPadding) kInlineSize) as [Hle|Hgt].
  - intros [= <-]. unfold buffer, capacity. simpl. unfold kInlineSize in *. rewrite Hi. lia.
  - destruct alloc_ok; [|done]. intros [= <-]. unfold buffer, capacity. cbn [heap_ set_heap heap_size_].
    rewrite length_replicate. lia.
Qed.

(** ** The capacity *)

Lemma next_pow2_loop_spec fuel j n :
  0 <= j <= 63 -> 0 <= n <= 2 ^ 63 -> (Z.to_nat (64 - j) <= fuel)%nat ->
  (j = 0 \/ 2 ^ (j - 1) < n) ->
  exists e, j <= e <= 63 /\ next_pow2_loop fuel (2 ^ j) n = Some (2 ^ e) /\ n <= 2 ^ e /\
    (e = 0 \/ 2 ^ (e - 1) < n).
Proof using.
  revert j. induction fuel as [|fuel IH]; intros j Hj Hn Hf Hlo; [lia|]. simpl.
  destruct (Z.ltb_spec (2 ^ j) n) as [Hlt|Hge]; [|exists j; split_and!; (done || lia)].
  assert (Hj' : j < 63) by (apply (Z.pow_lt_mono_r_iff 2); lia).
  rewrite Z.shiftl_mul_pow2, <- Z.pow_add_r by lia.
  rewrite wrap_small by (split; [apply Z.pow_nonneg; lia|apply Z.pow_lt_mono_r; lia]).
  destruct (IH (j + 1)) as (e & He & Hr & Hb & Hm); [lia|lia|lia|right; by replace (j + 1 - 1) with j by lia|].
  exists e. split_and!; (done || lia).
Qed.

Lemma next_pow2_stuck fuel n : 0 < n -> next_pow2_loop fuel 0 n = None.
Proof using.
  intros Hn. induction fuel as [|fuel IH]; [done|]. simpl. by destruct (Z.ltb_spec 0 n); [|lia].
Qed.

Lemma next_pow2_diverges fuel j n :
  0 <= j <= 63 -> 2 ^ 63 < n -> next_pow2_loop fuel (2 ^ j) n = None.
Proof using.
  revert j. induction fuel as [|fuel IH]; intros j Hj Hn; [done|]. simpl.
  assert (Hle : 2 ^ j <= 2 ^ 63) by (apply Z.pow_le_mono_r; lia).
  destruct (Z.ltb_spec (2 ^ j) n); [|lia].
  rewrite Z.shiftl_mul_pow2, <- Z.pow_add_r by lia.
  destruct (decide (j = 63)) as [->|].
  - change (u64 (2 ^ (63 + 1))) with 0. apply next_pow2_stuck. lia.
  - rewrite wrap_small by (split; [apply Z.pow_nonneg; lia|apply Z.pow_lt_mono_r; lia]).
    apply IH; lia.
Qed.

(** ** Refinement to the FIFO of SpscQueue *)

Definition sq_ring (q : ShardQueue) : SPSCQueue RawMessage := mkSPSC (sq_slots q) (sq_write_pos q) (sq_read_pos q).

(** [sq_rep k q R l]: capacity [2^k], contents [l], the [R]-th message first, and fewer
    than [2^64] messages so far (the pop compares positions with [>=]). *)
Record sq_rep (k : Z) (q : ShardQueue) (R : Z) (l : list RawMessage) : Prop := {
  sr_ring : rep k (sq_ring q) R l;
  sr_cap : sq_capacity q = 2 ^ k;
  sr_mask : sq_mask q = 2 ^ k - 1;
  sr_total : R + Z.of_nat (length l) < 2 ^ 64
}.

Lemma TryPush_ring k q x :
  sq_capacity q = 2 ^ k -> sq_mask q = 2 ^ k - 1 ->
  TryPush x q = let '(ok, r) := try_push k x (sq_ring q) in
                (ok, mkShard (write_pos_ r) (sq_capacity q) (sq_mask q) (slots_ r) (read_pos_ r)).
Proof using.
  intros Hc Hm. unfold TryPush, try_push, slot_of, kCapacity. simpl. rewrite Hc, Hm.
  destruct (2 ^ k <=? u64 (sq_write_pos q - sq_read_pos q)); [|done].
  destruct q. simpl in *. by subst.
Qed.

Lemma TryPush_rep k q R l x :
  0 <= k <= 63 -> sq_rep k q R l -> R + Z.of_nat (length l) + 1 < 2 ^ 64 ->
  if (length l <? Z.to_nat (2 ^ k))%nat
  then exists q', TryPush x q = (true, q') /\ sq_rep k q' R (l ++ [x])
  else TryPush x q = (false, q).
Proof using.
  intros Hk [Hr Hc Hm Ht] Hlt. rewrite (TryPush_ring k) by done.
  pose proof (try_push_rep k Hk _ _ _ x Hr) as Hp. unfold kCapacity in Hp.
  destruct (length l <? Z.to_nat (2 ^ k))%nat.
  - destruct Hp as (r & -> & Hr'). eexists. split; [done|].
    split; try done; [by destruct r|]. rewrite length_app. simpl. lia.
  - rewrite Hp. destruct q. simpl in *. by subst.
Qed.

(** Overwriting a slot outside the contents keeps the representation. *)
Lemma rep_insert_free k (q : SPSCQueue RawMessage) R l i x :
  (forall j, (j < length l)%nat -> slot_of k (R + Z.of_nat j) <> i) ->
  rep k q R l -> rep k (mkSPSC (<[i := x]> (slots_ q)) (write_pos_ q) (read_pos_ q)) R l.
Proof using.
  intros Hf [Hl HR Hread Hw Hb Hs]. split; simpl; try done; [by rewrite length_insert|].
  intros j y Hj. rewrite list_lookup_insert_ne; [by apply Hs|].
  intros He. apply (Hf j); [by eapply lookup_lt_Some|done].
Qed.

Lemma TryPop_rep k q R l :
  0 <= k <= 63 -> sq_rep k q R l ->
  match l with
  | [] => TryPop q = None
  | x :: l' => exists q', TryPop q = Some (x, q') /\ sq_rep k q' (R + 1) l'
  end.
Proof using.
  intros Hk [Hr Hc Hm Ht]. pose proof (kCapacity_pos k Hk) as Hcap.
  pose proof (rep_read _ _ _ _ Hr) as Hread. pose proof (rep_write _ _ _ _ Hr) as Hwrite.
  pose proof (rep_R _ _ _ _ Hr) as HR. pose proof (rep_bound _ _ _ _ Hr) as Hb. simpl in Hread, Hwrite.
  rewrite wrap_small in Hread, Hwrite by (unfold in_range; lia).
  unfold TryPop. cbv zeta. destruct l as [|x l]; simpl in *.
  - destruct (Z.leb_spec (sq_write_pos q) (sq_read_pos q)); [done|lia].
  - destruct (Z.leb_spec (sq_write_pos q) (sq_read_pos q)); [lia|].
    destruct (rep_read_slot k Hk _ _ _ _ Hr) as [Hx Hr'].
    assert (Hi : Z.to_nat (Z.land (sq_read_pos q) (sq_mask q)) = slot_of k R)
      by (by rewrite Hm, Hread).
    rewrite Hi. simpl in Hx. rewrite Hread in Hx. rewrite Hx. eexists. split; [done|].
    split; simpl; [|done|done|lia].
    apply (rep_insert_free k _ _ _ (slot_of k R) (moved_from x)) in Hr'; [exact Hr'|].
    intros j Hj He. apply (slot_of_inj k Hk) in He; lia.
Qed.

Lemma shard_queue_new_rep n :
  0 <= n <= 2 ^ 63 ->
  exists q e, shard_queue_new n = Some q /\ 0 <= e <= 63 /\ n <= 2 ^ e /\ (e = 0 \/ 2 ^ (e - 1) < n) /\
    sq_rep e q 0 [].
Proof using.
  intros Hn. unfold shard_queue_new, NextPowerOf2.
  destruct (next_pow2_loop_spec 65 0 n) as (e & He & Hr & Hb & Hm); [lia|lia|lia|by left|].
  change (2 ^ 0) with 1 in Hr. rewrite Hr. eexists _, e. split; [done|]. split_and!; try (done || lia).
  pose proof (kCapacity_pos e He) as Hcap.
  split; simpl; try done; [exact (spsc0_rep (A := RawMessage) e He)|]. unfold kCapacity in Hcap. apply wrap_small. unfold in_range. lia.
Qed.

(** A message whose first attempt failed is enqueued without its heap buffer. *)
Lemma Push_after_failure fuel env msg q q' :
  Push fuel env (moved_from msg) q = Some q' ->
  exists q0, TryPush (moved_from msg) q0 = (true, q').
Proof using.
  revert env q. induction fuel as [|fuel IH]; intros env q; simpl; [done|].
  destruct (TryPush (moved_from msg) q) as [[] q1] eqn:E; [intros [= <-]; by exists q|].
  assert (Hm : moved_from (moved_from msg) = moved_from msg) by (by destruct msg). rewrite Hm. apply IH.
Qed.
End shard_queue.
Arguments RawMessage : clear implicits.
Arguments ShardQueue : clear implicits.

(** ** Properties *)

(** Operations of the producer and the consumer on the queue, in any order. *)
Inductive shard_op {Doc : Type} := SqPush (m : RawMessage Doc) | SqPop.
Arguments shard_op : clear implicits.

(** Run them; the trace records what each returned. *)
Fixpoint run_shard {Doc} (ops : list (shard_op Doc)) (q : ShardQueue Doc)
    : list (fifo_event (RawMessage Doc)) * ShardQueue Doc :=
  match ops with
  | [] => ([], q)
  | SqPush m :: rest =>
      let '(ok, q1) := TryPush m q in
      let '(tr, q2) := run_shard rest q1 in ((if ok then EvPush m else EvPushFull) :: tr, q2)
  | SqPop :: rest =>
      match TryPop q with
      | Some (m, q1) => let '(tr, q2) := run_shard rest q1 in (EvPop m :: tr, q2)
      | None => let '(tr, q2) := run_shard rest q in (EvPopEmpty :: tr, q2)
      end
  end.

Lemma fifo_run_cons {A} cap (l0 l1 l2 : list A) e tr :
  fifo_step cap l0 e l1 -> fifo_run cap l1 tr l2 -> fifo_run cap l0 (e :: tr) l2.
Proof.
  intros Hs Hr. induction Hr as [l|l tr' l1' e' l2' _ IH Hs'].
  - apply (fifo_run_snoc cap l0 [] l0); [constructor|done].
  - apply (fifo_run_snoc cap l0 (e :: tr') l1'); [by apply IH|done].
Qed.

Lemma run_shard_sim {Doc} k (ops : list (shard_op Doc)) q R l :
  0 <= k <= 63 -> sq_rep k q R l ->
  R + Z.of_nat (length l) + Z.of_nat (length ops) < 2 ^ 64 ->
  exists R' l', fifo_run (Z.to_nat (2 ^ k)) l (run_shard ops q).1 l' /\
    sq_rep k (run_shard ops q).2 R' l' /\ sq_size (run_shard ops q).2 = Z.of_nat (length l').
Proof.
  intros Hk. revert q R l. induction ops as [|[m|] ops IH]; intros q R l Hr Hb; cbn [run_shard length] in *.
  - exists R, l. split_and!; [constructor|done|]. unfold sq_size.
    pose proof (kCapacity_pos k Hk). pose proof (rep_bound _ _ _ _ (sr_ring _ _ _ _ Hr)).
    pose proof (rep_write _ _ _ _ (sr_ring _ _ _ _ Hr)) as Hw. pose proof (rep_read _ _ _ _ (sr_ring _ _ _ _ Hr)) as Hrd.
    simpl in Hw, Hrd. cbn [snd]. rewrite Hw, Hrd. apply u64_distance. lia.
  - pose proof (TryPush_rep k q R l m Hk Hr ltac:(lia)) as Hp.
    destruct (Nat.ltb_spec (length l) (Z.to_nat (2 ^ k))) as [Hlt|Hge].
    + destruct Hp as (q1 & -> & Hr1).
      destruct (IH q1 R (l ++ [m]) Hr1) as (R' & l' & Hf & Hr'); [rewrite length_app; simpl; lia|].
      destruct (run_shard ops q1) as [tr q2]. exists R', l'. split; [|done].
      eapply fifo_run_cons; [|done]. by constructor.
    + rewrite Hp. destruct (IH q R l Hr) as (R' & l' & Hf & Hr'); [lia|].
      destruct (run_shard ops q) as [tr q2]. exists R', l'. split; [|done].
      eapply fifo_run_cons; [|done]. constructor.
      pose proof (rep_bound _ _ _ _ (sr_ring _ _ _ _ Hr)) as Hbd. unfold kCapacity in Hbd. lia.
  - pose proof (TryPop_rep k q R l Hk Hr) as Hp. destruct l as [|x l].
    + rewrite Hp. destruct (IH q R [] Hr) as (R' & l' & Hf & Hr'); [simpl; lia|].
      destruct (run_shard ops q) as [tr q2]. exists R', l'. split; [|done].
      eapply fifo_run_cons; [|done]. constructor.
    + destruct Hp as (q1 & -> & Hr1). cbn [length] in Hb.
      destruct (IH q1 (R + 1) l Hr1) as (R' & l' & Hf & Hr'); [lia|].
      destruct (run_shard ops q1) as [tr q2]. exists R', l'. split; [|done].
      eapply fifo_run_cons; [|done]. constructor.
Qed.

(** C25: A [ShardQueue] built for [n] messages ([n <= 2^63]) terminates in its
    constructor with the least power of two that holds [n], and every sequence
    of (fewer than [2^64]) [TryPush] and [TryPop] calls on it is a run of the
    bounded FIFO of that capacity: messages come out whole, in order, once,
    although each slot is moved from; [size] reports the number queued. *)
Theorem shard_queue_fifo {Doc} (n : Z) (ops : list (shard_op Doc)) :
  0 <= n <= 2 ^ 63 -> Z.of_nat (length ops) < 2 ^ 64 ->
  exists q e l, shard_queue_new n = Some q /\
    0 <= e <= 63 /\ n <= 2 ^ e /\ (e = 0 \/ 2 ^ (e - 1) < n) /\
    fifo_run (Z.to_nat (2 ^ e)) [] (run_shard ops q).1 l /\
    sq_size (run_shard ops q).2 = Z.of_nat (length l).
Proof.
  intros Hn Hl. destruct (shard_queue_new_rep (Doc := Doc) n Hn) as (q & e & Hq & He & Hb & Hm & Hr).
  destruct (run_shard_sim e ops q 0 [] He Hr) as (R' & l & Hf & _ & Hs); [simpl; lia|].
  exists q, e, l. split_and!; (done || lia).
Qed.

(** The capacity loop [while(p < n) p <<= 1] never ends when more than
    [2^63] messages are asked for: [p] overflows to 0 and stays there. *)
Theorem next_power_of_2_diverges (fuel : nat) (n : Z) : 2 ^ 63 < n -> NextPowerOf2 fuel n = None.
Proof. intros Hn. apply (next_pow2_diverges fuel 0 n); lia. Qed.

(** C40: What [Push] really enqueues when its first attempt finds the queue
    full: [std::move(msg)] has already surrendered the heap buffer to the failed
    attempt, so a message too large for the inline buffer is enqueued (by
    whichever later attempt succeeds, whatever the consumer does in between)
    with its size but without its bytes: the parser is told to read past the
    end of the inline buffer. *)
Theorem push_retry_loses_heap_buffer {Doc} (pad : Z) (fuel : nat)
    (env : nat -> ShardQueue Doc -> ShardQueue Doc) (msg : RawMessage Doc) (q q' : ShardQueue Doc) :
  0 <= pad -> length (inline_ msg) = Z.to_nat kInlineSize ->
  readable pad msg -> kInlineSize < rm_size msg + pad ->
  (TryPush msg q).1 = false -> Push (S fuel) env msg q = Some q' ->
  exists q0, TryPush (moved_from msg) q0 = (true, q') /\
    rm_size (moved_from msg) = rm_size msg /\ ~ readable pad (moved_from msg).
Proof.
  intros Hpad Hi Hrd Hbig Hfail Hp. cbn [Push] in Hp. destruct (TryPush msg q) as [[] q1]; [done|].
  destruct (Push_after_failure _ _ _ _ _ Hp) as [q0 Hq0]. exists q0. split_and!; [done|done|].
  unfold readable, buffer. cbn [moved_from set_heap heap_ inline_ rm_size]. rewrite Hi.
  unfold kInlineSize in *. lia.
Qed.

(** *** Witnesses *)

Definition demo_msg (n : Z) : RawMessage unit :=
  mkRaw (replicate (Z.to_nat kInlineSize) NUL) None 0 n 7 0 (replicate 32 NUL) ET_TICK None.

Lemma shard_queue_fifo_witness :
  exists q e l, shard_queue_new 3 = Some q /\ 0 <= e <= 63 /\ 3 <= 2 ^ e /\ (e = 0 \/ 2 ^ (e - 1) < 3) /\
    fifo_run (Z.to_nat (2 ^ e)) []
      (run_shard [SqPush (demo_msg 1); SqPop; SqPop] q).1 l /\
    sq_size (run_shard [SqPush (demo_msg 1); SqPop; SqPop] q).2 = Z.of_nat (length l).
Proof. apply (shard_queue_fifo 3); [lia|vm_compute; reflexivity]. Defined.

Lemma next_power_of_2_diverges_witness : NextPowerOf2 100 (2 ^ 63 + 1) = None.
Proof. apply next_power_of_2_diverges. lia. Defined.

(** A 20000-byte message, a full queue of capacity 1, and a consumer that pops
    once while the producer yields. *)
Definition big_msg : RawMessage unit :=
  set_heap (Some (replicate 20064 NUL)) 20064 (demo_msg 20000).
Definition full_queue : ShardQueue unit := mkShard 1 1 0 [demo_msg 1] 0.
Definition pop_once (i : nat) (q : ShardQueue unit) : ShardQueue unit :=
  match TryPop q with Some (_, q') => q' | None => q end.

Lemma push_retry_loses_heap_buffer_witness :
  exists q', Push 2 pop_once big_msg full_queue = Some q' /\
    exists q0, TryPush (moved_from big_msg) q0 = (true, q') /\
      rm_size (moved_from big_msg) = 20000 /\ ~ readable 64 (moved_from big_msg).
Proof.
  eexists (mkShard 2 1 0 [moved_from big_msg] 1).
  assert (Hp : Push 2 pop_once big_msg full_queue = Some (mkShard 2 1 0 [moved_from big_msg] 1)) by reflexivity.
  split; [exact Hp|].
  apply (push_retry_loses_heap_buffer 64 1 pop_once big_msg full_queue);
    [lia|reflexivity|vm_compute; discriminate|reflexivity|reflexivity|exact Hp].
Defined.
