(* ===== verification/TelemetrySlot.v ===== *)
(** * The telemetry sequence lock

    One writer (a parser or forwarder thread) and one reader (the telemetry
    agent) share a 64-byte slot: a version counter and four 64-bit fields
    (src/common/telemetry_slot.h).  The sequential functions come first; then
    the same code with every access to the slot as one step of an interleaving, in
    program order; then the accesses with their memory orders on a machine that may
    let one overtake another, with x86 and the C++ memory model as instances. *)
From S2P Require Import Prelude.

(** Source: src/common/telemetry_slot.h:9-15, TelemetrySlot.
    The four data fields, in declaration order. *)
Record TelemetrySlot := mkSlot { version : Z; fields : list Z }.

Definition slot0 : TelemetrySlot := mkSlot 0 [0; 0; 0; 0].

Definition bump (s : TelemetrySlot) : TelemetrySlot := mkSlot (u64 (version s + 1)) (fields s).
Definition store_field (i : nat) (v : Z) (s : TelemetrySlot) : TelemetrySlot :=
  mkSlot (version s) (<[i := v]> (fields s)).

(** Source: src/common/telemetry_slot.h:18-25, WriteTelemetrySlot. *)
Definition WriteTelemetrySlot (s : TelemetrySlot) (delay_ns q_depth gap_count zmq_dropped : Z) : TelemetrySlot :=
  let s := bump s in
  let s := store_field 0 delay_ns s in
  let s := store_field 1 q_depth s in
  let s := store_field 2 gap_count s in
  let s := store_field 3 zmq_dropped s in
  bump s.

(** Source: src/common/telemetry_slot.h:28-38, ReadTelemetrySlot.
    [mem n] is the slot as the [n]-th access of the loop finds it; a round makes six. *)
Fixpoint ReadTelemetrySlot (fuel : nat) (mem : nat -> TelemetrySlot) : option (list Z) :=
  match fuel with
  | O => None
  | S k =>
      let v1 := version (mem 0%nat) in
      let snapshot := (fun i => fields (mem (S i)) !!! i) <$> [0; 1; 2; 3]%nat in
      let v2 := version (mem 5%nat) in
      if Z.odd v1 || negb (v1 =? v2) then ReadTelemetrySlot k (fun n => mem (6 + n)%nat)
      else Some snapshot
  end.

(** ** Interleaving *)

Inductive writer_pc :=
| WIdle
| WBusy (data : list Z) (i : nat).   (* version is odd; fields before [i] are written *)

Inductive reader_pc :=
| RIdle
| RLoop (v1 : Z) (got : list Z).     (* inside a round: version loaded, [got] fields copied *)

(** [st_hist]: the values of the completed writes, oldest first (ghost);
    [st_seen]: the snapshots returned (ghost). *)
Record seq_state := mkSeq {
  sl : TelemetrySlot;
  wpc : writer_pc;
  rpc : reader_pc;
  st_hist : list (list Z);
  st_seen : list (list Z)
}.

(** Source: src/common/telemetry_slot.h:18-38, WriteTelemetrySlot and ReadTelemetrySlot (one access per step). *)
Inductive seq_step : seq_state -> seq_state -> Prop :=
| sq_wbegin s r h out data :
    length data = 4%nat ->
    seq_step (mkSeq s WIdle r h out) (mkSeq (bump s) (WBusy data 0) r h out)
| sq_wfield s r h out data i v :
    data !! i = Some v ->
    seq_step (mkSeq s (WBusy data i) r h out) (mkSeq (store_field i v s) (WBusy data (S i)) r h out)
| sq_wend s r h out data i :
    i = length data ->
    seq_step (mkSeq s (WBusy data i) r h out) (mkSeq (bump s) WIdle r (h ++ [data]) out)
| sq_rbegin s w h out :
    seq_step (mkSeq s w RIdle h out) (mkSeq s w (RLoop (version s) []) h out)
| sq_rfield s w h out v1 got v :
    fields s !! length got = Some v ->
    seq_step (mkSeq s w (RLoop v1 got) h out) (mkSeq s w (RLoop v1 (got ++ [v])) h out)
| sq_rretry s w h out v1 got :
    length got = 4%nat -> Z.odd v1 || negb (v1 =? version s) = true ->
    seq_step (mkSeq s w (RLoop v1 got) h out) (mkSeq s w RIdle h out)
| sq_rdone s w h out v1 got :
    length got = 4%nat -> Z.odd v1 || negb (v1 =? version s) = false ->
    seq_step (mkSeq s w (RLoop v1 got) h out) (mkSeq s w RIdle h (out ++ [got])).

Definition seq_init : seq_state := mkSeq slot0 WIdle RIdle [] [].

(** The number of version increments so far. *)
Definition ticks (w : writer_pc) (h : list (list Z)) : Z :=
  2 * Z.of_nat (length h) + match w with WIdle => 0 | WBusy _ _ => 1 end.

(** The value a reader sees between writes: the last one written, or the initial zeros. *)
Definition current (h : list (list Z)) : list Z := default [0; 0; 0; 0] (last h).

Definition writer_ok (s : TelemetrySlot) (w : writer_pc) (h : list (list Z)) : Prop :=
  match w with
  | WIdle => fields s = current h
  | WBusy data i => length data = 4%nat /\ (i <= 4)%nat /\ take i (fields s) = take i data
  end.

(** A round that began at tick [n]: if no increment happened since, the fields
    copied so far are those of the slot. *)
Definition reader_ok (s : TelemetrySlot) (w : writer_pc) (h : list (list Z)) (r : reader_pc) : Prop :=
  match r with
  | RIdle => True
  | RLoop v1 got => exists n, v1 = u64 n /\ 0 <= n <= ticks w h /\ (length got <= 4)%nat /\
      (n = ticks w h -> Z.odd n = false -> got = take (length got) (fields s))
  end.

Record seq_inv (st : seq_state) : Prop := {
  si_len : length (fields (sl st)) = 4%nat;
  si_version : version (sl st) = u64 (ticks (wpc st) (st_hist st));
  si_writer : writer_ok (sl st) (wpc st) (st_hist st);
  si_reader : reader_ok (sl st) (wpc st) (st_hist st) (rpc st);
  si_seen : Forall (fun v => v = [0; 0; 0; 0] \/ v ∈ st_hist st) (st_seen st)
}.

Lemma odd_u64 n : Z.odd (u64 n) = Z.odd n.
Proof.
  unfold wrap. rewrite (Z.div_mod n (2 ^ 64)) at 2 by lia.
  rewrite Z.odd_add, Z.odd_mul. simpl (Z.odd (2 ^ 64)). by destruct (Z.odd (n mod 2 ^ 64)).
Qed.

Lemma current_snoc h d : current (h ++ [d]) = d.
Proof. unfold current. by rewrite last_snoc. Qed.

Lemma current_seen h : current h = [0; 0; 0; 0] \/ current h ∈ h.
Proof.
  unfold current. destruct (last h) as [d|] eqn:E; [right|by left]. simpl. by apply last_Some_elem_of.
Qed.

(** Once an increment happens a round that began before can no longer match. *)
Lemma reader_ok_tick s s' w w' h h' r :
  ticks w' h' = ticks w h + 1 -> reader_ok s w h r -> reader_ok s' w' h' r.
Proof.
  intros Ht. destruct r as [|v1 got]; [done|]. intros (n & -> & Hn & Hl & _).
  exists n. split_and!; try (done || lia).
Qed.

Lemma ticks_bump s w h :
  version s = u64 (ticks w h) -> version (bump s) = u64 (ticks w h + 1).
Proof. intros H. unfold bump. simpl. by rewrite H, wrap_add_l. Qed.

Lemma seq_step_inv st st' :
  seq_step st st' -> 2 * Z.of_nat (length (st_hist st)) + 1 < 2 ^ 64 -> seq_inv st -> seq_inv st'.
Proof.
  intros Hs Hbound [Hlen Hv Hw Hr Hseen].
  destruct Hs as [s r h out data Hd|s r h out data i v Hi|s r h out data i Hi|s w h out
    |s w h out v1 got v Hg|s w h out v1 got Hg Ho|s w h out v1 got Hg Ho];
    cbn [sl wpc rpc st_hist st_seen] in *.
  - split; cbn [sl wpc rpc st_hist st_seen]; try done.
    + rewrite (ticks_bump _ _ _ Hv). f_equal. unfold ticks. lia.
    + by split_and!; [|lia|].
    + eapply reader_ok_tick; [|done]. unfold ticks. lia.
  - destruct Hw as (Hd & Hi4 & Htk). pose proof (lookup_lt_Some _ _ _ Hi).
    split; cbn [sl wpc rpc st_hist st_seen store_field fields version]; try done.
    + by rewrite length_insert.
    + split_and!; [done|lia|]. cbn [store_field fields]. rewrite take_S_insert by lia.
      by rewrite (take_S_r _ _ _ Hi), Htk.
    + destruct r as [|v1 got]; [done|]. destruct Hr as (n & ? & Hb & ? & _). exists n. split_and!; try (done || apply Hb).
      intros Hnt Hodd. exfalso. rewrite Hnt in Hodd. unfold ticks in Hodd. rewrite Z.odd_add, Z.odd_mul in Hodd. done.
  - destruct Hw as (Hd & Hi4 & Htk). subst i.
    split; cbn [sl wpc rpc st_hist st_seen]; try done.
    + rewrite (ticks_bump _ _ _ Hv). f_equal. unfold ticks. rewrite length_app. cbn [length]. lia.
    + simpl. rewrite current_snoc. rewrite Hd in Htk. rewrite !take_ge in Htk by lia. done.
    + eapply reader_ok_tick; [|done]. unfold ticks. rewrite length_app. cbn [length]. lia.
    + eapply Forall_impl; [done|]. intros x [->|Hx]; [by left|right]. set_solver.
  - split; cbn [sl wpc rpc st_hist st_seen]; try done.
    exists (ticks w h). simpl. split_and!; try (done || lia). unfold ticks. destruct w; lia.
  - split; cbn [sl wpc rpc st_hist st_seen]; try done.
    destruct Hr as (n & Hn & Hb & Hl & Heq). exists n. pose proof (lookup_lt_Some _ _ _ Hg).
    rewrite length_app. simpl. split_and!; try (done || lia).
    intros Ht Hodd. rewrite Nat.add_1_r, (take_S_r _ _ _ Hg). f_equal. by apply Heq.
  - by split.
  - apply orb_false_iff in Ho as [Ho Heq]. bool_to_prop. subst v1.
    destruct Hr as (n & Hn & Hb & Hl & Hgot). split; cbn [sl wpc rpc st_hist st_seen]; try done.
    apply Forall_app. split; [done|]. constructor; [|done].
    assert (Hnt : n = ticks w h).
    { rewrite Hv in Hn. unfold ticks in *. apply (mod_inj_window (2 ^ 64)); [lia|by unfold wrap in Hn|destruct w; lia]. }
    rewrite Hn, odd_u64 in Ho. specialize (Hgot Hnt Ho). subst n.
    destruct w as [|data i]; [|unfold ticks in Ho; rewrite Z.odd_add, Z.odd_mul in Ho; done].
    simpl in Hw. rewrite Hgot, Hg, take_ge, Hw by lia. apply current_seen.
Qed.

Lemma seq_step_hist st st' : seq_step st st' -> (length (st_hist st) <= length (st_hist st'))%nat.
Proof. destruct 1; simpl; rewrite ?length_app; lia. Qed.

Lemma seq_init_inv : seq_inv seq_init.
Proof. split; simpl; (done || constructor). Qed.

Lemma seq_reachable_inv st :
  rtc seq_step seq_init st -> 2 * Z.of_nat (length (st_hist st)) + 1 < 2 ^ 64 -> seq_inv st.
Proof.
  intros Hr. refine (rtc_invariant seq_step
    (fun st => 2 * Z.of_nat (length (st_hist st)) + 1 < 2 ^ 64 -> seq_inv st) _ _ _ Hr _).
  - intros a b Ha Hs Hb. pose proof (seq_step_hist _ _ Hs).
    apply (seq_step_inv _ _ Hs); [lia|]. apply Ha. lia.
  - intros _. apply seq_init_inv.
Qed.

(** A write that is not overlapped by a read is read back in one round. *)
Lemma read_after_write s a b c d :
  length (fields s) = 4%nat -> Z.odd (version s) = false ->
  ReadTelemetrySlot 1 (fun _ => WriteTelemetrySlot s a b c d) = Some [a; b; c; d].
Proof.
  destruct s as [v fs]. simpl. intros Hl Ho.
  destruct fs as [|f0 [|f1 [|f2 [|f3 [|]]]]]; try done. simpl. unfold lookup_total. simpl.
  rewrite Z.eqb_refl, orb_false_r, odd_u64, Z.odd_add, odd_u64, Z.odd_add, Ho. done.
Qed.

(** ** Memory orders

    The accesses as the source writes them, each with its memory order.  A thread
    issues its accesses in program order; the machine performs them later, and one
    may overtake an earlier one as far as [overtakes] allows. *)

Inductive MemOrder := Plain | Relaxed | Acquire | Release.
Inductive AccessKind := Load | Store (v : Z) | FetchAdd.

(** The location is the version ([None]) or a data field. *)
Record Access := mkAccess { ac_kind : AccessKind; ac_loc : option nat; ac_order : MemOrder }.

(** Source: src/common/telemetry_slot.h:18-25, WriteTelemetrySlot (accesses). *)
Definition write_accesses (data : list Z) : list Access :=
  mkAccess FetchAdd None Relaxed ::
  imap (fun i v => mkAccess (Store v) (Some i) Plain) data ++
  [mkAccess FetchAdd None Release].

(** Source: src/common/telemetry_slot.h:28-38, ReadTelemetrySlot (accesses of a round). *)
Definition read_accesses : list Access :=
  [mkAccess Load None Acquire; mkAccess Load (Some 0%nat) Plain; mkAccess Load (Some 1%nat) Plain;
   mkAccess Load (Some 2%nat) Plain; mkAccess Load (Some 3%nat) Plain; mkAccess Load None Acquire].

(** x86: only a load overtakes, and only a plain or atomic store to another
    location (a locked instruction is overtaken by nothing). *)
Definition x86 (earlier later : Access) : bool :=
  match ac_kind earlier, ac_kind later with
  | Store _, Load => negb (bool_decide (ac_loc earlier = ac_loc later))
  | _, _ => false
  end.

(** The C++ memory model: nothing moves before an acquire, nothing moves behind a
    release, accesses to one location keep their order. *)
Definition cxx11 (earlier later : Access) : bool :=
  negb (bool_decide (ac_loc earlier = ac_loc later)) &&
  match ac_order earlier with Acquire => false | _ => true end &&
  match ac_order later with Release => false | _ => true end.

Definition perform_write (a : Access) (s : TelemetrySlot) : TelemetrySlot :=
  match ac_kind a, ac_loc a with
  | FetchAdd, _ => bump s
  | Store v, Some i => store_field i v s
  | _, _ => s
  end.
Definition perform_read (a : Access) (s : TelemetrySlot) : Z :=
  match ac_loc a with None => version s | Some i => fields s !!! i end.

(** [ms_writer]: issued and not yet performed; [ms_reader]: the accesses of the
    round (by position) not yet performed; [ms_regs]: the values loaded. *)
Record mem_state := mkMem {
  ms_slot : TelemetrySlot;
  ms_writer : list Access;
  ms_reader : list nat;
  ms_regs : list Z;
  ms_issued : list (list Z);
  ms_seen : list (list Z)
}.

(** The end of a round: retry, or return the four fields. *)
Definition round_end (regs : list Z) (seen : list (list Z)) : list (list Z) :=
  if Z.odd (regs !!! 0%nat) || negb (regs !!! 0%nat =? regs !!! 5%nat) then seen else seen ++ [take 4 (drop 1 regs)].

#[global] Instance Access_inhabited : Inhabited Access := populate (mkAccess Load None Plain).
Definition read_access (k : nat) : Access := read_accesses !!! k.

(** Source: src/common/telemetry_slot.h:18-38, WriteTelemetrySlot and ReadTelemetrySlot (with their memory orders). *)
Inductive mem_step (overtakes : Access -> Access -> bool) : mem_state -> mem_state -> Prop :=
| mm_issue s w r regs h out data :
    length data = 4%nat ->
    mem_step overtakes (mkMem s w r regs h out) (mkMem s (w ++ write_accesses data) r regs (h ++ [data]) out)
| mm_write s pre a post r regs h out :
    Forall (fun b => overtakes b a = true) pre ->
    mem_step overtakes (mkMem s (pre ++ a :: post) r regs h out) (mkMem (perform_write a s) (pre ++ post) r regs h out)
| mm_begin s w regs h out :
    mem_step overtakes (mkMem s w [] regs h out) (mkMem s w (seq 0 6) regs h out)
| mm_read s w pre k post regs h out :
    Forall (fun j => overtakes (read_access j) (read_access k) = true) pre ->
    let regs' := <[k := perform_read (read_access k) s]> regs in
    mem_step overtakes (mkMem s w (pre ++ k :: post) regs h out)
      (mkMem s w (pre ++ post) regs' h (match pre ++ post with [] => round_end regs' out | _ => out end)).

Definition mem_init : mem_state := mkMem slot0 [] [] (replicate 6 0) [] [].

(** *** On x86 the accesses are performed in program order *)

Definition unperformed (w : writer_pc) : list Access :=
  match w with WIdle => [] | WBusy data i => drop (S i) (write_accesses data) end.
Definition underway (w : writer_pc) : list (list Z) := match w with WIdle => [] | WBusy data _ => [data] end.

Definition reader_rel (r : reader_pc) (pending : list nat) (regs : list Z) : Prop :=
  length regs = 6%nat /\
  match r with
  | RIdle => pending = [] \/ pending = seq 0 6
  | RLoop v1 got => (length got <= 4)%nat /\ pending = seq (S (length got)) (5 - length got) /\ take (S (length got)) regs = v1 :: got
  end.

(** The machine state [m] and the program-order state [q]. *)
Record mem_rel (m : mem_state) (q : seq_state) : Prop := {
  mr_slot : ms_slot m = sl q /\ length (fields (sl q)) = 4%nat;
  mr_busy : match wpc q with WIdle => True | WBusy d i => (i <= length d)%nat end;
  mr_writer : exists future, Forall (fun d => length d = 4%nat) future /\
    ms_writer m = unperformed (wpc q) ++ concat (write_accesses <$> future) /\
    ms_issued m = st_hist q ++ underway (wpc q) ++ future;
  mr_reader : reader_rel (rpc q) (ms_reader m) (ms_regs m);
  mr_seen : ms_seen m = st_seen q
}.

Definition never_loads (l : list Access) : Prop := Forall (fun a => match ac_kind a with Load => False | _ => True end) l.

Lemma write_accesses_no_load d : never_loads (write_accesses d).
Proof.
  unfold never_loads, write_accesses. constructor; [done|]. apply Forall_app_2; [|by repeat constructor].
  apply Forall_forall. intros a (i & Hi)%list_elem_of_lookup. rewrite list_lookup_imap in Hi.
  destruct (d !! i); cbn in Hi; by simplify_eq.
Qed.

Lemma pending_no_load w future : never_loads (unperformed w ++ concat (write_accesses <$> future)).
Proof.
  apply Forall_app_2.
  - destruct w as [|d i]; cbn [unperformed]; [constructor|]. apply Forall_drop, write_accesses_no_load.
  - induction future as [|d future IH]; [constructor|]. cbn. apply (Forall_app_2 _ (write_accesses d)); [apply write_accesses_no_load|exact IH].
Qed.

(** Nothing is overtaken. *)
Lemma x86_writes_in_order pre a post :
  never_loads (pre ++ a :: post) -> Forall (fun b => x86 b a = true) pre -> pre = [].
Proof.
  intros Hn Hf. destruct pre as [|b pre]; [done|]. apply Forall_cons in Hf as [Hb _]. unfold never_loads in Hn.
  apply Forall_app in Hn as [_ [Ha _]%Forall_cons]. unfold x86 in Hb. by destruct (ac_kind b), (ac_kind a).
Qed.

Lemma x86_reads_in_order pre k : Forall (fun j => x86 (read_access j) (read_access k) = true) pre -> pre = [].
Proof.
  intros Hf. destruct pre as [|j pre]; [done|]. apply Forall_cons in Hf as [Hb _].
  exfalso. revert Hb. unfold x86, read_access. destruct (decide (j < 6)%nat) as [Hj|Hj].
  - by do 6 (destruct j as [|j]; [done|]); lia.
  - rewrite (list_lookup_total_alt _ j), lookup_ge_None_2 by (cbn; lia). done.
Qed.

Lemma write_access_lookup d i v : d !! i = Some v -> write_accesses d !! S i = Some (mkAccess (Store v) (Some i) Plain).
Proof.
  intros H. pose proof (lookup_lt_Some _ _ _ H). unfold write_accesses. change ((?x :: ?l) !! S i) with (l !! i).
  rewrite lookup_app_l by (rewrite length_imap; lia). by rewrite list_lookup_imap, H.
Qed.

Lemma write_access_last d : write_accesses d !! S (length d) = Some (mkAccess FetchAdd None Release).
Proof.
  unfold write_accesses. change ((?x :: ?l) !! S ?i) with (l !! i). rewrite lookup_app_r by (by rewrite length_imap).
  by rewrite length_imap, Nat.sub_diag.
Qed.

Lemma length_write_accesses d : length (write_accesses d) = S (S (length d)).
Proof. unfold write_accesses. rewrite length_cons, length_app, length_imap. cbn [length]. lia. Qed.
Lemma unperformed_next d i x : write_accesses d !! S i = Some x -> unperformed (WBusy d i) = x :: drop (S (S i)) (write_accesses d).
Proof. intros H. cbn [unperformed]. by apply drop_S. Qed.

(** What the machine does is what the program-order machine does, a step or nothing. *)
Lemma mem_write_sim s pre a post r regs h out q :
  Forall (fun b => x86 b a = true) pre -> mem_rel (mkMem s (pre ++ a :: post) r regs h out) q ->
  exists q', seq_step q q' /\ mem_rel (mkMem (perform_write a s) (pre ++ post) r regs h out) q'.
Proof.
  intros Hf [[Hs Hlen] Hb (future & Hd & Hw & Hi) Hr Ho]. cbn in *. destruct q as [s0 w r0 h0 out0]. cbn in *. subst s0 out0.
  assert (pre = []) as ->. { eapply x86_writes_in_order; [|exact Hf]. rewrite Hw. apply pending_no_load. }
  cbn [app] in *. destruct w as [|d i].
  - destruct future as [|d future]; [done|]. apply Forall_cons in Hd as [Hd Hds]. cbn [unperformed app fmap list_fmap concat] in Hw.
    injection Hw as -> ->. exists (mkSeq (bump s) (WBusy d 0) r0 h0 out). split; [by apply sq_wbegin|].
    split; cbn; try done; [lia|]. by exists future.
  - destruct (d !! i) as [v|] eqn:Ed.
    + rewrite (unperformed_next d i _ (write_access_lookup d i v Ed)) in Hw. injection Hw as -> ->.
      exists (mkSeq (store_field i v s) (WBusy d (S i)) r0 h0 out). split; [by apply sq_wfield|].
      split; cbn [ms_slot sl store_field fields perform_write ac_kind ac_loc wpc]; rewrite ?length_insert; try done;
        [by apply lookup_lt_Some in Ed|by exists future].
    + apply lookup_ge_None in Ed. assert (i = length d) as -> by lia.
      rewrite (unperformed_next d _ _ (write_access_last d)), drop_ge in Hw by (rewrite length_write_accesses; lia).
      injection Hw as -> ->. exists (mkSeq (bump s) WIdle r0 (h0 ++ [d]) out). split; [by apply sq_wend|].
      split; cbn; try done. exists future. by rewrite <- app_assoc.
Qed.

Lemma mem_read_sim s w pre k post regs h out q :
  Forall (fun j => x86 (read_access j) (read_access k) = true) pre -> mem_rel (mkMem s w (pre ++ k :: post) regs h out) q ->
  let regs' := <[k := perform_read (read_access k) s]> regs in
  exists q', seq_step q q' /\
    mem_rel (mkMem s w (pre ++ post) regs' h (match pre ++ post with [] => round_end regs' out | _ => out end)) q'.
Proof.
  intros Hf [[Hs Hlen] Hb Hw [Hrl Hr] Ho] regs'. cbn in *. destruct q as [s0 w0 r0 h0 out0]. cbn in *. subst s0 out0.
  apply x86_reads_in_order in Hf as ->. cbn [app] in *.
  assert (Hl' : length regs' = 6%nat) by (unfold regs'; by rewrite length_insert).
  destruct r0 as [|v1 got].
  - destruct Hr as [?|[= -> ->]]; [done|]. exists (mkSeq s w0 (RLoop (version s) []) h0 out). split; [apply sq_rbegin|].
    split; try done. split; [done|]. cbn. split_and!; [lia|done|]. unfold regs'. by destruct regs.
  - destruct Hr as (Hg & Hp & Ht). destruct (decide (length got = 4%nat)) as [Hg4|Hg4].
    + rewrite Hg4 in Hp. injection Hp as -> ->.
      destruct regs as [|r0 [|r1 [|r2 [|r3 [|r4 [|r5 [|]]]]]]]; try done. rewrite Hg4 in Ht. cbn in Ht. injection Ht as -> <-.
      exists (mkSeq s w0 RIdle h0 (round_end regs' out)). split; [|split; try done; split; [done|by left]].
      unfold round_end, regs'. change (<[5%nat := ?x]> ?l !!! 0%nat) with v1. change (<[5%nat := ?x]> ?l !!! 5%nat) with (version s).
      destruct (Z.odd v1 || negb (v1 =? version s)) eqn:E; [by apply sq_rretry|by apply sq_rdone].
    + destruct (5 - length got)%nat as [|m] eqn:Em; [lia|]. injection Hp as -> ->.
      destruct (lookup_lt_is_Some_2 (fields s) (length got)) as [v Hv]; [lia|].
      exists (mkSeq s w0 (RLoop v1 (got ++ [v])) h0 out). split; [by apply sq_rfield|].
      assert (Hv' : perform_read (read_access (S (length got))) s = v).
      { pose proof (list_lookup_total_correct _ _ _ Hv) as Hx.
        destruct got as [|g0 [|g1 [|g2 [|g3 [|]]]]]; cbn in Hg, Hg4, Hx |- *; try lia; exact Hx. }
      assert (Htk : take (S (length (got ++ [v]))) regs' = v1 :: got ++ [v]).
      { unfold regs'. rewrite Hv', length_app, Nat.add_1_r, take_S_insert, Ht by lia. done. }
      destruct m as [|m]; [lia|]. split; try done. split; [done|]. cbn [rpc ms_reader ms_regs]. rewrite length_app in *. cbn [length] in *.
      split_and!; [lia| |exact Htk]. replace (5 - (length got + 1))%nat with (S m) by lia. by rewrite Nat.add_1_r.
Qed.

Lemma mem_step_sim m m' q :
  mem_step x86 m m' -> mem_rel m q -> exists q', (q' = q \/ seq_step q q') /\ mem_rel m' q'.
Proof.
  intros Hs Hr. destruct Hs as [s w r regs h out data Hd|s pre a post r regs h out Hf|s w regs h out|s w pre k post regs h out Hf].
  - exists q. split; [by left|]. destruct Hr as [H1 H2 (future & Hfu & Hw & Hi) H3 H4]. split; try done. cbn in *.
    exists (future ++ [data]). rewrite Hw, Hi, fmap_app, concat_app, <- !app_assoc. split_and!; [|cbn [fmap list_fmap concat]; by rewrite app_nil_r|done].
    apply Forall_app_2; [done|by repeat constructor].
  - destruct (mem_write_sim _ _ _ _ _ _ _ _ _ Hf Hr) as (q' & ? & ?). exists q'. split; [by right|done].
  - exists q. split; [by left|]. destruct Hr as [H1 H2 H3 [H4 H5] H6]. split; try done. split; [done|]. cbn in *.
    destruct (rpc q) as [|v1 got]; [by right|]. destruct H5 as (Hg & Hp & _). by replace (5 - length got)%nat with (S (4 - length got)) in Hp by lia.
  - destruct (mem_read_sim _ _ _ _ _ _ _ _ _ Hf Hr) as (q' & ? & ?). exists q'. split; [by right|done].
Qed.

Lemma mem_reachable_sim m : rtc (mem_step x86) mem_init m -> exists q, rtc seq_step seq_init q /\ mem_rel m q.
Proof.
  intros H. apply (rtc_invariant (mem_step x86) (fun m => exists q, rtc seq_step seq_init q /\ mem_rel m q) mem_init); [|done|].
  - intros a b (q & Hq & Hr) Hs. destruct (mem_step_sim _ _ _ Hs Hr) as (q' & [->|Hs'] & Hr'); [by exists q|].
    exists q'. split; [by eapply rtc_r|done].
  - exists seq_init. split; [constructor|]. split; try done; [by exists []|by split; [|left]].
Qed.

(** A whole record: the initial zeros or one that was written. *)
Definition whole (issued : list (list Z)) (snapshot : list Z) : Prop := snapshot = [0; 0; 0; 0] \/ snapshot ∈ issued.

Lemma x86_whole m :
  rtc (mem_step x86) mem_init m -> 2 * Z.of_nat (length (ms_issued m)) + 1 < 2 ^ 64 -> Forall (whole (ms_issued m)) (ms_seen m).
Proof.
  intros (q & Hq & [_ _ (future & _ & _ & Hi) _ Hs])%mem_reachable_sim Hb. rewrite Hs, Hi in *. rewrite length_app in Hb.
  eapply Forall_impl; [apply (si_seen _ (seq_reachable_inv _ Hq ltac:(lia)))|]. intros x [->|Hx]; [by left|right]. set_solver.
Qed.

(** The store to the first field overtakes the relaxed increment. *)
Definition torn_demo : mem_state :=
  mkMem (mkSlot 0 [5; 0; 0; 0]) [mkAccess FetchAdd None Relaxed; mkAccess (Store 6) (Some 1%nat) Plain; mkAccess (Store 7) (Some 2%nat) Plain;
         mkAccess (Store 8) (Some 3%nat) Plain; mkAccess FetchAdd None Release] [] [0; 5; 0; 0; 0; 0] [[5; 6; 7; 8]] [[5; 0; 0; 0]].

Lemma torn_demo_reachable : rtc (mem_step cxx11) mem_init torn_demo.
Proof.
  eapply rtc_l; [apply (mm_issue _ _ _ _ _ _ _ [5; 6; 7; 8]); reflexivity|].
  eapply rtc_l; [apply (mm_write _ _ [mkAccess FetchAdd None Relaxed]); by repeat constructor|].
  eapply rtc_l; [apply mm_begin|].
  do 6 (eapply rtc_l; [apply (mm_read _ _ _ []); constructor|]). apply rtc_refl.
Qed.

(** C19: The sequence lock under the memory orders of the source.  Where accesses are performed in program order except that
    loads may overtake stores (x86, with the compiler keeping the order), each snapshot the reader returns is one complete
    record that the writer wrote or the initial zeros, never a mixture, in every interleaving with fewer than [2^63]
    writes.  The memory orders themselves do not give this: under the reorderings that C++ allows for a relaxed
    increment and plain fields there is a run in which the reader returns a mixture of two records. *)
Theorem seqlock_torn_reads :
  (forall st : mem_state, rtc (mem_step x86) mem_init st -> 2 * Z.of_nat (length (ms_issued st)) + 1 < 2 ^ 64 ->
     Forall (whole (ms_issued st)) (ms_seen st)) /\
  (exists (st : mem_state) (snapshot : list Z), rtc (mem_step cxx11) mem_init st /\ snapshot ∈ ms_seen st /\ ~ whole (ms_issued st) snapshot).
Proof.
  split; [exact x86_whole|]. exists torn_demo, [5; 0; 0; 0]. split; [exact torn_demo_reachable|]. split; [by left|].
  intros [?|Hx]; [done|]. by apply list_elem_of_singleton in Hx.
Qed.

(** A run on x86 in which the reader meets a write under way, retries, and succeeds after it. *)
Definition mem_demo : mem_state :=
  mkMem (mkSlot 2 [5; 6; 7; 8]) [] [] [2; 5; 6; 7; 8; 2] [[5; 6; 7; 8]] [[5; 6; 7; 8]].

Lemma mem_demo_reachable : rtc (mem_step x86) mem_init mem_demo.
Proof.
  eapply rtc_l; [apply (mm_issue _ _ _ _ _ _ _ [5; 6; 7; 8]); reflexivity|].
  do 2 (eapply rtc_l; [apply (mm_write _ _ []); constructor|]).
  eapply rtc_l; [apply mm_begin|]. do 6 (eapply rtc_l; [apply (mm_read _ _ _ []); constructor|]).
  do 4 (eapply rtc_l; [apply (mm_write _ _ []); constructor|]).
  eapply rtc_l; [apply mm_begin|]. do 6 (eapply rtc_l; [apply (mm_read _ _ _ []); constructor|]). apply rtc_refl.
Qed.

Lemma seqlock_torn_reads_witness : rtc (mem_step x86) mem_init mem_demo /\ Forall (whole (ms_issued mem_demo)) (ms_seen mem_demo).
Proof.
  split; [exact mem_demo_reachable|]. apply (proj1 seqlock_torn_reads mem_demo); [exact mem_demo_reachable|vm_compute; reflexivity].
Defined.
