(* ===== verification/MpscQueue.v ===== *)
(** * The multi-producer queue in shared memory

    [MpscRithmicQueue] (src/exchange/rithmic/rithmic_queue.h) carries the
    gateway's events to the collector: producers reserve positions with a
    [fetch_add] on [write_pos_], wait until the slot's sequence number equals
    their position, write, and publish position + 1; the consumer frees a slot
    by storing position + Capacity.  The functions are the source's; below
    them, every reservation is a thread of its own and all accesses
    interleave. *)
From S2P Require Import Prelude.

Section mpsc.
Context {A : Type} `{Inhabited A}.
(** [Capacity = 2^k]; [inhabitant] is the value-initialised event [T{}]. *)
Context (k : Z).

Definition Capacity : Z := 2 ^ k.

(** Source: src/exchange/rithmic/rithmic_queue.h:75-78, MpscRithmicQueue::Slot. *)
Record Slot := mkMSlot { sequence : Z; data : A }.

#[global] Instance Slot_inhabited : Inhabited Slot := populate (mkMSlot 0 inhabitant).

(** Source: src/exchange/rithmic/rithmic_queue.h:80-91, MpscRithmicQueue (data members). *)
Record MpscRithmicQueue := mkMpsc {
  mq_write_pos : Z;
  mq_dropped : Z;
  mq_slots : list Slot;
  mq_read_pos : Z
}.

(** Source: src/exchange/rithmic/rithmic_queue.h:98-103, MpscRithmicQueue::MpscRithmicQueue. *)
Definition mpsc_new : MpscRithmicQueue :=
  mkMpsc 0 0 ((fun i => mkMSlot (Z.of_nat i) inhabitant) <$> seq 0 (Z.to_nat Capacity)) 0.

Definition mslot (pos : Z) : nat := Z.to_nat (Z.land pos (Capacity - 1)).

Definition slot_at (q : MpscRithmicQueue) (pos : Z) : Slot := mq_slots q !!! mslot pos.

Definition set_slot (pos : Z) (s : Slot) (q : MpscRithmicQueue) : MpscRithmicQueue :=
  mkMpsc (mq_write_pos q) (mq_dropped q) (<[mslot pos := s]> (mq_slots q)) (mq_read_pos q).

(** [write_pos_.fetch_add(1)] *)
Definition reserve (q : MpscRithmicQueue) : Z * MpscRithmicQueue :=
  (mq_write_pos q, mkMpsc (u64 (mq_write_pos q + 1)) (mq_dropped q) (mq_slots q) (mq_read_pos q)).

(** [while(slot.sequence != pos) { if(++spin > kMaxSpin) give up; SpinHint(); }];
    [env i] is what the other threads do during the [i]-th pause. *)
Fixpoint spin_wait (budget : nat) (env : nat -> MpscRithmicQueue -> MpscRithmicQueue) (pos : Z)
    (q : MpscRithmicQueue) : bool * MpscRithmicQueue :=
  if sequence (slot_at q pos) =? pos then (true, q)
  else match budget with
       | O => (false, q)
       | S b => spin_wait b (fun i => env (S i)) pos (env O q)
       end.

(** Source: src/exchange/rithmic/rithmic_queue.h:123-123, kMaxSpin. *)
Definition kMaxSpin : nat := Z.to_nat 10000.

(** Source: src/exchange/rithmic/rithmic_queue.h:106-143, MpscRithmicQueue::TryPush. *)
Definition TryPush (env : nat -> MpscRithmicQueue -> MpscRithmicQueue) (event : A) (q : MpscRithmicQueue)
    : bool * MpscRithmicQueue :=
  let '(pos, q) := reserve q in
  if sequence (slot_at q pos) =? pos then (true, set_slot pos (mkMSlot (u64 (pos + 1)) event) q)
  else
    match spin_wait kMaxSpin (fun i => env (S i)) pos (env O q) with
    | (true, q) => (true, set_slot pos (mkMSlot (u64 (pos + 1)) event) q)
    | (false, q) =>
        let q := set_slot pos (mkMSlot (u64 (pos + 1)) inhabitant) q in
        (false, mkMpsc (mq_write_pos q) (u64 (mq_dropped q + 1)) (mq_slots q) (mq_read_pos q))
    end.

(** Source: src/exchange/rithmic/rithmic_queue.h:146-156, MpscRithmicQueue::Push.
    [None]: still waiting after [fuel] pauses. *)
Definition Push (fuel : nat) (env : nat -> MpscRithmicQueue -> MpscRithmicQueue) (event : A)
    (q : MpscRithmicQueue) : option MpscRithmicQueue :=
  let '(pos, q) := reserve q in
  match spin_wait fuel env pos q with
  | (true, q) => Some (set_slot pos (mkMSlot (u64 (pos + 1)) event) q)
  | (false, _) => None
  end.

(** Source: src/exchange/rithmic/rithmic_queue.h:159-171, MpscRithmicQueue::TryPop. *)
Definition TryPop (q : MpscRithmicQueue) : option (A * MpscRithmicQueue) :=
  let pos := mq_read_pos q in
  let s := slot_at q pos in
  if negb (sequence s =? u64 (pos + 1)) then None
  else
    let q := mkMpsc (mq_write_pos q) (mq_dropped q) (mq_slots q) (u64 (pos + 1)) in
    Some (data s, set_slot pos (mkMSlot (u64 (pos + Capacity)) (data s)) q).

(** Source: src/exchange/rithmic/rithmic_queue.h:174-182, MpscRithmicQueue::PopBlocking. *)
Fixpoint PopBlocking (fuel : nat) (env : nat -> MpscRithmicQueue -> MpscRithmicQueue) (q : MpscRithmicQueue)
    : option (A * MpscRithmicQueue) :=
  match fuel with
  | O => None
  | S n => match TryPop q with
           | Some x => Some x
           | None => PopBlocking n (fun i => env (S i)) (env O q)
           end
  end.

(** Source: src/exchange/rithmic/rithmic_queue.h:64-68, MpscRithmicQueue::size. *)
Definition mq_size (q : MpscRithmicQueue) : Z := u64 (mq_write_pos q - mq_read_pos q).

(** ** Interleaving

    A reservation at position [p] is a thread of its own, so the list of
    reservations with their progress describes any number of producers. *)

Inductive progress := Reserved | Ready | Written | Published.

Inductive mpsc_consumer :=
| MIdle
| MSeen                 (* sequence == pos + 1 observed *)
| MCopied (v : A)       (* out = slot.data *)
| MMoved (v : A).       (* read_pos_ stored; about to free the slot *)

Record mpsc_state := mkMState {
  ms_q : MpscRithmicQueue;
  ms_prod : list (A * progress);
  ms_cons : mpsc_consumer;
  ms_popped : list A
}.

Definition upd_data (pos : Z) (v : A) (q : MpscRithmicQueue) : MpscRithmicQueue :=
  set_slot pos (mkMSlot (sequence (slot_at q pos)) v) q.
Definition upd_seq (pos : Z) (n : Z) (q : MpscRithmicQueue) : MpscRithmicQueue :=
  set_slot pos (mkMSlot n (data (slot_at q pos))) q.

(** Source: src/exchange/rithmic/rithmic_queue.h:106-171, MpscRithmicQueue::TryPush, Push and TryPop (one access per step, no event dropped). *)
Inductive mpsc_step : mpsc_state -> mpsc_state -> Prop :=
| m_reserve q ps c out v :
    mpsc_step (mkMState q ps c out) (mkMState (reserve q).2 (ps ++ [(v, Reserved)]) c out)
| m_ready q ps c out p v :
    ps !! p = Some (v, Reserved) -> sequence (slot_at q (Z.of_nat p)) = Z.of_nat p ->
    mpsc_step (mkMState q ps c out) (mkMState q (<[p := (v, Ready)]> ps) c out)
| m_write q ps c out p v :
    ps !! p = Some (v, Ready) ->
    mpsc_step (mkMState q ps c out) (mkMState (upd_data (Z.of_nat p) v q) (<[p := (v, Written)]> ps) c out)
| m_publish q ps c out p v :
    ps !! p = Some (v, Written) ->
    mpsc_step (mkMState q ps c out)
      (mkMState (upd_seq (Z.of_nat p) (u64 (Z.of_nat p + 1)) q) (<[p := (v, Published)]> ps) c out)
| m_seen q ps out :
    sequence (slot_at q (mq_read_pos q)) = u64 (mq_read_pos q + 1) ->
    mpsc_step (mkMState q ps MIdle out) (mkMState q ps MSeen out)
| m_copy q ps out :
    mpsc_step (mkMState q ps MSeen out) (mkMState q ps (MCopied (data (slot_at q (mq_read_pos q)))) out)
| m_move q ps out v :
    mpsc_step (mkMState q ps (MCopied v) out)
      (mkMState (mkMpsc (mq_write_pos q) (mq_dropped q) (mq_slots q) (u64 (mq_read_pos q + 1))) ps
         (MMoved v) (out ++ [v]))
| m_free q ps out v :
    mpsc_step (mkMState q ps (MMoved v) out)
      (mkMState (upd_seq (mq_read_pos q - 1) (u64 (mq_read_pos q - 1 + Capacity)) q) ps MIdle out).

Definition mpsc_init : mpsc_state := mkMState mpsc_new [] MIdle [].

(** ** The invariant *)

(** With a single slot the sequence of a published, unread event would equal the
    next position: the protocol needs a capacity of at least two. *)
Hypothesis Hk : 1 <= k <= 62.

(** The first position whose slot has not been freed. *)
Definition freed (c : mpsc_consumer) (out : list A) : nat :=
  match c with MMoved _ => (length out - 1)%nat | _ => length out end.

(** The slot that serves position [p] once the consumer has freed it. *)
Definition slot_inv (q : MpscRithmicQueue) (ps : list (A * progress)) (p : nat) : Prop :=
  let s := slot_at q (Z.of_nat p) in
  match ps !! p with
  | Some (v, Published) => sequence s = Z.of_nat p + 1 /\ data s = v
  | Some (v, Written) => sequence s = Z.of_nat p /\ data s = v
  | _ => sequence s = Z.of_nat p
  end.

Definition cons_inv (ps : list (A * progress)) (c : mpsc_consumer) (out : list A) : Prop :=
  match c with
  | MIdle => True
  | MSeen => exists v, ps !! length out = Some (v, Published)
  | MCopied v => ps !! length out = Some (v, Published)
  | MMoved v => exists out', out = out' ++ [v]
  end.

Record mpsc_inv (st : mpsc_state) : Prop := {
  mi_len : length (mq_slots (ms_q st)) = Z.to_nat Capacity;
  mi_write : mq_write_pos (ms_q st) = Z.of_nat (length (ms_prod st));
  mi_read : mq_read_pos (ms_q st) = Z.of_nat (length (ms_popped st));
  mi_slots p : (freed (ms_cons st) (ms_popped st) <= p)%nat ->
    Z.of_nat p < Z.of_nat (freed (ms_cons st) (ms_popped st)) + Capacity ->
    slot_inv (ms_q st) (ms_prod st) p;
  (* a producer past its wait owns a slot inside the window *)
  mi_window p v st' : ms_prod st !! p = Some (v, st') -> st' <> Reserved ->
    Z.of_nat p < Z.of_nat (freed (ms_cons st) (ms_popped st)) + Capacity;
  mi_early p : (p < length (ms_popped st))%nat ->
    exists v, ms_prod st !! p = Some (v, Published) /\ ms_popped st !! p = Some v;
  mi_cons : cons_inv (ms_prod st) (ms_cons st) (ms_popped st)
}.

Lemma Capacity_pos : 0 < Capacity <= 2 ^ 62.
Proof using Hk.
  unfold Capacity. split; [apply Z.pow_pos_nonneg; lia|]. apply Z.pow_le_mono_r; lia.
Qed.

Lemma mslot_mod x : mslot x = Z.to_nat (x mod Capacity).
Proof using Hk. unfold mslot, Capacity. by rewrite land_mask by lia. Qed.

Lemma mslot_lt x : (mslot x < Z.to_nat Capacity)%nat.
Proof using Hk.
  rewrite mslot_mod. pose proof Capacity_pos.
  pose proof (Z.mod_pos_bound x Capacity ltac:(lia)). lia.
Qed.

Lemma mslot_inj x y : Z.abs (x - y) < Capacity -> mslot x = mslot y -> x = y.
Proof using Hk.
  rewrite !mslot_mod. pose proof Capacity_pos as [Hp _]. intros Ha He.
  apply (mod_inj_window Capacity); [lia| |done].
  pose proof (Z.mod_pos_bound x Capacity Hp). pose proof (Z.mod_pos_bound y Capacity Hp). lia.
Qed.

Lemma mslot_add_cap x : mslot (x + Capacity) = mslot x.
Proof using Hk.
  rewrite !mslot_mod. pose proof Capacity_pos as [Hp _].
  replace (x + Capacity) with (x + 1 * Capacity) by lia. by rewrite Z_mod_plus_full.
Qed.

Lemma slot_at_set_eq q x s :
  length (mq_slots q) = Z.to_nat Capacity -> slot_at (set_slot x s q) x = s.
Proof using Hk.
  intros Hl. unfold slot_at, set_slot. simpl. apply list_lookup_total_insert_eq. rewrite Hl. apply mslot_lt.
Qed.

Lemma slot_at_set_same q x y s :
  length (mq_slots q) = Z.to_nat Capacity -> mslot x = mslot y -> slot_at (set_slot x s q) y = s.
Proof using Hk. intros Hl He. unfold slot_at. rewrite <- He. by apply slot_at_set_eq. Qed.

Lemma slot_at_set_ne q x y s : mslot x <> mslot y -> slot_at (set_slot x s q) y = slot_at q y.
Proof using. intros He. unfold slot_at, set_slot. simpl. by apply list_lookup_total_insert_ne. Qed.

(** Changing the slot of a window position does not touch the other window positions. *)
Lemma slot_inv_other q ps base p p' s x :
  (base <= p)%nat -> Z.of_nat p < Z.of_nat base + Capacity ->
  (base <= p')%nat -> Z.of_nat p' < Z.of_nat base + Capacity -> p <> p' ->
  slot_inv q ps p' -> slot_inv (set_slot (Z.of_nat p) s q) (<[p := x]> ps) p'.
Proof using Hk.
  intros H1 H2 H3 H4 Hne Hs. unfold slot_inv in *. rewrite list_lookup_insert_ne by done.
  rewrite slot_at_set_ne; [done|]. intros He. apply mslot_inj in He; lia.
Qed.
End mpsc.
Arguments MpscRithmicQueue : clear implicits.
Arguments Slot : clear implicits.

Section mpsc_proofs.
Context {A : Type} `{Inhabited A} (k : Z) (Hk : 1 <= k <= 62).

Implicit Types (q : MpscRithmicQueue A) (ps : list (A * progress)) (out : list A) (st : @mpsc_state A) (v : A).

Lemma Capacity_ge_2 : 2 <= Capacity k.
Proof using Hk. unfold Capacity. apply (Z.pow_le_mono_r 2 1 k); lia. Qed.

Lemma freed_le (c : @mpsc_consumer A) out : (freed c out <= length out)%nat.
Proof using. destruct c; simpl; lia. Qed.

(** The window position that shares the slot of [p]. *)
Lemma window_position p base :
  Z.of_nat base + Capacity k <= Z.of_nat p ->
  exists p', (base <= p')%nat /\ Z.of_nat p' < Z.of_nat base + Capacity k /\
    mslot k (Z.of_nat p') = mslot k (Z.of_nat p) /\ Z.of_nat p' + Capacity k <= Z.of_nat p.
Proof using Hk.
  intros Hp. pose proof (Capacity_pos k Hk) as [Hc _].
  set (d := Z.of_nat p - Z.of_nat base).
  exists (base + Z.to_nat (d mod Capacity k))%nat.
  pose proof (Z.mod_pos_bound d _ Hc). pose proof (Z.div_mod d (Capacity k) ltac:(lia)) as Hd.
  assert (1 <= d / Capacity k) by (apply Z.div_le_lower_bound; lia).
  split_and!; [lia|lia| |nia]. rewrite !(mslot_mod k Hk). f_equal.
  replace (Z.of_nat p) with (Z.of_nat (base + Z.to_nat (d mod Capacity k)) + (d / Capacity k) * Capacity k) by lia.
  by rewrite Z_mod_plus_full.
Qed.

(** A producer that sees its own position in the slot is inside the window. *)
Lemma ready_in_window st p v :
  mpsc_inv k st -> ms_prod st !! p = Some (v, Reserved) ->
  sequence (slot_at k (ms_q st) (Z.of_nat p)) = Z.of_nat p ->
  Z.of_nat p < Z.of_nat (freed (ms_cons st) (ms_popped st)) + Capacity k.
Proof using Hk.
  intros Hi Hp Hseq. pose proof Capacity_ge_2.
  destruct (Z.lt_ge_cases (Z.of_nat p) (Z.of_nat (freed (ms_cons st) (ms_popped st)) + Capacity k)) as [|Hge]; [done|].
  destruct (window_position _ _ Hge) as (p' & H1 & H2 & Hs & Hle).
  pose proof (mi_slots _ _ Hi p' H1 H2) as Hinv. unfold slot_inv, slot_at in *. rewrite Hs in Hinv.
  destruct (ms_prod st !! p') as [[? []]|]; first [lia|destruct Hinv as [Hinv _]; lia].
Qed.

Lemma not_early st p v s :
  mpsc_inv k st -> ms_prod st !! p = Some (v, s) -> s <> Published -> (length (ms_popped st) <= p)%nat.
Proof using.
  intros Hi Hp Hs. destruct (Nat.lt_ge_cases p (length (ms_popped st))) as [Hlt|]; [|done].
  destruct (mi_early _ _ Hi p Hlt) as (v' & Hv & _). congruence.
Qed.

(** One producer step at a window position [p]: its slot and its progress change together. *)
Lemma producer_step_inv q ps c out p v s0 s1 sl :
  mpsc_inv k (mkMState q ps c out) ->
  ps !! p = Some (v, s0) -> s0 <> Published ->
  Z.of_nat p < Z.of_nat (freed c out) + Capacity k ->
  slot_inv k (set_slot k (Z.of_nat p) sl q) (<[p := (v, s1)]> ps) p ->
  mpsc_inv k (mkMState (set_slot k (Z.of_nat p) sl q) (<[p := (v, s1)]> ps) c out).
Proof using Hk.
  intros Hi Hp Hs0 Hw Hs. pose proof (not_early _ _ _ _ Hi Hp Hs0) as Hne. simpl in Hne.
  pose proof (freed_le c out). pose proof (lookup_lt_Some _ _ _ Hp).
  destruct Hi as [Hl Hwr Hrd Hsl Hwin Hearly Hc]; simpl in *.
  split; simpl; rewrite ?length_insert; try done.
  - intros p' Hp1 Hp2. destruct (decide (p = p')) as [<-|]; [done|].
    apply (slot_inv_other k Hk _ _ (freed c out)); try done; [lia|]. by apply Hsl.
  - intros p' v' s' Hp' Hs'. destruct (decide (p = p')) as [<-|]; [done|].
    rewrite list_lookup_insert_ne in Hp' by done. by eapply Hwin.
  - intros p' Hp'. rewrite list_lookup_insert_ne by lia. by apply Hearly.
  - assert (Hk' : forall w, ps !! length out = Some (w, Published) ->
      <[p := (v, s1)]> ps !! length out = Some (w, Published)).
    { intros w Hw'. rewrite list_lookup_insert_ne; [done|]. intros ->. congruence. }
    destruct c; simpl in *; try done; [|by apply Hk']. destruct Hc as [w Hw']. exists w. by apply Hk'.
Qed.

Lemma set_slot_id q x : length (mq_slots q) = Z.to_nat (Capacity k) -> set_slot k x (slot_at k q x) q = q.
Proof using Hk.
  intros Hl. unfold set_slot, slot_at. rewrite list_insert_id; [by destruct q|].
  apply list_lookup_lookup_total_lt. rewrite Hl. by apply mslot_lt.
Qed.

Lemma reserve_inv q ps c out v :
  Z.of_nat (length ps) + 1 < 2 ^ 64 ->
  mpsc_inv k (mkMState q ps c out) -> mpsc_inv k (mkMState (reserve q).2 (ps ++ [(v, Reserved)]) c out).
Proof using.
  intros Hb [Hl Hwr Hrd Hsl Hwin Hearly Hc]; simpl in *. split; simpl; try done.
  - rewrite Hwr, length_app. simpl. rewrite wrap_small; [lia|unfold in_range; lia].
  - intros p Hp1 Hp2. specialize (Hsl p Hp1 Hp2). unfold slot_inv, slot_at in *. simpl.
    destruct (Nat.lt_ge_cases p (length ps)); [by rewrite lookup_app_l|].
    rewrite lookup_ge_None_2 in Hsl by done. rewrite lookup_app_r by done.
    destruct (p - length ps)%nat; done.
  - intros p v' s Hp Hs. apply lookup_snoc_Some in Hp as [[_ Hp]|[_ Heq]]; [by eapply Hwin|].
    by simplify_eq.
  - intros p Hp. destruct (Hearly p Hp) as (v' & Hv & ?). exists v'. split; [by apply lookup_app_l_Some|done].
  - destruct c; simpl in *; try done; [|by apply lookup_app_l_Some].
    destruct Hc as [w Hw]. exists w. by apply lookup_app_l_Some.
Qed.

(** An idle consumer that sees [pos + 1] finds the published value of its position. *)
Lemma seen_published q ps out :
  mpsc_inv k (mkMState q ps MIdle out) -> Z.of_nat (length out) + 1 < 2 ^ 64 ->
  sequence (slot_at k q (mq_read_pos q)) = u64 (mq_read_pos q + 1) ->
  exists v, ps !! length out = Some (v, Published) /\ data (slot_at k q (mq_read_pos q)) = v.
Proof using Hk.
  intros Hi Hb Hs. pose proof (Capacity_pos k Hk).
  pose proof (mi_slots _ _ Hi (length out)) as Hsl. simpl in Hsl.
  specialize (Hsl ltac:(lia) ltac:(lia)). pose proof (mi_read _ _ Hi) as Hr. simpl in Hr.
  rewrite Hr in *. rewrite wrap_small in Hs by (unfold in_range; lia).
  unfold slot_inv in Hsl.
  destruct (ps !! length out) as [[v []]|]; try lia.
  destruct Hsl as [Hsl Hd]. exists v. by split.
Qed.

(** The consumer hands the slot of position [R - 1] to position [R - 1 + Capacity]. *)
Lemma free_inv q ps out v :
  mpsc_inv k (mkMState q ps (MMoved v) out) -> Z.of_nat (length out) + Capacity k < 2 ^ 64 ->
  mpsc_inv k (mkMState (upd_seq k (mq_read_pos q - 1) (u64 (mq_read_pos q - 1 + Capacity k)) q) ps MIdle out).
Proof using Hk.
  intros [Hl Hwr Hrd Hsl Hwin Hearly Hc] Hb; simpl in *. pose proof Capacity_ge_2. destruct Hc as [out' ->].
  rewrite length_app in *. simpl in *. rewrite Hrd, wrap_small by (unfold in_range; lia).
  unfold upd_seq. split; simpl; rewrite ?length_insert, ?length_app; try done; simpl.
  - intros p Hp1 Hp2. destruct (decide (Z.of_nat p = Z.of_nat (length out' + 1) - 1 + Capacity k)) as [He|Hne].
    + unfold slot_inv. rewrite slot_at_set_same; [|done|done|].
      2:{ rewrite He. rewrite (mslot_add_cap k Hk). done. }
      destruct (ps !! p) as [[v' s]|] eqn:E; [|simpl; lia].
      destruct s; simpl; try lia; exfalso; apply Hwin in E; (done || lia).
    + assert (Hin : slot_inv k q ps p) by (apply Hsl; lia). unfold slot_inv in *.
      rewrite slot_at_set_ne; [done|]. intros Hm. apply (mslot_inj k Hk) in Hm; lia.
  - intros p v' s Hp Hs. specialize (Hwin p v' s Hp Hs). lia.
Qed.

Lemma mpsc_move_inv q ps out v :
  mpsc_inv k (mkMState q ps (MCopied v) out) -> Z.of_nat (length ps) + Capacity k < 2 ^ 64 ->
  mpsc_inv k (mkMState (mkMpsc (mq_write_pos q) (mq_dropped q) (mq_slots q) (u64 (mq_read_pos q + 1))) ps (MMoved v) (out ++ [v])).
Proof using Hk.
  pose proof (Capacity_pos k Hk) as Hcap. intros Hi Hb.
  pose proof (mi_cons _ _ Hi) as Hc. simpl in Hc. destruct Hi as [Hl Hwr Hrd Hsl Hwin Hearly _]; simpl in *.
  pose proof (lookup_lt_Some _ _ _ Hc).
  split; simpl; rewrite ?length_app; simpl; rewrite ?Nat.add_sub; try done.
  - rewrite Hrd, wrap_small; [lia|unfold in_range; lia].
  - intros p Hp. destruct (decide (p = length out)) as [->|].
    + exists v. by rewrite lookup_app_r, Nat.sub_diag by lia.
    + destruct (Hearly p ltac:(lia)) as (v' & ? & ?). exists v'. split; [done|by apply lookup_app_l_Some].
  - by exists out.
Qed.

Lemma mpsc_step_inv st st' :
  mpsc_step k st st' -> Z.of_nat (length (ms_prod st')) + Capacity k < 2 ^ 64 ->
  mpsc_inv k st -> mpsc_inv k st'.
Proof using Hk.
  pose proof (Capacity_pos k Hk) as Hcap. intros Hs Hb Hi.
  assert (Hout : (length (ms_popped st) <= length (ms_prod st))%nat).
  { destruct (Nat.le_gt_cases (length (ms_popped st)) (length (ms_prod st))) as [|Hgt]; [done|].
    destruct (mi_early _ _ Hi (length (ms_prod st)) Hgt) as (v & Hv & _).
    apply lookup_lt_Some in Hv. lia. }
  destruct Hs as [q ps c out v|q ps c out p v Hp Hq|q ps c out p v Hp|q ps c out p v Hp
                 |q ps out Hq|q ps out|q ps out v|q ps out v];
    cbn [ms_q ms_prod ms_cons ms_popped] in *; rewrite ?length_insert, ?length_app in Hb; simpl in Hb.
  - apply reserve_inv; [lia|done].
  - pose proof (mi_len _ _ Hi) as Hl. simpl in Hl.
    rewrite <- (set_slot_id q (Z.of_nat p)) at 1 by done.
    eapply producer_step_inv; [done|done|done|by eapply (ready_in_window _ _ _ Hi)|].
    unfold slot_inv. rewrite set_slot_id by done. by rewrite list_lookup_insert_eq by (by eapply lookup_lt_Some).
  - pose proof (mi_len _ _ Hi) as Hl. simpl in Hl.
    pose proof (mi_window _ _ Hi _ _ _ Hp ltac:(done)) as Hw. pose proof (not_early _ _ _ _ Hi Hp ltac:(done)).
    pose proof (freed_le c out). simpl in *.
    eapply producer_step_inv; [done|done|done|done|].
    unfold slot_inv. rewrite list_lookup_insert_eq by (by eapply lookup_lt_Some).
    rewrite slot_at_set_eq by done. simpl. split; [|done].
    pose proof (mi_slots _ _ Hi p ltac:(simpl; lia) Hw) as Hsl. unfold slot_inv in Hsl. simpl in Hsl. by rewrite Hp in Hsl.
  - pose proof (mi_len _ _ Hi) as Hl. simpl in Hl.
    pose proof (mi_window _ _ Hi _ _ _ Hp ltac:(done)) as Hw. pose proof (not_early _ _ _ _ Hi Hp ltac:(done)).
    pose proof (freed_le c out). pose proof (lookup_lt_Some _ _ _ Hp). simpl in *.
    eapply producer_step_inv; [done|done|done|done|].
    unfold slot_inv. rewrite list_lookup_insert_eq by done. rewrite slot_at_set_eq by done. simpl.
    rewrite wrap_small by (unfold in_range; lia). split; [done|].
    pose proof (mi_slots _ _ Hi p ltac:(simpl; lia) Hw) as Hsl. unfold slot_inv in Hsl. simpl in Hsl.
    rewrite Hp in Hsl. apply Hsl.
  - destruct (seen_published _ _ _ Hi) as (v & Hv & _); [lia|done|].
    destruct Hi. split; simpl in *; try done. by exists v.
  - destruct (mi_cons _ _ Hi) as (v & Hv). simpl in Hv.
    pose proof (mi_slots _ _ Hi (length out)) as Hsl. simpl in Hsl. specialize (Hsl ltac:(lia) ltac:(lia)).
    pose proof (mi_read _ _ Hi) as Hr. simpl in Hr. unfold slot_inv in Hsl. rewrite Hv in Hsl.
    rewrite Hr. destruct Hsl as [_ ->]. destruct Hi. split; simpl in *; done.
  - apply mpsc_move_inv; [done|lia].
  - eapply free_inv; [done|lia].
Qed.
End mpsc_proofs.

(** ** Properties *)

Section mpsc_claims.
Context {A : Type} `{Inhabited A} (k : Z) (Hk : 1 <= k <= 62).
Implicit Types (q : MpscRithmicQueue A) (st : @mpsc_state A).

Lemma mpsc_init_inv : mpsc_inv k (mpsc_init (A := A) k).
Proof using Hk.
  pose proof (Capacity_pos k Hk). split; simpl; try done; [|intros p Hp Hlt|intros; lia].
  - by rewrite length_fmap, length_seq.
  - unfold slot_inv, slot_at. simpl. rewrite (mslot_mod k Hk), Z.mod_small by lia. rewrite Nat2Z.id.
    erewrite list_lookup_total_correct; [|by rewrite list_lookup_fmap, lookup_seq_lt by lia]. done.
Qed.

Lemma mpsc_step_prod st st' : mpsc_step k st st' -> (length (ms_prod st) <= length (ms_prod st'))%nat.
Proof using. destruct 1; simpl; rewrite ?length_insert, ?length_app; lia. Qed.

Lemma mpsc_reachable_inv st :
  rtc (mpsc_step k) (mpsc_init k) st -> Z.of_nat (length (ms_prod st)) + Capacity k < 2 ^ 64 -> mpsc_inv k st.
Proof using Hk.
  intros Hr. refine (rtc_invariant (mpsc_step k)
    (fun st => Z.of_nat (length (ms_prod st)) + Capacity k < 2 ^ 64 -> mpsc_inv k st) _ _ _ Hr _).
  - intros a b Ha Hs Hb. pose proof (mpsc_step_prod _ _ Hs).
    apply (mpsc_step_inv k Hk _ _ Hs); [lia|]. apply Ha. lia.
  - intros _. apply mpsc_init_inv.
Qed.

Lemma mpsc_popped_prefix st :
  mpsc_inv k st -> ms_popped st = take (length (ms_popped st)) (fst <$> ms_prod st).
Proof using.
  intros Hi. apply list_eq. intros i.
  destruct (Nat.lt_ge_cases i (length (ms_popped st))) as [Hlt|Hge].
  - destruct (mi_early _ _ Hi i Hlt) as (v & Hv & ->). rewrite lookup_take_lt, list_lookup_fmap, Hv by done. done.
  - rewrite lookup_ge_None_2 by done. symmetry. apply lookup_take_ge. done.
Qed.

(** A consumer at rest whose next position is published pops its value. *)
Lemma TryPop_published st v :
  mpsc_inv k st -> ms_cons st = MIdle -> Z.of_nat (length (ms_popped st)) + 1 < 2 ^ 64 ->
  ms_prod st !! length (ms_popped st) = Some (v, Published) ->
  exists q', TryPop k (ms_q st) = Some (v, q').
Proof using Hk.
  intros Hi Hc Hb Hv. pose proof (Capacity_pos k Hk).
  pose proof (mi_slots _ _ Hi (length (ms_popped st))) as Hs. rewrite Hc in Hs. simpl in Hs.
  specialize (Hs ltac:(lia) ltac:(lia)). unfold slot_inv in Hs. rewrite Hv in Hs. destruct Hs as [Hs Hd].
  unfold TryPop. rewrite (mi_read _ _ Hi), Hs, wrap_small by (unfold in_range; lia). rewrite Z.eqb_refl. simpl.
  rewrite Hd. by eexists.
Qed.

(** A producer whose slot has been freed finds its own position there. *)
Lemma producer_finds_slot st p v :
  mpsc_inv k st -> ms_prod st !! p = Some (v, Reserved) ->
  Z.of_nat p < Z.of_nat (freed (ms_cons st) (ms_popped st)) + Capacity k ->
  sequence (slot_at k (ms_q st) (Z.of_nat p)) = Z.of_nat p.
Proof using.
  intros Hi Hp Hw. pose proof (not_early k st p v Reserved Hi Hp ltac:(done)).
  pose proof (freed_le (ms_cons st) (ms_popped st)).
  pose proof (mi_slots _ _ Hi p ltac:(lia) Hw) as Hs. unfold slot_inv in Hs. by rewrite Hp in Hs.
Qed.

(** The consumer can never advance: the slot it waits for is past its position. *)
Record wedged q : Prop := {
  wg_len : length (mq_slots q) = Z.to_nat (Capacity k);
  wg_pos : 0 <= mq_read_pos q < mq_write_pos q;
  wg_bound : mq_write_pos q + 1 < 2 ^ 64;
  wg_seq : mq_read_pos q + 1 < sequence (slot_at k q (mq_read_pos q))
}.

Lemma wedged_TryPop q : wedged q -> TryPop k q = None.
Proof using.
  intros [Hl Hp Hb Hs]. unfold TryPop. rewrite wrap_small by (unfold in_range; lia).
  destruct (Z.eqb_spec (sequence (slot_at k q (mq_read_pos q))) (mq_read_pos q + 1)); [lia|done].
Qed.

Lemma spin_wait_still budget q pos :
  spin_wait k budget (fun _ q => q) pos q = (sequence (slot_at k q pos) =? pos, q).
Proof using.
  induction budget as [|b IH]; simpl; destruct (sequence (slot_at k q pos) =? pos) eqn:E; done.
Qed.

(** With no other thread running, [TryPush] publishes its position in every case. *)
Lemma TryPush_still event q :
  let pos := mq_write_pos q in
  let ready := sequence (slot_at k q pos) =? pos in
  exists d, TryPush k (fun _ q => q) event q
    = (ready, mkMpsc (u64 (pos + 1)) d
                (<[mslot k pos := mkMSlot (u64 (pos + 1)) (if ready then event else inhabitant)]> (mq_slots q))
                (mq_read_pos q)).
Proof using.
  intros pos ready. unfold TryPush. cbn [reserve]. rewrite spin_wait_still.
  unfold ready, pos, slot_at in *. simpl.
  destruct (sequence (mq_slots q !!! mslot k (mq_write_pos q)) =? mq_write_pos q) eqn:E; eexists; unfold set_slot; simpl; done.
Qed.

Lemma wedged_TryPush event q :
  wedged q -> mq_write_pos q + 2 < 2 ^ 64 -> wedged (TryPush k (fun _ q => q) event q).2.
Proof using Hk.
  intros [Hl Hp Hb Hs] Hlt. destruct (TryPush_still event q) as [d ->].
  split; simpl; rewrite ?wrap_small by (unfold in_range; lia); try (done || lia).
  - by rewrite length_insert.
  - unfold slot_at in *. simpl. destruct (decide (mslot k (mq_write_pos q) = mslot k (mq_read_pos q))) as [->|Hne].
    + rewrite list_lookup_total_insert_eq; [simpl; lia|]. rewrite Hl. by apply mslot_lt.
    + by rewrite list_lookup_total_insert_ne.
Qed.

(** Further calls on a queue: pushes of given events, and pops. *)
Fixpoint mpsc_calls (ops : list (option A)) q : list A * MpscRithmicQueue A :=
  match ops with
  | [] => ([], q)
  | Some e :: rest => mpsc_calls rest (TryPush k (fun _ q => q) e q).2
  | None :: rest =>
      match TryPop k q with
      | Some (v, q') => let '(out, q2) := mpsc_calls rest q' in (v :: out, q2)
      | None => mpsc_calls rest q
      end
  end.

Lemma wedged_forever ops q :
  wedged q -> mq_write_pos q + 1 + Z.of_nat (length ops) < 2 ^ 64 -> (mpsc_calls ops q).1 = [].
Proof using Hk.
  revert q. induction ops as [|[e|] ops IH]; intros q Hq Hb; cbn [mpsc_calls length] in *; [done| |].
  - apply IH; [apply wedged_TryPush; [done|lia]|]. destruct (TryPush_still e q) as [d ->]. simpl.
    pose proof (wg_pos _ Hq). rewrite wrap_small; [lia|unfold in_range; lia].
  - rewrite wedged_TryPop by done. apply IH; [done|lia].
Qed.

(** A full queue: [Capacity] published, unread events. *)
Record full_mpsc q : Prop := {
  fm_len : length (mq_slots q) = Z.to_nat (Capacity k);
  fm_read : 0 <= mq_read_pos q;
  fm_write : mq_write_pos q = mq_read_pos q + Capacity k;
  fm_seq : sequence (slot_at k q (mq_read_pos q)) = mq_read_pos q + 1
}.

Lemma full_drop_wedges event q :
  full_mpsc q -> mq_write_pos q + 2 < 2 ^ 64 ->
  (TryPush k (fun _ q => q) event q).1 = false /\ wedged (TryPush k (fun _ q => q) event q).2.
Proof using Hk.
  intros [Hl Hr Hw Hs] Hb. pose proof (Capacity_ge_2 k Hk).
  assert (Hm : mslot k (mq_write_pos q) = mslot k (mq_read_pos q)) by (rewrite Hw; apply (mslot_add_cap k Hk)).
  assert (Hne : (sequence (slot_at k q (mq_write_pos q)) =? mq_write_pos q) = false).
  { apply Z.eqb_neq. unfold slot_at in *. rewrite Hm, Hs. lia. }
  destruct (TryPush_still event q) as [d ->]. rewrite Hne. simpl. split; [done|].
  split; simpl; rewrite ?wrap_small by (unfold in_range; lia); try lia.
  - by rewrite length_insert.
  - unfold slot_at. simpl. rewrite Hm, list_lookup_total_insert_eq; [simpl; lia|]. rewrite Hl. by apply mslot_lt.
Qed.
End mpsc_claims.

(** C16: The multi-producer queue in the absence of drops: in every
    interleaving of any number of producers with the consumer (capacity [2^k],
    [1 <= k <= 62], fewer than [2^64] reservations) the values popped are
    the values of the first reservations, in reservation order; a published
    value at the head is there for an idle consumer; and a producer whose slot
    the consumer has freed proceeds at its first look. *)
Theorem mpsc_fifo {A} `{Inhabited A} (k : Z) (st : @mpsc_state A) :
  1 <= k <= 62 -> rtc (mpsc_step k) (mpsc_init k) st ->
  Z.of_nat (length (ms_prod st)) + Capacity k < 2 ^ 64 ->
  ms_popped st = take (length (ms_popped st)) (fst <$> ms_prod st) /\
  (forall v, ms_cons st = MIdle -> ms_prod st !! length (ms_popped st) = Some (v, Published) ->
     exists q', TryPop k (ms_q st) = Some (v, q')) /\
  (forall p v, ms_prod st !! p = Some (v, Reserved) ->
     Z.of_nat p < Z.of_nat (freed (ms_cons st) (ms_popped st)) + Capacity k ->
     sequence (slot_at k (ms_q st) (Z.of_nat p)) = Z.of_nat p).
Proof.
  intros Hk Hr Hb. pose proof (mpsc_reachable_inv k Hk st Hr Hb) as Hi.
  split; [by eapply mpsc_popped_prefix|]. split; [|intros p v; by apply producer_finds_slot].
  intros v Hc Hv. pose proof (lookup_lt_Some _ _ _ Hv). pose proof (Capacity_pos k Hk).
  apply (TryPop_published k Hk); (done || lia).
Qed.

(** A reservation that is never published ends the stream: as long as it is not, nothing from its position on is popped,
    whatever the other producers publish.  A gateway that is killed between the reservation and the publication (by the
    health check, for instance) leaves such a hole, and the restarted one goes on in the same queue. *)
Lemma unpublished_blocks {A} `{Inhabited A} (k : Z) (st : @mpsc_state A) p v s :
  1 <= k <= 62 -> rtc (mpsc_step k) (mpsc_init k) st -> Z.of_nat (length (ms_prod st)) + Capacity k < 2 ^ 64 ->
  ms_prod st !! p = Some (v, s) -> s <> Published -> (length (ms_popped st) <= p)%nat.
Proof.
  intros Hk Hr Hb. apply (not_early k), (mpsc_reachable_inv k Hk st Hr Hb).
Qed.

(** The first producer is killed after its reservation, the second publishes: the consumer finds nothing. *)
Example killed_gateway_wedges :
  let q := (TryPush 1 (fun _ q => q) 8%nat (reserve (mpsc_new (A := nat) 1)).2).2 in
  mq_write_pos q = 2 /\ TryPop 1 q = None.
Proof. vm_compute. split; reflexivity. Qed.

(** C34: What the drop path does: when a push finds the queue full and its spin
    budget expires, publishing the sentinel as position + 1 overwrites the
    oldest unread event's slot, and the consumer, which waits for another
    sequence number there, never pops anything again, whatever is pushed
    later. *)
Theorem mpsc_drop_wedges_consumer {A} `{Inhabited A} (k : Z) (q : MpscRithmicQueue A) (event : A)
    (ops : list (option A)) :
  1 <= k <= 62 -> full_mpsc k q -> mq_write_pos q + 3 + Z.of_nat (length ops) < 2 ^ 64 ->
  let '(ok, q') := TryPush k (fun _ q => q) event q in
  ok = false /\ TryPop k q' = None /\ (mpsc_calls k ops q').1 = [].
Proof.
  intros Hk Hf Hb. destruct (full_drop_wedges k Hk event q Hf) as [Hok Hw]; [lia|].
  destruct (TryPush_still k event q) as [d Hd].
  assert (Hwp : mq_write_pos (TryPush k (fun _ q => q) event q).2 = mq_write_pos q + 1).
  { rewrite Hd. simpl. apply wrap_small. pose proof (Capacity_pos k Hk). destruct Hf. unfold in_range. lia. }
  destruct (TryPush k (fun _ q => q) event q) as [ok q'].
  split_and!; [done|by apply wedged_TryPop|]. apply wedged_forever; [done|done|]. simpl in Hwp. lia.
Qed.

(** *** Witnesses *)

(** One event pushed and popped through a queue of two slots. *)
Definition mpsc_demo : @mpsc_state nat :=
  mkMState (mkMpsc 1 0 [mkMSlot 2 7%nat; mkMSlot 1 0%nat] 1) [(7%nat, Published)] MIdle [7%nat].

Lemma mpsc_demo_reachable : rtc (mpsc_step 1) (mpsc_init 1) mpsc_demo.
Proof.
  eapply rtc_l; [apply (m_reserve 1 (mpsc_new 1) [] MIdle [] 7%nat)|].
  eapply rtc_l; [apply (m_ready 1 _ _ _ _ 0 7%nat); reflexivity|].
  eapply rtc_l; [apply (m_write 1 _ _ _ _ 0 7%nat); reflexivity|].
  eapply rtc_l; [apply (m_publish 1 _ _ _ _ 0 7%nat); reflexivity|].
  eapply rtc_l; [apply (m_seen 1); vm_compute; reflexivity|].
  eapply rtc_l; [apply (m_copy 1)|].
  eapply rtc_l; [apply (m_move 1)|].
  eapply rtc_l; [apply (m_free 1)|]. apply rtc_refl.
Qed.

Lemma mpsc_fifo_witness :
  rtc (mpsc_step 1) (mpsc_init 1) mpsc_demo /\ ms_popped mpsc_demo = take 1 [7%nat].
Proof.
  split; [exact mpsc_demo_reachable|].
  exact (proj1 (mpsc_fifo 1 mpsc_demo ltac:(lia) mpsc_demo_reachable ltac:(vm_compute; reflexivity))).
Defined.

(** Two events fill a queue of two slots; the third push is dropped and
    neither event is ever read. *)
Definition mpsc_full2 : MpscRithmicQueue nat :=
  mkMpsc 2 0 [mkMSlot 1 10%nat; mkMSlot 2 11%nat] 0.

Lemma mpsc_full2_reached :
  (TryPush 1 (fun _ q => q) 11%nat (TryPush 1 (fun _ q => q) 10%nat (mpsc_new 1)).2).2 = mpsc_full2.
Proof. reflexivity. Qed.

Lemma mpsc_drop_wedges_consumer_witness :
  full_mpsc 1 mpsc_full2 /\
  let '(ok, q') := TryPush 1 (fun _ q => q) 12%nat mpsc_full2 in
  ok = false /\ TryPop 1 q' = None /\ (mpsc_calls 1 [None; Some 13%nat; None] q').1 = [].
Proof.
  assert (Hf : full_mpsc 1 mpsc_full2) by (split; (reflexivity || (simpl; lia))).
  split; [exact Hf|].
  apply (mpsc_drop_wedges_consumer 1 mpsc_full2 12%nat [None; Some 13%nat; None]);
    [lia|exact Hf|vm_compute; reflexivity].
Defined.
