(* ===== verification/Config.v ===== *)
(** * Configuration

    The configuration records of src/config/config_struct.h and the loader of
    src/config/config_loader.cpp.  The YAML document is yaml-cpp's: its nodes and
    conversions are the members of [Yaml], and a conversion that throws is
    [None], so a loader is a function to [option]. *)
From S2P Require Import Prelude Doubles Events Exchange.

(** What the loader uses of yaml-cpp. *)
Record Yaml := mkYaml {
  Node : Type;
  y_get : Node -> string -> option Node;   (* node[key]; [None] when it throws *)
  y_defined : Node -> bool;                (* if(node) *)
  y_items : Node -> option (list Node);    (* the elements, when IsSequence() *)
  as_string : Node -> option string;
  as_bool : Node -> option bool;
  as_uint32 : Node -> option Z;
  as_uint16 : Node -> option Z;
  as_int : Node -> option Z;
  as_float : Node -> option double
}.

(** Source: src/config/config_struct.h:11-16, GlobalConfig. *)
Record GlobalConfig := mkGlobal {
  gl_environment : string; gl_log_level : string; gl_cpu_affinity : bool; gl_log_file_path : string
}.

(** Source: src/config/config_struct.h:18-24, ThreadingConfig. *)
Record ThreadingConfig := mkThreading {
  th_network_core : Z; th_parser_cores : list Z; th_storage_core : Z; th_pub_core : Z; th_telemetry_core : Z
}.

(** Source: src/config/config_struct.h:26-30, TelemetryConfig. *)
Record TelemetryConfig := mkTelemetryCfg {
  te_prometheus_enabled : bool; te_listen_port : Z; te_report_interval_ms : Z
}.

(** Source: src/config/config_struct.h:32-35, PubConfig. *)
Record PubConfig := mkPubCfg { pb_tcp_endpoint : string; pb_ipc_endpoint : string }.

(** Source: src/config/config_struct.h:37-58, DolphinDBConfig. *)
Record DolphinDBConfig := mkDolphinCfg {
  dd_host : string; dd_port : Z; dd_user : string; dd_password : string;
  dd_buffer_size : Z; dd_flush_interval_ms : Z;
  dd_mtw_batch_size : Z; dd_mtw_throttle_sec : double; dd_mtw_thread_count : Z;
  dd_auto_init_schema : bool; dd_health_check_interval_ms : Z;
  dd_dfs_db_path : string; dd_hash_buckets : Z; dd_partition_granularity : string
}.

(** Source: src/config/config_struct.h:60-63, MmapConfig. *)
Record MmapConfig := mkMmapCfg { mm_output_path : string; mm_sync_interval_records : Z }.

(** Source: src/config/config_struct.h:65-67, CsvConfig. *)
Record CsvConfig := mkCsvCfg { cs_output_path : string }.

(** Source: src/config/config_struct.h:69-75, StorageConfig. *)
Record StorageConfig := mkStorageCfg {
  st_use_engine : string; st_persist_to_disk : bool;
  st_dolphindb : DolphinDBConfig; st_mmap : MmapConfig; st_csv : CsvConfig
}.

(** Source: src/config/config_struct.h:77-83, SymbolConfig. *)
Record SymbolConfig := mkSymbolCfg {
  sy_name : string; sy_enabled : bool; sy_depth_level : Z; sy_record_tick : bool; sy_persist_to_disk : bool
}.

(** Source: src/config/config_struct.h:85-88, ChannelConfig. *)
Record ChannelConfig := mkChannelCfg { cc_type : string; cc_symbols : list SymbolConfig }.

(** Source: src/config/config_struct.h:91-118, RithmicConfig. *)
Record RithmicConfig := mkRithmicCfg {
  ri_user : string; ri_password : string; ri_shm_name : string; ri_engine_core : Z; ri_forwarder_core : Z;
  ri_ssl_cert_file : string; ri_domain_servers : string; ri_domain_name : string; ri_license_servers : string;
  ri_local_broker : string; ri_logger_servers : string;
  ri_app_name : string; ri_app_version : string;
  ri_repository_connect_pt : string; ri_md_connect_pt : string; ri_md_connect_pt_agg : string;
  ri_use_aggregated_md : bool; ri_ih_connect_pt : string; ri_ts_connect_pt : string; ri_pnl_connect_pt : string
}.

(** Source: src/config/config_struct.h:120-124, ExchangeConfig. *)
Record ExchangeConfig := mkExchangeCfg { ec_name : string; ec_enabled : bool; ec_channels : list ChannelConfig }.

(** Source: src/config/config_struct.h:126-134, RootConfig. *)
Record RootConfig := mkRoot {
  rc_global : GlobalConfig; rc_threading : ThreadingConfig; rc_telemetry : TelemetryConfig; rc_pub : PubConfig;
  rc_storage : StorageConfig; rc_rithmic : RithmicConfig; rc_exchanges : list ExchangeConfig
}.

(** The default member initialisers. *)
Definition global0 : GlobalConfig := mkGlobal "production" "info" true "./log/collector.log".
Definition threading0 : ThreadingConfig := mkThreading 2 [3; 4] 5 6 7.
Definition telemetry_cfg0 : TelemetryConfig := mkTelemetryCfg true 8080 1000.
Definition pub_cfg0 : PubConfig := mkPubCfg "tcp://*:5555" "ipc:///tmp/collector_pub.ipc".
Definition dolphin_cfg0 : DolphinDBConfig :=
  mkDolphinCfg "127.0.0.1" 8848 "admin" "" 2000 10 20000 (d_of_Z 1) 4 true 5000 "dfs://trade_db" 20 "day".
Definition mmap_cfg0 : MmapConfig := mkMmapCfg "./mmap_cache/" 10000.
Definition csv_cfg0 : CsvConfig := mkCsvCfg "./trade_data/".
Definition storage_cfg0 : StorageConfig := mkStorageCfg "csv" true dolphin_cfg0 mmap_cfg0 csv_cfg0.
Definition rithmic_cfg0 : RithmicConfig :=
  mkRithmicCfg "" "" "/sqc_rithmic" 8 9 "etc/rithmic_ssl_cert_auth_params" "" "" "" "" ""
    "jewa:SmartQuant" "1.0.0.0" "login_agent_repositoryc" "login_agent_tpc" "" false "" "login_agent_opc" "".
Definition root0 : RootConfig :=
  mkRoot global0 threading0 telemetry_cfg0 pub_cfg0 storage_cfg0 rithmic_cfg0 [].

Section loader.
Context (Y : Yaml).
Abbreviation node := (Node Y).

(** [if(n[key]) field = n[key].as<T>()] with the field's old value as default. *)
Definition opt {T} (conv : node -> option T) (n : node) (key : string) (old : T) : option T :=
  c ← y_get Y n key; if y_defined Y c then conv c else Some old.

(** [n[key].as<T>()] *)
Definition req {T} (conv : node -> option T) (n : node) (key : string) : option T :=
  c ← y_get Y n key; conv c.

(** [if(n[key]) section = parse(n[key])] *)
Definition sect {T} (parse : node -> T -> option T) (n : node) (key : string) (old : T) : option T :=
  c ← y_get Y n key; if y_defined Y c then parse c old else Some old.

(** [if(n[key] && n[key].IsSequence()) for(x : n[key]) out.push_back(f(x))] *)
Definition seq_of {T} (f : node -> option T) (n : node) (key : string) (old : list T) : option (list T) :=
  c ← y_get Y n key;
  if y_defined Y c then match y_items Y c with Some l => mapM f l | None => Some old end else Some old.

(** Source: src/config/config_loader.cpp:15-33, ParseSymbol. *)
Definition ParseSymbol (n : node) : option SymbolConfig :=
  name ← req (as_string Y) n "name";
  if (11 <? String.length name)%nat then None
  else
    enabled ← opt (as_bool Y) n "enabled" true;
    depth ← y_get Y n "depth_level";
    depth_level ← (if y_defined Y depth
                   then d ← as_uint32 Y depth; if Z.of_nat kMaxOrderbookLevels <? d then None else Some d
                   else Some 5);
    record_tick ← opt (as_bool Y) n "record_tick" true;
    persist ← opt (as_bool Y) n "persist_to_disk" true;
    Some (mkSymbolCfg name enabled depth_level record_tick persist).

(** Source: src/config/config_loader.cpp:35-44, ParseChannel. *)
Definition ParseChannel (n : node) : option ChannelConfig :=
  type ← req (as_string Y) n "type";
  symbols ← seq_of ParseSymbol n "symbols" [];
  Some (mkChannelCfg type symbols).

(** Source: src/config/config_loader.cpp:46-74, ParseRithmicConfig. *)
Definition ParseRithmicConfig (n : node) : option RithmicConfig :=
  let r := rithmic_cfg0 in
  if negb (y_defined Y n) then Some r
  else
    user ← opt (as_string Y) n "user" (ri_user r);
    password ← opt (as_string Y) n "password" (ri_password r);
    shm ← opt (as_string Y) n "shm_name" (ri_shm_name r);
    engine ← opt (as_uint32 Y) n "engine_core" (ri_engine_core r);
    forwarder ← opt (as_uint32 Y) n "forwarder_core" (ri_forwarder_core r);
    ssl ← opt (as_string Y) n "ssl_cert_file" (ri_ssl_cert_file r);
    dmn ← opt (as_string Y) n "domain_servers" (ri_domain_servers r);
    dname ← opt (as_string Y) n "domain_name" (ri_domain_name r);
    lic ← opt (as_string Y) n "license_servers" (ri_license_servers r);
    broker ← opt (as_string Y) n "local_broker" (ri_local_broker r);
    logger ← opt (as_string Y) n "logger_servers" (ri_logger_servers r);
    app ← opt (as_string Y) n "app_name" (ri_app_name r);
    ver ← opt (as_string Y) n "app_version" (ri_app_version r);
    repo ← opt (as_string Y) n "repository_connect_pt" (ri_repository_connect_pt r);
    md ← opt (as_string Y) n "md_connect_pt" (ri_md_connect_pt r);
    agg ← opt (as_string Y) n "md_connect_pt_agg" (ri_md_connect_pt_agg r);
    use_agg ← opt (as_bool Y) n "use_aggregated_md" (ri_use_aggregated_md r);
    ih ← opt (as_string Y) n "ih_connect_pt" (ri_ih_connect_pt r);
    ts ← opt (as_string Y) n "ts_connect_pt" (ri_ts_connect_pt r);
    pnl ← opt (as_string Y) n "pnl_connect_pt" (ri_pnl_connect_pt r);
    Some (mkRithmicCfg user password shm engine forwarder ssl dmn dname lic broker logger app ver
            repo md agg use_agg ih ts pnl).

(** Source: src/config/config_loader.cpp:76-86, ParseExchange. *)
Definition ParseExchange (n : node) : option ExchangeConfig :=
  name ← req (as_string Y) n "name";
  enabled ← opt (as_bool Y) n "enabled" false;
  channels ← seq_of ParseChannel n "channels" [];
  Some (mkExchangeCfg name enabled channels).

(** Source: src/config/config_loader.cpp:103-109, LoadConfig (global). *)
Definition parse_global (g : node) (c : GlobalConfig) : option GlobalConfig :=
  env ← opt (as_string Y) g "environment" (gl_environment c);
  level ← opt (as_string Y) g "log_level" (gl_log_level c);
  aff ← opt (as_bool Y) g "cpu_affinity" (gl_cpu_affinity c);
  file ← opt (as_string Y) g "log_file_path" (gl_log_file_path c);
  Some (mkGlobal env level aff file).

(** Source: src/config/config_loader.cpp:111-121, LoadConfig (threading_matrix). *)
Definition parse_threading (t : node) (c : ThreadingConfig) : option ThreadingConfig :=
  net ← opt (as_uint32 Y) t "network_core" (th_network_core c);
  cores ← seq_of (as_uint32 Y) t "parser_cores" (th_parser_cores c);
  sto ← opt (as_uint32 Y) t "storage_core" (th_storage_core c);
  pub ← opt (as_uint32 Y) t "pub_core" (th_pub_core c);
  tel ← opt (as_uint32 Y) t "telemetry_core" (th_telemetry_core c);
  Some (mkThreading net cores sto pub tel).

(** Source: src/config/config_loader.cpp:123-128, LoadConfig (telemetry). *)
Definition parse_telemetry (t : node) (c : TelemetryConfig) : option TelemetryConfig :=
  en ← opt (as_bool Y) t "prometheus_enabled" (te_prometheus_enabled c);
  port ← opt (as_uint16 Y) t "listen_port" (te_listen_port c);
  iv ← opt (as_uint32 Y) t "report_interval_ms" (te_report_interval_ms c);
  Some (mkTelemetryCfg en port iv).

(** Source: src/config/config_loader.cpp:130-134, LoadConfig (pub). *)
Definition parse_pub (p : node) (c : PubConfig) : option PubConfig :=
  tcp ← opt (as_string Y) p "tcp_endpoint" (pb_tcp_endpoint c);
  ipc ← opt (as_string Y) p "ipc_endpoint" (pb_ipc_endpoint c);
  Some (mkPubCfg tcp ipc).

(** Source: src/config/config_loader.cpp:140-162, LoadConfig (dolphindb). *)
Definition parse_dolphindb (d : node) (c : DolphinDBConfig) : option DolphinDBConfig :=
  host ← opt (as_string Y) d "host" (dd_host c);
  port ← opt (as_uint16 Y) d "port" (dd_port c);
  user ← opt (as_string Y) d "user" (dd_user c);
  password ← opt (as_string Y) d "password" (dd_password c);
  size ← opt (as_uint32 Y) d "buffer_size" (dd_buffer_size c);
  flush ← opt (as_uint32 Y) d "flush_interval_ms" (dd_flush_interval_ms c);
  batch ← opt (as_int Y) d "mtw_batch_size" (dd_mtw_batch_size c);
  throttle ← opt (as_float Y) d "mtw_throttle_sec" (dd_mtw_throttle_sec c);
  threads ← opt (as_int Y) d "mtw_thread_count" (dd_mtw_thread_count c);
  auto_init ← opt (as_bool Y) d "auto_init_schema" (dd_auto_init_schema c);
  health ← opt (as_uint32 Y) d "health_check_interval_ms" (dd_health_check_interval_ms c);
  dfs ← opt (as_string Y) d "dfs_db_path" (dd_dfs_db_path c);
  buckets ← opt (as_int Y) d "hash_buckets" (dd_hash_buckets c);
  gran ← opt (as_string Y) d "partition_granularity" (dd_partition_granularity c);
  Some (mkDolphinCfg host port user password size flush batch throttle threads auto_init health dfs buckets gran).

Definition parse_mmap (m : node) (c : MmapConfig) : option MmapConfig :=
  path ← opt (as_string Y) m "output_path" (mm_output_path c);
  sync ← opt (as_uint32 Y) m "sync_interval_records" (mm_sync_interval_records c);
  Some (mkMmapCfg path sync).

Definition parse_csv (m : node) (c : CsvConfig) : option CsvConfig :=
  path ← opt (as_string Y) m "output_path" (cs_output_path c); Some (mkCsvCfg path).

(** Source: src/config/config_loader.cpp:136-172, LoadConfig (storage). *)
Definition parse_storage (s : node) (c : StorageConfig) : option StorageConfig :=
  engine ← opt (as_string Y) s "use_engine" (st_use_engine c);
  persist ← opt (as_bool Y) s "persist_to_disk" (st_persist_to_disk c);
  dolphin ← sect parse_dolphindb s "dolphindb" (st_dolphindb c);
  mmap ← sect parse_mmap s "mmap" (st_mmap c);
  csv ← sect parse_csv s "csv" (st_csv c);
  Some (mkStorageCfg engine persist dolphin mmap csv).

(** Source: src/config/config_loader.cpp:90-182, LoadConfig.
    [file] is what [YAML::LoadFile] returns; [None] when it throws, and the program exits. *)
Definition LoadConfig (file : option node) : option RootConfig :=
  root ← file;
  let config := root0 in
  global ← sect parse_global root "global" (rc_global config);
  threading ← sect parse_threading root "threading_matrix" (rc_threading config);
  telemetry ← sect parse_telemetry root "telemetry" (rc_telemetry config);
  pub ← sect parse_pub root "pub" (rc_pub config);
  storage ← sect parse_storage root "storage" (rc_storage config);
  rithmic ← sect (fun n _ => ParseRithmicConfig n) root "rithmic" (rc_rithmic config);
  exchanges ← seq_of ParseExchange root "exchanges" (rc_exchanges config);
  Some (mkRoot global threading telemetry pub storage rithmic exchanges).

(** ** What a loaded configuration satisfies *)

(** A symbol fits the 12-byte field of every event, and its depth the 100 levels. *)
Definition symbol_ok (s : SymbolConfig) : Prop :=
  (String.length (sy_name s) <= 11)%nat /\ sy_depth_level s <= Z.of_nat kMaxOrderbookLevels.

Definition config_symbols (c : RootConfig) : list SymbolConfig :=
  concat ((fun e => concat (cc_symbols <$> ec_channels e)) <$> rc_exchanges c).

Lemma ParseSymbol_ok n s : ParseSymbol n = Some s -> symbol_ok s.
Proof.
  unfold ParseSymbol. intros H. apply bind_Some in H as (name & _ & H).
  destruct (Nat.ltb_spec 11 (String.length name)); [done|].
  apply bind_Some in H as (en & _ & H). apply bind_Some in H as (dep & _ & H).
  apply bind_Some in H as (d & Hd & H). apply bind_Some in H as (rt & _ & H).
  apply bind_Some in H as (pe & _ & H). injection H as <-. split; simpl; [done|].
  destruct (y_defined Y dep); [|injection Hd as <-; unfold kMaxOrderbookLevels; lia].
  apply bind_Some in Hd as (d' & _ & Hd).
  destruct (Z.ltb_spec (Z.of_nat kMaxOrderbookLevels) d'); simplify_eq. done.
Qed.

Lemma seq_of_Forall {T} (P : T -> Prop) (f : node -> option T) n key old l :
  (forall x y, f x = Some y -> P y) -> Forall P old -> seq_of f n key old = Some l -> Forall P l.
Proof.
  intros Hf Hold H. unfold seq_of in H. apply bind_Some in H as (c & _ & H).
  destruct (y_defined Y c); [|by simplify_eq]. destruct (y_items Y c) as [xs|]; [|by simplify_eq].
  apply mapM_Some in H. clear -H Hf. induction H; constructor; eauto.
Qed.

Lemma ParseChannel_ok n c : ParseChannel n = Some c -> Forall symbol_ok (cc_symbols c).
Proof.
  unfold ParseChannel. intros H. apply bind_Some in H as (t & _ & H). apply bind_Some in H as (ss & Hs & H).
  injection H as <-. eapply (seq_of_Forall symbol_ok); [apply ParseSymbol_ok| |done]. constructor.
Qed.

Lemma LoadConfig_symbols file c : LoadConfig file = Some c -> Forall symbol_ok (config_symbols c).
Proof.
  unfold LoadConfig. intros H. repeat (apply bind_Some in H as (? & ? & H)). injection H as <-.
  unfold config_symbols. simpl. apply Forall_concat_fmap.
  eapply (seq_of_Forall (fun e => Forall symbol_ok (concat (cc_symbols <$> ec_channels e)))); [|constructor|done].
  intros y e He. apply Forall_concat_fmap.
  unfold ParseExchange in He. apply bind_Some in He as (nm & _ & He). apply bind_Some in He as (en & _ & He).
  apply bind_Some in He as (cs & Hcs & He). injection He as <-.
  eapply (seq_of_Forall (fun c => Forall symbol_ok (cc_symbols c))); [apply ParseChannel_ok|constructor|done].
Qed.
End loader.

(** Every symbol of a configuration that loads fits the events: its name
    is stored whole (not truncated) in the 12-byte symbol of a tick, and its
    depth level is within the 100 levels of a depth event. *)
Theorem loaded_symbols_fit (Y : Yaml) (file : option (Node Y)) (c : RootConfig) (s : SymbolConfig) :
  LoadConfig Y file = Some c -> s ∈ config_symbols c -> no_nul (bytes (sy_name s)) ->
  sy_depth_level s <= Z.of_nat kMaxOrderbookLevels /\
  let '(sym, truncated) := CopySymbol symbol0 12 (bytes (sy_name s)) in
  truncated = false /\ c_str sym = bytes (sy_name s).
Proof.
  intros Hl Hs Hn. pose proof (LoadConfig_symbols Y file c Hl) as Hf.
  rewrite Forall_forall in Hf. destruct (Hf s Hs) as [Hlen Hd]. split; [done|].
  assert (Hb : (length (bytes (sy_name s)) <= 11)%nat).
  { unfold bytes. clear -Hlen. revert Hlen. generalize (sy_name s). generalize 11%nat.
    intros k str. revert k. induction str as [|a str IH]; simpl; intros k Hk; [lia|].
    destruct k; [lia|]. specialize (IH k). lia. }
  pose proof (CopySymbol_c_str symbol0 (bytes (sy_name s)) ltac:(simpl; lia) Hn) as Hc.
  change (length symbol0) with 12%nat in Hc.
  destruct (CopySymbol symbol0 12 (bytes (sy_name s))) as [sym tr] eqn:E. simpl in Hc.
  split; [|rewrite Hc; apply take_ge; lia].
  transitivity (12 <=? length (bytes (sy_name s)))%nat; [exact (eq_sym (f_equal snd E))|].
  apply Nat.leb_gt. lia.
Qed.

(** *** Witness: a document tree with one exchange, channel and symbol. *)

Inductive tree := TUndef | TStr (s : string) | TNum (n : Z) | TSeq (l : list tree) | TMap (l : list (string * tree)).

Fixpoint tree_get (l : list (string * tree)) (key : string) : tree :=
  match l with
  | [] => TUndef
  | (k, v) :: l' => if (k =? key)%string then v else tree_get l' key
  end.

Definition tree_yaml : Yaml := mkYaml tree
  (fun n key => match n with TMap l => Some (tree_get l key) | TUndef => Some TUndef | _ => None end)
  (fun n => match n with TUndef => false | _ => true end)
  (fun n => match n with TSeq l => Some l | _ => None end)
  (fun n => match n with TStr s => Some s | _ => None end)
  (fun n => match n with TStr s => if (s =? "true")%string then Some true else if (s =? "false")%string then Some false else None | _ => None end)
  (fun n => match n with TNum z => if (0 <=? z) && (z <? 2 ^ 32) then Some z else None | _ => None end)
  (fun n => match n with TNum z => if (0 <=? z) && (z <? 2 ^ 16) then Some z else None | _ => None end)
  (fun n => match n with TNum z => Some z | _ => None end)
  (fun n => match n with TNum z => Some (d_of_Z z) | _ => None end).

Definition demo_yaml : tree :=
  TMap [("exchanges", TSeq [TMap [("name", TStr "CME"); ("enabled", TStr "true");
    ("channels", TSeq [TMap [("type", TStr "futures");
      ("symbols", TSeq [TMap [("name", TStr "ESZ5"); ("depth_level", TNum 10)]])]])]])].

Definition demo_config : RootConfig := default root0 (LoadConfig tree_yaml (Some demo_yaml)).

Lemma loaded_symbols_fit_witness :
  LoadConfig tree_yaml (Some demo_yaml) = Some demo_config /\
  let '(sym, truncated) := CopySymbol symbol0 12 (bytes "ESZ5") in truncated = false /\ c_str sym = bytes "ESZ5".
Proof.
  assert (H : LoadConfig tree_yaml (Some demo_yaml) = Some demo_config) by reflexivity.
  split; [exact H|].
  apply (loaded_symbols_fit tree_yaml (Some demo_yaml) demo_config (mkSymbolCfg "ESZ5" true 10 true true) H);
    [vm_compute; left|repeat constructor; discriminate].
Defined.
