(* ===== verification/Process.v ===== *)
(** * Process utilities

    The logger (src/common/logger_init.cpp), thread affinity
    (src/common/cpu_affinity.cpp) and the shutdown signal
    (src/common/signal_handler.cpp).  The logging library keeps loggers by name;
    the operating system's answers are inputs. *)
From S2P Require Import Prelude Config.

(** ** Logger *)

(** The levels of quill that the code uses, most verbose first. *)
Inductive LogLevel := TraceL3 | TraceL2 | TraceL1 | Debug | Info | Warning | Error.

Inductive Sink := ConsoleSink (name : string) | FileSink (path : string).
Record Logger := mkLogger { lg_name : string; lg_sinks : list Sink; lg_level : LogLevel }.

(** The loggers that exist, the global pointer (by name) and its once flag. *)
Record Logging := mkLogging { loggers : gmap string Logger; g_logger : option string; g_logger_init_flag : bool }.

Definition logging0 : Logging := mkLogging ∅ None false.

(** [quill::Frontend::create_or_get_logger], which gives an existing logger as it is, and [set_log_level]. *)
Definition create_or_get_logger (name : string) (sinks : list Sink) (level : LogLevel) (s : Logging) : Logging :=
  let l := match loggers s !! name with Some l => l | None => mkLogger name sinks Info end in
  mkLogging (<[name := mkLogger name (lg_sinks l) level]> (loggers s)) (Some name) (g_logger_init_flag s).

(** Source: src/common/logger_init.cpp:23-35, InitLogger (level). *)
Definition log_level (s : string) : LogLevel :=
  if (s =? "debug")%string then Debug
  else if (s =? "trace_l3")%string then TraceL3
  else if (s =? "trace_l2")%string then TraceL2
  else if (s =? "trace_l1")%string then TraceL1
  else if (s =? "warning")%string then Warning
  else if (s =? "error")%string then Error
  else Info.

(** Source: src/common/logger_init.cpp:19-46, InitLogger. *)
Definition InitLogger (cfg : GlobalConfig) (s : Logging) : Logging :=
  create_or_get_logger "root" [ConsoleSink "stdout"; FileSink (gl_log_file_path cfg)] (log_level (gl_log_level cfg)) s.

(** Source: src/common/logger_init.cpp:48-59, GetLogger. *)
Definition GetLogger (s : Logging) : option Logger * Logging :=
  let s := match g_logger s with
           | Some _ => s
           | None =>
               if g_logger_init_flag s then s
               else let s := create_or_get_logger "fallback" [ConsoleSink "fallback_sink"] Error s in
                    mkLogging (loggers s) (g_logger s) true
           end in
  (g_logger s ≫= fun n => loggers s !! n, s).

(** The global pointer points to a logger, and the fallback is installed only once. *)
Definition logging_ok (s : Logging) : Prop :=
  match g_logger s with Some n => exists l, loggers s !! n = Some l /\ lg_name l = n | None => g_logger_init_flag s = false end.

Lemma create_ok name sinks level s : logging_ok (create_or_get_logger name sinks level s).
Proof. unfold logging_ok, create_or_get_logger. cbn. eexists. split; [apply lookup_insert_eq|done]. Qed.

(** A logging call never meets a null logger, before as well as after [InitLogger]. *)
Lemma GetLogger_never_null s : logging_ok s -> exists l, (GetLogger s).1 = Some l /\ logging_ok (GetLogger s).2.
Proof.
  intros Hok. unfold GetLogger. destruct (g_logger s) as [n|] eqn:E; unfold logging_ok in Hok; rewrite E in Hok.
  - destruct Hok as (l & Hl & Hn). exists l. rewrite E. cbn. split; [done|]. unfold logging_ok. rewrite E. by exists l.
  - rewrite Hok. cbn. eexists. split; [apply lookup_insert_eq|]. unfold logging_ok. cbn. eexists. split; [apply lookup_insert_eq|done].
Qed.

(** Messages before [InitLogger] (while the configuration is loaded) go to the fallback logger, errors only; afterwards
    every message goes to the root logger with the configured level and both sinks. *)
Lemma logger_switches cfg s :
  logging_ok s -> loggers s !! "root"%string = None ->
  (GetLogger (InitLogger cfg s)).1 =
    Some (mkLogger "root" [ConsoleSink "stdout"; FileSink (gl_log_file_path cfg)] (log_level (gl_log_level cfg))) /\
  (GetLogger (InitLogger cfg s)).2 = InitLogger cfg s /\ (GetLogger logging0).1 = Some (mkLogger "fallback" [ConsoleSink "fallback_sink"] Error).
Proof.
  intros Hok Hr. unfold InitLogger, create_or_get_logger. rewrite Hr. cbn. split_and!; [apply lookup_insert_eq|done|].
  unfold GetLogger. cbn. by rewrite lookup_insert_eq.
Qed.

(** ** Affinity *)

(** [CPU_SETSIZE] *)
Definition CPU_SETSIZE : Z := 1024.
(** [CPU_SET]: a core outside the set's bits is ignored. *)
Definition CPU_SET (core : Z) (set : gset Z) : gset Z := if core <? CPU_SETSIZE then {[core]} ∪ set else set.

(** Source: src/common/cpu_affinity.cpp:17-37, PinToCore.
    On Linux; [available] are the cores the thread may be given, [affinity] those it has.
    [pthread_setaffinity_np] refuses a set without an available core. *)
Definition PinToCore (available : gset Z) (core_id : Z) (affinity : gset Z) : bool * gset Z :=
  let cpuset := CPU_SET core_id ∅ in
  if bool_decide (cpuset ∩ available = ∅) then (false, affinity) else (true, cpuset ∩ available).

(** Source: src/common/cpu_affinity.cpp:39-47, GetAvailableCores. *)
Definition GetAvailableCores (hardware_concurrency : nat) : list Z := Z.of_nat <$> seq 0 hardware_concurrency.

(** Pinning succeeds exactly on an available core below [CPU_SETSIZE], and then the thread runs there only; a thread that
    could not be pinned keeps the cores it had. *)
Lemma PinToCore_spec available core affinity :
  PinToCore available core affinity =
    if bool_decide (core < CPU_SETSIZE /\ core ∈ available) then (true, {[core]}) else (false, affinity).
Proof.
  unfold PinToCore, CPU_SET. destruct (Z.ltb_spec core CPU_SETSIZE) as [Hlt|Hge].
  - destruct (decide (core ∈ available)) as [Hin|Hin].
    + rewrite bool_decide_false by set_solver. rewrite bool_decide_true by done. f_equal. set_solver.
    + rewrite bool_decide_true by set_solver. rewrite bool_decide_false by tauto. done.
  - rewrite bool_decide_true by set_solver. rewrite bool_decide_false by lia. done.
Qed.

Lemma GetAvailableCores_spec n c : c ∈ GetAvailableCores n <-> 0 <= c < Z.of_nat n.
Proof.
  unfold GetAvailableCores. rewrite list_elem_of_fmap. split.
  - intros (i & -> & Hi%elem_of_seq). lia.
  - intros Hc. exists (Z.to_nat c). split; [lia|]. apply elem_of_seq. lia.
Qed.

(** ** The shutdown signal *)

Inductive PosixSignal := SIGINT | SIGTERM | SIGOTHER (n : Z).
#[export] Instance PosixSignal_eq_dec : EqDecision PosixSignal.
Proof. solve_decision. Defined.

(** The flag, and the signals the calling thread has blocked (threads created later inherit them). *)
Record SignalState := mkSignals { shutdown_requested : bool; blocked : list PosixSignal }.

(** Source: src/common/signal_handler.cpp:18-28, SignalHandler::Install.
    [mask_ok]: whether [pthread_sigmask] succeeds. *)
Definition Install (mask_ok : bool) (s : SignalState) : SignalState :=
  mkSignals false (if mask_ok then SIGINT :: SIGTERM :: blocked s else blocked s).

(** Source: src/common/signal_handler.cpp:30-30, SignalHandler::IsShutdownRequested. *)
Definition IsShutdownRequested (s : SignalState) : bool := shutdown_requested s.

(** [EINTR] *)
Definition EINTR : Z := 4.

(** Source: src/common/signal_handler.cpp:32-45, SignalHandler::WaitForShutdown.
    [calls]: the return value of each [sigwait] and [errno] after it ([None]: still waiting). *)
Fixpoint WaitForShutdown (calls : list (Z * Z)) (s : SignalState) : option SignalState :=
  match calls with
  | [] => None
  | (rc, errno) :: calls' =>
      if rc =? 0 then Some (mkSignals true (blocked s))
      else if negb (errno =? EINTR) then Some s
      else WaitForShutdown calls' s
  end.

(** Source: src/common/signal_handler.cpp:47-47, SignalHandler::Reset. *)
Definition Reset (s : SignalState) : SignalState := mkSignals false (blocked s).

(** Interrupted waits are retried; the first signal ends the wait and requests shutdown. *)
Lemma wait_until_signal errnos e calls s :
  Forall (fun c => c.1 <> 0 /\ c.2 = EINTR) errnos ->
  WaitForShutdown (errnos ++ (0, e) :: calls) s = Some (mkSignals true (blocked s)).
Proof.
  induction 1 as [|[rc errno] l [Hrc Herr] _ IH]; cbn in *; [done|]. by rewrite (proj2 (Z.eqb_neq _ _) Hrc), Herr.
Qed.

(** After a failure that is not an interruption, [main] goes on to shut down although no shutdown counts as requested: the
    reconnect timers of the channels, which only ask [IsShutdownRequested], still restart connections. *)
Lemma failed_wait_requests_nothing rc errno calls s :
  rc <> 0 -> errno <> EINTR -> WaitForShutdown ((rc, errno) :: calls) s = Some s.
Proof. intros H1 H2. cbn. by rewrite (proj2 (Z.eqb_neq _ _) H1), (proj2 (Z.eqb_neq _ _) H2). Qed.

(** From installation on, shutdown is requested exactly when a wait has ended with a signal. *)
Lemma requested_by_signal mask_ok calls s s' :
  WaitForShutdown calls (Install mask_ok s) = Some s' ->
  IsShutdownRequested s' = true <-> exists l1 e l2, calls = l1 ++ (0, e) :: l2 /\ Forall (fun c => c.1 <> 0 /\ c.2 = EINTR) l1.
Proof.
  induction calls as [|[rc errno] calls IH]; [done|]. cbn. destruct (Z.eqb_spec rc 0) as [->|Hrc].
  { intros [= <-]. split; [|done]. intros _. by exists [], errno, calls. }
  destruct (Z.eqb_spec errno EINTR) as [->|He]; cbn.
  - intros H. rewrite (IH H). split.
    + intros (l1 & e & l2 & -> & Hl). exists ((rc, EINTR) :: l1), e, l2. split; [done|]. by constructor.
    + intros ([|c l1] & e & l2 & Heq & Hl); cbn in Heq; simplify_eq. apply Forall_cons in Hl as [_ Hl]. by exists l1, e, l2.
  - intros [= <-]. split; [done|]. intros ([|c l1] & e & l2 & Heq & Hl); cbn in Heq; simplify_eq.
    apply Forall_cons in Hl as [[_ Hx] _]. by destruct He.
Qed.
