(* ===== verification/SecureString.v ===== *)
(** * Credentials

    [SecureString] (src/config/secure_string.h) wipes the memory that held a
    credential.  A byte of memory is [Public] or [Secret]: fresh memory and wiped
    bytes are public, the characters of a credential are secret.  A [std::string] is a
    buffer with a length; the store holds the objects that exist and the buffers that
    were given back to the heap. *)
From S2P Require Import Prelude.

Inductive Cell := Public | Secret (c : ascii).

(** A [std::string]: the cells of its buffer ([capacity()] of them) and [size()]. *)
Record Str := mkStr { st_cells : list Cell; st_size : nat }.

Definition content (s : Str) : list Cell := take (st_size s) (st_cells s).
Definition public (l : list Cell) : Prop := Forall (fun c => c = Public) l.

(** Nothing secret past the end of the contents. *)
Definition tidy (s : Str) : Prop := (st_size s <= length (st_cells s))%nat /\ public (drop (st_size s) (st_cells s)).

(** A new, empty string. *)
Definition str0 (cap : nat) : Str := mkStr (replicate cap Public) 0.

(** [OPENSSL_cleanse(s.data(), n)] *)
Definition cleanse (n : nat) (s : Str) : Str := mkStr (replicate n Public ++ drop n (st_cells s)) (st_size s).

(** The copy constructor: a fresh buffer with room for [extra] more. *)
Definition str_copy (extra : nat) (s : Str) : Str := mkStr (content s ++ replicate extra Public) (st_size s).

(** Copy assignment: in place when there is room, otherwise into a fresh buffer; the second component is the
    buffer that is given back. *)
Definition str_assign (extra : nat) (dst src : Str) : Str * list (list Cell) :=
  if (st_size src <=? length (st_cells dst))%nat
  then (mkStr (content src ++ drop (st_size src) (st_cells dst)) (st_size src), [])
  else (str_copy extra src, [st_cells dst]).

(** ** SecureString *)

(** Source: src/config/secure_string.h:86-86, SecureString::data_.
    The object is its string. *)
Definition SecureString : Type := Str.

(** Source: src/config/secure_string.h:76-81, SecureString::Destroy. *)
Definition Destroy (s : SecureString) : SecureString :=
  if (st_size s =? 0)%nat then s else let s := cleanse (st_size s) s in mkStr (st_cells s) 0.

(** Source: src/config/secure_string.h:25-40, SecureString::FromPlain.
    After the swap [plain] has some buffer [left]: the empty one of [s], or its own inline
    one with the characters still in it.  The second component is the buffer that the end of
    [plain] gives back. *)
Definition FromPlain (plain : Str) (left : list Cell) : SecureString * list (list Cell) :=
  let s := plain in
  let plain := mkStr left 0 in
  let plain := cleanse (length (st_cells plain)) plain in
  (s, [st_cells plain]).

(** Source: src/config/secure_string.h:60-62, SecureString::SecureString. The move constructor: the new object and what is left of [other]. *)
Definition MoveConstruct (extra : nat) (other : SecureString) : SecureString * SecureString := (str_copy extra other, Destroy other).

(** Source: src/config/secure_string.h:63-70, SecureString::operator=. Two different objects. *)
Definition MoveAssign (extra : nat) (self other : SecureString) : SecureString * SecureString * list (list Cell) :=
  let self := Destroy self in
  let '(self, freed) := str_assign extra self other in
  (self, Destroy other, freed).

(** Source: src/config/secure_string.h:44-44, SecureString::~SecureString.
    What the end of the object gives back. *)
Definition Destruct (s : SecureString) : list (list Cell) := [st_cells (Destroy s)].

(** ** Programs *)

(** The objects by number, and the memory given back so far. *)
Record Store := mkStore { objects : gmap nat SecureString; given_back : list (list Cell) }.

(** Whatever a program does with credentials. *)
Inductive secure_step : Store -> Store -> Prop :=
| st_from_plain st i plain left :
    objects st !! i = None -> tidy plain ->
    secure_step st (mkStore (<[i := (FromPlain plain left).1]> (objects st)) (given_back st ++ (FromPlain plain left).2))
| st_move_construct st i j other extra :
    objects st !! i = None -> objects st !! j = Some other ->
    secure_step st (mkStore (<[i := (MoveConstruct extra other).1]> (<[j := (MoveConstruct extra other).2]> (objects st))) (given_back st))
| st_move_assign st i j self other extra s' o' freed :
    i <> j -> objects st !! i = Some self -> objects st !! j = Some other -> MoveAssign extra self other = (s', o', freed) ->
    secure_step st (mkStore (<[i := s']> (<[j := o']> (objects st))) (given_back st ++ freed))
| st_destroy st i s :
    objects st !! i = Some s -> secure_step st (mkStore (<[i := Destroy s]> (objects st)) (given_back st))
| st_destruct st i s :
    objects st !! i = Some s -> secure_step st (mkStore (delete i (objects st)) (given_back st ++ Destruct s)).

(** ** Correctness *)

Lemma public_replicate n : public (replicate n Public).
Proof. by apply Forall_replicate. Qed.

(** A destroyed string is wholly public. *)
Lemma Destroy_public s : tidy s -> public (st_cells (Destroy s)) /\ st_size (Destroy s) = 0%nat /\ tidy (Destroy s).
Proof.
  intros [Hl Hp]. unfold Destroy. destruct (Nat.eqb_spec (st_size s) 0) as [E|E].
  - rewrite E in *. rewrite drop_0 in Hp. split; [done|]. split; [done|]. split; rewrite E; [lia|by rewrite drop_0].
  - cbn. assert (Hall : public (replicate (st_size s) Public ++ drop (st_size s) (st_cells s)))
      by (apply Forall_app; split; [apply public_replicate|done]).
    split; [done|]. split; [done|]. split; cbn; [lia|by rewrite drop_0].
Qed.

Lemma length_content s : tidy s -> length (content s) = st_size s.
Proof. intros [Hl _]. unfold content. rewrite length_take. lia. Qed.

(** A string whose buffer is the contents of a tidy one, with a public rest. *)
Lemma refilled_tidy s rest :
  tidy s -> public rest -> tidy (mkStr (content s ++ rest) (st_size s)) /\ content (mkStr (content s ++ rest) (st_size s)) = content s.
Proof.
  intros Ht Hr. pose proof (length_content s Ht) as Hl. generalize (content s) (st_size s) Hl. intros l n <-. unfold tidy, content. cbn.
  rewrite drop_app_length, take_app_length, length_app. split; [|done]. split; [lia|done].
Qed.

Lemma str_copy_tidy extra s : tidy s -> tidy (str_copy extra s) /\ content (str_copy extra s) = content s.
Proof. intros Ht. apply refilled_tidy; [done|apply public_replicate]. Qed.

Lemma str_assign_tidy extra dst src :
  public (st_cells dst) -> tidy src ->
  let r := str_assign extra dst src in tidy r.1 /\ content r.1 = content src /\ Forall public r.2.
Proof.
  intros Hd Ht. unfold str_assign. destruct (st_size src <=? length (st_cells dst))%nat; cbn.
  - destruct (refilled_tidy src (drop (st_size src) (st_cells dst)) Ht) as [H1 H2]; [by apply Forall_drop|]. split; [done|]. split; [done|constructor].
  - destruct (str_copy_tidy extra src Ht) as [H1 H2]. split; [done|]. split; [done|]. by repeat constructor.
Qed.

(** The invariant: every object is tidy, everything given back is public. *)
Definition store_ok (st : Store) : Prop := map_Forall (fun _ s => tidy s) (objects st) /\ Forall public (given_back st).

Lemma secure_step_ok st st' : secure_step st st' -> store_ok st -> store_ok st'.
Proof.
  intros Hs [Ho Hg]. destruct Hs as [st i plain left Hi Hp|st i j other extra Hi Hj|st i j self other extra s' o' freed Hne Hi Hj Hm|st i s Hi|st i s Hi].
  - split; cbn; [by apply map_Forall_insert_2|]. apply Forall_app. split; [done|]. repeat constructor. cbn.
    apply Forall_app. split; [apply public_replicate|]. by rewrite drop_all.
  - pose proof (Ho _ _ Hj) as Ht. split; cbn; [|done].
    apply map_Forall_insert_2; [by apply str_copy_tidy|]. apply map_Forall_insert_2; [by apply Destroy_public|done].
  - pose proof (Ho _ _ Hi) as Hts. pose proof (Ho _ _ Hj) as Hto. unfold MoveAssign in Hm.
    destruct (Destroy_public self Hts) as (Hd & _ & _). destruct (str_assign_tidy extra (Destroy self) other Hd Hto) as (H1 & _ & H2).
    destruct (str_assign extra (Destroy self) other) as [s1 f1]. simplify_eq. cbn in H1, H2. split; cbn.
    + apply map_Forall_insert_2; [done|]. apply map_Forall_insert_2; [by apply Destroy_public|done].
    + by apply Forall_app.
  - split; cbn; [|done]. apply map_Forall_insert_2; [|done]. by apply Destroy_public, (Ho i).
  - split; cbn; [by apply map_Forall_delete|]. apply Forall_app. split; [done|]. repeat constructor. by apply Destroy_public, (Ho i).
Qed.

(** ** Properties *)

(** No credential survives in memory.  In every program over [SecureString] objects (creating them from plain strings, moving,
    assigning, destroying them in any order) the buffers given back to the heap hold no secret byte, and the bytes
    of an object outside its contents, all of them once it was destroyed or moved from, are public. *)
Theorem credentials_wiped (st : Store) :
  rtc secure_step (mkStore ∅ []) st ->
  Forall public (given_back st) /\
  forall i s, objects st !! i = Some s -> public (drop (st_size s) (st_cells s)) /\
    public (st_cells (Destroy s)) /\ forall extra, content (MoveConstruct extra s).1 = content s /\ public (st_cells (MoveConstruct extra s).2).
Proof.
  intros Hr. assert (Hok : store_ok st).
  { eapply rtc_invariant; [|exact Hr|split; [apply map_Forall_empty|constructor]]. intros s1 s2 H Hs. by eapply secure_step_ok. }
  destruct Hok as [Ho Hg]. split; [done|]. intros i s Hi. pose proof (Ho _ _ Hi) as Ht. split; [by apply Ht|].
  split; [by apply Destroy_public|]. intros extra. split; [by apply str_copy_tidy|by apply Destroy_public].
Qed.
