(* ===== verification/Gateway.v ===== *)
(** * The gateway's market data callbacks

    [MyCallbacks] (src/rithmic_gateway/rithmic_callbacks.cpp) receives the
    Rithmic API's callbacks, keeps up to eight order books and pushes ticks,
    book tickers and depth snapshots into the shared-memory queues.  A callback
    is a function on the gateway's state; [None] means that it spins on a
    book's lock.  The queues are the multi-producer queues of MpscQueue.v; here
    each keeps the list of events given to its [TryPush], whose result the
    callbacks discard. *)
From S2P Require Import Prelude Doubles Events Exchange OrderBook.

(** ** The API's arguments *)

(** [tsNCharcb]: [nc_data] is the memory behind [pData] ([None]: a null pointer),
    of which the first [nc_len] bytes are the string. *)
Record NChar := mkNChar { nc_data : option (list ascii); nc_len : nat }.

Inductive ConnectionId := REPOSITORY_CONNECTION | MARKET_DATA_CONNECTION | OTHER_CONNECTION.
Inductive AlertType := ALERT_LOGIN_COMPLETE | ALERT_LOGIN_FAILED | ALERT_CONNECTION_BROKEN | ALERT_OTHER.

Record AgreementInfo := mkAgreement { ag_status : NChar; ag_mandatory : bool }.

Record TradeInfo := mkTrade {
  ti_exchange : NChar; ti_ticker : NChar; ti_ssboe : Z; ti_usecs : Z;
  ti_price : double; ti_size : Z; ti_aggressor : NChar
}.

(** [AskInfo] and [BidInfo] have the same members. *)
Record QuoteInfo := mkQuote {
  qi_exchange : NChar; qi_ticker : NChar; qi_ssboe : Z; qi_usecs : Z;
  qi_price_flag : bool; qi_price : double; qi_size_flag : bool; qi_size : Z; qi_update_type : Z
}.

(** The price and size arrays are given as the memory behind the two pointers. *)
Record LimitOrderBookInfo := mkLob {
  lb_exchange : NChar; lb_ticker : NChar; lb_ssboe : Z; lb_usecs : Z; lb_type : Z;
  lb_asks : list (double * Z); lb_ask_len : Z;
  lb_bids : list (double * Z); lb_bid_len : Z
}.

Record EndQuoteInfo := mkEndQuote {
  eq_exchange : NChar; eq_ticker : NChar; eq_ssboe : Z; eq_usecs : Z
}.

(** The clocks a callback reads: [system_clock] in microseconds, [steady_clock] in nanoseconds. *)
Record Clock := mkClock { wall_us : Z; mono_ns : Z }.
(** The steady clock as it is stored in a [uint64_t]. *)
Definition local_ns (clk : Clock) : Z := u64 (mono_ns clk).

(** Source: src/rithmic_gateway/rithmic_orderbook.h:33-42, kUpdateTypeSolo. *)
Definition kUpdateTypeSolo : Z := 1.
Definition kUpdateTypeBegin : Z := 2.
Definition kUpdateTypeMiddle : Z := 3.
Definition kUpdateTypeEnd : Z := 4.
Definition kUpdateTypeClear : Z := 5.
Definition kMdImageCb : Z := 1.

(** Source: src/rithmic_gateway/rithmic_callbacks.h:29-32, LoginStatus_Complete. *)
Inductive LoginStatus := NotLoggedIn | AwaitingResults | LoginFailed | LoginComplete.

#[export] Instance LoginStatus_eq_dec : EqDecision LoginStatus.
Proof. solve_decision. Defined.

(** Source: src/rithmic_gateway/rithmic_callbacks.h:136-136, MyCallbacks::kMaxBooks. *)
Definition kMaxBooks : nat := 8.
#[global] Arguments kMaxBooks : simpl never.

(** Source: src/rithmic_gateway/rithmic_callbacks.h:125-141, MyCallbacks (data members).
    With the four global login atomics of rithmic_callbacks.cpp. *)
Record Gateway := mkGateway {
  m_channelMap : RithmicChannelMap;
  m_maxDepthLevels : nat;
  m_books : list RithmicOrderBook;
  m_channelToBook : gmap Z nat;
  m_bookCount : nat;
  m_ticks : list TickData;            (* given to m_tickQueue.TryPush *)
  m_depths : list DepthUpdateEvent;   (* given to m_depthQueue.TryPush *)
  m_tickers : list BookTickerEvent;   (* given to m_bookTickerQueue.TryPush *)
  g_iRepLoginStatus : LoginStatus;
  g_iMdLoginStatus : LoginStatus;
  g_bRcvdUnacceptedAgreements : bool;
  g_iUnacceptedMandatoryAgreements : Z
}.

(** Source: src/rithmic_gateway/rithmic_callbacks.cpp:97-107, MyCallbacks::MyCallbacks. *)
Definition gateway_new (cm : RithmicChannelMap) (max_depth_levels : nat) : Gateway :=
  mkGateway cm max_depth_levels (replicate kMaxBooks book0) ∅ 0 [] [] []
    NotLoggedIn NotLoggedIn false 0.

Definition set_books (bs : list RithmicOrderBook) (c2b : gmap Z nat) (n : nat) (g : Gateway) : Gateway :=
  mkGateway (m_channelMap g) (m_maxDepthLevels g) bs c2b n (m_ticks g) (m_depths g) (m_tickers g)
    (g_iRepLoginStatus g) (g_iMdLoginStatus g) (g_bRcvdUnacceptedAgreements g) (g_iUnacceptedMandatoryAgreements g).

Definition push_events (ts : list TickData) (ds : list DepthUpdateEvent) (bts : list BookTickerEvent)
    (g : Gateway) : Gateway :=
  mkGateway (m_channelMap g) (m_maxDepthLevels g) (m_books g) (m_channelToBook g) (m_bookCount g)
    (m_ticks g ++ ts) (m_depths g ++ ds) (m_tickers g ++ bts)
    (g_iRepLoginStatus g) (g_iMdLoginStatus g) (g_bRcvdUnacceptedAgreements g) (g_iUnacceptedMandatoryAgreements g).

Definition set_login (rep md : LoginStatus) (rcvd : bool) (n : Z) (g : Gateway) : Gateway :=
  mkGateway (m_channelMap g) (m_maxDepthLevels g) (m_books g) (m_channelToBook g) (m_bookCount g)
    (m_ticks g) (m_depths g) (m_tickers g) rep md rcvd n.

#[export] Instance RithmicOrderBook_inhabited : Inhabited RithmicOrderBook := populate book0.

(** ** Helpers *)

(** [while(!sv.empty() && sv.back() == ' ') sv.remove_suffix(1)] *)
Fixpoint trim_right (l : list ascii) : list ascii :=
  match l with
  | [] => []
  | c :: l' => match trim_right l' with
               | [] => if Ascii.eqb c " " then [] else [c]
               | t => c :: t
               end
  end.

(** Source: src/rithmic_gateway/rithmic_callbacks.cpp:32-37, ToSv. *)
Definition ToSv (s : NChar) : list ascii :=
  match nc_data s with
  | None => []
  | Some mem => trim_right (take (nc_len s) mem)
  end.

(** The memory [ToSv(s).data()] points to. *)
Definition data_ptr (s : NChar) : list ascii := default [] (nc_data s).

(** Source: src/rithmic_gateway/rithmic_callbacks.cpp:51-70, MyCallbacks::FindBook.
    [ticker_mem] is the memory at [ticker.data()]; the result is the index of the book.  (A null ticker pointer, which
    [Init] would read, reads as an empty string here; it gets that far only when a future without a name is registered.) *)
Definition FindBook (exchange ticker ticker_mem : list ascii) (g : Gateway) : option nat * Gateway :=
  let channel_id := MapLookup exchange ticker (m_channelMap g) in
  if channel_id =? kNotFound then (None, g)
  else
    match m_channelToBook g !! channel_id with
    | Some idx => (Some idx, g)
    | None =>
        if (kMaxBooks <=? m_bookCount g)%nat then (None, g)
        else
          let idx := m_bookCount g in
          let b := Init channel_id ticker_mem (m_books g !!! idx) in
          (Some idx, set_books (<[idx := b]> (m_books g)) (<[channel_id := idx]> (m_channelToBook g)) (S idx) g)
    end.

(** Source: src/rithmic_gateway/rithmic_callbacks.cpp:72-81, MyCallbacks::PushSnapshot. *)
Definition PushSnapshot (clk : Clock) (b : RithmicOrderBook) (exchange_ts : Z) (g : Gateway) : Gateway :=
  match ResolveRithmicExchangeTimestamp (u64 (wall_us clk)) exchange_ts (bid_count_ b) (ask_count_ b) with
  | None => g
  | Some resolved_ts =>
      let d := SnapshotTo b depth0 resolved_ts in
      let d := mkDepth (dp_last_update_id d) (dp_channel_id d) (dp_exchange_timestamp d) (local_ns clk)
                 (dp_symbol d) (dp_bids d) (dp_asks d) (dp_bid_count d) (dp_ask_count d) in
      push_events [] [d] [] g
  end.

(** [book->Lock(); ...; book->Unlock()] around a handler that changes the
    book and says whether to push a snapshot, and with which timestamp. *)
Definition with_book (clk : Clock) (exchange ticker : NChar)
    (f : RithmicOrderBook -> RithmicOrderBook * option Z) (g : Gateway) : option Gateway :=
  match FindBook (ToSv exchange) (ToSv ticker) (data_ptr ticker) g with
  | (None, g) => Some g
  | (Some idx, g) =>
      match Lock (m_books g !!! idx) with
      | None => None
      | Some b =>
          let '(b, snap) := f b in
          let g := match snap with Some ts => PushSnapshot clk b ts g | None => g end in
          Some (set_books (<[idx := Unlock b]> (m_books g)) (m_channelToBook g) (m_bookCount g) g)
      end
  end.

(** ** Callbacks the gateway ignores *)

(** Source: src/rithmic_gateway/rithmic_callbacks.cpp:22-24, RECV_OK.
    Every callback reports [API_OK] in [aiCode] and returns [OK]. *)
Inductive ApiResult := RECV_OK.

(** Source: src/rithmic_gateway/rithmic_callbacks.h:76-123, MyCallbacks (ignored callbacks).
    With [BestAskQuote], [BestBidQuote], [BinaryContractList], [ClosePrice] and [ClosingIndicator] declared before them. *)
Inductive IgnoredCallback :=
  | Cb_BestAskQuote | Cb_BestBidQuote | Cb_BinaryContractList | Cb_ClosePrice | Cb_ClosingIndicator
  | Cb_EquityOptionStrategyList | Cb_HighPrice | Cb_InstrumentByUnderlying | Cb_InstrumentSearch | Cb_LowPrice
  | Cb_MarketMode | Cb_MidPrice | Cb_OpenInterest | Cb_OpenPrice | Cb_OpeningIndicator | Cb_OptionList | Cb_RefData
  | Cb_SettlementPrice | Cb_Strategy | Cb_StrategyList | Cb_TradeReplay | Cb_TradeRoute | Cb_TradeRouteList
  | Cb_TradeVolume | Cb_Bar | Cb_BarReplay | Cb_AccountList | Cb_PasswordChange | Cb_ExchangeList
  | Cb_ExecutionReplay | Cb_LineUpdate | Cb_OpenOrderReplay | Cb_OrderReplay | Cb_PnlReplay | Cb_PnlUpdate
  | Cb_PriceIncrUpdate | Cb_ProductRmsList | Cb_SingleOrderReplay | Cb_BustReport | Cb_CancelReport
  | Cb_FailureReport | Cb_FillReport | Cb_ModifyReport | Cb_NotCancelledReport | Cb_NotModifiedReport
  | Cb_RejectReport | Cb_StatusReport | Cb_TradeCorrectReport | Cb_TriggerPulledReport | Cb_TriggerReport
  | Cb_OtherReport | Cb_SodUpdate | Cb_Quote.

(** Source: src/rithmic_gateway/rithmic_callbacks.cpp:394-441, MyCallbacks (ignored callbacks). *)
Definition ignored_callback (c : IgnoredCallback) (g : Gateway) : ApiResult * Gateway := (RECV_OK, g).

(** Source: src/rithmic_gateway/rithmic_callbacks.cpp:87-91, MyAdmCallbacks::Alert. *)
Definition AdmAlert (c : ConnectionId) (a : AlertType) (g : Gateway) : ApiResult * Gateway := (RECV_OK, g).

(** ** Login callbacks *)

Definition login_of (a : AlertType) (old : LoginStatus) : LoginStatus :=
  match a with
  | ALERT_LOGIN_COMPLETE => LoginComplete
  | ALERT_LOGIN_FAILED | ALERT_CONNECTION_BROKEN => LoginFailed
  | ALERT_OTHER => old
  end.

(** Source: src/rithmic_gateway/rithmic_callbacks.cpp:113-132, MyCallbacks::Alert. *)
Definition Alert (c : ConnectionId) (a : AlertType) (g : Gateway) : Gateway :=
  match c with
  | REPOSITORY_CONNECTION =>
      set_login (login_of a (g_iRepLoginStatus g)) (g_iMdLoginStatus g)
        (g_bRcvdUnacceptedAgreements g) (g_iUnacceptedMandatoryAgreements g) g
  | MARKET_DATA_CONNECTION =>
      set_login (g_iRepLoginStatus g) (login_of a (g_iMdLoginStatus g))
        (g_bRcvdUnacceptedAgreements g) (g_iUnacceptedMandatoryAgreements g) g
  | OTHER_CONNECTION => g
  end.

(** [sStatus] is exactly "active" and the agreement is mandatory. *)
Definition counts_agreement (a : AgreementInfo) : bool :=
  bool_decide (take (nc_len (ag_status a)) (data_ptr (ag_status a)) = bytes "active")
  && (nc_len (ag_status a) =? 6)%nat && ag_mandatory a.

(** Source: src/rithmic_gateway/rithmic_callbacks.cpp:134-152, MyCallbacks::AgreementList. *)
Definition AgreementList (accepted : bool) (ags : list AgreementInfo) (g : Gateway) : Gateway :=
  if accepted then g
  else
    let n := fold_left (fun n a => if counts_agreement a then i32 (n + 1) else n) ags
               (g_iUnacceptedMandatoryAgreements g) in
    set_login (g_iRepLoginStatus g) (g_iMdLoginStatus g) true n g.

(** ** Market data callbacks *)

(** Source: src/rithmic_gateway/rithmic_callbacks.cpp:158-180, MyCallbacks::TradePrint. *)
Definition TradePrint (clk : Clock) (i : TradeInfo) (g : Gateway) : Gateway :=
  let channel_id := MapLookup (ToSv (ti_exchange i)) (ToSv (ti_ticker i)) (m_channelMap g) in
  if channel_id =? kNotFound then g
  else
    let tick := mkTick (ToEpochMicros (ti_ssboe i) (ti_usecs i)) (local_ns clk) 0 (ti_price i) (d_of_Z (ti_size i))
                  channel_id (GatewayCopySymbol (tk_symbol tick0) (ToSv (ti_ticker i)))
                  (bool_decide (ToSv (ti_aggressor i) = bytes "S")) (tk_padding tick0) in
    push_events [tick] [] [] g.

(** Source: src/rithmic_gateway/rithmic_callbacks.cpp:269-269, MyCallbacks::TradeCondition. *)
Definition TradeCondition (clk : Clock) (i : TradeInfo) (g : Gateway) : Gateway := TradePrint clk i g.

(** Source: src/rithmic_gateway/rithmic_callbacks.cpp:186-208, MyCallbacks::BestBidAskQuote. *)
Definition BestBidAskQuote (clk : Clock) (bid ask : QuoteInfo) (g : Gateway) : Gateway :=
  let channel_id := MapLookup (ToSv (qi_exchange bid)) (ToSv (qi_ticker bid)) (m_channelMap g) in
  if channel_id =? kNotFound then g
  else
    let bt := mkBookTicker channel_id (ToEpochMicros (qi_ssboe bid) (qi_usecs bid)) (local_ns clk)
                (GatewayCopySymbol symbol0 (ToSv (qi_ticker bid)))
                (if qi_price_flag bid then qi_price bid else dzero)
                (if qi_size_flag bid then d_of_Z (qi_size bid) else dzero)
                (if qi_price_flag ask then qi_price ask else dzero)
                (if qi_size_flag ask then d_of_Z (qi_size ask) else dzero) in
    push_events [] [] [bt] g.

(** [for(i = 0; i < n; ++i) book->ApplyLevel(prices[i], (double)sizes[i], is_ask)] *)
Definition apply_entries (is_ask : bool) (es : list (double * Z)) (b : RithmicOrderBook) : RithmicOrderBook :=
  fold_left (fun b e => ApplyLevel e.1 (d_of_Z e.2) is_ask b) es b.

(** [uint32_t n = (uint32_t)len; if(n > maxd) n = maxd;] *)
Definition clamp_len (len : Z) (maxd : nat) : nat := Z.to_nat (Z.min (u32 len) (Z.of_nat maxd)).

Definition limit_order_book (maxDepth : nat) (i : LimitOrderBookInfo) (b : RithmicOrderBook) : RithmicOrderBook :=
  if lb_type i =? kMdImageCb then
    let b := ApplyImage (take (Z.to_nat (lb_ask_len i)) (lb_asks i)) true b in
    ApplyImage (take (Z.to_nat (lb_bid_len i)) (lb_bids i)) false b
  else
    let maxd := Nat.min maxDepth kMaxOrderbookLevels in
    let b := apply_entries true (take (clamp_len (lb_ask_len i) maxd) (lb_asks i)) b in
    apply_entries false (take (clamp_len (lb_bid_len i) maxd) (lb_bids i)) b.

(** Source: src/rithmic_gateway/rithmic_callbacks.cpp:214-263, MyCallbacks::LimitOrderBook. *)
Definition LimitOrderBook (clk : Clock) (i : LimitOrderBookInfo) (g : Gateway) : option Gateway :=
  with_book clk (lb_exchange i) (lb_ticker i)
    (fun b => (limit_order_book (m_maxDepthLevels g) i b, Some (ToEpochMicros (lb_ssboe i) (lb_usecs i)))) g.

(** [if(pInfo->bPriceFlag) { qty = bSizeFlag ? (double)llSize : 0.0; op(dPrice, qty, is_ask); }] *)
Definition quote_level (op : double -> double -> bool -> RithmicOrderBook -> RithmicOrderBook)
    (is_ask : bool) (i : QuoteInfo) (b : RithmicOrderBook) : RithmicOrderBook :=
  if qi_price_flag i
  then op (qi_price i) (if qi_size_flag i then d_of_Z (qi_size i) else dzero) is_ask b
  else b.

(** The [switch] over [iUpdateType] that [AskQuote] and [BidQuote] share but for
    the side; the second component is the timestamp of the snapshot, if any. *)
Definition quote_update (is_ask : bool) (i : QuoteInfo) (b : RithmicOrderBook) : RithmicOrderBook * option Z :=
  let ts := Some (ToEpochMicros (qi_ssboe i) (qi_usecs i)) in
  if qi_update_type i =? kUpdateTypeSolo then (quote_level ApplyLevel is_ask i b, ts)
  else if qi_update_type i =? kUpdateTypeBegin then
    let b := if batch_active_ b then CancelBatch b else b in
    (quote_level BufferLevel is_ask i (BeginBatch b), None)
  else if qi_update_type i =? kUpdateTypeMiddle then
    let b := if batch_active_ b then b else BeginBatch b in
    (quote_level BufferLevel is_ask i b, None)
  else if qi_update_type i =? kUpdateTypeEnd then
    (CommitBatch (quote_level BufferLevel is_ask i b), ts)
  else if qi_update_type i =? kUpdateTypeClear then (Clear b, ts)
  else (b, None).

(** Source: src/rithmic_gateway/rithmic_callbacks.cpp:275-324, MyCallbacks::AskQuote. *)
Definition AskQuote (clk : Clock) (i : QuoteInfo) (g : Gateway) : option Gateway :=
  with_book clk (qi_exchange i) (qi_ticker i) (quote_update true i) g.

(** Source: src/rithmic_gateway/rithmic_callbacks.cpp:327-376, MyCallbacks::BidQuote. *)
Definition BidQuote (clk : Clock) (i : QuoteInfo) (g : Gateway) : option Gateway :=
  with_book clk (qi_exchange i) (qi_ticker i) (quote_update false i) g.

(** Source: src/rithmic_gateway/rithmic_callbacks.cpp:380-393, MyCallbacks::EndQuote. *)
Definition EndQuote (clk : Clock) (i : EndQuoteInfo) (g : Gateway) : option Gateway :=
  with_book clk (eq_exchange i) (eq_ticker i)
    (fun b => if batch_active_ b then (CommitBatch b, Some (ToEpochMicros (eq_ssboe i) (eq_usecs i)))
              else (b, None)) g.

(** ** What the book operations leave alone *)

(** The identity of a book and its lock. *)
Definition book_id (b : RithmicOrderBook) : Z * list ascii * bool := (ob_channel_id_ b, ob_symbol_ b, lock_ b).

Lemma ApplyLevel_id p q a b : book_id (ApplyLevel p q a b) = book_id b.
Proof. by destruct a. Qed.

Lemma ApplyImage_id es a b : book_id (ApplyImage es a b) = book_id b.
Proof. by destruct a. Qed.

Lemma BufferLevel_id p q a b : book_id (BufferLevel p q a b) = book_id b.
Proof. unfold BufferLevel. by destruct a; case_goal. Qed.

Lemma apply_levels_id a ls b : book_id (apply_levels a ls b) = book_id b.
Proof.
  revert b. induction ls as [|l ls IH]; intros b; [done|]. simpl. rewrite IH. apply ApplyLevel_id.
Qed.

Lemma CommitBatch_id b : book_id (CommitBatch b) = book_id b.
Proof.
  unfold CommitBatch. cbv zeta. etrans; [|apply (apply_levels_id false)]. etrans; [|apply (apply_levels_id true)]. done.
Qed.

Lemma apply_entries_id a es b : book_id (apply_entries a es b) = book_id b.
Proof.
  revert b. induction es as [|e es IH]; intros b; [done|]. simpl. rewrite IH. apply ApplyLevel_id.
Qed.

Lemma apply_entries_good a es b :
  Forall (fun e => not_nan e.1) es -> good_book b -> good_book (apply_entries a es b).
Proof.
  intros H. revert b. induction H as [|e es He _ IH]; intros b Hb; [done|]. simpl.
  apply IH, ApplyLevel_good; [done|apply d_of_Z_not_nan|done].
Qed.

Lemma good_book_ext b b' :
  bids_ b' = bids_ b -> asks_ b' = asks_ b -> bid_count_ b' = bid_count_ b -> ask_count_ b' = ask_count_ b ->
  pending_bids_ b' = pending_bids_ b -> pending_asks_ b' = pending_asks_ b ->
  pending_bid_count_ b' = pending_bid_count_ b -> pending_ask_count_ b' = pending_ask_count_ b ->
  length (ob_symbol_ b') = 12%nat -> good_book b -> good_book b'.
Proof.
  destruct b, b'; simpl; intros; subst. destruct H8 as [[] Hs Hp]. simpl in *.
  split; [by split| |]; intros a; [specialize (Hs a)|specialize (Hp a)]; by destruct a.
Qed.

Lemma set_lock_good v b : good_book b -> good_book (set_lock v b).
Proof. intros Hb. apply (good_book_ext b); try done. apply (wb_sym _ (gb_wf _ Hb)). Qed.

Lemma Init_good cid sym b : good_book b -> good_book (Init cid sym b).
Proof.
  intros Hb. apply (good_book_ext b); try done. simpl.
  apply copy_symbol_11_c_str. apply (wb_sym _ (gb_wf _ Hb)).
Qed.

(** A handler that keeps a good book good, and its identity and lock. *)
Definition book_handler (f : RithmicOrderBook -> RithmicOrderBook * option Z) : Prop :=
  forall b, (good_book b -> good_book (f b).1 /\ book_id (f b).1 = book_id b) /\ forall ts, (f b).2 = Some ts -> in_range 64 ts.

Lemma ToEpochMicros_range s u : in_range 64 (ToEpochMicros s u).
Proof. by apply wrap_range. Qed.

Lemma quote_level_handler op a i b :
  (forall p q, not_nan p -> not_nan q -> good_book b -> good_book (op p q a b)) ->
  (forall p q, book_id (op p q a b) = book_id b) ->
  not_nan (qi_price i) -> good_book b ->
  good_book (quote_level op a i b) /\ book_id (quote_level op a i b) = book_id b.
Proof.
  intros Hg Hid Hp Hb. unfold quote_level. destruct (qi_price_flag i); [|done].
  split; [|apply Hid]. apply Hg; [done| |done]. destruct (qi_size_flag i); [apply d_of_Z_not_nan|done].
Qed.

Lemma quote_update_handler a i : not_nan (qi_price i) -> book_handler (quote_update a i).
Proof.
  intros Hp b. split; [intros Hb|unfold quote_update; repeat case_goal; intros ts; by (intros [= <-]; apply ToEpochMicros_range)].
  unfold quote_update. repeat case_goal; cbn [fst].
  - apply quote_level_handler; auto using ApplyLevel_good, ApplyLevel_id.
  - edestruct (quote_level_handler BufferLevel a i (BeginBatch (CancelBatch b))) as [H1 H2];
      auto using BufferLevel_good, BufferLevel_id, BeginBatch_good, CancelBatch_good.
  - edestruct (quote_level_handler BufferLevel a i (BeginBatch b)) as [H1 H2];
      auto using BufferLevel_good, BufferLevel_id, BeginBatch_good.
  - apply quote_level_handler; auto using BufferLevel_good, BufferLevel_id.
  - edestruct (quote_level_handler BufferLevel a i (BeginBatch b)) as [H1 H2];
      auto using BufferLevel_good, BufferLevel_id, BeginBatch_good.
  - destruct (quote_level_handler BufferLevel a i b) as [H1 H2]; auto using BufferLevel_good, BufferLevel_id.
    rewrite CommitBatch_id. auto using CommitBatch_good.
  - auto using Clear_good.
  - done.
Qed.

(** What the arrays of a depth message must satisfy: an image lists its levels
    best first, an update lists numbers. *)
Definition lob_ok (maxDepth : nat) (i : LimitOrderBookInfo) : Prop :=
  if lb_type i =? kMdImageCb then
    image_ok true (take (Z.to_nat (lb_ask_len i)) (lb_asks i)) /\
    image_ok false (take (Z.to_nat (lb_bid_len i)) (lb_bids i))
  else
    Forall (fun e => not_nan e.1) (lb_asks i) /\ Forall (fun e => not_nan e.1) (lb_bids i).

Lemma limit_order_book_handler maxd i ts :
  lob_ok maxd i -> in_range 64 ts -> book_handler (fun b => (limit_order_book maxd i b, Some ts)).
Proof.
  unfold lob_ok. intros Hok Hts b. split; [intros Hb|by intros ? [= <-]]. cbn [fst]. unfold limit_order_book.
  destruct (lb_type i =? kMdImageCb); destruct Hok as [Ha Hbi].
  - split; [|by rewrite !ApplyImage_id]. apply ApplyImage_good; [done|]. by apply ApplyImage_good.
  - split; [|by rewrite !apply_entries_id].
    apply apply_entries_good; [by apply Forall_take|]. apply apply_entries_good; [by apply Forall_take|done].
Qed.

(** ** The invariant of the gateway *)

(** An event the gateway may push: well formed, about a registered channel;
    both sides of a book strictly sorted with positive quantities. *)
Definition depth_ok (ids : gset Z) (e : DepthUpdateEvent) : Prop :=
  wf_depth e /\ dp_channel_id e ∈ ids /\ in_range 64 (dp_exchange_timestamp e) /\ in_range 64 (dp_local_diff e) /\
  wf_levels false (depth_bids e) /\ wf_levels true (depth_asks e).
Definition trade_ok (ids : gset Z) (t : TickData) : Prop := wf_tick t /\ tk_channel_id t ∈ ids.
Definition quote_ok (ids : gset Z) (e : BookTickerEvent) : Prop :=
  length (bt_symbol e) = 12%nat /\ in_range 64 (bt_exchange_timestamp e) /\ in_range 64 (bt_local_diff e) /\
  in_range 32 (bt_channel_id e) /\ bt_channel_id e ∈ ids.

Record gateway_ok (g : Gateway) : Prop := {
  gw_len : length (m_books g) = kMaxBooks;
  gw_count : (m_bookCount g <= kMaxBooks)%nat;
  gw_index cid idx : m_channelToBook g !! cid = Some idx ->
    (idx < m_bookCount g)%nat /\ cid ∈ registered_ids_ (m_channelMap g) /\
    exists b, m_books g !! idx = Some b /\ ob_channel_id_ b = cid;
  gw_indexed idx : (idx < m_bookCount g)%nat ->
    exists b, m_books g !! idx = Some b /\ m_channelToBook g !! ob_channel_id_ b = Some idx;
  gw_books : Forall (fun b => good_book b /\ lock_ b = false) (m_books g);
  gw_depths : Forall (depth_ok (registered_ids_ (m_channelMap g))) (m_depths g);
  gw_ticks : Forall (trade_ok (registered_ids_ (m_channelMap g))) (m_ticks g);
  gw_tickers : Forall (quote_ok (registered_ids_ (m_channelMap g))) (m_tickers g)
}.

Lemma MapLookup_registered e t m : MapLookup e t m <> kNotFound -> MapLookup e t m ∈ registered_ids_ m.
Proof. unfold MapLookup. cbv zeta. by case_bool_decide. Qed.
Lemma MapLookup_range e t m : MapLookup e t m <> kNotFound -> in_range 32 (MapLookup e t m).
Proof. unfold MapLookup. cbv zeta. case_bool_decide; [intros _; apply ComputeChannelId_range|done]. Qed.

Lemma FindBook_ok e t mem g r g' :
  gateway_ok g -> FindBook e t mem g = (r, g') ->
  gateway_ok g' /\ m_channelMap g' = m_channelMap g /\
  m_ticks g' = m_ticks g /\ m_depths g' = m_depths g /\ m_tickers g' = m_tickers g /\
  m_maxDepthLevels g' = m_maxDepthLevels g /\
  match r with
  | None => True
  | Some idx => m_channelToBook g' !! MapLookup e t (m_channelMap g) = Some idx
  end.
Proof.
  intros Hok. unfold FindBook. cbv zeta.
  destruct (Z.eqb_spec (MapLookup e t (m_channelMap g)) kNotFound) as [|Hreg]; [intros [= <- <-]; by split_and!|].
  destruct (m_channelToBook g !! MapLookup e t (m_channelMap g)) as [idx|] eqn:E; [intros [= <- <-]; by split_and!|].
  destruct (Nat.leb_spec kMaxBooks (m_bookCount g)) as [|Hlt]; [intros [= <- <-]; by split_and!|].
  intros [= <- <-]. split_and!; try done; [|by simpl; rewrite lookup_insert_eq].
  destruct Hok as [Hl Hc Hidx Hin Hb Hd Ht Hbt].
  destruct (lookup_lt_is_Some_2 (m_books g) (m_bookCount g) ltac:(lia)) as [b Hbk].
  rewrite (list_lookup_total_correct _ _ _ Hbk). pose proof (Forall_lookup_1 _ _ _ _ Hb Hbk) as [Hgood Hlock].
  split; simpl; try done; [by rewrite length_insert| | |].
  - intros cid idx Hlk. apply lookup_insert_Some in Hlk as [[<- <-]|[Hne Hlk]].
    + split_and!; [lia|by apply MapLookup_registered|]. eexists. split; [apply list_lookup_insert_eq; lia|done].
    + destruct (Hidx _ _ Hlk) as (H1 & H2 & b' & H3 & H4). split_and!; [lia|done|].
      exists b'. split; [|done]. rewrite list_lookup_insert_ne by lia. done.
  - intros idx Hi. destruct (decide (idx = m_bookCount g)) as [->|Hne].
    + eexists. split; [apply list_lookup_insert_eq; lia|]. cbn [Init ob_channel_id_]. by rewrite lookup_insert_eq.
    + destruct (Hin idx ltac:(lia)) as (b' & H1 & H2). exists b'. rewrite list_lookup_insert_ne by lia. split; [done|].
      rewrite lookup_insert_ne; [done|]. intros Heq. rewrite <- Heq in H2. congruence.
  - apply Forall_insert; [done|]. split; [by apply Init_good|done].
Qed.

(** The snapshot of a good book is an event the gateway may push. *)
Lemma snapshot_ok ids b ts ns :
  good_book b -> ob_channel_id_ b ∈ ids -> in_range 64 ts -> in_range 64 ns ->
  let d := SnapshotTo b depth0 ts in
  depth_ok ids (mkDepth (dp_last_update_id d) (dp_channel_id d) (dp_exchange_timestamp d) ns
                  (dp_symbol d) (dp_bids d) (dp_asks d) (dp_bid_count d) (dp_ask_count d)).
Proof.
  intros Hb Hid Hts Hns d. destruct (SnapshotTo_spec b depth0 ts (gb_wf _ Hb) depth0_wf) as (H1 & H2 & H3 & H4 & _ & [Hw1 Hw2 Hw3 Hw4 Hw5]).
  fold d in H1, H2, H3, H4, Hw1, Hw2, Hw3, Hw4, Hw5. unfold depth_ok.
  split_and!; [by split|change (dp_channel_id d ∈ ids); by rewrite H3|change (in_range 64 (dp_exchange_timestamp d)); by rewrite H4|done| |].
  - change (wf_levels false (depth_bids d)). rewrite H1. apply (gb_side _ Hb).
  - change (wf_levels true (depth_asks d)). rewrite H2. apply (gb_side _ Hb).
Qed.

Lemma resolved_range now ts n m r :
  in_range 64 now -> in_range 64 ts -> ResolveRithmicExchangeTimestamp now ts n m = Some r -> in_range 64 r.
Proof. intros Hn Ht. unfold ResolveRithmicExchangeTimestamp. by repeat case_match; intros [= <-]. Qed.

Lemma PushSnapshot_ok clk b ts g :
  gateway_ok g -> good_book b -> ob_channel_id_ b ∈ registered_ids_ (m_channelMap g) -> in_range 64 ts ->
  gateway_ok (PushSnapshot clk b ts g).
Proof.
  intros [Hl Hc Hidx Hin Hb Hd Ht Hbt] Hgood Hid Hts. unfold PushSnapshot.
  destruct (ResolveRithmicExchangeTimestamp _ _ _ _) as [r|] eqn:Er; [|by split].
  apply resolved_range in Er; [|by apply wrap_range|done].
  split; simpl; rewrite ?app_nil_r; try done.
  apply Forall_app. split; [done|]. constructor; [|done]. apply snapshot_ok; try done. by apply wrap_range.
Qed.

Lemma PushSnapshot_frame clk b ts g :
  m_books (PushSnapshot clk b ts g) = m_books g /\ m_channelToBook (PushSnapshot clk b ts g) = m_channelToBook g /\
  m_bookCount (PushSnapshot clk b ts g) = m_bookCount g /\ m_channelMap (PushSnapshot clk b ts g) = m_channelMap g.
Proof. unfold PushSnapshot. by case_goal. Qed.

(** Writing back a good, unlocked book with the same identity. *)
Lemma put_book_ok g idx b b' :
  gateway_ok g -> m_books g !! idx = Some b -> good_book b' -> lock_ b' = false ->
  ob_channel_id_ b' = ob_channel_id_ b ->
  gateway_ok (set_books (<[idx := b']> (m_books g)) (m_channelToBook g) (m_bookCount g) g).
Proof.
  intros [Hl Hc Hidx Hin Hb Hd Ht Hbt] Hbk Hgood Hlock Hid. split; simpl; try done; [by rewrite length_insert| | |].
  - intros cid i Hi. destruct (Hidx _ _ Hi) as (H1 & H2 & b0 & H3 & H4). split_and!; [done|done|].
    destruct (decide (i = idx)) as [->|].
    + exists b'. split; [apply list_lookup_insert_eq; by eapply lookup_lt_Some|]. congruence.
    + exists b0. by rewrite list_lookup_insert_ne.
  - intros i Hi. destruct (Hin i Hi) as (b0 & H1 & H2). destruct (decide (i = idx)) as [->|].
    + exists b'. split; [apply list_lookup_insert_eq; by eapply lookup_lt_Some|]. congruence.
    + exists b0. by rewrite list_lookup_insert_ne.
  - by apply Forall_insert.
Qed.

(** A callback that works on a book returns, and keeps the invariant. *)
Lemma with_book_ok clk e t f g :
  gateway_ok g -> book_handler f ->
  exists g', with_book clk e t f g = Some g' /\ gateway_ok g' /\
    m_channelMap g' = m_channelMap g /\ m_maxDepthLevels g' = m_maxDepthLevels g.
Proof.
  intros Hok Hf. unfold with_book.
  destruct (FindBook (ToSv e) (ToSv t) (data_ptr t) g) as [r g1] eqn:E.
  destruct (FindBook_ok _ _ _ _ _ _ Hok E) as (Hok1 & Hm & _ & _ & _ & Hmx & Hr).
  destruct r as [idx|]; [|by exists g1].
  destruct (gw_index _ Hok1 _ _ Hr) as (Hlt & Hreg & b & Hb & Hcid).
  rewrite (list_lookup_total_correct _ _ _ Hb).
  pose proof (Forall_lookup_1 _ _ _ _ (gw_books _ Hok1) Hb) as [Hgood Hlock].
  unfold Lock. rewrite Hlock. destruct (Hf (set_lock true b)) as [Hg2 Hts].
  destruct (Hg2 (set_lock_good true b Hgood)) as [Hg3 Hid]. clear Hg2. rename Hg3 into Hg2.
  destruct (f (set_lock true b)) as [b2 snap]. cbn [fst snd] in *. injection Hid as Hid1 Hid2 Hid3.
  set (g2 := match snap with Some ts => PushSnapshot clk b2 ts g1 | None => g1 end).
  assert (Hg2ok : gateway_ok g2 /\ m_books g2 = m_books g1 /\ m_channelMap g2 = m_channelMap g1 /\
                  m_maxDepthLevels g2 = m_maxDepthLevels g1).
  { destruct snap as [ts|]; [|done]. split_and!; [|apply PushSnapshot_frame|apply PushSnapshot_frame|].
    - apply PushSnapshot_ok; [done|done| |by apply Hts]. by rewrite Hid1, Hcid.
    - unfold g2, PushSnapshot. by case_goal. }
  destruct Hg2ok as (Hok2 & Hbs & Hm2 & Hmx2). eexists. split; [done|]. split_and!; [|simpl; congruence|simpl; congruence].
  eapply put_book_ok; [done|by rewrite Hbs|by apply set_lock_good|done|done].
Qed.

(** ** Sequences of callbacks *)

Inductive callback :=
| CbAlert (c : ConnectionId) (a : AlertType)
| CbAgreements (accepted : bool) (ags : list AgreementInfo)
| CbTradePrint (i : TradeInfo)
| CbTradeCondition (i : TradeInfo)
| CbBestBidAsk (bid ask : QuoteInfo)
| CbLimitOrderBook (i : LimitOrderBookInfo)
| CbAskQuote (i : QuoteInfo)
| CbBidQuote (i : QuoteInfo)
| CbEndQuote (i : EndQuoteInfo)
| CbIgnored (c : IgnoredCallback)
| CbAdmAlert (c : ConnectionId) (a : AlertType).

Definition run_callback (clk : Clock) (cb : callback) (g : Gateway) : option Gateway :=
  match cb with
  | CbAlert c a => Some (Alert c a g)
  | CbAgreements acc ags => Some (AgreementList acc ags g)
  | CbTradePrint i => Some (TradePrint clk i g)
  | CbTradeCondition i => Some (TradeCondition clk i g)
  | CbBestBidAsk b a => Some (BestBidAskQuote clk b a g)
  | CbLimitOrderBook i => LimitOrderBook clk i g
  | CbAskQuote i => AskQuote clk i g
  | CbBidQuote i => BidQuote clk i g
  | CbEndQuote i => EndQuote clk i g
  | CbIgnored c => Some (ignored_callback c g).2
  | CbAdmAlert c a => Some (AdmAlert c a g).2
  end.

(** Prices are numbers and images are sorted best first. *)
Definition callback_ok (maxDepth : nat) (cb : callback) : Prop :=
  match cb with
  | CbLimitOrderBook i => lob_ok maxDepth i
  | CbAskQuote i | CbBidQuote i => not_nan (qi_price i)
  | _ => True
  end.

Fixpoint run_callbacks (cbs : list (Clock * callback)) (g : Gateway) : option Gateway :=
  match cbs with
  | [] => Some g
  | (clk, cb) :: rest => match run_callback clk cb g with
                         | Some g' => run_callbacks rest g'
                         | None => None
                         end
  end.

Lemma push_tick_ok t g :
  trade_ok (registered_ids_ (m_channelMap g)) t -> gateway_ok g -> gateway_ok (push_events [t] [] [] g).
Proof.
  intros Ht []. split; simpl; rewrite ?app_nil_r; try done. apply Forall_app_2; [done|by apply Forall_singleton].
Qed.

Lemma push_ticker_ok t g :
  quote_ok (registered_ids_ (m_channelMap g)) t -> gateway_ok g -> gateway_ok (push_events [] [] [t] g).
Proof.
  intros Ht []. split; simpl; rewrite ?app_nil_r; try done. apply Forall_app_2; [done|by apply Forall_singleton].
Qed.

Lemma set_login_ok r m b n g : gateway_ok g -> gateway_ok (set_login r m b n g).
Proof. intros []. by split. Qed.

Lemma TradePrint_ok clk i g : gateway_ok g -> gateway_ok (TradePrint clk i g).
Proof.
  intros Hok. unfold TradePrint. cbv zeta.
  destruct (Z.eqb_spec (MapLookup (ToSv (ti_exchange i)) (ToSv (ti_ticker i)) (m_channelMap g)) kNotFound); [done|].
  apply push_tick_ok; [|done]. split; [|by apply MapLookup_registered].
  split; cbn; (by apply GatewayCopySymbol_length) || (by apply wrap_range) || (by apply MapLookup_range) || done.
Qed.

Lemma TradePrint_frame clk i g :
  m_channelMap (TradePrint clk i g) = m_channelMap g /\
  m_maxDepthLevels (TradePrint clk i g) = m_maxDepthLevels g.
Proof. unfold TradePrint. cbv zeta. by destruct (_ =? kNotFound). Qed.

Lemma run_callback_ok clk cb g :
  gateway_ok g -> callback_ok (m_maxDepthLevels g) cb ->
  exists g', run_callback clk cb g = Some g' /\ gateway_ok g' /\
    m_channelMap g' = m_channelMap g /\ m_maxDepthLevels g' = m_maxDepthLevels g.
Proof.
  intros Hok Hcb. destruct cb as [c a|acc ags|i|i|bid ask|i|i|i|i|c|c a]; cbn [run_callback callback_ok] in *.
  - eexists. split; [reflexivity|]. destruct c; simpl; (split; [by try apply set_login_ok|done]).
  - eexists. split; [reflexivity|]. unfold AgreementList. destruct acc; [done|]. split; [by apply set_login_ok|done].
  - eexists. split; [reflexivity|]. split; [by apply TradePrint_ok|apply TradePrint_frame].
  - eexists. split; [reflexivity|]. split; [by apply TradePrint_ok|apply TradePrint_frame].
  - eexists. split; [reflexivity|]. unfold BestBidAskQuote. cbv zeta.
    destruct (Z.eqb_spec (MapLookup (ToSv (qi_exchange bid)) (ToSv (qi_ticker bid)) (m_channelMap g)) kNotFound); [done|].
    split; [|done]. apply push_ticker_ok; [|done].
    split_and!; cbn; (by apply GatewayCopySymbol_length) || (by apply wrap_range) || (by apply MapLookup_range) || (by apply MapLookup_registered).
  - unfold LimitOrderBook. apply with_book_ok; [done|]. apply limit_order_book_handler; [done|apply ToEpochMicros_range].
  - unfold AskQuote. apply with_book_ok; [done|]. by apply quote_update_handler.
  - unfold BidQuote. apply with_book_ok; [done|]. by apply quote_update_handler.
  - unfold EndQuote. apply with_book_ok; [done|]. intros b. destruct (batch_active_ b); cbn [fst snd]; [|done].
    split; [intros Hb; split; [by apply CommitBatch_good|apply CommitBatch_id]|intros ts [= <-]; apply ToEpochMicros_range].
  - by exists g.
  - by exists g.
Qed.

Lemma gateway_new_ok cm maxd : gateway_ok (gateway_new cm maxd).
Proof.
  split; cbn [gateway_new m_books m_bookCount m_channelToBook m_depths m_ticks m_tickers]; try done.
  - apply Nat.le_0_l.
  - intros idx Hi. lia.
  - apply Forall_replicate. split; [apply book0_good|done].
Qed.

Lemma run_callbacks_ok cbs g :
  gateway_ok g -> Forall (fun c => callback_ok (m_maxDepthLevels g) c.2) cbs ->
  exists g', run_callbacks cbs g = Some g' /\ gateway_ok g' /\ m_channelMap g' = m_channelMap g.
Proof.
  revert g. induction cbs as [|[clk cb] cbs IH]; intros g Hok Hcbs; simpl; [by exists g|].
  apply Forall_cons in Hcbs as [Hcb Hcbs].
  destruct (run_callback_ok clk cb g Hok Hcb) as (g' & -> & Hok' & Hc & Hm').
  destruct (IH g' Hok') as (g2 & H1 & H2 & H3); [by rewrite Hm'|]. exists g2. split_and!; [done|done|congruence].
Qed.

(** C18: The gateway under any sequence of callbacks (numeric prices, sorted
    images): no callback ever blocks on a book lock and all locks are
    released; at most eight books exist, every book in use is indexed under its
    own channel and the index leads from a registered channel to its book;
    every book is strictly sorted without duplicate or non-positive levels;
    and every tick, book ticker and depth snapshot handed to the queues belongs to a
    registered channel and is well formed: symbol buffer of 12 bytes, integers in the range
    of their members, level counts within the arrays and levels sorted. *)
Theorem gateway_invariant (cm : RithmicChannelMap) (maxDepth : nat) (cbs : list (Clock * callback)) :
  Forall (fun c => callback_ok maxDepth c.2) cbs ->
  exists g, run_callbacks cbs (gateway_new cm maxDepth) = Some g /\ gateway_ok g.
Proof.
  intros Hcbs. destruct (run_callbacks_ok cbs (gateway_new cm maxDepth)) as (g & H1 & H2 & _); [apply gateway_new_ok|done|]. by exists g.
Qed.

(** ** Multi-part quotes *)

(** The level a quote message carries, if any. *)
Definition quote_levels (q : QuoteInfo) : list PriceLevel :=
  if qi_price_flag q then [mkLevel (qi_price q) (if qi_size_flag q then d_of_Z (qi_size q) else dzero)] else [].

Definition tag (is_ask : bool) (ls : list PriceLevel) : list (PriceLevel * bool) := (fun l => (l, is_ask)) <$> ls.

Lemma tag_app a l1 l2 : tag a (l1 ++ l2) = tag a l1 ++ tag a l2.
Proof. apply fmap_app. Qed.

Lemma quote_level_buffer a q b :
  quote_level BufferLevel a q b = buffer_all (tag a (quote_levels q)) b.
Proof. unfold quote_level, quote_levels. by destruct (qi_price_flag q). Qed.

Lemma buffer_all_app l1 l2 b : buffer_all (l1 ++ l2) b = buffer_all l2 (buffer_all l1 b).
Proof. apply fold_left_app. Qed.

Lemma BufferLevel_batch p q a b : batch_active_ (BufferLevel p q a b) = batch_active_ b.
Proof. unfold BufferLevel. by destruct a; case_goal. Qed.

Lemma buffer_all_batch ls b : batch_active_ (buffer_all ls b) = batch_active_ b.
Proof.
  revert b. induction ls as [|l ls IH]; intros b; [done|]. etrans; [apply IH|]. apply BufferLevel_batch.
Qed.

Lemma side_levels_tag a a' ls : side_levels a' (tag a ls) = if Bool.eqb a' a then ls else [].
Proof.
  unfold side_levels, tag. induction ls as [|l ls IH]; csimpl; [by destruct (Bool.eqb a' a)|].
  destruct (Bool.eqb_spec a' a) as [->|Hne].
  - rewrite filter_cons_True by done. csimpl. by rewrite IH.
  - rewrite filter_cons_False by naive_solver. done.
Qed.

(** What a batch leaves of a book. *)
Lemma batch_effect (b : RithmicOrderBook) (is_ask : bool) (ls : list PriceLevel) :
  wf_book b ->
  let b0 := if batch_active_ b then CancelBatch b else b in
  let b' := CommitBatch (buffer_all (tag is_ask ls) (BeginBatch b0)) in
  batch_active_ b' = false /\
  side_active is_ask b' = fold_left (fun l x => spec_apply is_ask (lv_price x) (lv_quantity x) l) (take kMaxOrderbookLevels ls) (side_active is_ask b) /\
  side_active (negb is_ask) b' = side_active (negb is_ask) b.
Proof.
  intros Hw b0 b'.
  assert (Hb0 : forall a, side_active a b0 = side_active a b)
    by (intros a; unfold b0; by destruct (batch_active_ b), a).
  assert (Hw0 : wf_book b0) by (unfold b0; destruct (batch_active_ b), Hw; split; simpl; (done || lia)).
  pose proof (batch_commit_spec b0 (tag is_ask ls) is_ask Hw0) as (_ & H1 & H2 & _).
  pose proof (batch_commit_spec b0 (tag is_ask ls) (negb is_ask) Hw0) as (_ & H3 & _ & _).
  rewrite side_levels_tag, Hb0 in H1, H3. rewrite Bool.eqb_reflx in H1.
  replace (Bool.eqb (negb is_ask) is_ask) with false in H3 by (by destruct is_ask).
  split_and!; done.
Qed.

Lemma quote_levels_numbers q : not_nan (qi_price q) -> Forall (fun l => not_nan (lv_price l) /\ not_nan (lv_quantity l)) (quote_levels q).
Proof.
  intros Hp. unfold quote_levels. destruct (qi_price_flag q); [|constructor]. apply Forall_singleton. split; [done|].
  cbn. destruct (qi_size_flag q); [apply d_of_Z_not_nan|done].
Qed.

Lemma buffer_all_good a ls b :
  Forall (fun l => not_nan (lv_price l) /\ not_nan (lv_quantity l)) ls -> good_book b -> good_book (buffer_all (tag a ls) b).
Proof. intros H. revert b. induction H as [|l ls [H1 H2] _ IH]; intros b Hb; [done|]. apply IH. by apply BufferLevel_good. Qed.

(** The levels a batch carries are numbers. *)
Lemma batch_numbers qb (qs : list (Clock * QuoteInfo)) last :
  not_nan (qi_price qb) -> Forall (fun cq => not_nan (qi_price cq.2)) qs ->
  Forall (fun l => not_nan (lv_price l) /\ not_nan (lv_quantity l)) last ->
  Forall (fun l => not_nan (lv_price l) /\ not_nan (lv_quantity l)) (quote_levels qb ++ concat ((fun cq => quote_levels cq.2) <$> qs) ++ last).
Proof.
  intros Hb Hqs Hl. apply Forall_app_2; [by apply quote_levels_numbers|]. apply Forall_app_2; [|done].
  induction Hqs as [|cq qs Hq _ IH]; [constructor|]. rewrite fmap_cons. cbn [concat]. apply Forall_app_2; [by apply quote_levels_numbers|done].
Qed.

Lemma buffer_all_id ls b : book_id (buffer_all ls b) = book_id b.
Proof. revert b. induction ls as [|l ls IH]; intros b; [done|]. etrans; [apply IH|apply BufferLevel_id]. Qed.

(** *** The operations do not look at the lock *)

Lemma BufferLevel_lock v p q a b : BufferLevel p q a (set_lock v b) = set_lock v (BufferLevel p q a b).
Proof.
  unfold BufferLevel. destruct a; cbn [set_lock pending_ask_count_ pending_bid_count_]; by case_goal.
Qed.
Lemma buffer_all_lock v ls b : buffer_all ls (set_lock v b) = set_lock v (buffer_all ls b).
Proof. revert b. induction ls as [|l ls IH]; intros b; [done|]. etrans; [|apply IH]. cbn. by rewrite BufferLevel_lock. Qed.
Lemma apply_levels_lock v a ls b : apply_levels a ls (set_lock v b) = set_lock v (apply_levels a ls b).
Proof. revert b. induction ls as [|l ls IH]; intros b; [done|]. etrans; [|apply IH]. cbn. by destruct a. Qed.
Lemma CommitBatch_lock v b : CommitBatch (set_lock v b) = set_lock v (CommitBatch b).
Proof.
  unfold CommitBatch. cbv zeta. change (pending_bids_ (set_lock v b)) with (pending_bids_ b).
  change (pending_bid_count_ (set_lock v b)) with (pending_bid_count_ b). rewrite apply_levels_lock.
  set (b1 := apply_levels false _ b). change (pending_asks_ (set_lock v b1)) with (pending_asks_ b1).
  change (pending_ask_count_ (set_lock v b1)) with (pending_ask_count_ b1). by rewrite apply_levels_lock.
Qed.

(** *** Callbacks on a known book *)

Definition put_book (idx : nat) (b : RithmicOrderBook) (g : Gateway) : Gateway :=
  set_books (<[idx := b]> (m_books g)) (m_channelToBook g) (m_bookCount g) g.

(** The messages of one instrument. *)
Definition about (cid : Z) (exchange ticker : NChar) (g : Gateway) : Prop :=
  MapLookup (ToSv exchange) (ToSv ticker) (m_channelMap g) = cid.

Section one_book.
Context (g : Gateway) (cid : Z) (idx : nat).
Context (Hcid : cid <> kNotFound) (Hidx : m_channelToBook g !! cid = Some idx) (Hlen : (idx < length (m_books g))%nat).

Lemma with_book_at clk e t f b :
  about cid e t g -> lock_ b = false ->
  with_book clk e t f (put_book idx b g) =
    Some (let r := f (set_lock true b) in
          match r.2 with
          | Some ts => put_book idx (set_lock false r.1) (PushSnapshot clk r.1 ts g)
          | None => put_book idx (set_lock false r.1) g
          end).
Proof using Hcid Hidx Hlen.
  intros Ha Hl. unfold with_book, FindBook. cbv zeta. cbn [put_book set_books m_channelMap m_channelToBook]. unfold about in Ha. rewrite !Ha, (proj2 (Z.eqb_neq _ _) Hcid), Hidx.
  cbn [m_books put_book set_books]. rewrite list_lookup_total_insert_eq by done. unfold Lock. rewrite Hl. destruct (f (set_lock true b)) as [b2 [ts|]]; cbn [fst snd].
  - unfold PushSnapshot. destruct (ResolveRithmicExchangeTimestamp _ _ _ _); unfold put_book, set_books, push_events; cbn;
      by rewrite list_insert_insert_eq.
  - unfold put_book, set_books. cbn. by rewrite list_insert_insert_eq.
Qed.

Definition side_quote (is_ask : bool) (q : QuoteInfo) : callback := if is_ask then CbAskQuote q else CbBidQuote q.

Lemma run_side_quote clk a q b :
  about cid (qi_exchange q) (qi_ticker q) g -> lock_ b = false ->
  run_callback clk (side_quote a q) (put_book idx b g) =
    Some (let r := quote_update a q (set_lock true b) in
          match r.2 with
          | Some ts => put_book idx (set_lock false r.1) (PushSnapshot clk r.1 ts g)
          | None => put_book idx (set_lock false r.1) g
          end).
Proof using Hcid Hidx Hlen. intros Ha Hl. destruct a; cbn [side_quote run_callback]; unfold AskQuote, BidQuote; by apply with_book_at. Qed.

Lemma lock_of b ls : lock_ b = false -> lock_ (buffer_all ls b) = false.
Proof. intros H. pose proof (buffer_all_id ls b) as E. by injection E as _ _ ->. Qed.

Lemma lock_twice v w b : set_lock v (set_lock w b) = set_lock v b.
Proof. done. Qed.
Lemma lock_same b : lock_ b = false -> set_lock false b = b.
Proof. destruct b. cbn. by intros ->. Qed.

Lemma run_middles a qs b rest :
  lock_ b = false -> batch_active_ b = true ->
  Forall (fun cq => qi_update_type cq.2 = kUpdateTypeMiddle /\ about cid (qi_exchange cq.2) (qi_ticker cq.2) g) qs ->
  run_callbacks (((fun cq => (cq.1, side_quote a cq.2)) <$> qs) ++ rest) (put_book idx b g) =
  run_callbacks rest (put_book idx (buffer_all (tag a (concat ((fun cq => quote_levels cq.2) <$> qs))) b) g).
Proof using Hcid Hidx Hlen.
  intros Hl Hb Hqs. revert b Hl Hb. induction Hqs as [|[clk q] qs [Hq Ha] _ IH]; intros b Hl Hb; [done|].
  rewrite !fmap_cons. cbn [app run_callbacks fst snd concat]. rewrite run_side_quote by done. cbv zeta.
  cbn [snd] in Hq. unfold quote_update. rewrite Hq. cbn [Z.eqb kUpdateTypeMiddle kUpdateTypeSolo kUpdateTypeBegin Pos.eqb fst snd].
  change (batch_active_ (set_lock true b)) with (batch_active_ b). rewrite Hb, quote_level_buffer, buffer_all_lock, lock_twice, lock_same by (by apply lock_of).
  rewrite IH by (try apply lock_of; by rewrite ?buffer_all_batch). by rewrite tag_app, buffer_all_app.
Qed.
End one_book.

(** The message that closes a batch: an End quote of the side, or [EndQuote]. *)
Inductive Closing := CloseQuote (q : QuoteInfo) | CloseEnd (i : EndQuoteInfo).
Definition closing_callback (is_ask : bool) (c : Closing) : callback :=
  match c with CloseQuote q => side_quote is_ask q | CloseEnd i => CbEndQuote i end.
Definition closing_levels (c : Closing) : list PriceLevel := match c with CloseQuote q => quote_levels q | CloseEnd _ => [] end.
Definition closing_time (c : Closing) : Z :=
  match c with CloseQuote q => ToEpochMicros (qi_ssboe q) (qi_usecs q) | CloseEnd i => ToEpochMicros (eq_ssboe i) (eq_usecs i) end.
Definition closes (cid : Z) (c : Closing) (g : Gateway) : Prop :=
  match c with
  | CloseQuote q => qi_update_type q = kUpdateTypeEnd /\ about cid (qi_exchange q) (qi_ticker q) g /\ not_nan (qi_price q)
  | CloseEnd i => about cid (eq_exchange i) (eq_ticker i) g
  end.

Lemma run_closing g cid idx clk a c b :
  cid <> kNotFound -> m_channelToBook g !! cid = Some idx -> (idx < length (m_books g))%nat ->
  closes cid c g -> lock_ b = false -> batch_active_ b = true ->
  let b' := CommitBatch (buffer_all (tag a (closing_levels c)) b) in
  run_callback clk (closing_callback a c) (put_book idx b g) =
    Some (put_book idx (set_lock false b') (PushSnapshot clk (set_lock true b') (closing_time c) g)).
Proof.
  intros Hcid Hidx Hlen Hc Hl Hb b'. destruct c as [q|i]; cbn [closes closing_callback closing_levels closing_time] in *.
  - destruct Hc as (Hq & Ha & _). rewrite (run_side_quote g cid idx) by done. cbv zeta. unfold quote_update. rewrite Hq.
    cbn [Z.eqb kUpdateTypeMiddle kUpdateTypeSolo kUpdateTypeBegin kUpdateTypeEnd Pos.eqb fst snd].
    by rewrite quote_level_buffer, buffer_all_lock, CommitBatch_lock.
  - cbn [run_callback]. unfold EndQuote. rewrite (with_book_at g cid idx) by done. cbv zeta.
    change (batch_active_ (set_lock true b)) with (batch_active_ b). rewrite Hb. cbn [fst snd]. by rewrite CommitBatch_lock.
Qed.

(** What [PushSnapshot] pushes. *)
Definition pushed (clk : Clock) (ts : Z) (b : RithmicOrderBook) (ds : list DepthUpdateEvent) : Prop :=
  match ResolveRithmicExchangeTimestamp (u64 (wall_us clk)) ts (bid_count_ b) (ask_count_ b) with
  | None => ds = []
  | Some r => exists d, ds = [d] /\ dp_exchange_timestamp d = r /\ dp_local_diff d = local_ns clk /\ dp_channel_id d = ob_channel_id_ b /\
      depth_bids d = side_active false b /\ depth_asks d = side_active true b
  end.

Lemma PushSnapshot_pushes clk b v ts g :
  wf_book b -> exists ds, pushed clk ts b ds /\ PushSnapshot clk (set_lock v b) ts g = push_events [] ds [] g.
Proof.
  intros Hw. unfold PushSnapshot, pushed. change (bid_count_ (set_lock v b)) with (bid_count_ b). change (ask_count_ (set_lock v b)) with (ask_count_ b).
  destruct (ResolveRithmicExchangeTimestamp _ _ _ _) as [r|].
  - destruct (SnapshotTo_spec b depth0 r Hw depth0_wf) as (H1 & H2 & H3 & H4 & _).
    eexists. split; [|reflexivity]. eexists. split; [reflexivity|]. split_and!; [exact H4|reflexivity|exact H3|exact H1|exact H2].
  - exists []. split; [done|]. unfold push_events. destruct g. cbn. by rewrite !app_nil_r.
Qed.

Lemma closing_numbers cid c g : closes cid c g -> Forall (fun l => not_nan (lv_price l) /\ not_nan (lv_quantity l)) (closing_levels c).
Proof. destruct c as [q|i]; [|constructor]. intros (_ & _ & H). by apply quote_levels_numbers. Qed.

(** The first message of a batch. *)
Lemma run_begin g g1 idx clk a q :
  gateway_ok g -> FindBook (ToSv (qi_exchange q)) (ToSv (qi_ticker q)) (data_ptr (qi_ticker q)) g = (Some idx, g1) ->
  qi_update_type q = kUpdateTypeBegin ->
  let b := m_books g1 !!! idx in
  let b0 := if batch_active_ b then CancelBatch b else b in
  run_callback clk (side_quote a q) g = Some (put_book idx (buffer_all (tag a (quote_levels q)) (BeginBatch b0)) g1) /\ lock_ b = false.
Proof.
  intros Hok Hf Hq b b0. destruct (FindBook_ok _ _ _ _ _ _ Hok Hf) as (Hok1 & _ & _ & _ & _ & _ & Hr).
  destruct (gw_index _ Hok1 _ _ Hr) as (_ & _ & b1 & Hb1 & _). pose proof (list_lookup_total_correct _ _ _ Hb1) as Hb. fold b in Hb. subst b1.
  destruct (Forall_lookup_1 _ _ _ _ (gw_books _ Hok1) Hb1) as [_ Hlock]. split; [|done].
  assert (Hl0 : lock_ b0 = false) by (unfold b0; by destruct (batch_active_ b)).
  assert (H : with_book clk (qi_exchange q) (qi_ticker q) (quote_update a q) g =
    Some (put_book idx (buffer_all (tag a (quote_levels q)) (BeginBatch b0)) g1)).
  { unfold with_book. rewrite Hf. fold b. unfold Lock. rewrite Hlock. unfold quote_update. rewrite Hq.
    cbn [Z.eqb kUpdateTypeSolo kUpdateTypeBegin Pos.eqb]. change (batch_active_ (set_lock true b)) with (batch_active_ b).
    rewrite quote_level_buffer. replace (BeginBatch _) with (set_lock true (BeginBatch b0)) by (unfold b0; by destruct (batch_active_ b)).
    rewrite buffer_all_lock. unfold Unlock. rewrite lock_twice, lock_same; [done|]. apply lock_of. exact Hl0. }
  destruct a; exact H.
Qed.

(** C17: A Begin/Middle/.../End sequence of quotes of one side of an instrument is one atomic update, also when [EndQuote] closes
    it.  Nothing is pushed before the closing message; at that message exactly one snapshot of the new book is pushed, under
    its channel and with the time of that message, or with the wall clock when that time is zero (and none when it is zero and the
    book is empty).  The levels of the messages (at most 100) were applied in arrival order to the side's previous
    levels, the other side and all other books are untouched, a batch left unfinished earlier has no effect, and no tick or
    book ticker is pushed.  ([g1] is the gateway after [FindBook], which creates the book when the instrument is new.) *)
Theorem quote_batch_atomic (g g1 : Gateway) (idx : nat) (is_ask : bool) (clk_b : Clock) (qb : QuoteInfo)
    (qs : list (Clock * QuoteInfo)) (clk_e : Clock) (c : Closing) :
  let cid := MapLookup (ToSv (qi_exchange qb)) (ToSv (qi_ticker qb)) (m_channelMap g) in
  gateway_ok g -> FindBook (ToSv (qi_exchange qb)) (ToSv (qi_ticker qb)) (data_ptr (qi_ticker qb)) g = (Some idx, g1) ->
  qi_update_type qb = kUpdateTypeBegin -> not_nan (qi_price qb) ->
  Forall (fun cq => qi_update_type cq.2 = kUpdateTypeMiddle /\ about cid (qi_exchange cq.2) (qi_ticker cq.2) g /\ not_nan (qi_price cq.2)) qs ->
  closes cid c g ->
  let levels := quote_levels qb ++ concat ((fun cq => quote_levels cq.2) <$> qs) ++ closing_levels c in
  let b := m_books g1 !!! idx in
  exists g' b' ds,
    run_callbacks ((clk_b, side_quote is_ask qb) :: ((fun cq => (cq.1, side_quote is_ask cq.2)) <$> qs) ++ [(clk_e, closing_callback is_ask c)]) g = Some g' /\
    m_books g' = <[idx := b']> (m_books g1) /\ ob_channel_id_ b' = cid /\ lock_ b' = false /\ batch_active_ b' = false /\
    side_active is_ask b' = fold_left (fun l x => spec_apply is_ask (lv_price x) (lv_quantity x) l) (take kMaxOrderbookLevels levels) (side_active is_ask b) /\
    side_active (negb is_ask) b' = side_active (negb is_ask) b /\
    m_depths g' = m_depths g ++ ds /\ pushed clk_e (closing_time c) b' ds /\ m_ticks g' = m_ticks g /\ m_tickers g' = m_tickers g.
Proof.
  intros cid Hok Hf Hqb Hpb Hqs Hc levels b. destruct (FindBook_ok _ _ _ _ _ _ Hok Hf) as (Hok1 & Hm & Ht & Hd & Hbt & _ & Hr).
  fold cid in Hr. destruct (gw_index _ Hok1 _ _ Hr) as (_ & Hreg & b1 & Hb1 & Hcid1).
  pose proof (list_lookup_total_correct _ _ _ Hb1) as Hb. fold b in Hb. subst b1.
  destruct (Forall_lookup_1 _ _ _ _ (gw_books _ Hok1) Hb1) as [Hgood _].
  assert (Hcid : cid <> kNotFound). { intros Hx. unfold FindBook in Hf. fold cid in Hf. by rewrite Hx, Z.eqb_refl in Hf. }
  destruct (run_begin g g1 idx clk_b is_ask qb Hok Hf Hqb) as [Hbegin Hlock]. fold b in Hbegin, Hlock. cbv zeta in Hbegin.
  set (b0 := if batch_active_ b then CancelBatch b else b) in *.
  assert (Habout : forall e t, about cid e t g -> about cid e t g1) by (intros e t; unfold about; by rewrite Hm).
  assert (Hlt : (idx < length (m_books g1))%nat) by (by eapply lookup_lt_Some).
  assert (Hc1 : closes cid c g1) by (unfold closes, about in *; by rewrite Hm).
  assert (Hl0 : lock_ (BeginBatch b0) = false) by (unfold b0; by destruct (batch_active_ b)).
  cbn [run_callbacks]. rewrite Hbegin, (run_middles g1 cid idx Hcid Hr Hlt) by
    (first [by apply lock_of | by rewrite buffer_all_batch | (eapply Forall_impl; [exact Hqs|]; intros [? ?] (? & ? & _); auto)]).
  cbn [run_callbacks]. rewrite (run_closing g1 cid idx clk_e is_ask c) by (rewrite ?buffer_all_batch; try apply lock_of; by try apply lock_of).
  rewrite <- !buffer_all_app, <- !tag_app. fold levels.
  set (b' := CommitBatch (buffer_all (tag is_ask levels) (BeginBatch b0))).
  assert (Hg0 : good_book b0) by (unfold b0; destruct (batch_active_ b); auto using CancelBatch_good).
  assert (Hg' : good_book b').
  { apply CommitBatch_good, buffer_all_good; [|by apply BeginBatch_good]. apply batch_numbers; [done| |by eapply closing_numbers].
    eapply Forall_impl; [exact Hqs|]. by intros [? ?] (_ & _ & ?). }
  assert (Hid : book_id b' = book_id b).
  { unfold b'. rewrite CommitBatch_id, buffer_all_id. unfold b0. by destruct (batch_active_ b). }
  assert (Hi : ob_channel_id_ b' = ob_channel_id_ b /\ lock_ b' = lock_ b) by (by injection Hid).
  destruct Hi as [Hi1 Hi3]. destruct (batch_effect b is_ask levels (gb_wf _ Hgood)) as (E1 & E2 & E3). fold b0 b' in E1, E2, E3.
  destruct (PushSnapshot_pushes clk_e b' true (closing_time c) g1 (gb_wf _ Hg')) as (ds & Hds & ->).
  clearbody b'. rewrite (lock_same b') by congruence. eexists _, b', ds. split; [reflexivity|]. cbn. rewrite !app_nil_r, Hd, Ht, Hbt.
  split_and!; try done; congruence.
Qed.

(** ** Symbols *)

Lemma c_str_app_no_nul l rest : no_nul l -> c_str (l ++ rest) = l ++ c_str rest.
Proof.
  unfold no_nul. induction l as [|c l IH]; intros Hn; [done|]. apply Forall_cons in Hn as [Hc Hl]. simpl.
  destruct (Ascii.eqb_spec c NUL); [done|]. by rewrite IH.
Qed.

(** The symbol a new book carries is read from the memory behind the
    ticker, not from the trimmed view: when the API's buffer continues with a
    padding byte after the ticker, the depth snapshots of the channel carry a
    different symbol than its ticks, whose symbol is the trimmed ticker. *)
Theorem book_symbol_untrimmed (g : Gateway) (ex ticker : list ascii) (pad : ascii) (rest : list ascii) :
  gateway_ok g -> MapLookup ex ticker (m_channelMap g) <> kNotFound ->
  m_channelToBook g !! MapLookup ex ticker (m_channelMap g) = None -> (m_bookCount g < kMaxBooks)%nat ->
  no_nul ticker -> (length ticker < 11)%nat -> pad <> NUL ->
  exists g', FindBook ex ticker (ticker ++ pad :: rest) g = (Some (m_bookCount g), g') /\
    c_str (ob_symbol_ (m_books g' !!! m_bookCount g)) <> ticker /\
    c_str (GatewayCopySymbol symbol0 ticker) = ticker.
Proof.
  intros Hok Hreg Hnew Hroom Hn Hlen Hpad. unfold FindBook. cbv zeta.
  destruct (Z.eqb_spec (MapLookup ex ticker (m_channelMap g)) kNotFound); [done|]. rewrite Hnew.
  destruct (Nat.leb_spec kMaxBooks (m_bookCount g)); [lia|]. eexists. split; [done|]. cbn [m_books set_books].
  pose proof (gw_len _ Hok) as Hl. destruct (lookup_lt_is_Some_2 (m_books g) (m_bookCount g) ltac:(lia)) as [b Hb].
  rewrite list_lookup_total_insert_eq by lia. rewrite (list_lookup_total_correct _ _ _ Hb).
  pose proof (Forall_lookup_1 _ _ _ _ (gw_books _ Hok) Hb) as [Hgood _].
  cbn [Init ob_symbol_].
  destruct (copy_symbol_11_c_str (ticker ++ pad :: rest) (ob_symbol_ b) (wb_sym _ (gb_wf _ Hgood))) as [-> _].
  split.
  - rewrite c_str_app_no_nul by done. simpl. destruct (Ascii.eqb_spec pad NUL); [done|].
    intros He. apply (f_equal length) in He. rewrite length_take, length_app in He. cbn [length] in He. lia.
  - rewrite GatewayCopySymbol_c_str by done. apply take_ge. lia.
Qed.

(** *** Witnesses *)

(** A channel map with one future, and messages for it. *)
Definition es_map : RithmicChannelMap :=
  MapRegister (bytes "CME") (bytes "ESZ5") (ComputeChannelId (bytes "CME") (bytes "futures") (bytes "ESZ5")) true channel_map0.
Definition nchar (s : string) : NChar := mkNChar (Some (bytes s)) (String.length s).
Definition demo_clock : Clock := mkClock 1000 2000.
Definition demo_quote (upd : Z) (price : double) (size : Z) : QuoteInfo :=
  mkQuote (nchar "CME") (nchar "ESZ5") 5 0 true price true size upd.

Lemma gateway_invariant_witness :
  let cbs := [(demo_clock, CbAskQuote (demo_quote 1 d2 3)); (demo_clock, CbBidQuote (demo_quote 2 d1 4));
              (demo_clock, CbEndQuote (mkEndQuote (nchar "CME") (nchar "ESZ5") 6 0))] in
  Forall (fun c => callback_ok 100 c.2) cbs /\
  exists g, run_callbacks cbs (gateway_new es_map 100) = Some g /\ gateway_ok g.
Proof.
  intros cbs. assert (H : Forall (fun c => callback_ok 100 c.2) cbs) by (repeat constructor; discriminate).
  split; [exact H|]. exact (gateway_invariant es_map 100 cbs H).
Defined.

Definition batch_demo (c : Closing) : Prop :=
  exists g' b' ds,
    run_callbacks [(demo_clock, CbAskQuote (demo_quote 2 d2 3)); (demo_clock, CbAskQuote (demo_quote 3 d1 4)); (demo_clock, closing_callback true c)]
      (gateway_new es_map 100) = Some g' /\
    m_books g' = <[0%nat := b']> (m_books (FindBook (bytes "CME") (bytes "ESZ5") (bytes "ESZ5") (gateway_new es_map 100)).2) /\
    side_active true b' = fold_left (fun l x => spec_apply true (lv_price x) (lv_quantity x) l)
      ([mkLevel d2 (d_of_Z 3); mkLevel d1 (d_of_Z 4)] ++ closing_levels c) [] /\
    m_depths g' = ds /\ pushed demo_clock (closing_time c) b' ds.

Lemma quote_batch_atomic_witness :
  batch_demo (CloseQuote (demo_quote 4 d2 0)) /\ batch_demo (CloseEnd (mkEndQuote (nchar "CME") (nchar "ESZ5") 6 0)).
Proof.
  split; unfold batch_demo; match goal with |- context [closing_callback true ?c] =>
    destruct (quote_batch_atomic (gateway_new es_map 100) (FindBook (bytes "CME") (bytes "ESZ5") (bytes "ESZ5") (gateway_new es_map 100)).2 0
      true demo_clock (demo_quote 2 d2 3) [(demo_clock, demo_quote 3 d1 4)] demo_clock c)
      as (g' & b' & ds & H1 & H2 & _ & _ & _ & H3 & _ & H4 & H5 & _);
      [apply gateway_new_ok|reflexivity|reflexivity|discriminate|repeat constructor; discriminate|repeat constructor; discriminate|];
    exists g', b', ds; split; [exact H1|]; split; [exact H2|]; split; [rewrite H3; reflexivity|]; split; [exact H4|exact H5] end.
Defined.

Lemma book_symbol_untrimmed_witness :
  ToSv (mkNChar (Some (bytes "ESZ5    ")) 8) = bytes "ESZ5" /\
  exists g', FindBook (bytes "CME") (bytes "ESZ5") (bytes "ESZ5" ++ bytes "    ") (gateway_new es_map 100) = (Some 0%nat, g') /\
    c_str (ob_symbol_ (m_books g' !!! 0%nat)) <> bytes "ESZ5" /\
    c_str (GatewayCopySymbol symbol0 (bytes "ESZ5")) = bytes "ESZ5".
Proof.
  split; [reflexivity|].
  apply (book_symbol_untrimmed (gateway_new es_map 100) (bytes "CME") (bytes "ESZ5") " " (bytes "   "));
    [apply gateway_new_ok|vm_compute; discriminate|reflexivity|vm_compute; lia
    |repeat constructor; discriminate|vm_compute; lia|discriminate].
Defined.
