(* ===== verification/Engine.v ===== *)
(** * The gateway process: API session and main program

    [RithmicEngine] (src/rithmic_gateway/rithmic_engine.cpp) logs in to the
    Rithmic API and subscribes; the gateway's [main] (src/rithmic_gateway/
    main.cpp) builds the channel map, runs the engine and keeps the heartbeat.
    The API's answers are the members of [Api]; the calls made are recorded in
    a trace; callbacks that arrive while the program sleeps act on the gateway
    state through [env]. *)
From S2P Require Import Prelude Doubles Events Exchange OrderBook Config Gateway.

(** ** The API *)

Inductive ApiCall :=
| CallLoginRepository (env_key user password connect_pt : string)
| CallListAgreements
| CallLogoutRepository
| CallLogin (md_pt ts_pt ih_pt pnl_pt : string)
| CallSubscribe (exchange ticker : list ascii)
| CallUnsubscribe (exchange ticker : list ascii)
| CallLogout.

(** What each call returns; [false] for a constructor means that it throws. *)
Record Api := mkApi {
  api_adm_callbacks : bool;
  api_engine : bool;
  api_callbacks : bool;
  api_loginRepository : bool;
  api_listAgreements : bool;
  api_logoutRepository : bool;
  api_login : bool;
  api_subscribe : list ascii -> list ascii -> bool
}.

(** [while(!done) sleep(1)]; [env i] applies the callbacks of the [i]-th second. *)
Fixpoint wait_until (done_ : Gateway -> bool) (fuel : nat) (env : nat -> Gateway -> Gateway) (g : Gateway)
    : option Gateway :=
  if done_ g then Some g
  else match fuel with
       | O => None
       | S k => wait_until done_ k (fun i => env (S i)) (env O g)
       end.

Definition settled (s : LoginStatus) : bool := bool_decide (s = LoginComplete) || bool_decide (s = LoginFailed).

(** Source: src/rithmic_gateway/rithmic_engine.cpp:35-68, RithmicEngine::BuildFakeEnvp. *)
Definition BuildFakeEnvp (c : RithmicConfig) : list string :=
  let nonempty (s : string) (v : string) := if (v =? "")%string then [] else [(s ++ v)%string] in
  [("MML_SSL_CLNT_AUTH_FILE=" ++ ri_ssl_cert_file c)%string]
  ++ nonempty "MML_DMN_SRVR_ADDR="%string (ri_domain_servers c)
  ++ [("MML_DOMAIN_NAME=" ++ ri_domain_name c)%string]
  ++ nonempty "MML_LIC_SRVR_ADDR="%string (ri_license_servers c)
  ++ nonempty "MML_LOC_BROK_ADDR="%string (ri_local_broker c)
  ++ nonempty "MML_LOGGER_ADDR="%string (ri_logger_servers c)
  ++ ["MML_LOG_TYPE=log_net"%string; ("USER=" ++ ri_user c)%string].

(** Source: src/rithmic_gateway/rithmic_engine.cpp:74-111, RithmicEngine::CreateEngineAndCallbacks. *)
Definition CreateEngineAndCallbacks (api : Api) : bool :=
  if negb (api_adm_callbacks api) then false
  else if negb (api_engine api) then false
  else api_callbacks api.

(** Source: src/rithmic_gateway/rithmic_engine.cpp:117-167, RithmicEngine::LoginRepository.
    [None]: still waiting for the API after [fuel] seconds. *)
Definition LoginRepository (api : Api) (c : RithmicConfig) (fuel : nat) (env : nat -> Gateway -> Gateway)
    (g : Gateway) : option (bool * Gateway * list ApiCall) :=
  let tr := [CallLoginRepository "system" (ri_user c) (ri_password c) (ri_repository_connect_pt c)] in
  if negb (api_loginRepository api) then Some (false, g, tr)
  else
    match wait_until (fun g => settled (g_iRepLoginStatus g)) fuel env g with
    | None => None
    | Some g =>
        if bool_decide (g_iRepLoginStatus g = LoginFailed) then Some (false, g, tr)
        else
          let tr := tr ++ [CallListAgreements] in
          if negb (api_listAgreements api) then Some (false, g, tr ++ [CallLogoutRepository])
          else
            match wait_until g_bRcvdUnacceptedAgreements fuel env g with
            | None => None
            | Some g =>
                let tr := tr ++ [CallLogoutRepository] in
                if 0 <? g_iUnacceptedMandatoryAgreements g then Some (false, g, tr)
                else Some (api_logoutRepository api, g, tr)
            end
    end.

(** Source: src/rithmic_gateway/rithmic_engine.cpp:173-226, RithmicEngine::LoginMarketData. *)
Definition LoginMarketData (api : Api) (c : RithmicConfig) (fuel : nat) (env : nat -> Gateway -> Gateway)
    (g : Gateway) : option (bool * Gateway * list ApiCall) :=
  let md := if ri_use_aggregated_md c && negb (ri_md_connect_pt_agg c =? "")%string
            then ri_md_connect_pt_agg c else ri_md_connect_pt c in
  let tr := [CallLogin md (ri_ts_connect_pt c) (ri_ih_connect_pt c) (ri_pnl_connect_pt c)] in
  if negb (api_login api) then Some (false, g, tr)
  else
    match wait_until (fun g => settled (g_iMdLoginStatus g)) fuel env g with
    | None => None
    | Some g => Some (negb (bool_decide (g_iMdLoginStatus g = LoginFailed)), g, tr)
    end.

(** Source: src/rithmic_gateway/rithmic_engine.cpp:232-253, RithmicEngine::SubscribeAll.
    A failed subscription is logged and skipped. *)
Definition SubscribeAll (subs : list SubEntry) : list ApiCall :=
  omap (fun s => if sub_enabled s then Some (CallSubscribe (sub_exchange s) (sub_ticker s)) else None) subs.

(** Source: src/rithmic_gateway/rithmic_engine.cpp:259-265, RithmicEngine::Start. *)
Definition EngineStart (api : Api) (c : RithmicConfig) (subs : list SubEntry) (fuel : nat)
    (env : nat -> Gateway -> Gateway) (g : Gateway) : option (bool * Gateway * list ApiCall) :=
  if negb (CreateEngineAndCallbacks api) then Some (false, g, [])
  else
    match LoginRepository api c fuel env g with
    | None => None
    | Some (false, g, tr) => Some (false, g, tr)
    | Some (true, g, tr) =>
        match LoginMarketData api c fuel env g with
        | None => None
        | Some (false, g, tr') => Some (false, g, tr ++ tr')
        | Some (true, g, tr') => Some (true, g, tr ++ tr' ++ SubscribeAll subs)
        end
    end.

(** Source: src/rithmic_gateway/rithmic_engine.cpp:267-282, RithmicEngine::Stop.
    [created]: [pEngine_] is not null. *)
Definition EngineStop (created : bool) (subs : list SubEntry) : list ApiCall :=
  if created
  then ((fun s => CallUnsubscribe (sub_exchange s) (sub_ticker s)) <$> subs) ++ [CallLogout]
  else [].

(** ** The gateway's main program *)

Definition enabled_futures_of (e : ExchangeConfig) (ch : ChannelConfig) : list SubEntry :=
  if (cc_type ch =? "futures")%string then
    omap (fun s => if sy_enabled s
                   then Some (mkSub (sy_enabled s) (bytes (ec_name e)) (bytes (sy_name s))
                                (ComputeChannelId (bytes (ec_name e)) (bytes "futures") (bytes (sy_name s))))
                   else None) (cc_symbols ch)
  else [].

(** Source: src/rithmic_gateway/main.cpp:62-85, main (channel map). *)
Definition build_channel_map (c : RootConfig) : RithmicChannelMap * list SubEntry :=
  let entries := concat ((fun e => if ec_enabled e then concat (enabled_futures_of e <$> ec_channels e) else [])
                           <$> rc_exchanges c) in
  (fold_left (fun m s => MapRegister (sub_exchange s) (sub_ticker s) (sub_channel_id s) (sub_enabled s) m)
     entries channel_map0, entries).

(** Source: src/exchange/rithmic/rithmic_shm.h:29-39, ShmHeader. *)
Record ShmHeader := mkHeader {
  hd_magic : Z; hd_version : Z; heartbeat_ns : Z; child_ready : Z; parent_ready : Z
}.

(** Source: src/exchange/rithmic/rithmic_shm.h:30-30, ShmHeader::kMagic. *)
Definition kMagic : Z := 5932170145862012240.

Definition header0 : ShmHeader := mkHeader kMagic 1 0 0 0.

Definition set_heartbeat (ns : Z) (h : ShmHeader) : ShmHeader :=
  mkHeader (hd_magic h) (hd_version h) (u64 ns) (child_ready h) (parent_ready h).
Definition set_child_ready (v : Z) (h : ShmHeader) : ShmHeader :=
  mkHeader (hd_magic h) (hd_version h) (heartbeat_ns h) v (parent_ready h).

(** Source: src/rithmic_gateway/main.cpp:133-138, main (heartbeat loop).
    [beats]: the clock at each round before the exit flag is seen. *)
Definition heartbeat_loop (beats : list Z) (h : ShmHeader) : ShmHeader :=
  fold_left (fun h ns => set_heartbeat ns h) beats h.

(** Source: src/rithmic_gateway/main.cpp:33-147, main.
    The configuration (or [None] when loading throws), the existing shared
    memory header, the API and the clock readings until the exit signal; the
    result is the exit code, the header and the API calls. [None]: a login
    never completes. *)
Definition gateway_main (cfg : option RootConfig) (api : Api) (fuel : nat) (env : nat -> Gateway -> Gateway)
    (maxDepth : nat) (beats : list Z) (h : ShmHeader) : option (Z * ShmHeader * list ApiCall) :=
  match cfg with
  | None => Some (1, h, [])
  | Some c =>
      let '(cm, subs) := build_channel_map c in
      match subs with
      | [] => Some (1, h, [])
      | _ =>
          match EngineStart api (rc_rithmic c) subs fuel env (gateway_new cm maxDepth) with
          | None => None
          | Some (false, _, tr) => Some (1, h, tr)
          | Some (true, _, tr) =>
              let h := set_child_ready 1 h in
              let h := heartbeat_loop beats h in
              let h := set_child_ready 0 h in
              Some (0, h, tr ++ EngineStop true subs)
          end
      end
  end.

(** ** Properties *)

(** The gateway after [n] seconds of waiting. *)
Definition after_seconds (env : nat -> Gateway -> Gateway) (n : nat) (g : Gateway) : Gateway :=
  fold_left (fun g i => env i g) (seq 0 n) g.

Lemma after_seconds_S env n g : after_seconds env (S n) g = after_seconds (fun i => env (S i)) n (env 0%nat g).
Proof.
  unfold after_seconds. cbn [seq fold_left]. rewrite <- fmap_S_seq. generalize (env 0%nat g). by induction (seq 0 n); csimpl.
Qed.



(** Waiting ends as soon as the environment brings the condition about. *)
Lemma wait_until_reaches p fuel env g n :
  (n <= fuel)%nat -> p (after_seconds env n g) = true -> exists g', wait_until p fuel env g = Some g'.
Proof.
  revert env g n. induction fuel as [|k IH]; intros env g n Hn Hp; simpl.
  - assert (n = 0%nat) as -> by lia. cbn in Hp. rewrite Hp. by eexists.
  - destruct (p g) eqn:E; [by eexists|]. destruct n as [|n]; [cbn in Hp; congruence|].
    apply (IH _ _ n); [lia|]. by rewrite <- after_seconds_S.
Qed.






Lemma registered_fold entries m id :
  id ∈ registered_ids_ (fold_left (fun m s => MapRegister (sub_exchange s) (sub_ticker s) (sub_channel_id s) (sub_enabled s) m) entries m)
  <-> id ∈ registered_ids_ m \/ exists s, s ∈ entries /\ sub_channel_id s = id.
Proof.
  revert m. induction entries as [|s entries IH]; intros m; simpl.
  - split; [by left|]. intros [|(s & Hs & _)]; [done|]. by apply elem_of_nil in Hs.
  - rewrite IH. unfold MapRegister. simpl. rewrite elem_of_union, elem_of_singleton. split.
    + intros [[->|]|(s' & ? & ?)]; [right; exists s|by left|right; exists s']; split; try done; apply elem_of_cons; auto.
    + intros [|(s' & Hs & <-)]; [by left; right|]. apply elem_of_cons in Hs as [->|Hs]; [by left; left|right; by exists s'].
Qed.

Lemma build_channel_map_ids c s :
  s ∈ (build_channel_map c).2 ->
  sub_enabled s = true /\ sub_channel_id s = ComputeChannelId (sub_exchange s) (bytes "futures") (sub_ticker s).
Proof.
  unfold build_channel_map. cbn [snd]. intros Hs. apply elem_of_concat_fmap in Hs as (e & _ & Hs). destruct (ec_enabled e); [|by apply elem_of_nil in Hs].
  apply elem_of_concat_fmap in Hs as (ch & _ & Hs).
  unfold enabled_futures_of in Hs. destruct (cc_type ch =? "futures")%string; [|by apply elem_of_nil in Hs].
  apply list_elem_of_omap in Hs as (sy & _ & Hs). destruct (sy_enabled sy); [|done]. by injection Hs as <-.
Qed.

(** The gateway's channel map recognises exactly what it subscribes to: for
    every configured, enabled futures symbol, the map's [Lookup] returns the
    identifier of its subscription, and any identifier the map accepts is the
    identifier of a subscription. *)
Theorem gateway_map_matches_subscriptions (c : RootConfig) :
  let '(m, subs) := build_channel_map c in
  (forall s, s ∈ subs -> MapLookup (sub_exchange s) (sub_ticker s) m = sub_channel_id s) /\
  (forall e t, MapLookup e t m <> kNotFound -> exists s, s ∈ subs /\ sub_channel_id s = MapLookup e t m).
Proof.
  pose proof (build_channel_map_ids c) as Hids.
  destruct (build_channel_map c) as [m subs] eqn:E. cbn [snd] in Hids.
  assert (Hreg : forall id, id ∈ registered_ids_ m <-> exists s, s ∈ subs /\ sub_channel_id s = id).
  { intros id. unfold build_channel_map in E. injection E as <- <-. rewrite registered_fold. set_solver. }
  split.
  - intros s Hs. destruct (Hids s Hs) as [_ Hid]. unfold MapLookup. cbv zeta. rewrite <- Hid.
    rewrite bool_decide_true; [done|]. apply Hreg. by exists s.
  - intros e t Hne. apply Hreg. by apply MapLookup_registered.
Qed.

(** *** Witnesses *)



