(* ===== verification/ProcessManager.v ===== *)
(** * The collector's side of the Rithmic pipeline

    [RithmicProcessManager] (src/exchange/rithmic/rithmic_process_manager.cpp)
    registers the futures channels, creates the shared memory, spawns the
    gateway process, watches its heartbeat and restarts it.  The operating
    system's answers (waitpid, posix_spawn, clocks) are arguments. *)
From S2P Require Import Prelude Doubles Events Exchange OrderBook Config Gateway Engine.

(** Source: src/exchange/rithmic/rithmic_process_manager.h:32-40, RithmicProcessManager::Config. *)
Record PmConfig := mkPmConfig {
  pc_shm_name : string;
  pc_config_path : string;
  pc_engine_core : Z;
  pc_forwarder_core : Z;
  pc_heartbeat_timeout_sec : Z;
  pc_max_restarts_per_min : Z;
  pc_cpu_affinity : bool
}.

Definition pm_config0 : PmConfig := mkPmConfig "/sqc_rithmic" "config/config.yaml" 8 9 10 10 true.

(** Source: src/exchange/exchange_factory.cpp:9-21, CreateRithmicManager (configuration). *)
Definition manager_config (config_path : string) (c : RootConfig) : PmConfig :=
  mkPmConfig (pc_shm_name pm_config0) config_path (ri_engine_core (rc_rithmic c)) (ri_forwarder_core (rc_rithmic c))
    (pc_heartbeat_timeout_sec pm_config0) (pc_max_restarts_per_min pm_config0) (gl_cpu_affinity (rc_global c)).

(** ** Channel registration *)

(** What a registration hands to the storage router. *)
Record StorageRegistration := mkStorageReg { sr_id : Z; sr_info : ChannelInfo; sr_persist : bool }.

Record Registration := mkRegistration {
  rg_registry : ChannelRegistry;
  rg_map : RithmicChannelMap;
  rg_storage : list StorageRegistration
}.

Definition futures_info (e : ExchangeConfig) (s : SymbolConfig) : ChannelInfo :=
  mkChannel 0 (ec_name e) Futures (sy_name s) (sy_depth_level s) "".

(** The body of the innermost loop; [None]: [Register] threw. *)
Definition register_symbol (e : ExchangeConfig) (s : SymbolConfig) (r : Registration) : option Registration :=
  if sy_enabled s then
    let info := futures_info e s in
    match Register info (rg_registry r) with
    | None => None
    | Some (id, reg) =>
        Some (mkRegistration reg (MapRegister (bytes (ec_name e)) (bytes (sy_name s)) id (sy_enabled s) (rg_map r))
                (rg_storage r ++ [mkStorageReg id info (sy_persist_to_disk s)]))
    end
  else Some r.

(** The symbols the loops visit, in order. *)
Definition futures_symbols (c : RootConfig) : list (ExchangeConfig * SymbolConfig) :=
  concat ((fun e =>
    if ec_enabled e && existsb (fun ch => (cc_type ch =? "futures")%string) (ec_channels e) then
      concat ((fun ch => if (cc_type ch =? "futures")%string then (fun s => (e, s)) <$> cc_symbols ch else [])
                <$> ec_channels e)
    else []) <$> rc_exchanges c).

(** The loop stops at the first exception, which is caught and logged. *)
Fixpoint register_loop (l : list (ExchangeConfig * SymbolConfig)) (r : Registration) : Registration * bool :=
  match l with
  | [] => (r, true)
  | (e, s) :: rest => match register_symbol e s r with
                      | Some r' => register_loop rest r'
                      | None => (r, false)
                      end
  end.

(** Source: src/exchange/rithmic/rithmic_process_manager.cpp:66-102, RithmicProcessManager::RegisterChannels.
    The flag reports that no exception was caught. *)
Definition RegisterChannels (c : RootConfig) (reg : ChannelRegistry) : Registration * bool :=
  register_loop (futures_symbols c) (mkRegistration reg channel_map0 []).

(** ** The child process *)

(** Source: src/exchange/rithmic/rithmic_process_manager.h:60-82, RithmicProcessManager (data members).
    [child_pid_] is [None] when it is -1. *)
Record Manager := mkManager {
  pm_cfg : PmConfig;
  pm_header : ShmHeader;
  child_pid_ : option Z;
  last_restart_ : Z;       (* steady clock, nanoseconds *)
  restart_count_ : Z;      (* uint32_t *)
  monitor_running_ : bool
}.

Definition set_child (pid : option Z) (m : Manager) : Manager :=
  mkManager (pm_cfg m) (pm_header m) pid (last_restart_ m) (restart_count_ m) (monitor_running_ m).

(** [waitpid(pid, &status, WNOHANG)]: the pid, 0, or an error. *)
Inductive WaitResult := WaitReaped | WaitRunning | WaitError.

(** Source: src/exchange/rithmic/rithmic_process_manager.cpp:108-154, RithmicProcessManager::SpawnChild.
    [spawned]: what [posix_spawn] stores in [child_pid_], or [None] when it fails. *)
Definition SpawnChild (spawned : option Z) (m : Manager) : bool * Manager :=
  match spawned with
  | Some pid => if 0 <? pid then (true, set_child (Some pid) m) else (false, set_child None m)
  | None => (false, set_child None m)
  end.

(** What one health check observes. *)
Record HealthInput := mkHealth {
  hi_wait : WaitResult;        (* for a live child_pid_ *)
  hi_now_ns : Z;               (* clock before the heartbeat is loaded *)
  hi_restart_now : Z;          (* clock in the restart branch *)
  hi_spawned : option Z
}.

Definition ns_per_sec : Z := 1000000000.

(** Source: src/exchange/rithmic/rithmic_process_manager.cpp:317-345, RithmicProcessManager::CheckHealth (restart). *)
Definition restart_child (i : HealthInput) (m : Manager) : bool * Manager :=
  let elapsed := Z.quot (hi_restart_now i - last_restart_ m) ns_per_sec in
  let count := if elapsed <? 60 then u32 (restart_count_ m + 1) else 0 in
  if (elapsed <? 60) && (pc_max_restarts_per_min (pm_cfg m) <? count)
  then (false, mkManager (pm_cfg m) (pm_header m) (child_pid_ m) (last_restart_ m) count false)
  else
    SpawnChild (hi_spawned i)
      (mkManager (pm_cfg m) (pm_header m) None (hi_restart_now i) count (monitor_running_ m)).

(** Source: src/exchange/rithmic/rithmic_process_manager.cpp:267-346, RithmicProcessManager::CheckHealth. *)
Definition CheckHealth (i : HealthInput) (m : Manager) : bool * Manager :=
  let '(alive, m) :=
    match child_pid_ m with
    | None => (false, m)
    | Some _ => match hi_wait i with
                | WaitReaped => (false, set_child None m)
                | WaitRunning => (true, m)
                | WaitError => (false, set_child None m)
                end
    end in
  if alive then
    let last_hb := heartbeat_ns (pm_header m) in
    if 0 <? last_hb then
      let elapsed_sec := u64 (hi_now_ns i - last_hb) / ns_per_sec in
      if pc_heartbeat_timeout_sec (pm_cfg m) <? elapsed_sec
      then restart_child i (set_child None m)   (* SIGKILL, reaped *)
      else (true, m)
    else (true, m)
  else restart_child i m.

(** Source: src/exchange/rithmic/rithmic_process_manager.cpp:215-220, RithmicProcessManager::StartThreads (monitor loop). *)
Fixpoint monitor_loop (checks : list HealthInput) (m : Manager) : Manager :=
  match checks with
  | [] => m
  | i :: rest => if monitor_running_ m then monitor_loop rest (CheckHealth i m).2 else m
  end.

Inductive Signal := SIGTERM | SIGKILL.

(** [for(i = 0; i < 50; ++i) { if(waitpid(..., WNOHANG) == child_pid_) break; sleep }]:
    the number of pauses of 100 ms. *)
Fixpoint wait_exit (fuel : nat) (waits : list WaitResult) : nat :=
  match fuel, waits with
  | S k, WaitReaped :: _ => 0
  | S k, _ :: rest => S (wait_exit k rest)
  | _, _ => 0
  end.

(** Source: src/exchange/rithmic/rithmic_process_manager.cpp:227-261, RithmicProcessManager::Shutdown.
    [waits] are the polls, [probe] is whether [kill(pid, 0)] still finds a
    process; the result lists the signals sent and counts the pauses. *)
Definition Shutdown (waits : list WaitResult) (probe : bool) (m : Manager) : Manager * list Signal * nat :=
  let m := mkManager (pm_cfg m) (pm_header m) (child_pid_ m) (last_restart_ m) (restart_count_ m) false in
  match child_pid_ m with
  | None => (m, [], 0%nat)
  | Some _ =>
      let pauses := wait_exit 50 waits in
      (set_child None m, SIGTERM :: (if probe then [SIGKILL] else []), pauses)
  end.

(** Source: src/exchange/rithmic/rithmic_process_manager.cpp:160-201, RithmicProcessManager::Setup.
    [shm_ok]: the shared memory could be created (with a fresh header). *)
Definition Setup (c : RootConfig) (cfg : PmConfig) (reg : ChannelRegistry) (shm_ok : bool) (spawned : option Z)
    (now : Z) : Registration * option Manager :=
  let '(r, _) := RegisterChannels c reg in
  match sub_list_ (rg_map r) with
  | [] => (r, None)
  | _ =>
      if negb shm_ok then (r, None)
      else
        match SpawnChild spawned (mkManager cfg header0 None now 0 false) with
        | (false, _) => (r, None)
        | (true, m) => (r, Some (mkManager (pm_cfg m) (pm_header m) (child_pid_ m) (last_restart_ m) (restart_count_ m) true))
        end
  end.

(** Source: src/exchange/exchange_factory.cpp:9-21, CreateRithmicManager. *)
Definition CreateRithmicManager (config_path : string) (c : RootConfig) (reg : ChannelRegistry) (shm_ok : bool)
    (spawned : option Z) (now : Z) : Registration * option Manager :=
  Setup c (manager_config config_path c) reg shm_ok spawned now.

(** ** Registration agrees with the gateway *)

Definition sub_of (x : ExchangeConfig * SymbolConfig) : list SubEntry :=
  if sy_enabled x.2
  then [mkSub true (bytes (ec_name x.1)) (bytes (sy_name x.2))
          (ComputeChannelId (bytes (ec_name x.1)) (bytes "futures") (bytes (sy_name x.2)))]
  else [].

Lemma concat_fmap_nil {A B} (f : A -> list B) l : (forall x, x ∈ l -> f x = []) -> concat (f <$> l) = [].
Proof.
  intros H. induction l as [|a l IH]; csimpl; [done|].
  rewrite H by (apply elem_of_cons; by left). simpl. apply IH. intros x Hx. apply H, elem_of_cons. by right.
Qed.

Lemma concat_fmap_app {A B} (f : A -> list B) l1 l2 : concat (f <$> l1 ++ l2) = concat (f <$> l1) ++ concat (f <$> l2).
Proof. by rewrite fmap_app, concat_app. Qed.

Lemma channel_subs e ch :
  concat (sub_of <$> (if (cc_type ch =? "futures")%string then (fun s => (e, s)) <$> cc_symbols ch else []))
  = enabled_futures_of e ch.
Proof.
  unfold enabled_futures_of. destruct (cc_type ch =? "futures")%string; [|done].
  induction (cc_symbols ch) as [|s l IH]; csimpl; [done|]. unfold sub_of at 1. cbn [fst snd].
  destruct (sy_enabled s) eqn:E; csimpl; by rewrite IH.
Qed.

Lemma exchange_subs e l :
  concat (sub_of <$> concat ((fun ch => if (cc_type ch =? "futures")%string then (fun s => (e, s)) <$> cc_symbols ch else []) <$> l))
  = concat (enabled_futures_of e <$> l).
Proof.
  induction l as [|ch l IH]; csimpl; [done|]. by rewrite concat_fmap_app, channel_subs, IH.
Qed.

(** Without a futures channel the inner loops have nothing to do anyway. *)
Lemma no_futures_subs e l :
  existsb (fun ch => (cc_type ch =? "futures")%string) l = false -> concat (enabled_futures_of e <$> l) = [].
Proof.
  intros Hf. apply concat_fmap_nil. intros ch Hch. unfold enabled_futures_of.
  destruct (cc_type ch =? "futures")%string eqn:E; [|done]. exfalso.
  assert (Ht : existsb (fun ch => (cc_type ch =? "futures")%string) l = true); [|congruence].
  apply existsb_exists. exists ch. split; [by apply list_elem_of_In|done].
Qed.

Lemma futures_symbols_subs c : concat (sub_of <$> futures_symbols c) = (build_channel_map c).2.
Proof.
  unfold futures_symbols, build_channel_map. cbn [snd].
  induction (rc_exchanges c) as [|e l IH]; csimpl; [done|].
  rewrite concat_fmap_app, IH. f_equal. destruct (ec_enabled e); [|done]. cbn [andb].
  destruct (existsb _ (ec_channels e)) eqn:E; [apply exchange_subs|]. by rewrite no_futures_subs.
Qed.

Lemma register_loop_ok l r r' :
  registry_ok (rg_registry r) -> register_loop l r = (r', true) ->
  registry_ok (rg_registry r') /\ rg_registry r ⊆ rg_registry r' /\
  rg_map r' = fold_left (fun m s => MapRegister (sub_exchange s) (sub_ticker s) (sub_channel_id s) (sub_enabled s) m)
                (concat (sub_of <$> l)) (rg_map r) /\
  forall e s, (e, s) ∈ l -> sy_enabled s = true ->
    exists i, Lookup (channel_id_of (futures_info e s)) (rg_registry r') = Some i /\ same_channel i (futures_info e s) = true.
Proof.
  revert r. induction l as [|[e s] l IH]; intros r Hok; csimpl.
  - intros [= <-]. split_and!; try done. intros ? ? H. by apply elem_of_nil in H.
  - unfold register_symbol at 1, sub_of at 1. cbn [fst snd].
    destruct (sy_enabled s) eqn:Hen; [|intros Hl].
    + destruct (Register (futures_info e s) (rg_registry r)) as [[id reg]|] eqn:E; [|done]. intros Hl.
      destruct (Register_ok _ _ _ _ Hok E) as (Hok1 & -> & Hsub1 & i & Hi & Hs).
      pose proof (fun H => IH _ H Hl) as IH'. cbn [rg_registry rg_map] in IH'.
      destruct (IH' Hok1) as (H1 & H2 & H3 & H4).
      split_and!; [done|by etrans|done|].
      intros e' s' Hin Hen'. apply elem_of_cons in Hin as [[= -> ->]|Hin]; [|by apply H4].
      exists i. split; [|done]. by eapply lookup_weaken.
    + destruct (IH _ Hok Hl) as (H1 & H2 & H3 & H4). split_and!; try done.
      intros e' s' Hin Hen'. apply elem_of_cons in Hin as [[= -> ->]|Hin]; [congruence|by apply H4].
Qed.

Lemma registered_known (c : RootConfig) (reg : ChannelRegistry) (r : Registration) id :
  registry_ok reg -> RegisterChannels c reg = (r, true) -> id ∈ registered_ids_ (build_channel_map c).1 ->
  exists i, Lookup id (rg_registry r) = Some i /\ ci_type i = Futures.
Proof.
  intros Hok Hr Hreg. destruct (register_loop_ok _ (mkRegistration reg channel_map0 []) _ Hok Hr) as (_ & _ & _ & Hall).
  unfold build_channel_map in Hreg. cbn [fst] in Hreg. apply registered_fold in Hreg as [Hreg|(s & Hs & Hid)]; [set_solver|].
  change (s ∈ (build_channel_map c).2) in Hs. rewrite <- futures_symbols_subs in Hs.
  apply elem_of_concat_fmap in Hs as ([e sy] & Hin & Hs). unfold sub_of in Hs. cbn [fst snd] in Hs.
  destruct (sy_enabled sy) eqn:Hen; [|by apply elem_of_nil in Hs].
  apply list_elem_of_singleton in Hs as ->. cbn [sub_channel_id] in Hid.
  destruct (Hall e sy Hin Hen) as (i & Hi & Hsame). exists i.
  apply same_channel_spec in Hsame as (_ & Ht & _). split; [|done]. rewrite <- Hid. exact Hi.
Qed.

(** The collector can route everything the gateway sends: from one
    configuration, when registration meets no identifier collision, both
    processes (without exchanging anything) build the same channel map, and
    every identifier the gateway may put on an event is found in the
    collector's registry, as the futures channel it was computed from. *)
Theorem collector_knows_gateway_channels (c : RootConfig) (reg : ChannelRegistry) (r : Registration) :
  registry_ok reg -> RegisterChannels c reg = (r, true) ->
  rg_map r = (build_channel_map c).1 /\
  forall ex t, MapLookup ex t (build_channel_map c).1 <> kNotFound ->
    exists i, Lookup (MapLookup ex t (build_channel_map c).1) (rg_registry r) = Some i /\ ci_type i = Futures.
Proof.
  intros Hok Hr. destruct (register_loop_ok _ (mkRegistration reg channel_map0 []) _ Hok Hr) as (_ & _ & Hm & _). cbn [rg_map] in Hm.
  rewrite futures_symbols_subs in Hm. split; [exact Hm|].
  intros ex t Hne. eapply registered_known; [exact Hok|exact Hr|]. by apply MapLookup_registered.
Qed.

(** ** Health checks *)

(** A child that runs and whose heartbeat is recent is left alone. *)
Lemma CheckHealth_healthy i m pid :
  child_pid_ m = Some pid -> hi_wait i = WaitRunning ->
  0 <= hi_now_ns i - heartbeat_ns (pm_header m) < 2 ^ 64 ->
  hi_now_ns i - heartbeat_ns (pm_header m) < (pc_heartbeat_timeout_sec (pm_cfg m) + 1) * ns_per_sec ->
  CheckHealth i m = (true, m).
Proof.
  intros Hc Hw Hr Hlt. unfold CheckHealth. rewrite Hc, Hw.
  destruct (0 <? heartbeat_ns (pm_header m)); [|done].
  rewrite wrap_small by done.
  destruct (Z.ltb_spec (pc_heartbeat_timeout_sec (pm_cfg m)) ((hi_now_ns i - heartbeat_ns (pm_header m)) / ns_per_sec)) as [Hlt'|]; [|done].
  assert ((hi_now_ns i - heartbeat_ns (pm_header m)) / ns_per_sec < pc_heartbeat_timeout_sec (pm_cfg m) + 1)
    by (apply Z.div_lt_upper_bound; unfold ns_per_sec in *; lia). lia.
Qed.

(** The heartbeat as the check judges it. *)
Definition stale (i : HealthInput) (m : Manager) : Prop :=
  0 < heartbeat_ns (pm_header m) /\
  pc_heartbeat_timeout_sec (pm_cfg m) < u64 (hi_now_ns i - heartbeat_ns (pm_header m)) / ns_per_sec.

Lemma CheckHealth_stale i m pid :
  child_pid_ m = Some pid -> hi_wait i = WaitRunning -> stale i m ->
  CheckHealth i m = restart_child i (set_child None m).
Proof.
  intros Hc Hw [Hp Hs]. unfold CheckHealth. rewrite Hc, Hw.
  rewrite (proj2 (Z.ltb_lt _ _) Hp), (proj2 (Z.ltb_lt _ _) Hs). done.
Qed.

Lemma SpawnChild_frame sp m :
  pm_cfg (SpawnChild sp m).2 = pm_cfg m /\ pm_header (SpawnChild sp m).2 = pm_header m /\
  restart_count_ (SpawnChild sp m).2 = restart_count_ m /\ last_restart_ (SpawnChild sp m).2 = last_restart_ m /\
  monitor_running_ (SpawnChild sp m).2 = monitor_running_ m.
Proof. destruct sp as [pid|]; simpl; [destruct (0 <? pid)|]; done. Qed.

(** A restart within 60 seconds of the previous one. *)
Lemma restart_child_quick i m :
  Z.quot (hi_restart_now i - last_restart_ m) ns_per_sec < 60 -> restart_count_ m + 1 < 2 ^ 32 -> 0 <= restart_count_ m ->
  if pc_max_restarts_per_min (pm_cfg m) <? restart_count_ m + 1
  then restart_child i m = (false, mkManager (pm_cfg m) (pm_header m) (child_pid_ m) (last_restart_ m) (restart_count_ m + 1) false)
  else restart_child i m = SpawnChild (hi_spawned i)
         (mkManager (pm_cfg m) (pm_header m) None (hi_restart_now i) (restart_count_ m + 1) (monitor_running_ m)).
Proof.
  intros He Hb Hc. unfold restart_child. cbv zeta. rewrite (proj2 (Z.ltb_lt _ _) He). cbn [andb].
  rewrite wrap_small by (unfold in_range; lia). by destruct (pc_max_restarts_per_min (pm_cfg m) <? restart_count_ m + 1).
Qed.

(** A check that does not find a running child with a recent heartbeat. *)
Definition unhealthy (m : Manager) (i : HealthInput) : Prop := hi_wait i = WaitRunning -> stale i m.

Lemma CheckHealth_unhealthy i m : unhealthy m i -> CheckHealth i m = restart_child i (set_child None m).
Proof.
  intros Hu. destruct (child_pid_ m) as [pid|] eqn:Hc.
  - destruct (hi_wait i) eqn:Hw; [|eapply CheckHealth_stale; eauto|]; unfold CheckHealth; by rewrite Hc, Hw.
  - unfold CheckHealth. rewrite Hc. f_equal. destruct m. cbn in *. by subst.
Qed.

(** A healthy gateway is never touched: while the child runs and its last
    heartbeat is at most [heartbeat_timeout_sec] seconds old (and not later
    than the clock sample), a health check changes nothing. *)
Theorem healthy_child_left_alone (i : HealthInput) (m : Manager) (pid : Z) :
  child_pid_ m = Some pid -> hi_wait i = WaitRunning ->
  0 <= hi_now_ns i - heartbeat_ns (pm_header m) < 2 ^ 64 ->
  hi_now_ns i - heartbeat_ns (pm_header m) < (pc_heartbeat_timeout_sec (pm_cfg m) + 1) * ns_per_sec ->
  CheckHealth i m = (true, m).
Proof. apply CheckHealth_healthy. Qed.

(** ... but a heartbeat written between the clock sample and its load kills
    a healthy child: the unsigned difference wraps, and the elapsed time is
    more than five hundred years. *)
Theorem heartbeat_race_kills_child (i : HealthInput) (m : Manager) (pid : Z) :
  child_pid_ m = Some pid -> hi_wait i = WaitRunning ->
  0 <= hi_now_ns i < heartbeat_ns (pm_header m) -> heartbeat_ns (pm_header m) <= hi_now_ns i + ns_per_sec ->
  heartbeat_ns (pm_header m) < 2 ^ 63 -> 0 <= pc_heartbeat_timeout_sec (pm_cfg m) < 2 ^ 32 ->
  CheckHealth i m = restart_child i (set_child None m).
Proof.
  intros Hc Hw Hlt Hclose Hhb Hto. eapply CheckHealth_stale; [done|done|]. unfold stale. split; [lia|].
  unfold ns_per_sec in *.
  set (d := heartbeat_ns (pm_header m) - hi_now_ns i).
  assert (Hu : u64 (hi_now_ns i - heartbeat_ns (pm_header m)) = 2 ^ 64 - d).
  { unfold wrap. replace (hi_now_ns i - heartbeat_ns (pm_header m)) with (2 ^ 64 - d + (-1) * 2 ^ 64) by lia.
    rewrite Z_mod_plus_full. apply Z.mod_small. lia. }
  rewrite Hu. apply Z.lt_le_trans with (2 ^ 32); [lia|]. apply Z.div_le_lower_bound; lia.
Qed.

Lemma monitor_loop_snoc l i m :
  monitor_loop (l ++ [i]) m = if monitor_running_ (monitor_loop l m) then (CheckHealth i (monitor_loop l m)).2 else monitor_loop l m.
Proof. revert m. induction l as [|j l IH]; intros m; [done|]. cbn. destruct (monitor_running_ m) eqn:E; [apply IH|]. by rewrite E. Qed.

(** The times of the restarts, from the last one before the checks. *)
Definition restart_times (m : Manager) (checks : list HealthInput) : list Z := last_restart_ m :: (hi_restart_now <$> checks).
Lemma restart_times_S m checks k : restart_times m checks !! S k = hi_restart_now <$> checks !! k.
Proof. apply list_lookup_fmap. Qed.
Definition in_quick_succession (ts : list Z) : Prop :=
  forall k t t', ts !! k = Some t -> ts !! S k = Some t' -> Z.quot (t' - t) ns_per_sec < 60.

(** What the restart logic knows after [k] restarts. *)
Definition after_restarts (m : Manager) (k : nat) (t : Z) (mk : Manager) : Prop :=
  pm_cfg mk = pm_cfg m /\ pm_header mk = pm_header m /\ monitor_running_ mk = true /\ restart_count_ mk = Z.of_nat k /\ last_restart_ mk = t.

Section restarts.
Context (m : Manager) (i : HealthInput) (k : nat) (t : Z) (mk : Manager).
Context (Hk : after_restarts m k t mk) (Hu : unhealthy m i) (Hq : Z.quot (hi_restart_now i - t) ns_per_sec < 60) (Hb : Z.of_nat k + 1 < 2 ^ 32).

Lemma still_unhealthy : unhealthy mk i.
Proof using Hk Hu. unfold unhealthy, stale in *. destruct Hk as (-> & -> & _). exact Hu. Qed.

(** Below the limit the check spawns a new child ... *)
Lemma restart_spawns :
  Z.of_nat k + 1 <= pc_max_restarts_per_min (pm_cfg m) ->
  CheckHealth i mk = SpawnChild (hi_spawned i) (mkManager (pm_cfg m) (pm_header m) None (hi_restart_now i) (Z.of_nat k + 1) true).
Proof using Hk Hu Hq Hb.
  intros Hmax. rewrite (CheckHealth_unhealthy _ _ still_unhealthy). destruct Hk as (E1 & E2 & E3 & E4 & E5).
  pose proof (restart_child_quick i (set_child None mk)) as Hr. cbn in Hr. rewrite E1, E2, E3, E4, E5 in Hr. specialize (Hr Hq Hb ltac:(lia)).
  by destruct (Z.ltb_spec (pc_max_restarts_per_min (pm_cfg m)) (Z.of_nat k + 1)); [lia|].
Qed.

(** ... and at the limit it gives up. *)
Lemma restart_gives_up :
  pc_max_restarts_per_min (pm_cfg m) < Z.of_nat k + 1 ->
  CheckHealth i mk = (false, mkManager (pm_cfg m) (pm_header m) None t (Z.of_nat k + 1) false).
Proof using Hk Hu Hq Hb.
  intros Hmax. rewrite (CheckHealth_unhealthy _ _ still_unhealthy). destruct Hk as (E1 & E2 & E3 & E4 & E5).
  pose proof (restart_child_quick i (set_child None mk)) as Hr. cbn in Hr. rewrite E1, E2, E4, E5 in Hr. specialize (Hr Hq Hb ltac:(lia)).
  by destruct (Z.ltb_spec (pc_max_restarts_per_min (pm_cfg m)) (Z.of_nat k + 1)); [|lia].
Qed.
End restarts.

Lemma failing_checks checks m k t :
  after_restarts m 0 (last_restart_ m) m -> Forall (unhealthy m) checks -> in_quick_succession (restart_times m checks) ->
  Z.of_nat (length checks) + 1 < 2 ^ 32 -> Z.of_nat (length checks) <= pc_max_restarts_per_min (pm_cfg m) ->
  restart_times m checks !! k = Some t -> after_restarts m k t (monitor_loop (take k checks) m).
Proof.
  intros H0 Hu Hq Hb Hmax. revert t. induction k as [|k IH]; intros t Ht; [cbn in Ht; by injection Ht as <-|].
  rewrite restart_times_S in Ht. apply fmap_Some in Ht as (i & Hi & ->). pose proof (lookup_lt_Some _ _ _ Hi).
  destruct (lookup_lt_is_Some_2 (restart_times m checks) k) as [t Ht]; [unfold restart_times; rewrite length_cons, length_fmap; lia|].
  assert (Hi' : restart_times m checks !! S k = Some (hi_restart_now i)) by (by rewrite restart_times_S, Hi).
  specialize (IH _ Ht). rewrite (take_S_r _ _ _ Hi), monitor_loop_snoc. pose proof IH as (_ & _ & -> & _).
  rewrite (restart_spawns m i k t _ IH (Forall_lookup_1 _ _ _ _ Hu Hi) (Hq _ _ _ Ht Hi') ltac:(lia) ltac:(lia)).
  destruct (SpawnChild_frame (hi_spawned i) (mkManager (pm_cfg m) (pm_header m) None (hi_restart_now i) (Z.of_nat k + 1) true)) as (F1 & F2 & F3 & F4 & F5).
  unfold after_restarts. rewrite F1, F2, F3, F4, F5. cbn. split_and!; (done || lia).
Qed.

(** C28: The restart limit.  Take [max_restarts_per_min] health checks and one more, none of which finds a running child with a
    recent heartbeat (the child is dead, or its heartbeat is stale, or there is no child), each less than a minute after the previous
    restart.  Each of the first [max_restarts_per_min] checks starts a new child: it returns true, the child is the process that was
    spawned, and it is counted.  The last check gives up: it returns false, leaves no child and stops the monitor for good.
    (The heartbeat in the shared header is the same at all checks: no new child gets as far as writing one.) *)
Theorem restart_limit (checks : list HealthInput) (i : HealthInput) (m : Manager) :
  restart_count_ m = 0 -> monitor_running_ m = true ->
  Z.of_nat (length checks) = pc_max_restarts_per_min (pm_cfg m) -> Z.of_nat (length checks) + 1 < 2 ^ 32 ->
  Forall (unhealthy m) (checks ++ [i]) -> in_quick_succession (restart_times m (checks ++ [i])) ->
  (forall k j pid, checks !! k = Some j -> hi_spawned j = Some pid -> 0 < pid ->
     let m' := monitor_loop (take (S k) checks) m in
     CheckHealth j (monitor_loop (take k checks) m) = (true, m') /\
     child_pid_ m' = Some pid /\ restart_count_ m' = Z.of_nat k + 1 /\ monitor_running_ m' = true) /\
  let m' := monitor_loop (checks ++ [i]) m in
  CheckHealth i (monitor_loop checks m) = (false, m') /\
  monitor_running_ m' = false /\ child_pid_ m' = None /\ forall more, monitor_loop more m' = m'.
Proof.
  intros Hz Hrun Hlen Hb Hu Hq. apply Forall_app in Hu as [Hu Hi]. inversion_clear Hi as [|? ? Hi0 _]. rename Hi0 into Hi.
  assert (H0 : after_restarts m 0 (last_restart_ m) m) by (by repeat split).
  assert (Hts : restart_times m (checks ++ [i]) = restart_times m checks ++ [hi_restart_now i]) by (unfold restart_times; by rewrite fmap_app).
  assert (Hl : length (restart_times m checks) = S (length checks)) by (unfold restart_times; by rewrite length_cons, length_fmap).
  assert (Hq1 : in_quick_succession (restart_times m checks)).
  { intros k t t' H1 H2. apply (Hq k); rewrite Hts; by apply lookup_app_l_Some. }
  pose proof (failing_checks checks m) as Hf. specialize (fun k t => Hf k t H0 Hu Hq1 Hb ltac:(lia)).
  split.
  - intros k j pid Hj Hsp Hpid m'. pose proof (lookup_lt_Some _ _ _ Hj).
    destruct (lookup_lt_is_Some_2 (restart_times m checks) k) as [t Ht]; [lia|].
    assert (Hj' : restart_times m checks !! S k = Some (hi_restart_now j)) by (by rewrite restart_times_S, Hj).
    pose proof (Hf _ _ Ht) as Hk. pose proof (Hf _ _ Hj') as (_ & _ & E3 & E4 & _). fold m' in E3, E4.
    pose proof (restart_spawns m j k t _ Hk (Forall_lookup_1 _ _ _ _ Hu Hj) (Hq1 _ _ _ Ht Hj') ltac:(lia) ltac:(lia)) as Hc.
    unfold m'. rewrite (take_S_r _ _ _ Hj), monitor_loop_snoc, (proj1 (proj2 (proj2 Hk))), Hc, Hsp. cbn. rewrite (proj2 (Z.ltb_lt _ _) Hpid). by split_and!.
  - destruct (lookup_lt_is_Some_2 (restart_times m checks) (length checks)) as [t Ht]; [lia|].
    pose proof (Hf _ _ Ht) as Hk. rewrite take_ge in Hk by lia.
    assert (Hd : Z.quot (hi_restart_now i - t) ns_per_sec < 60).
    { apply (Hq (length checks)); rewrite Hts; [by apply lookup_app_l_Some|]. rewrite <- Hl. by apply list_lookup_middle. }
    rewrite monitor_loop_snoc, (proj1 (proj2 (proj2 Hk))), (restart_gives_up m i _ t _ Hk Hi Hd) by lia. cbn. split_and!; [done|done|done|].
    by intros [|].
Qed.

(** A restarted gateway is judged by its predecessor's heartbeat: the header
    is not reset, so when a check restarts the child because of a stale
    heartbeat, the next check (before the new child has logged in and written
    its first heartbeat) kills the new child again, however early it comes. *)
Theorem restarted_child_killed_again (i j : HealthInput) (m : Manager) (pid pid' : Z) :
  child_pid_ m = Some pid -> hi_wait i = WaitRunning -> stale i m ->
  hi_spawned i = Some pid' -> 0 < pid' ->
  Z.quot (hi_restart_now i - last_restart_ m) ns_per_sec >= 60 ->
  hi_now_ns i <= hi_now_ns j -> hi_now_ns j - heartbeat_ns (pm_header m) < 2 ^ 64 ->
  heartbeat_ns (pm_header m) <= hi_now_ns i -> hi_wait j = WaitRunning ->
  let m1 := (CheckHealth i m).2 in
  child_pid_ m1 = Some pid' /\ pm_header m1 = pm_header m /\
  CheckHealth j m1 = restart_child j (set_child None m1).
Proof.
  intros Hc Hw Hs Hsp Hpid Hq Hle Hub Hlb Hwj m1.
  assert (Hm1 : m1 = mkManager (pm_cfg m) (pm_header m) (Some pid') (hi_restart_now i) 0 (monitor_running_ m)).
  { unfold m1. rewrite (CheckHealth_stale i m pid Hc Hw Hs). unfold restart_child. simpl.
    destruct (Z.ltb_spec (Z.quot (hi_restart_now i - last_restart_ m) ns_per_sec) 60); [lia|]. cbn [andb].
    rewrite Hsp. simpl. by rewrite (proj2 (Z.ltb_lt _ _) Hpid). }
  rewrite Hm1. split_and!; [done|done|]. eapply CheckHealth_stale; [done|done|].
  destruct Hs as [Hpos Hst]. split; [done|]. simpl. unfold ns_per_sec in *.
  rewrite wrap_small in Hst by (unfold in_range; lia). rewrite wrap_small by (unfold in_range; lia).
  eapply Z.lt_le_trans; [exact Hst|]. apply Z.div_le_mono; lia.
Qed.

(** *** Witnesses *)

Lemma collector_knows_gateway_channels_witness :
  rg_map (RegisterChannels demo_config ∅).1 = (build_channel_map demo_config).1 /\
  exists i, Lookup (MapLookup (bytes "CME") (bytes "ESZ5") (build_channel_map demo_config).1)
              (rg_registry (RegisterChannels demo_config ∅).1) = Some i /\ ci_type i = Futures.
Proof.
  assert (H : RegisterChannels demo_config ∅ = ((RegisterChannels demo_config ∅).1, true)).
  { destruct (RegisterChannels demo_config ∅) as [r b] eqn:E. f_equal.
    change (b = true). rewrite <- (f_equal snd E : (RegisterChannels demo_config ∅).2 = b). reflexivity. }
  destruct (collector_knows_gateway_channels demo_config ∅ _ registry0_ok H) as [H1 H2].
  split; [exact H1|]. apply H2. vm_compute. discriminate.
Defined.

(** A child with pid 42 that wrote its heartbeat at second 100. *)
Definition demo_manager (last : Z) : Manager :=
  mkManager (mkPmConfig "/sqc_rithmic" "c.yaml" 8 9 10 2 true) (set_heartbeat (100 * ns_per_sec) header0)
    (Some 42) last 0 true.
Definition at_second (w : WaitResult) (s : Z) : HealthInput :=
  mkHealth w (s * ns_per_sec) (s * ns_per_sec) (Some 43).

Lemma healthy_child_left_alone_witness :
  CheckHealth (at_second WaitRunning 110) (demo_manager 0) = (true, demo_manager 0).
Proof. apply (healthy_child_left_alone _ _ 42); [reflexivity|reflexivity|vm_compute; split; congruence|reflexivity]. Defined.

Lemma heartbeat_race_kills_child_witness :
  let i := mkHealth WaitRunning (100 * ns_per_sec - 1) (100 * ns_per_sec) (Some 43) in
  CheckHealth i (demo_manager 0) = restart_child i (set_child None (demo_manager 0)).
Proof.
  apply (heartbeat_race_kills_child _ _ 42); try reflexivity; try (vm_compute; split; congruence).
  vm_compute. discriminate.
Defined.

Lemma restart_limit_witness :
  let checks := [at_second WaitReaped 101; at_second WaitRunning 112] in
  let m := demo_manager (100 * ns_per_sec) in
  child_pid_ (monitor_loop (take 2 checks) m) = Some 43 /\ restart_count_ (monitor_loop (take 2 checks) m) = 2 /\
  (CheckHealth (at_second WaitReaped 113) (monitor_loop checks m)).1 = false.
Proof.
  intros checks m. destruct (restart_limit checks (at_second WaitReaped 113) m) as [H1 [H2 _]];
    [reflexivity|reflexivity|reflexivity|reflexivity| | |].
  - repeat apply Forall_cons_2; [intros [=]|intros _; vm_compute; split; reflexivity|intros [=]|constructor].
  - intros [|[|[|k]]] t t' Ht Ht'; try discriminate; injection Ht as <-; injection Ht' as <-; reflexivity.
  - destruct (H1 1%nat (at_second WaitRunning 112) 43 eq_refl eq_refl eq_refl) as (_ & C1 & C2 & _).
    split; [exact C1|]. split; [exact C2|]. exact (f_equal fst H2).
Defined.

Lemma restarted_child_killed_again_witness :
  let m1 := (CheckHealth (at_second WaitRunning 111) (demo_manager 0)).2 in
  child_pid_ m1 = Some 43 /\ pm_header m1 = pm_header (demo_manager 0) /\
  CheckHealth (at_second WaitRunning 112) m1 = restart_child (at_second WaitRunning 112) (set_child None m1).
Proof.
  apply (restarted_child_killed_again (at_second WaitRunning 111) (at_second WaitRunning 112) (demo_manager 0) 42 43);
    try reflexivity; try (vm_compute; split; reflexivity); vm_compute; discriminate.
Defined.
