(* ===== verification/Supervisor.v ===== *)
(** * The supervised process

    The monitor thread of [RithmicProcessManager] restarts the gateway while the main
    thread may already be stopping it (src/exchange/rithmic/rithmic_process_manager.cpp).
    Both work on [child_pid_] in critical sections of [child_mtx_], but a health check is
    several of these sections with decisions in between.  Here the two threads, the
    gateway processes and the other processes of the machine take their steps in any
    order.  A critical section of the monitor is one step that waits for the lock; the
    one of [Shutdown], which polls for up to five seconds, is several, because processes
    end and process identifiers are reused meanwhile. *)
From S2P Require Import Prelude Doubles Events Exchange OrderBook Config Gateway Engine ProcessManager.

(** ** The parts of a health check *)

(** Source: src/exchange/rithmic/rithmic_process_manager.cpp:273-293, RithmicProcessManager::CheckHealth (probe).
    [w] is the answer of [waitpid] if there is a child to ask for. *)
Definition probe_child (w : WaitResult) (m : Manager) : bool * Manager :=
  match child_pid_ m with
  | None => (false, m)
  | Some _ => match w with
              | WaitReaped => (false, set_child None m)
              | WaitRunning => (true, m)
              | WaitError => (false, set_child None m)
              end
  end.

(** Source: src/exchange/rithmic/rithmic_process_manager.cpp:296-303, RithmicProcessManager::CheckHealth (heartbeat). *)
Definition timed_out (now_ns : Z) (m : Manager) : bool :=
  let last_hb := heartbeat_ns (pm_header m) in
  (0 <? last_hb) && (pc_heartbeat_timeout_sec (pm_cfg m) <? u64 (now_ns - last_hb) / ns_per_sec).

(** Source: src/exchange/rithmic/rithmic_process_manager.cpp:317-333, RithmicProcessManager::CheckHealth (rate limit).
    [false]: the limit is exceeded and the monitor gives up. *)
Definition may_restart (now : Z) (m : Manager) : bool * Manager :=
  let elapsed := Z.quot (now - last_restart_ m) ns_per_sec in
  let count := if elapsed <? 60 then u32 (restart_count_ m + 1) else 0 in
  if (elapsed <? 60) && (pc_max_restarts_per_min (pm_cfg m) <? count)
  then (false, mkManager (pm_cfg m) (pm_header m) (child_pid_ m) (last_restart_ m) count false)
  else (true, mkManager (pm_cfg m) (pm_header m) (child_pid_ m) now count (monitor_running_ m)).

(** Source: src/exchange/rithmic/rithmic_process_manager.cpp:337-346, RithmicProcessManager::CheckHealth (spawn). *)
Definition respawn (spawned : option Z) (m : Manager) : bool * Manager := SpawnChild spawned (set_child None m).

(** Put together without interruption they are the health check. *)
Lemma CheckHealth_parts (i : HealthInput) (m : Manager) :
  CheckHealth i m =
  let '(alive, m) := probe_child (hi_wait i) m in
  if alive && negb (timed_out (hi_now_ns i) m) then (true, m)
  else let '(ok, m) := may_restart (hi_restart_now i) (if alive then set_child None m else m) in
       if ok then respawn (hi_spawned i) m else (false, m).
Proof.
  assert (Hr : forall m, restart_child i m =
    let '(ok, m) := may_restart (hi_restart_now i) m in if ok then respawn (hi_spawned i) m else (false, m)).
  { intros m0. unfold restart_child, may_restart, respawn. by destruct (_ && _). }
  unfold CheckHealth, probe_child, timed_out. destruct (child_pid_ m) eqn:Ec; [|by rewrite Hr].
  destruct (hi_wait i); cbn [andb]; try by rewrite Hr.
  destruct (0 <? heartbeat_ns (pm_header m)); cbn [andb negb]; [|done].
  destruct (_ <? _); cbn [negb]; [by rewrite Hr|done].
Qed.

(** ** The threads and the processes *)

(** Where the monitor is: at the test of its loop, at a part of [CheckHealth], or done. *)
Inductive MonPc := MonTest | MonProbe | MonHeartbeat | MonKill | MonDecide | MonSpawn | MonExit.
#[export] Instance MonPc_eq_dec : EqDecision MonPc.
Proof. solve_decision. Defined.

(** Where the main thread is: before [Shutdown]; about to lock; polling (with rounds left) and probing inside the section;
    joining; after [Shutdown]; after the destructor. *)
Inductive MainPc := MRunning | MLock | MPolling (rounds : nat) | MProbing | MJoin | MReturned | MGone.
#[export] Instance MainPc_eq_dec : EqDecision MainPc.
Proof. solve_decision. Defined.

(** Gateway processes are the children of the manager that were not reaped; the exited ones among them are zombies. *)
Record Sup := mkSup {
  su_mgr : Manager;
  su_children : gset Z;
  su_zombies : gset Z;
  su_others : gset Z;      (* other processes it may signal *)
  su_victims : gset Z;     (* of these, the killed ones *)
  su_mon : MonPc;
  su_main : MainPc
}.

Definition put_mgr (m : Manager) (s : Sup) : Sup :=
  mkSup m (su_children s) (su_zombies s) (su_others s) (su_victims s) (su_mon s) (su_main s).
Definition put_mon (pc : MonPc) (s : Sup) : Sup :=
  mkSup (su_mgr s) (su_children s) (su_zombies s) (su_others s) (su_victims s) pc (su_main s).
Definition put_main (pc : MainPc) (s : Sup) : Sup :=
  mkSup (su_mgr s) (su_children s) (su_zombies s) (su_others s) (su_victims s) (su_mon s) pc.
(** A child ends and is reaped. *)
Definition reap (p : Z) (s : Sup) : Sup :=
  mkSup (su_mgr s) (su_children s ∖ {[p]}) (su_zombies s ∖ {[p]}) (su_others s) (su_victims s) (su_mon s) (su_main s).
Definition stop_flag (m : Manager) : Manager :=
  mkManager (pm_cfg m) (pm_header m) (child_pid_ m) (last_restart_ m) (restart_count_ m) false.

(** [waitpid(p, &status, WNOHANG)] *)
Definition poll_child (p : Z) (s : Sup) : WaitResult * Sup :=
  if decide (p ∈ su_zombies s) then (WaitReaped, reap p s)
  else if decide (p ∈ su_children s) then (WaitRunning, s) else (WaitError, s).
(** [kill(p, SIGKILL); waitpid(p, nullptr, 0)]: a child is reaped, another process dies, or nothing happens. *)
Definition kill_and_wait (p : Z) (s : Sup) : Sup :=
  if decide (p ∈ su_children s) then reap p s
  else if decide (p ∈ su_others s)
  then mkSup (su_mgr s) (su_children s) (su_zombies s) (su_others s ∖ {[p]}) (su_victims s ∪ {[p]}) (su_mon s) (su_main s)
  else s.
(** [kill(p, 0) == 0] *)
Definition exists_process (p : Z) (s : Sup) : bool := bool_decide (p ∈ su_children s ∪ su_others s).
(** [child_mtx_] is held by [Shutdown]. *)
Definition locked (s : Sup) : bool := match su_main s with MPolling _ | MProbing => true | _ => false end.

(** Source: src/exchange/rithmic/rithmic_process_manager.cpp:215-220, RithmicProcessManager::StartThreads (monitor thread).
    One step of the monitor. [now]: the clock it reads; [spawned]: what [posix_spawn] answers. *)
Definition exec_mon (now : Z) (spawned : option Z) (s : Sup) : option Sup :=
  let m := su_mgr s in
  match su_mon s with
  | MonTest => Some (put_mon (if monitor_running_ m then MonProbe else MonExit) s)
  | MonProbe =>
      if locked s then None
      else
        let '(w, s) := match child_pid_ m with Some p => poll_child p s | None => (WaitError, s) end in
        let '(alive, m) := probe_child w m in
        Some (put_mon (if alive then MonHeartbeat else MonDecide) (put_mgr m s))
  | MonHeartbeat => Some (put_mon (if timed_out now m then MonKill else MonTest) s)
  | MonKill =>
      if locked s then None
      else Some (put_mon MonDecide (put_mgr (set_child None m) (match child_pid_ m with Some p => kill_and_wait p s | None => s end)))
  | MonDecide => let '(ok, m) := may_restart now m in Some (put_mon (if ok then MonSpawn else MonTest) (put_mgr m s))
  | MonSpawn =>
      if locked s then None
      else
        let s := match child_pid_ m with Some p => (poll_child p s).2 | None => s end in
        let s := match spawned with
                 | Some p => mkSup m (su_children s ∪ {[p]}) (su_zombies s) (su_others s) (su_victims s) (su_mon s) (su_main s)
                 | None => s
                 end in
        Some (put_mon MonTest (put_mgr (respawn spawned m).2 s))
  | MonExit => None
  end.

(** Source: src/exchange/rithmic/rithmic_process_manager.cpp:43-60, RithmicProcessManager::~RithmicProcessManager. *)
Definition manager_destroy (s : Sup) : Sup :=
  let m := stop_flag (su_mgr s) in
  match child_pid_ m with
  | Some p => put_mgr (set_child None m) (kill_and_wait p s)
  | None => put_mgr m s
  end.

(** Source: src/exchange/rithmic/rithmic_process_manager.cpp:227-261, RithmicProcessManager::Shutdown (steps).
    The receiver thread is left out, it does not touch the child. Then the end of [main], where the manager is destroyed. *)
Definition exec_stop (s : Sup) : option Sup :=
  let m := su_mgr s in
  match su_main s, child_pid_ m with
  | MRunning, _ => Some (put_main MLock (put_mgr (stop_flag m) s))
  | MLock, Some _ => Some (put_main (MPolling 50) s)          (* SIGTERM *)
  | MLock, None => Some (put_main MJoin s)
  | MPolling (S k), Some p =>
      match poll_child p s with
      | (WaitReaped, s) => Some (put_main MProbing s)
      | (_, s) => Some (put_main (MPolling k) s)              (* 100 ms *)
      end
  | MPolling O, Some _ => Some (put_main MProbing s)
  | MProbing, Some p =>
      let s := if exists_process p s then kill_and_wait p s else s in
      Some (put_main MJoin (put_mgr (set_child None m) s))
  | MJoin, _ => if decide (su_mon s = MonExit) then Some (put_main MReturned s) else None
  | MReturned, _ => Some (put_main MGone (manager_destroy s))
  | _, _ => None
  end.

Inductive SupLabel :=
  | SMon (now : Z) (spawned : option Z)
  | SMain
  | SExit (p : Z)                     (* a gateway exits *)
  | SBeat (ns : Z)                    (* a gateway writes its heartbeat *)
  | SArrive (p : Z) | SLeave (p : Z). (* another process *)

(** A new process gets an identifier that no process has. *)
Definition fresh_pid (p : Z) (s : Sup) : Prop := 0 < p /\ p ∉ su_children s /\ p ∉ su_others s.
#[export] Instance fresh_pid_dec p s : Decision (fresh_pid p s).
Proof. unfold fresh_pid. apply _. Defined.

Definition sup_exec (l : SupLabel) (s : Sup) : option Sup :=
  match l with
  | SMon now spawned =>
      match spawned with
      | Some p => if decide (fresh_pid p s) then exec_mon now spawned s else None
      | None => exec_mon now None s
      end
  | SMain => exec_stop s
  | SExit p =>
      if decide (p ∈ su_children s)
      then Some (mkSup (su_mgr s) (su_children s) (su_zombies s ∪ {[p]}) (su_others s) (su_victims s) (su_mon s) (su_main s)) else None
  | SBeat ns =>
      let m := su_mgr s in let h := pm_header m in
      Some (put_mgr (mkManager (pm_cfg m) (mkHeader (hd_magic h) (hd_version h) (u64 ns) (child_ready h) (parent_ready h))
                       (child_pid_ m) (last_restart_ m) (restart_count_ m) (monitor_running_ m)) s)
  | SArrive p =>
      if decide (fresh_pid p s)
      then Some (mkSup (su_mgr s) (su_children s) (su_zombies s) (su_others s ∪ {[p]}) (su_victims s) (su_mon s) (su_main s)) else None
  | SLeave p =>
      Some (mkSup (su_mgr s) (su_children s) (su_zombies s) (su_others s ∖ {[p]}) (su_victims s) (su_mon s) (su_main s))
  end.

Definition sup_step (s s' : Sup) : Prop := exists l, sup_exec l s = Some s'.
Fixpoint sup_run (ls : list SupLabel) (s : Sup) : option Sup :=
  match ls with [] => Some s | l :: ls => match sup_exec l s with Some s => sup_run ls s | None => None end end.

(** A manager whose [Setup] has spawned the gateway [p]: the threads have just been created. *)
Definition sup_init (cfg : PmConfig) (p now : Z) : Sup :=
  mkSup (mkManager cfg header0 (Some p) now 0 true) {[p]} ∅ ∅ ∅ MonTest MRunning.

(** ** The invariant *)

Record sup_inv (s : Sup) : Prop := {
  si_known : forall p, p ∈ su_children s -> child_pid_ (su_mgr s) = Some p;
  si_child : forall p, child_pid_ (su_mgr s) = Some p -> p ∈ su_children s \/ su_main s = MProbing;
  si_zombies : su_zombies s ⊆ su_children s;
  si_apart : su_children s ## su_others s;
  si_dead : su_mon s = MonDecide \/ su_mon s = MonSpawn -> child_pid_ (su_mgr s) = None;
  si_joined : su_main s = MReturned \/ su_main s = MGone -> su_mon s = MonExit;
  si_section : locked s = true -> is_Some (child_pid_ (su_mgr s));
  si_gone : su_main s = MGone -> child_pid_ (su_mgr s) = None;
  si_flag : su_main s <> MRunning -> monitor_running_ (su_mgr s) = false
}.

Lemma may_restart_frame now m :
  child_pid_ (may_restart now m).2 = child_pid_ m /\ (monitor_running_ m = false -> monitor_running_ (may_restart now m).2 = false).
Proof. unfold may_restart. by destruct (_ && _). Qed.

Lemma respawn_frame spawned m :
  (forall p, spawned = Some p -> 0 < p) ->
  child_pid_ (respawn spawned m).2 = spawned /\ monitor_running_ (respawn spawned m).2 = monitor_running_ m.
Proof.
  intros H. unfold respawn, SpawnChild. destruct spawned as [p|]; [|done].
  by rewrite (proj2 (Z.ltb_lt _ _) (H p eq_refl)).
Qed.

(** A step that leaves no child behind: the one the manager knew is reaped and forgotten. *)
Lemma inv_no_child s m' z others mon main victims :
  sup_inv s -> child_pid_ m' = None -> (main <> MRunning -> monitor_running_ m' = false) ->
  (main = MReturned \/ main = MGone -> mon = MonExit) ->
  main <> MProbing -> (forall k, main <> MPolling k) -> z ⊆ ∅ ->
  sup_inv (mkSup m' ∅ z others victims mon main).
Proof.
  intros HI Hc Hf Hj H1 H2 Hz. split; cbn; rewrite ?Hc; try done; try set_solver.
  unfold locked. cbn. destruct main; try done. by edestruct H2.
Qed.

(** The children are exactly the one the manager knows, so without it there are none. *)
Lemma known_children s p : sup_inv s -> child_pid_ (su_mgr s) = Some p -> su_children s ⊆ {[p]}.
Proof. intros HI Hc x Hx%(si_known _ HI). rewrite Hc in Hx. set_solver. Qed.
Lemma no_children s : sup_inv s -> child_pid_ (su_mgr s) = None -> su_children s = ∅.
Proof. intros HI Hc. apply set_eq. intros x. split; [|set_solver]. intros Hx%(si_known _ HI). by rewrite Hc in Hx. Qed.
Lemma reap_known s p : sup_inv s -> child_pid_ (su_mgr s) = Some p -> su_children (reap p s) = ∅ /\ su_zombies (reap p s) = ∅.
Proof.
  intros HI Hc. pose proof (known_children s p HI Hc). pose proof (si_zombies _ HI). cbn. split; set_solver.
Qed.

(** The threads move on and the manager changes, but not its child. *)
Lemma inv_move s m' mon main :
  sup_inv s -> child_pid_ m' = child_pid_ (su_mgr s) ->
  (su_main s = MProbing -> main = MProbing) ->
  (mon = MonDecide \/ mon = MonSpawn -> child_pid_ (su_mgr s) = None) ->
  (main = MReturned \/ main = MGone -> mon = MonExit) ->
  (main = MProbing \/ (exists k, main = MPolling k) -> is_Some (child_pid_ (su_mgr s))) ->
  main <> MGone ->
  (main <> MRunning -> monitor_running_ m' = false) ->
  sup_inv (put_main main (put_mon mon (put_mgr m' s))).
Proof.
  intros HI Hc Hp Hd Hj Hs Hg Hf. split; cbn; rewrite ?Hc; try done.
  - apply (si_known _ HI).
  - intros p Hpid. destruct (si_child _ HI p Hpid); auto.
  - apply (si_zombies _ HI).
  - apply (si_apart _ HI).
  - unfold locked. cbn. intros Hl. apply Hs. destruct main; try done; eauto.
Qed.

(** While the monitor runs the main thread has not joined it. *)
Lemma inv_not_joined s : sup_inv s -> su_mon s <> MonExit -> su_main s <> MReturned /\ su_main s <> MGone.
Proof. intros HI Hm. split; intros He; apply Hm, (si_joined _ HI); auto. Qed.

(** The monitor moves on, and its child with it. *)
Lemma inv_mon s m' mon :
  sup_inv s -> su_mon s <> MonExit -> child_pid_ m' = child_pid_ (su_mgr s) ->
  (mon = MonDecide \/ mon = MonSpawn -> child_pid_ (su_mgr s) = None) ->
  (monitor_running_ (su_mgr s) = false -> monitor_running_ m' = false) ->
  sup_inv (put_mon mon (put_mgr m' s)).
Proof.
  intros HI Hm Hc Hd Hf. destruct (inv_not_joined s HI Hm) as [H1 H2].
  apply (inv_move s m' mon (su_main s)); try done.
  - by intros [?|?].
  - intros [He|[k He]]; apply (si_section _ HI); unfold locked; by rewrite He.
  - intros Hr. apply Hf, (si_flag _ HI Hr).
Qed.

(** The monitor loses its child: it was reaped, and the main thread is not in its section. *)
Lemma inv_mon_lost s m' z mon :
  sup_inv s -> su_mon s <> MonExit -> locked s = false -> child_pid_ m' = None ->
  (monitor_running_ (su_mgr s) = false -> monitor_running_ m' = false) -> z ⊆ ∅ ->
  sup_inv (mkSup m' ∅ z (su_others s) (su_victims s) mon (su_main s)).
Proof.
  intros HI Hm Hl Hc Hf Hz. destruct (inv_not_joined s HI Hm) as [H1 H2]. unfold locked in Hl.
  apply (inv_no_child s); try done.
  - intros Hr. apply Hf, (si_flag _ HI Hr).
  - by intros [?|?].
  - intros He. by rewrite He in Hl.
  - intros k He. by rewrite He in Hl.
Qed.

Lemma mon_probe_inv s s' : sup_inv s -> su_mon s = MonProbe -> exec_mon 0 None s = Some s' -> sup_inv s'.
Proof.
  intros HI Hm. unfold exec_mon. rewrite Hm. destruct (locked s) eqn:Hl; [done|].
  assert (Hx : su_mon s <> MonExit) by (by rewrite Hm).
  destruct (child_pid_ (su_mgr s)) as [p|] eqn:Hc; unfold probe_child; rewrite Hc.
  2: { intros [= <-]. apply inv_mon; try done. }
  destruct (reap_known s p HI Hc) as [Hr1 Hr2]. unfold poll_child.
  destruct (decide (p ∈ su_zombies s)) as [Hz|Hz].
  { intros [= <-]. cbn in Hr1, Hr2. unfold reap, put_mgr, put_mon. cbn. rewrite Hr1, Hr2. by apply inv_mon_lost. }
  destruct (si_child _ HI p Hc) as [Hp|Hp]; [|unfold locked in Hl; by rewrite Hp in Hl].
  rewrite decide_True by done. intros [= <-]. apply inv_mon; try done. by intros [?|?].
Qed.

Lemma mon_kill_inv s s' : sup_inv s -> su_mon s = MonKill -> exec_mon 0 None s = Some s' -> sup_inv s'.
Proof.
  intros HI Hm. unfold exec_mon. rewrite Hm. destruct (locked s) eqn:Hl; [done|]. intros [= <-].
  assert (Hx : su_mon s <> MonExit) by (by rewrite Hm).
  destruct (child_pid_ (su_mgr s)) as [p|] eqn:Hc; [|by apply inv_mon].
  destruct (reap_known s p HI Hc) as [Hr1 Hr2]. unfold kill_and_wait.
  destruct (si_child _ HI p Hc) as [Hp|Hp]; [|unfold locked in Hl; by rewrite Hp in Hl].
  rewrite decide_True by done. cbn in Hr1, Hr2. unfold reap, put_mgr, put_mon. cbn. rewrite Hr1, Hr2. by apply inv_mon_lost.
Qed.

Lemma mon_spawn_inv now spawned s s' :
  sup_inv s -> su_mon s = MonSpawn -> (forall p, spawned = Some p -> fresh_pid p s) -> exec_mon now spawned s = Some s' -> sup_inv s'.
Proof.
  intros HI Hm Hf. unfold exec_mon. rewrite Hm. destruct (locked s) eqn:Hl; [done|].
  assert (Hx : su_mon s <> MonExit) by (by rewrite Hm).
  rewrite (si_dead _ HI) by auto. assert (Hn : child_pid_ (su_mgr s) = None) by (apply (si_dead _ HI); auto).
  destruct (respawn_frame spawned (su_mgr s)) as [Hc Hr]; [intros p ->; by apply (Hf p)|].
  destruct (respawn spawned (su_mgr s)) as [ok m']. cbn [snd] in Hc, Hr |- *. intros [= <-].
  destruct spawned as [p|]; [|by apply inv_mon; rewrite ?Hc, ?Hr, ?Hn].
  destruct (Hf p eq_refl) as (Hpos & _ & Ho). pose proof (no_children s HI Hn) as He. pose proof (si_zombies _ HI) as Hz.
  destruct (inv_not_joined s HI Hx) as [H1 H2]. unfold put_mon, put_mgr. cbn. rewrite He.
  split; cbn; rewrite ?Hc, ?Hr; try done.
  - intros x Hx'. f_equal. set_solver.
  - intros x [= ->]. left. set_solver.
  - set_solver.
  - set_solver.
  - by intros [?|?].
  - by intros [?|?].
  - apply (si_flag _ HI).
Qed.

Lemma exec_mon_inv now spawned s s' :
  sup_inv s -> (forall p, spawned = Some p -> fresh_pid p s) -> exec_mon now spawned s = Some s' -> sup_inv s'.
Proof.
  intros HI Hf He. destruct (su_mon s) eqn:Hm; try (unfold exec_mon in He; rewrite Hm in He).
  - injection He as <-. apply inv_mon; rewrite ?Hm; try done. destruct (monitor_running_ _); by intros [?|?].
  - apply (mon_probe_inv s s' HI Hm). unfold exec_mon. by rewrite Hm.
  - injection He as <-. apply inv_mon; rewrite ?Hm; try done. destruct (timed_out _ _); by intros [?|?].
  - apply (mon_kill_inv s s' HI Hm). unfold exec_mon. by rewrite Hm.
  - destruct (may_restart_frame now (su_mgr s)) as [H1 H2]. destruct (may_restart now (su_mgr s)) as [ok m']. injection He as <-.
    apply inv_mon; rewrite ?Hm; try done. intros _. apply (si_dead _ HI). auto.
  - apply (mon_spawn_inv now spawned s s' HI Hm Hf). unfold exec_mon. by rewrite Hm.
  - done.
Qed.

(** The main thread moves on, its child stays the same. *)
Lemma inv_main s m' main :
  sup_inv s -> child_pid_ m' = child_pid_ (su_mgr s) -> su_main s <> MProbing ->
  (main = MReturned -> su_mon s = MonExit) -> main <> MGone ->
  (main = MProbing \/ (exists k, main = MPolling k) -> is_Some (child_pid_ (su_mgr s))) ->
  (main <> MRunning -> monitor_running_ m' = false) ->
  sup_inv (put_main main (put_mgr m' s)).
Proof.
  intros HI Hc Hp Hj Hg Hs Hf. apply (inv_move s m' (su_mon s) main); try done.
  - apply (si_dead _ HI).
  - intros [?|?]; auto. done.
Qed.

(** Killing the child the manager knows, or the process that took its identifier, leaves no child. *)
Lemma kill_known s p :
  sup_inv s -> child_pid_ (su_mgr s) = Some p ->
  exists others victims, kill_and_wait p s = mkSup (su_mgr s) ∅ ∅ others victims (su_mon s) (su_main s).
Proof.
  intros HI Hc. destruct (reap_known s p HI Hc) as [Hr1 Hr2]. pose proof (known_children s p HI Hc) as Hk.
  pose proof (si_zombies _ HI) as Hz. unfold kill_and_wait. destruct (decide (p ∈ su_children s)) as [Hp|Hp].
  - cbn in Hr1, Hr2. unfold reap. rewrite Hr1, Hr2. eauto.
  - assert (He : su_children s = ∅) by set_solver. assert (Hze : su_zombies s = ∅) by set_solver.
    destruct (decide (p ∈ su_others s)); [rewrite He, Hze; eauto|]. exists (su_others s), (su_victims s).
    destruct s as [m c z o v mon main]. cbn in *. by subst.
Qed.

Lemma absent_child s p :
  sup_inv s -> child_pid_ (su_mgr s) = Some p -> exists_process p s = false -> su_children s = ∅ /\ su_zombies s = ∅.
Proof.
  intros HI Hc Hx. unfold exists_process in Hx. apply bool_decide_eq_false in Hx.
  pose proof (known_children s p HI Hc). pose proof (si_zombies _ HI). split; set_solver.
Qed.

Lemma stop_poll_inv s k p :
  sup_inv s -> su_main s = MPolling (S k) -> child_pid_ (su_mgr s) = Some p ->
  sup_inv (put_main (if decide (p ∈ su_zombies s) then MProbing else MPolling k) (poll_child p s).2).
Proof.
  intros HI Hm Hc. destruct (reap_known s p HI Hc) as [Hr1 Hr2]. unfold poll_child.
  assert (Hf : monitor_running_ (su_mgr s) = false) by (apply (si_flag _ HI); by rewrite Hm).
  destruct (decide (p ∈ su_zombies s)) as [Hz|Hz].
  - cbn in Hr1, Hr2. unfold reap, put_main. cbn. rewrite Hr1, Hr2.
    split; cbn; rewrite ?Hc; try done; try set_solver.
    intros Hd. exfalso. pose proof (si_dead _ HI Hd). congruence.
  - assert (Hgoal : sup_inv (put_main (MPolling k) (put_mgr (su_mgr s) s)))
      by (apply inv_main; rewrite ?Hm; try done; by rewrite Hc).
    assert (Hs : put_mgr (su_mgr s) s = s) by (by destruct s). rewrite Hs in Hgoal. by destruct (decide (p ∈ su_children s)).
Qed.

Lemma stop_probe_inv s p :
  sup_inv s -> su_main s = MProbing -> child_pid_ (su_mgr s) = Some p ->
  sup_inv (put_main MJoin (put_mgr (set_child None (su_mgr s)) (if exists_process p s then kill_and_wait p s else s))).
Proof.
  intros HI Hm Hc. assert (Hf : monitor_running_ (su_mgr s) = false) by (apply (si_flag _ HI); by rewrite Hm).
  destruct (exists_process p s) eqn:Hx.
  - destruct (kill_known s p HI Hc) as (o & v & ->). apply (inv_no_child s); try done. by intros [?|?].
  - destruct (absent_child s p HI Hc Hx) as [He Hz]. unfold put_main, put_mgr. cbn. rewrite He, Hz.
    apply (inv_no_child s); try done. by intros [?|?].
Qed.

Lemma destroy_inv s : sup_inv s -> su_main s = MReturned -> sup_inv (put_main MGone (manager_destroy s)).
Proof.
  intros HI Hm. assert (Hx : su_mon s = MonExit) by (apply (si_joined _ HI); auto). unfold manager_destroy. cbn [stop_flag child_pid_].
  destruct (child_pid_ (su_mgr s)) as [p|] eqn:Hc.
  - destruct (kill_known s p HI Hc) as (o & v & ->). by apply (inv_no_child s).
  - pose proof (no_children s HI Hc) as He. pose proof (si_zombies _ HI) as Hz. unfold put_main, put_mgr. cbn. rewrite He in *.
    by apply (inv_no_child s).
Qed.

Lemma exec_stop_inv s s' : sup_inv s -> exec_stop s = Some s' -> sup_inv s'.
Proof.
  intros HI. unfold exec_stop.
  assert (Hself : put_mgr (su_mgr s) s = s) by (by destruct s).
  assert (Hflag : su_main s <> MRunning -> monitor_running_ (su_mgr s) = false) by apply (si_flag _ HI).
  assert (Hmove : forall main, su_main s <> MRunning -> su_main s <> MProbing -> (main = MReturned -> su_mon s = MonExit) -> main <> MGone ->
    (main = MProbing \/ (exists k, main = MPolling k) -> is_Some (child_pid_ (su_mgr s))) -> sup_inv (put_main main s)).
  { intros main H0 H1 H2 H3 H4. rewrite <- Hself at 1. apply inv_main; auto. }
  destruct (su_main s) as [| |[|k]| | | |] eqn:Hm, (child_pid_ (su_mgr s)) as [p|] eqn:Hc; try done.
  - intros [= <-]. apply inv_main; rewrite ?Hm; try done; by intros [?|[? ?]].
  - intros [= <-]. apply inv_main; rewrite ?Hm; try done; by intros [?|[? ?]].
  - intros [= <-]. by apply Hmove.
  - intros [= <-]. apply Hmove; try done; by intros [?|[? ?]].
  - intros [= <-]. by apply Hmove.
  - pose proof (stop_poll_inv s k p HI Hm Hc) as Hp. unfold poll_child in *.
    destruct (decide (p ∈ su_zombies s)); [by intros [= <-]|].
    destruct (decide (p ∈ su_children s)); by intros [= <-].
  - intros [= <-]. by apply stop_probe_inv.
  - destruct (decide _) as [He|]; [|done]. intros [= <-]. apply Hmove; try done; by intros [?|[? ?]].
  - destruct (decide _) as [He|]; [|done]. intros [= <-]. apply Hmove; try done; by intros [?|[? ?]].
  - intros [= <-]. by apply destroy_inv.
  - intros [= <-]. by apply destroy_inv.
Qed.

Lemma sup_step_inv s s' : sup_inv s -> sup_step s s' -> sup_inv s'.
Proof.
  intros HI [[now spawned| |p|ns|p|p] He]; cbn in He.
  - destruct spawned as [p|]; [destruct (decide (fresh_pid p s)) as [Hf|]; [|done]|];
      eapply exec_mon_inv; try done; intros ? [= <-]; done.
  - by eapply exec_stop_inv.
  - destruct (decide _) as [Hp|]; [|done]. injection He as <-. destruct HI; split; cbn; try done. set_solver.
  - injection He as <-. destruct HI; by split.
  - destruct (decide _) as [(_ & Hp & _)|]; [|done]. injection He as <-. destruct HI; split; cbn; try done. set_solver.
  - injection He as <-. destruct HI; split; cbn; try done. set_solver.
Qed.

Lemma sup_init_inv cfg p now : sup_inv (sup_init cfg p now).
Proof. split; cbn; try done; try set_solver; try (by intros [?|?]). all: intros x [= ->]; left; set_solver. Qed.

Lemma sup_reachable_inv cfg p now s : rtc sup_step (sup_init cfg p now) s -> sup_inv s.
Proof. intros H. exact (rtc_invariant _ _ _ _ sup_step_inv H (sup_init_inv cfg p now)). Qed.

(** ** Shutdown can always be completed *)

Definition main_rank (pc : MainPc) : nat :=
  match pc with MRunning => 57 | MLock => 56 | MPolling k => 5 + k | MProbing => 4 | MJoin => 3 | MReturned => 2 | MGone => 0 end.
Definition mon_rank (pc : MonPc) : nat :=
  match pc with MonProbe => 6 | MonHeartbeat => 5 | MonKill => 4 | MonDecide => 3 | MonSpawn => 2 | MonTest => 1 | MonExit => 0 end.
Definition sup_rank (s : Sup) : nat := 10 * main_rank (su_main s) + mon_rank (su_mon s).

Lemma mon_moves s :
  sup_inv s -> su_main s = MJoin -> su_mon s <> MonExit ->
  exists s', exec_mon 0 None s = Some s' /\ (sup_rank s' < sup_rank s)%nat.
Proof.
  intros HI Hm Hx. assert (Hf : monitor_running_ (su_mgr s) = false) by (apply (si_flag _ HI); by rewrite Hm).
  assert (Hl : locked s = false) by (unfold locked; by rewrite Hm). unfold exec_mon, sup_rank. rewrite Hf, Hl, Hm.
  assert (Hp : forall p, su_main (poll_child p s).2 = MJoin /\ su_main (kill_and_wait p s) = MJoin)
    by (intros p; unfold poll_child, kill_and_wait; repeat case_decide; done).
  destruct (su_mon s) eqn:Hmon; [| | | | | |done].
  - eexists. split; [done|]. cbn. rewrite Hm. cbn. lia.
  - destruct (child_pid_ (su_mgr s)) as [p|]; [|destruct (probe_child _ _) as [[] ?]; (eexists; split; [done|]); cbn; rewrite Hm; cbn; lia].
    pose proof (Hp p) as [Hq _]. destruct (poll_child p s) as [w s1]. cbn in Hq. destruct (probe_child w _) as [a m'].
    eexists. split; [done|]. cbn. rewrite Hq. destruct a; cbn; lia.
  - eexists. split; [done|]. cbn. rewrite Hm. destruct (timed_out _ _); cbn; lia.
  - eexists. split; [done|]. cbn. destruct (child_pid_ (su_mgr s)) as [p|]; [rewrite (proj2 (Hp p))|rewrite Hm]; cbn; lia.
  - destruct (may_restart _ _) as [[] m']; (eexists; split; [done|]); cbn; rewrite Hm; cbn; lia.
  - eexists. split; [done|]. cbn. destruct (child_pid_ (su_mgr s)) as [p|]; [rewrite (proj1 (Hp p))|rewrite Hm]; cbn; lia.
Qed.

Lemma main_moves s :
  sup_inv s -> su_main s <> MGone -> (su_main s = MJoin -> su_mon s = MonExit) ->
  exists s', exec_stop s = Some s' /\ (sup_rank s' < sup_rank s)%nat.
Proof.
  intros HI Hg Hj. pose proof (si_section _ HI) as Hs. unfold locked in Hs. unfold exec_stop, sup_rank.
  assert (Hk : forall p, su_mon (kill_and_wait p s) = su_mon s) by (intros p; unfold kill_and_wait; repeat case_decide; done).
  destruct (su_main s) as [| |[|k]| | | |] eqn:Hm; try done.
  - eexists. split; [done|]. cbn. lia.
  - destruct (child_pid_ (su_mgr s)); (eexists; split; [done|]; cbn; lia).
  - destruct (Hs eq_refl) as [p ->]. eexists. split; [done|]. cbn. lia.
  - destruct (Hs eq_refl) as [p ->]. unfold poll_child. repeat case_decide; (eexists; split; [done|]; cbn; lia).
  - destruct (Hs eq_refl) as [p ->]. eexists. split; [done|]. cbn. destruct (exists_process p s); rewrite ?Hk; cbn; lia.
  - rewrite decide_True by auto. eexists. split; [done|]. cbn. lia.
  - eexists. split; [done|]. unfold manager_destroy. cbn. destruct (child_pid_ (su_mgr s)); cbn; rewrite ?Hk; lia.
Qed.

Lemma sup_finishes s : sup_inv s -> exists s', rtc sup_step s s' /\ su_main s' = MGone.
Proof.
  remember (sup_rank s) as n eqn:Hn. revert s Hn. induction (lt_wf n) as [n _ IH]. intros s -> HI.
  destruct (decide (su_main s = MGone)) as [Hg|Hg]; [by exists s|].
  assert (Hmove : exists s1, sup_step s s1 /\ (sup_rank s1 < sup_rank s)%nat).
  { destruct (decide (su_main s = MJoin)) as [Hj|Hj]; [destruct (decide (su_mon s = MonExit)) as [He|He]|].
    - destruct (main_moves s HI Hg) as (s1 & H1 & H2); [done|]. exists s1. split; [by exists SMain|done].
    - destruct (mon_moves s HI Hj He) as (s1 & H1 & H2). exists s1. split; [by exists (SMon 0 None)|done].
    - destruct (main_moves s HI Hg) as (s1 & H1 & H2); [done|]. exists s1. split; [by exists SMain|done]. }
  destruct Hmove as (s1 & H1 & H2). destruct (IH _ H2 s1 eq_refl (sup_step_inv _ _ HI H1)) as (s2 & H3 & H4).
  exists s2. split; [by eapply rtc_l|done].
Qed.

Lemma sup_run_steps ls s s' : sup_run ls s = Some s' -> rtc sup_step s s'.
Proof.
  revert s. induction ls as [|l ls IH]; intros s; cbn [sup_run]; [intros [= <-]; constructor|].
  destruct (sup_exec l s) as [s1|] eqn:E; [|done]. intros H. eapply rtc_l; [by exists l|eauto].
Qed.

(** C27: One gateway at most, and none is left behind: however health checks, restarts, crashes, [Shutdown] and the
    destructor interleave, every gateway process that is not reaped is the one the manager knows; the manager can always be
    taken down; and when it is gone all its gateways were reaped. *)
Theorem gateway_never_orphaned (cfg : PmConfig) (p now : Z) (s : Sup) :
  rtc sup_step (sup_init cfg p now) s ->
  (forall q, q ∈ su_children s -> child_pid_ (su_mgr s) = Some q) /\
  (su_main s = MGone -> su_children s = ∅) /\
  exists s', rtc sup_step s s' /\ su_main s' = MGone.
Proof.
  intros H%sup_reachable_inv. split; [apply (si_known _ H)|]. split; [|by apply sup_finishes].
  intros Hg. by apply (no_children s), (si_gone _ H).
Qed.

(** ** What Shutdown does not prevent *)

(** The monitor passes its test, [Shutdown] stops the gateway, and the health check takes that for a crash. *)
Definition respawn_run : list SupLabel :=
  [SMon 0 None; SMain; SMain; SExit 100; SMain; SMain;
   SMon 0 None; SMon (60 * ns_per_sec) None; SMon 0 (Some 101); SMon 0 None; SMain].

(** The gateway ends in time, and another process gets its identifier before the probe. *)
Definition recycled_run : list SupLabel := [SMain; SMain; SExit 100; SMain; SArrive 100; SMain].

(** C35: [Shutdown] can return with a gateway running: a health check that was under way when the gateway was stopped takes
    the missing child for a crash and spawns a new one before it is joined, whatever the configuration. *)
Theorem shutdown_leaves_gateway (cfg : PmConfig) :
  exists s, rtc sup_step (sup_init cfg 100 0) s /\ su_main s = MReturned /\
    child_pid_ (su_mgr s) = Some 101 /\ su_children s = {[101]} /\ su_zombies s = ∅.
Proof.
  destruct (sup_run respawn_run (sup_init cfg 100 0)) as [s|] eqn:E; [|by vm_compute in E].
  exists s. split; [by eapply sup_run_steps|]. vm_compute in E. injection E as <-. by vm_compute.
Qed.

(** [Shutdown] keeps the identifier of the child it has reaped and probes it with [kill(pid, 0)]: a process that got the
    identifier in between is killed. *)
Lemma shutdown_kills_stranger (cfg : PmConfig) :
  exists s, rtc sup_step (sup_init cfg 100 0) s /\ su_victims s = {[100]}.
Proof.
  destruct (sup_run recycled_run (sup_init cfg 100 0)) as [s|] eqn:E; [|by vm_compute in E].
  exists s. split; [by eapply sup_run_steps|]. vm_compute in E. injection E as <-. reflexivity.
Qed.

(** *** Witness *)

Lemma gateway_never_orphaned_witness :
  exists s, rtc sup_step (sup_init pm_config0 100 0) s /\ su_children s = {[101]} /\
    (forall q, q ∈ su_children s -> child_pid_ (su_mgr s) = Some q) /\
    (su_main s = MGone -> su_children s = ∅) /\ exists s', rtc sup_step s s' /\ su_main s' = MGone.
Proof.
  destruct (sup_run respawn_run (sup_init pm_config0 100 0)) as [s|] eqn:E; [|vm_compute in E; discriminate E].
  exists s. assert (H : rtc sup_step (sup_init pm_config0 100 0) s) by (eapply sup_run_steps; exact E).
  split; [exact H|]. split; [vm_compute in E; injection E as <-; reflexivity|]. exact (gateway_never_orphaned pm_config0 100 0 s H).
Defined.
