(* ===== verification/Timestamp.v ===== *)
(** * Calendar arithmetic and timestamp validation

    src/storage/timestamp_util.h (days from a civil date, validation of the
    trade date with a cached yearly bound) and the inverse conversion of
    [CsvWriter::TimestampToDate] (src/storage/engine/csv_writer.cpp).  The
    years are those of the Gregorian calendar; integers are kept at their
    width where the source narrows them. *)
From S2P Require Import Prelude.

(** Source: src/storage/timestamp_util.h:19-19, kUsecsPerDay. *)
Definition kUsecsPerDay : Z := 86400000000.
(** Source: src/storage/timestamp_util.h:23-23, kMaxValidUsec. *)
Definition kMaxValidUsec : Z := 4102444800000000.
(** Source: src/storage/timestamp_util.h:27-27, kMinValidDate. *)
Definition kMinValidDate : Z := 10957.
(** Source: src/storage/timestamp_util.h:31-32, kPartitionYearForward. *)
Definition kPartitionYearForward : Z := 5.
Definition kPartitionYearBack : Z := 1.

Definition kMonthDays : list Z := [0; 31; 59; 90; 120; 151; 181; 212; 243; 273; 304; 334; 365].

Definition is_leap (year : Z) : bool :=
  (Z.rem year 4 =? 0) && (negb (Z.rem year 100 =? 0) || (Z.rem year 400 =? 0)).

(** Source: src/storage/timestamp_util.h:37-44, UtcDaysFromEpoch. *)
Definition UtcDaysFromEpoch (year month day : Z) : Z :=
  let y := year - 1 in
  let days := y * 365 + Z.quot y 4 - Z.quot y 100 + Z.quot y 400 - 719162 in
  days + (default 0 (kMonthDays !! Z.to_nat (month - 1)) + (day - 1)
          + (if is_leap year && (2 <? month) then 1 else 0)).

(** Source: src/storage/timestamp_util.h:48-53, UsecToDateInt. *)
Definition UsecToDateInt (usec_since_epoch : Z) : Z :=
  if (usec_since_epoch =? 0) || (kMaxValidUsec <? usec_since_epoch) then -1
  else i32 (usec_since_epoch / kUsecsPerDay).

(** Source: src/storage/engine/csv_writer.cpp:36-47, CsvWriter::TimestampToDate (civil date).
    Year, month and day of a day count; the [uint64_t] operations of the source. *)
Definition civil_from_days (days : Z) : Z * Z * Z :=
  let z := u64 (days + 719468) in
  let era := z / 146097 in
  let doe := u64 (z - u64 (era * 146097)) in
  let yoe := u64 (u64 (u64 (doe - doe / 1460) + doe / 36524) - doe / 146096) / 365 in
  let y := u64 (yoe + u64 (era * 400)) in
  let doy := u64 (doe - u64 (u64 (u64 (365 * yoe) + yoe / 4) - yoe / 100)) in
  let mp := u64 (u64 (5 * doy) + 2) / 153 in
  let d := u64 (u64 (doy - u64 (u64 (153 * mp) + 2) / 5) + 1) in
  let m := u64 (mp + (if mp <? 10 then 3 else -9)) in
  (u64 (y + (if m <=? 2 then 1 else 0)), m, d).

(** [gmtime_r(&now, &tm)->tm_year + 1900]: the civil year of a time in seconds. *)
Definition year_of_time (now : Z) : Z := (civil_from_days (now / 86400)).1.1.

(** The two function-local statics of [IsValidTradeDate]. *)
Record DateCache := mkDateCache { cached_max_date : Z; cached_on_day : Z }.

Definition date_cache0 : DateCache := mkDateCache 0 (-1).

(** The latest valid date of a year, as the code computes it. *)
Definition max_valid_date (cur_year : Z) : Z := UtcDaysFromEpoch (cur_year + kPartitionYearForward) 1 1 - 1.

(** Source: src/storage/timestamp_util.h:63-87, IsValidTradeDate.
    [now] is [std::time]. *)
Definition IsValidTradeDate (now trade_date : Z) (c : DateCache) : bool * DateCache :=
  if trade_date <? 0 then (false, c)
  else
    let today := i32 (now / 86400) in
    let c := if cached_on_day c =? today then c
             else mkDateCache (i32 (max_valid_date (year_of_time now))) today in
    ((kMinValidDate <=? trade_date) && (trade_date <=? cached_max_date c), c).

(** Source: src/storage/timestamp_util.h:91-93, IsValidExchangeTimestamp. *)
Definition IsValidExchangeTimestamp (now usec : Z) (c : DateCache) : bool * DateCache :=
  IsValidTradeDate now (UsecToDateInt usec) c.

(** ** The civil date, without wrap-around

    The year of the era is found by monotonicity from the first and last day of
    each of the 400 years, the month from the 366 days of a year. *)

Fixpoint all_below (n : nat) (start : Z) (p : Z -> bool) : bool :=
  match n with
  | O => true
  | S k => p start && all_below k (start + 1) p
  end.

Lemma all_below_spec n start p x : all_below n start p = true -> start <= x < start + Z.of_nat n -> p x = true.
Proof.
  revert start. induction n as [|n IH]; intros start; cbn [all_below]; [lia|].
  intros H Hx. apply andb_true_iff in H as [H1 H2].
  destruct (decide (x = start)) as [->|]; [done|]. apply (IH (start + 1)); [done|lia].
Qed.

Definition year_of_era (doe : Z) : Z := (doe - doe / 1460 + doe / 36524 - doe / 146096) / 365.
Definition year_start (y : Z) : Z := 365 * y + y / 4 - y / 100 + y / 400.

Lemma sub_div_mono x y b : 0 <= x <= y -> 1 <= b -> x - x / b <= y - y / b.
Proof.
  intros Hx Hb. assert (y / b <= (x + (y - x) * b) / b) by (apply Z.div_le_mono; nia).
  rewrite Z.div_add in H by lia. lia.
Qed.

Lemma year_of_era_mono x y : 0 <= x <= y -> year_of_era x <= year_of_era y.
Proof.
  intros Hxy. apply Z.div_le_mono; [lia|].
  pose proof (sub_div_mono x y 1460 Hxy ltac:(lia)).
  replace (x / 146096) with (x / 36524 / 4) by (rewrite Z.div_div by lia; done).
  replace (y / 146096) with (y / 36524 / 4) by (rewrite Z.div_div by lia; done).
  pose proof (sub_div_mono (x / 36524) (y / 36524) 4
    (conj (Z.div_pos x 36524 ltac:(lia) ltac:(lia)) (Z.div_le_mono x y 36524 ltac:(lia) ltac:(lia))) ltac:(lia)).
  lia.
Qed.

Definition year_ok (y : Z) : bool :=
  (year_of_era (year_start y) =? y) && (year_of_era (year_start (y + 1) - 1) =? y)
  && (year_start (y + 1) - year_start y <=? 366) && (0 <=? year_start y) && (y / 400 =? 0)
  && (UtcDaysFromEpoch (y + 2000) 3 1 =? year_start y - 719468 + 5 * 146097)
  && (UtcDaysFromEpoch (y + 2001) 1 1 =? year_start y + 306 - 719468 + 5 * 146097).

Lemma years_all_ok : all_below 400 0 year_ok = true.
Proof. vm_compute. reflexivity. Qed.

Lemma year_found n doe :
  0 <= doe -> doe < year_start (Z.of_nat n) ->
  exists y, 0 <= y < Z.of_nat n /\ year_start y <= doe < year_start (y + 1).
Proof.
  induction n as [|n IH]; intros H0 Hlt; [change (year_start (Z.of_nat 0)) with 0 in Hlt; lia|].
  destruct (Z.lt_ge_cases doe (year_start (Z.of_nat n))) as [Hl|Hge].
  - destruct (IH H0 Hl) as (y & Hy & Hr). exists y. split; [lia|done].
  - exists (Z.of_nat n). split; [lia|]. split; [done|]. by replace (Z.of_nat n + 1) with (Z.of_nat (S n)) by lia.
Qed.

(** Month (counted from March) and day of a day of the year. *)
Definition month_of (doy : Z) : Z := (5 * doy + 2) / 153.
Definition day_of (doy : Z) : Z := doy - (153 * month_of doy + 2) / 5 + 1.
Definition civil_month (doy : Z) : Z := month_of doy + (if month_of doy <? 10 then 3 else -9).

Definition doy_ok (doy : Z) : bool :=
  (0 <=? month_of doy) && (month_of doy <=? 11) && ((153 * month_of doy + 2) / 5 <=? doy)
  && (1 <=? civil_month doy) && (civil_month doy <=? 12) && (1 <=? day_of doy) && (day_of doy <=? 31)
  && (default 0 (kMonthDays !! Z.to_nat (civil_month doy - 1)) + (day_of doy - 1)
      =? if civil_month doy <=? 2 then doy - 306 else doy + 59)
  && Bool.eqb (civil_month doy <=? 2) (negb (month_of doy <? 10)).

Lemma doys_all_ok : all_below 366 0 doy_ok = true.
Proof. vm_compute. reflexivity. Qed.

Lemma UtcDays_month y m d :
  UtcDaysFromEpoch y m d = UtcDaysFromEpoch y 1 1 + (default 0 (kMonthDays !! Z.to_nat (m - 1)) + (d - 1)
    + (if is_leap y && (2 <? m) then 1 else 0)).
Proof.
  unfold UtcDaysFromEpoch. cbv zeta. change (2 <? 1) with false. rewrite andb_false_r.
  change (default 0 (kMonthDays !! Z.to_nat (1 - 1))) with 0. lia.
Qed.

Lemma UtcDays_march y : UtcDaysFromEpoch y 3 1 = UtcDaysFromEpoch y 1 1 + 59 + (if is_leap y then 1 else 0).
Proof.
  rewrite UtcDays_month. change (2 <? 3) with true. rewrite andb_true_r.
  change (default 0 (kMonthDays !! Z.to_nat (3 - 1))) with 59. destruct (is_leap y); lia.
Qed.

(** A day of an era: all the intermediate values are in range, and the civil
    date has the right day count (relative to the era that contains 2000). *)
Lemma doe_facts doe :
  0 <= doe < 146097 ->
  let yoe := year_of_era doe in
  let doy := doe - (365 * yoe + yoe / 4 - yoe / 100) in
  0 <= yoe <= 399 /\ 0 <= doy <= 365 /\ doy_ok doy = true /\
  UtcDaysFromEpoch (yoe + (if civil_month doy <=? 2 then 1 else 0) + 2000) (civil_month doy) (day_of doy)
  = doe - 719468 + 5 * 146097.
Proof.
  intros Hdoe yoe doy. destruct (year_found 400 doe) as (y & Hy & Hr); [lia|change (year_start (Z.of_nat 400)) with 146097; lia|].
  pose proof (all_below_spec _ _ _ y years_all_ok ltac:(lia)) as Hok. unfold year_ok in Hok.
  repeat (apply andb_true_iff in Hok as [Hok ?]). bool_to_prop.
  assert (Hyoe : yoe = y).
  { pose proof (year_of_era_mono (year_start y) doe ltac:(lia)).
    pose proof (year_of_era_mono doe (year_start (y + 1) - 1) ltac:(lia)). unfold yoe. lia. }
  assert (Hdoy : doy = doe - year_start y) by (unfold doy, year_start; rewrite Hyoe; lia).
  assert (Hdr : 0 <= doy <= 365) by lia.
  pose proof (all_below_spec _ _ _ doy doys_all_ok ltac:(lia)) as Hd.
  split_and!; try lia; [done|]. rewrite Hyoe. unfold doy_ok in Hd.
  repeat (apply andb_true_iff in Hd as [Hd ?]). bool_to_prop.
  rewrite UtcDays_month.
  destruct (Z.leb_spec (civil_month doy) 2) as [Hm|Hm].
  - replace (2 <? civil_month doy) with false by (symmetry; apply Z.ltb_ge; lia). rewrite andb_false_r.
    replace (y + 1 + 2000) with (y + 2001) by lia. lia.
  - replace (2 <? civil_month doy) with true by (symmetry; apply Z.ltb_lt; lia). rewrite andb_true_r.
    replace (y + 0 + 2000) with (y + 2000) by lia.
    pose proof (UtcDays_march (y + 2000)) as Hmarch. destruct (is_leap (y + 2000)); lia.
Qed.

Lemma quot_shift a b k : 0 <= a -> 0 <= k -> 0 < b -> Z.quot (a + k * b) b = Z.quot a b + k.
Proof. intros. rewrite !Z.quot_div_nonneg by nia. by rewrite Z.div_add by lia. Qed.

(** The Gregorian calendar repeats every 400 years. *)
Lemma UtcDaysFromEpoch_400 y m d k :
  1 <= y -> 0 <= k -> UtcDaysFromEpoch (y + 400 * k) m d = UtcDaysFromEpoch y m d + 146097 * k.
Proof.
  intros Hy Hk. unfold UtcDaysFromEpoch. cbv zeta.
  assert (Hl : is_leap (y + 400 * k) = is_leap y).
  { unfold is_leap. rewrite !Z.rem_mod_nonneg by lia.
    replace (y + 400 * k) with (y + (100 * k) * 4) at 1 by lia. rewrite Z_mod_plus_full.
    replace (y + 400 * k) with (y + (4 * k) * 100) at 1 by lia. rewrite Z_mod_plus_full.
    replace (y + 400 * k) with (y + k * 400) by lia. by rewrite Z_mod_plus_full. }
  rewrite Hl. replace (y + 400 * k - 1) with (y - 1 + 400 * k) by lia.
  replace (Z.quot (y - 1 + 400 * k) 4) with (Z.quot (y - 1) 4 + 100 * k)
    by (rewrite <- quot_shift by lia; f_equal; lia).
  replace (Z.quot (y - 1 + 400 * k) 100) with (Z.quot (y - 1) 100 + 4 * k)
    by (rewrite <- quot_shift by lia; f_equal; lia).
  replace (Z.quot (y - 1 + 400 * k) 400) with (Z.quot (y - 1) 400 + k)
    by (rewrite <- quot_shift by lia; f_equal; lia).
  lia.
Qed.

Lemma u64_small x : 0 <= x < 2 ^ 64 -> u64 x = x.
Proof. apply wrap_small. Qed.

(** The wrap-around never happens: the unsigned computation is the integer one. *)
Lemma civil_from_days_exact days :
  0 <= days < 2 ^ 40 ->
  let era := (days + 719468) / 146097 in
  let doe := (days + 719468) mod 146097 in
  let yoe := year_of_era doe in
  let doy := doe - (365 * yoe + yoe / 4 - yoe / 100) in
  civil_from_days days
  = (yoe + 400 * era + (if civil_month doy <=? 2 then 1 else 0), civil_month doy, day_of doy).
Proof.
  intros Hd era doe yoe doy.
  assert (Hera : 0 <= era < 2 ^ 40) by (unfold era; split; [apply Z.div_pos; lia|apply Z.div_lt_upper_bound; lia]).
  assert (Hdoe : 0 <= doe < 146097) by (apply Z.mod_pos_bound; lia).
  assert (Hz : days + 719468 = 146097 * era + doe) by (apply Z.div_mod; lia).
  destruct (doe_facts doe Hdoe) as (Hyoe & Hdoy & Hok & _). fold yoe in Hyoe, Hdoy, Hok. fold doy in Hdoy, Hok.
  unfold doy_ok in Hok. repeat (apply andb_true_iff in Hok as [Hok ?]). bool_to_prop.
  assert (Hq : doe / 1460 <= doe /\ 0 <= doe / 1460 /\ 0 <= doe / 36524 <= 4 /\ 0 <= doe / 146096 <= doe - doe / 1460 + doe / 36524).
  { split_and!; try (apply Z.div_pos; lia); [apply Z.div_le_upper_bound; lia
      |apply Z.lt_succ_r, Z.div_lt_upper_bound; lia|].
    pose proof (year_of_era_mono 0 doe ltac:(lia)). unfold year_of_era in H. change (0 / 1460) with 0 in H.
    destruct (Z.lt_ge_cases (doe - doe / 1460 + doe / 36524 - doe / 146096) 0) as [Hn|]; [|lia].
    assert ((doe - doe / 1460 + doe / 36524 - doe / 146096) / 365 < 0) by (apply Z.div_lt_upper_bound; lia).
    unfold yoe, year_of_era in Hyoe. lia. }
  assert (Hy4 : 0 <= yoe / 4 <= 399 /\ 0 <= yoe / 100 <= 3).
  { split; (split; [apply Z.div_pos; lia|]); [apply Z.div_le_upper_bound; lia|apply Z.lt_succ_r, Z.div_lt_upper_bound; lia]. }
  assert (Hy100 : yoe / 100 <= yoe) by (apply Z.div_le_upper_bound; lia).
  assert (Hmp : 0 <= (153 * month_of doy + 2) / 5) by (apply Z.div_pos; lia).
  unfold civil_from_days. cbv zeta.
  rewrite (u64_small (days + 719468)) by lia. fold era.
  rewrite (u64_small (era * 146097)) by lia.
  replace (days + 719468 - era * 146097) with doe by lia. rewrite (u64_small doe) by lia.
  rewrite (u64_small (doe - doe / 1460)), (u64_small (doe - doe / 1460 + doe / 36524)) by lia.
  rewrite (u64_small (doe - doe / 1460 + doe / 36524 - doe / 146096)) by lia.
  change ((doe - doe / 1460 + doe / 36524 - doe / 146096) / 365) with yoe.
  rewrite (u64_small (365 * yoe)), (u64_small (365 * yoe + yoe / 4)), (u64_small (365 * yoe + yoe / 4 - yoe / 100)) by lia.
  fold doy. rewrite (u64_small doy) by lia.
  rewrite (u64_small (5 * doy)), (u64_small (5 * doy + 2)) by lia. fold (month_of doy).
  rewrite (u64_small (153 * month_of doy)), (u64_small (153 * month_of doy + 2)) by lia.
  rewrite (u64_small (doy - (153 * month_of doy + 2) / 5)) by lia. fold (day_of doy). fold (civil_month doy).
  rewrite (u64_small (civil_month doy)), (u64_small (day_of doy)) by lia.
  rewrite (u64_small (era * 400)), (u64_small (yoe + era * 400)) by lia.
  replace (yoe + era * 400) with (yoe + 400 * era) by lia.
  rewrite u64_small by (destruct (civil_month doy <=? 2); lia). done.
Qed.

(** The civil date of a day has that day count, with month and day in range. *)
Lemma civil_roundtrip days y m d :
  0 <= days < 2 ^ 40 -> civil_from_days days = (y, m, d) ->
  UtcDaysFromEpoch y m d = days /\ 1 <= m <= 12 /\ 1 <= d <= 31 /\ 1600 <= y.
Proof.
  intros Hd Hc. rewrite civil_from_days_exact in Hc by done. injection Hc as <- <- <-.
  set (era := (days + 719468) / 146097). set (doe := (days + 719468) mod 146097).
  set (yoe := year_of_era doe). set (doy := doe - (365 * yoe + yoe / 4 - yoe / 100)).
  assert (Hdoe : 0 <= doe < 146097) by (apply Z.mod_pos_bound; lia).
  assert (Hz : days + 719468 = 146097 * era + doe) by (apply Z.div_mod; lia).
  assert (Hera : 4 <= era) by (apply Z.div_le_lower_bound; lia).
  destruct (doe_facts doe Hdoe) as (Hyoe & Hdoy & Hok & Hutc). fold yoe in Hyoe, Hdoy, Hok, Hutc. fold doy in Hdoy, Hok, Hutc.
  unfold doy_ok in Hok. repeat (apply andb_true_iff in Hok as [Hok ?]). bool_to_prop.
  set (b := if civil_month doy <=? 2 then 1 else 0) in *.
  assert (Hb : 0 <= b <= 1) by (unfold b; destruct (civil_month doy <=? 2); lia).
  assert (Hdays : UtcDaysFromEpoch (yoe + 400 * era + b) (civil_month doy) (day_of doy) = days).
  { replace (yoe + 400 * era + b) with (yoe + b + 1600 + 400 * (era - 4)) by lia.
    rewrite UtcDaysFromEpoch_400 by lia.
    replace (yoe + b + 2000) with (yoe + b + 1600 + 400 * 1) in Hutc by lia.
    rewrite UtcDaysFromEpoch_400 in Hutc by lia. lia. }
  split_and!; (done || lia).
Qed.

(** ** Validation *)

(** The cache holds the bound of the day it was filled on. *)
Definition cache_ok (c : DateCache) : Prop :=
  cached_on_day c = -1 \/
  (0 <= cached_on_day c /\ cached_max_date c = i32 (max_valid_date (civil_from_days (cached_on_day c)).1.1)).

(** The check without the cache. *)
Definition valid_trade_date (now trade_date : Z) : bool :=
  (kMinValidDate <=? trade_date) && (trade_date <=? i32 (max_valid_date (year_of_time now))).

Lemma i32_small x : - 2 ^ 31 <= x < 2 ^ 31 -> i32 x = x.
Proof. intros Hx. unfold swrap. rewrite Z.mod_small; lia. Qed.

Lemma IsValidTradeDate_cached now d c :
  0 <= now < 2 ^ 46 -> cache_ok c ->
  (IsValidTradeDate now d c).1 = valid_trade_date now d /\ cache_ok (IsValidTradeDate now d c).2.
Proof.
  intros Hnow Hc. unfold IsValidTradeDate, valid_trade_date.
  destruct (Z.ltb_spec d 0) as [Hneg|Hpos].
  { split; [|done]. cbn [fst]. replace (kMinValidDate <=? d) with false; [done|]. symmetry. apply Z.leb_gt. unfold kMinValidDate. lia. }
  cbv zeta. assert (Hday : 0 <= now / 86400 < 2 ^ 30) by (split; [apply Z.div_pos; lia|apply Z.div_lt_upper_bound; lia]).
  rewrite i32_small by lia. cbn [fst snd].
  destruct (Z.eqb_spec (cached_on_day c) (now / 86400)) as [He|Hne].
  - split; [|done]. destruct Hc as [Hc|[_ Hc]]; [lia|]. unfold year_of_time. rewrite Hc, He. reflexivity.
  - split; [reflexivity|]. right. cbn [cached_on_day cached_max_date]. split; [lia|reflexivity].
Qed.

Lemma quot_succ_leap y : 0 <= y ->
  Z.quot (y + 1) 4 - Z.quot (y + 1) 100 + Z.quot (y + 1) 400
  = Z.quot y 4 - Z.quot y 100 + Z.quot y 400 + (if is_leap (y + 1) then 1 else 0).
Proof.
  intros Hy. rewrite !Z.quot_div_nonneg by lia. unfold is_leap. rewrite !Z.rem_mod_nonneg by lia.
  assert (Hs : forall b, 1 < b -> (y + 1) / b = y / b + (if (y + 1) mod b =? 0 then 1 else 0)).
  { intros b Hb. pose proof (Z.div_mod y b ltac:(lia)) as H1. pose proof (Z.mod_pos_bound y b ltac:(lia)).
    destruct (decide (y mod b = b - 1)) as [He|Hne].
    - assert (Hm : (y + 1) mod b = 0) by (symmetry; apply (Z.mod_unique_pos _ _ (y / b + 1)); lia).
      rewrite Hm. simpl. symmetry. apply (Z.div_unique_pos _ _ _ 0); lia.
    - assert (Hm : (y + 1) mod b = y mod b + 1) by (symmetry; apply (Z.mod_unique_pos _ _ (y / b)); lia).
      rewrite Hm. destruct (Z.eqb_spec (y mod b + 1) 0); [lia|]. rewrite Z.add_0_r.
      symmetry. apply (Z.div_unique_pos _ _ _ (y mod b + 1)); lia. }
  rewrite !Hs by lia.
  assert (H400 : (y + 1) mod 400 = 0 -> (y + 1) mod 100 = 0).
  { intros H. apply Z.mod_divide in H; [|lia]. apply Z.mod_divide; [lia|]. etrans; [|exact H]. by exists 4. }
  assert (H100 : (y + 1) mod 100 = 0 -> (y + 1) mod 4 = 0).
  { intros H. apply Z.mod_divide in H; [|lia]. apply Z.mod_divide; [lia|]. etrans; [|exact H]. by exists 25. }
  destruct (Z.eqb_spec ((y + 1) mod 4) 0), (Z.eqb_spec ((y + 1) mod 100) 0), (Z.eqb_spec ((y + 1) mod 400) 0); simpl; try lia; tauto.
Qed.

(** New Year follows 31 December. *)
Lemma new_year y : 0 <= y -> UtcDaysFromEpoch (y + 2) 1 1 = UtcDaysFromEpoch (y + 1) 12 31 + 1.
Proof.
  intros Hy. rewrite (UtcDays_month (y + 1) 12 31). unfold UtcDaysFromEpoch. cbv zeta.
  change (2 <? 1) with false. change (2 <? 12) with true. rewrite !andb_false_r, andb_true_r.
  change (default 0 (kMonthDays !! Z.to_nat (1 - 1))) with 0.
  change (default 0 (kMonthDays !! Z.to_nat (12 - 1))) with 334.
  replace (y + 2 - 1) with (y + 1) by lia. replace (y + 1 - 1) with y by lia.
  pose proof (quot_succ_leap y Hy). destruct (is_leap (y + 1)); lia.
Qed.

Lemma month_days_nonneg i : 0 <= default 0 (kMonthDays !! i).
Proof. do 13 (destruct i as [|i]; [simpl; lia|]). simpl. lia. Qed.

(** C30: Calendar round trip: for every day count below [2^40] the date
    that names the CSV files (year, month, day computed with unsigned 64-bit
    arithmetic, no intermediate wraps) is a date whose day count, by the
    schema's [UtcDaysFromEpoch], is the day it came from; month and day are in
    range, so the clamps of the formatter never act. *)
Theorem civil_date_roundtrip (days y m d : Z) :
  0 <= days < 2 ^ 40 -> civil_from_days days = (y, m, d) ->
  UtcDaysFromEpoch y m d = days /\ 1 <= m <= 12 /\ 1 <= d <= 31 /\ 1600 <= y.
Proof. apply civil_roundtrip. Qed.

(** A history of validations: the clock of each call and the date asked about. *)
Definition run_validations (calls : list (Z * Z)) (c : DateCache) : list bool * DateCache :=
  fold_left (fun s x => let '(ok, c) := IsValidTradeDate x.1 x.2 s.2 in (s.1 ++ [ok], c)) calls ([], c).

(** C31: The cached validation equals the uncached one: in any history of
    calls, whatever the clock does (it may also go backwards), each answer is
    the range check against the bound of the current year. *)
Theorem cached_validation_exact (calls : list (Z * Z)) :
  Forall (fun x => 0 <= x.1 < 2 ^ 46) calls ->
  (run_validations calls date_cache0).1 = (fun x => valid_trade_date x.1 x.2) <$> calls.
Proof.
  intros Hc. unfold run_validations.
  assert (Hgen : forall acc c, cache_ok c ->
    (fold_left (fun s x => let '(ok, c) := IsValidTradeDate x.1 x.2 s.2 in (s.1 ++ [ok], c)) calls (acc, c)).1
    = acc ++ ((fun x => valid_trade_date x.1 x.2) <$> calls)).
  { induction Hc as [|[now d] calls Hx _ IH]; intros acc c Hok; csimpl; [by rewrite app_nil_r|].
    destruct (IsValidTradeDate_cached now d c Hx Hok) as [H1 H2].
    destruct (IsValidTradeDate now d c) as [ok c']. simpl in H1, H2. rewrite IH by done.
    rewrite <- app_assoc. by rewrite H1. }
  rewrite Hgen; [done|]. by left.
Qed.

(** The years of times up to 2^36 seconds, and their bounds fit an [int]. *)
Lemma year_of_time_range now :
  0 <= now < 2 ^ 36 -> 1 <= year_of_time now <= 8000 /\ - 2 ^ 31 <= max_valid_date (year_of_time now) < 2 ^ 31.
Proof.
  intros Hnow.
  assert (Hdays : 0 <= now / 86400 < 2 ^ 20) by (split; [apply Z.div_pos; lia|apply Z.div_lt_upper_bound; lia]).
  unfold year_of_time. destruct (civil_from_days (now / 86400)) as [[y m] d] eqn:E.
  destruct (civil_roundtrip (now / 86400) y m d ltac:(lia) E) as (Hutc & Hmr & Hdr & Hy). cbn [fst].
  assert (Hyb : y <= 8000).
  { rewrite UtcDays_month in Hutc. unfold UtcDaysFromEpoch in Hutc. cbv zeta in Hutc.
    rewrite !Z.quot_div_nonneg in Hutc by lia.
    change (2 <? 1) with false in Hutc. rewrite andb_false_r in Hutc.
    change (default 0 (kMonthDays !! Z.to_nat (1 - 1))) with 0 in Hutc.
    pose proof (month_days_nonneg (Z.to_nat (m - 1))).
    assert (0 <= (y - 1) / 400 /\ (y - 1) / 100 <= (y - 1) / 4).
    { split; [apply Z.div_pos; lia|]. apply Z.div_le_compat_l; lia. }
    destruct (is_leap y && (2 <? m)); lia. }
  split; [lia|].
  unfold max_valid_date, kPartitionYearForward, UtcDaysFromEpoch. cbv zeta.
  change (2 <? 1) with false. rewrite andb_false_r.
  change (default 0 (kMonthDays !! Z.to_nat (1 - 1))) with 0. rewrite !Z.quot_div_nonneg by lia.
  assert (0 <= (y + 5 - 1) / 4 <= 10000 /\ 0 <= (y + 5 - 1) / 100 <= 10000 /\ 0 <= (y + 5 - 1) / 400 <= 10000).
  { split_and!; try (apply Z.div_pos; lia); apply Z.div_le_upper_bound; lia. }
  lia.
Qed.

(** No day of a year comes before its first. *)
Lemma UtcDays_first y m d : 1 <= d -> UtcDaysFromEpoch y 1 1 <= UtcDaysFromEpoch y m d.
Proof.
  intros Hd. rewrite (UtcDays_month y m d). pose proof (month_days_nonneg (Z.to_nat (m - 1))).
  destruct (is_leap y && (2 <? m)); lia.
Qed.

(** The window really ends on 31 December of the fourth year after the
    current one, a year before the end the documentation of the check states:
    every day of year [current + kPartitionYearForward] is rejected. *)
Theorem validation_window_end (now month day : Z) :
  0 <= now < 2 ^ 36 -> 1 <= month <= 12 -> 1 <= day ->
  max_valid_date (year_of_time now) = UtcDaysFromEpoch (year_of_time now + 4) 12 31 /\
  valid_trade_date now (UtcDaysFromEpoch (year_of_time now + kPartitionYearForward) month day) = false.
Proof.
  intros Hnow Hm Hday. destruct (year_of_time_range now Hnow) as [Hy Hrange]. unfold valid_trade_date.
  set (y := year_of_time now) in *. split.
  - unfold max_valid_date, kPartitionYearForward. pose proof (new_year (y + 3) ltac:(lia)) as Hn.
    replace (y + 3 + 2) with (y + 5) in Hn by lia. replace (y + 3 + 1) with (y + 4) in Hn by lia. lia.
  - rewrite i32_small by done. apply andb_false_iff. right. apply Z.leb_gt.
    unfold max_valid_date. pose proof (UtcDays_first (y + kPartitionYearForward) month day Hday). lia.
Qed.

(** *** Witnesses *)

Lemma civil_date_roundtrip_witness :
  civil_from_days 20454 = (2026, 1, 1) /\ UtcDaysFromEpoch 2026 1 1 = 20454.
Proof.
  assert (H : civil_from_days 20454 = (2026, 1, 1)) by (vm_compute; reflexivity).
  split; [exact H|]. exact (proj1 (civil_date_roundtrip 20454 2026 1 1 ltac:(lia) H)).
Defined.

(** Two calls on 2026-01-01, one the day before. *)
Lemma cached_validation_exact_witness :
  (run_validations [(1767225600, 20454); (1767225601, 9000); (1767225599, 21914)] date_cache0).1
  = [true; false; true].
Proof.
  rewrite cached_validation_exact; [vm_compute; reflexivity|].
  repeat constructor; simpl; lia.
Defined.

(** In January 2026 (year 2026), 1 June 2031 is rejected. *)
Lemma validation_window_end_witness :
  max_valid_date (year_of_time 1767225600) = UtcDaysFromEpoch (year_of_time 1767225600 + 4) 12 31 /\
  valid_trade_date 1767225600 (UtcDaysFromEpoch (year_of_time 1767225600 + kPartitionYearForward) 6 1) = false.
Proof. apply (validation_window_end 1767225600 6 1); lia. Defined.
