(* ===== verification/Csv.v ===== *)
(** * CSV storage

    [CsvWriter] (src/storage/engine/csv_writer.cpp) writes the trades, order
    books and book tickers of one channel to files that rotate with the UTC
    date of the events; [CsvBackend] (src/storage/backend/csv_backend.cpp) keeps
    one writer per channel.  The file system maps paths to the rows written; an
    output stream is the path it appends to, and [can_open] says which paths the
    operating system opens.  [fmt] turns a row into text and is not
    modelled: a row is kept as the values it is formatted from. *)
From S2P Require Import Prelude Doubles Events Timestamp Paths.

Inductive Row :=
| TradeHeader
| TradeRow (ts diff : Z) (price qty : double) (direction : Z)
| BookHeader (depth_level : nat)
| BookRow (ts local_ts : Z) (levels : list (PriceLevel * PriceLevel))   (* ask, bid *)
| TickerHeader
| TickerRow (ts diff : Z) (symbol : list ascii) (bid_price bid_qty ask_price ask_qty : double).

Abbreviation FileSystem := (gmap string (list Row)).

(** ** Paths and dates *)

(** Source: src/storage/engine/csv_writer.cpp:36-56, CsvWriter::TimestampToDate. *)
Definition TimestampToDate (usec_since_epoch : Z) : string :=
  let '(y, m, d) := civil_from_days (usec_since_epoch / kUsecsPerDay) in
  let year := Z.min y 9999 in
  let month := Z.max 1 (Z.min m 12) in
  let day := Z.max 1 (Z.min d 31) in
  four_digits year (String "-" (two_digits month (String "-" (two_digits day "")))).

Definition trades_path (dir : string) (ts : Z) : string := (dir ++ "trades_" ++ TimestampToDate ts ++ ".csv")%string.
Definition orderbook_path (dir : string) (ts : Z) : string := (dir ++ "orderbook_" ++ TimestampToDate ts ++ ".csv")%string.
Definition bookticker_path (dir : string) (ts : Z) : string := (dir ++ "bookticker_" ++ TimestampToDate ts ++ ".csv")%string.

(** ** The writer *)

(** Source: src/storage/engine/csv_writer.h:43-50, CsvWriter (data members).
    A stream is the path it is open on. *)
Record CsvWriter := mkCsvWriter {
  dir_ : string;
  trade_file_ : option string;
  orderbook_file_ : option string;
  bookticker_file_ : option string;
  current_date_day_ : Z;
  depth_level_ : nat;
  header_written_ : bool
}.

Definition csv0 : CsvWriter := mkCsvWriter "" None None None UINT64_MAX 0 false.

Section csv.
(** Which directories and files the operating system lets us create and open. *)
Context (mkdir_ok : string -> bool) (can_open : string -> bool).

(** Source: src/storage/engine/csv_writer.cpp:17-34, CsvWriter::Open. *)
Definition CsvOpen (trade_root exchange type symbol : string) (w : CsvWriter) : bool * CsvWriter :=
  let dir := (EnsureTrailingSlash trade_root ++ exchange ++ "/" ++ type ++ "/" ++ symbol ++ "/")%string in
  let w := mkCsvWriter dir (trade_file_ w) (orderbook_file_ w) (bookticker_file_ w) (current_date_day_ w)
             (depth_level_ w) (header_written_ w) in
  if EnsureDirExists mkdir_ok dir
  then (true, mkCsvWriter dir (trade_file_ w) (orderbook_file_ w) (bookticker_file_ w) UINT64_MAX
                (depth_level_ w) (header_written_ w))
  else (false, w).

(** Opening for append creates a missing file. *)
Definition touch (path : string) (fs : FileSystem) : FileSystem :=
  match fs !! path with Some _ => fs | None => <[path := []]> fs end.

(** [stream << row]; nothing happens on a closed stream. *)
Definition write (stream : option string) (rows : list Row) (fs : FileSystem) : FileSystem :=
  match stream with
  | Some p => <[p := default [] (fs !! p) ++ rows]> fs
  | None => fs
  end.

(** [seekp(0, end); tellp() == 0] *)
Definition is_empty (path : string) (fs : FileSystem) : bool :=
  match fs !! path with Some (_ :: _) => false | _ => true end.

(** Source: src/storage/engine/csv_writer.cpp:149-167, CsvWriter::Close. *)
Definition CsvClose (w : CsvWriter) : CsvWriter :=
  mkCsvWriter (dir_ w) None None None (current_date_day_ w) 0 false.

(** Source: src/storage/engine/csv_writer.cpp:58-104, CsvWriter::RotateIfNeeded. *)
Definition RotateIfNeeded (exchange_ts : Z) (s : CsvWriter * FileSystem) : bool * (CsvWriter * FileSystem) :=
  let '(w, fs) := s in
  let exchange_ts := if exchange_ts =? 0 then 1 else exchange_ts in
  let day := exchange_ts / kUsecsPerDay in
  if (day =? current_date_day_ w) && bool_decide (is_Some (trade_file_ w)) then (true, (w, fs))
  else
    let w := CsvClose w in
    let w := mkCsvWriter (dir_ w) None None None day 0 false in
    let tp := trades_path (dir_ w) exchange_ts in
    if negb (can_open tp) then (false, (w, fs))
    else
      let fs := touch tp fs in
      let fs := if is_empty tp fs then write (Some tp) [TradeHeader] fs else fs in
      let op := orderbook_path (dir_ w) exchange_ts in
      if negb (can_open op) then (false, (w, fs))       (* trade_file_ closed again *)
      else
        let fs := touch op fs in
        (* if(tellp() == 0) header_written_ = false: Close has already reset it *)
        let bp := bookticker_path (dir_ w) exchange_ts in
        if negb (can_open bp) then (false, (w, fs))     (* both closed again *)
        else
          let fs := touch bp fs in
          let fs := if is_empty bp fs then write (Some bp) [TickerHeader] fs else fs in
          (true, (mkCsvWriter (dir_ w) (Some tp) (Some op) (Some bp) day 0 false, fs)).

(** Source: src/storage/engine/csv_writer.cpp:106-113, CsvWriter::AppendTick. *)
Definition AppendTick (t : TickData) (s : CsvWriter * FileSystem) : CsvWriter * FileSystem :=
  match RotateIfNeeded (tk_exchange_timestamp t) s with
  | (false, s) => s
  | (true, (w, fs)) =>
      (w, write (trade_file_ w)
            [TradeRow (tk_exchange_timestamp t) (tk_local_diff t) (tk_price t) (tk_quantity t)
               (if tk_is_buyer_maker t then -1 else 1)] fs)
  end.

(** [i < count ? levels[i] : 0.0] for both sides. *)
Definition book_row_levels (e : DepthUpdateEvent) (depth : nat) : list (PriceLevel * PriceLevel) :=
  (fun i => (if (i <? dp_ask_count e)%nat then dp_asks e !!! i else level0,
             if (i <? dp_bid_count e)%nat then dp_bids e !!! i else level0)) <$> seq 0 depth.

(** Source: src/storage/engine/csv_writer.cpp:115-137, CsvWriter::AppendOrderbook. *)
Definition AppendOrderbook (e : DepthUpdateEvent) (local_ts : Z) (depth_level : nat) (s : CsvWriter * FileSystem)
    : CsvWriter * FileSystem :=
  match RotateIfNeeded (dp_exchange_timestamp e) s with
  | (false, s) => s
  | (true, (w, fs)) =>
      match orderbook_file_ w with
      | None => (w, fs)
      | Some _ =>
          let '(w, fs) :=
            if header_written_ w then (w, fs)
            else (mkCsvWriter (dir_ w) (trade_file_ w) (orderbook_file_ w) (bookticker_file_ w) (current_date_day_ w)
                    depth_level true,
                  write (orderbook_file_ w) [BookHeader depth_level] fs) in
          (w, write (orderbook_file_ w) [BookRow (dp_exchange_timestamp e) local_ts (book_row_levels e (depth_level_ w))] fs)
      end
  end.

(** Source: src/storage/engine/csv_writer.cpp:139-147, CsvWriter::AppendBookTicker. *)
Definition AppendBookTicker (e : BookTickerEvent) (s : CsvWriter * FileSystem) : CsvWriter * FileSystem :=
  match RotateIfNeeded (bt_exchange_timestamp e) s with
  | (false, s) => s
  | (true, (w, fs)) =>
      match bookticker_file_ w with
      | None => (w, fs)
      | Some _ =>
          (w, write (bookticker_file_ w)
                [TickerRow (bt_exchange_timestamp e) (bt_local_diff e) (bt_symbol e) (bt_best_bid_price e)
                   (bt_best_bid_qty e) (bt_best_ask_price e) (bt_best_ask_qty e)] fs)
      end
  end.

(** ** The backend *)

(** Source: src/storage/backend/csv_backend.h:40-44, CsvBackend (data members). *)
Record CsvBackend := mkCsvBackend { output_root_ : string; writers_ : gmap Z CsvWriter; csv_fs : FileSystem }.

(** Source: src/storage/backend/csv_backend.cpp:8-18, CsvBackend::RegisterChannel.
    [emplace] keeps an entry that is already there. *)
Definition CsvRegisterChannel (channel_id : Z) (exchange market_type symbol : string) (b : CsvBackend) : CsvBackend :=
  match CsvOpen (output_root_ b) exchange market_type symbol csv0 with
  | (true, w) => match writers_ b !! channel_id with
                 | Some _ => b
                 | None => mkCsvBackend (output_root_ b) (<[channel_id := w]> (writers_ b)) (csv_fs b)
                 end
  | (false, _) => b
  end.

(** The dispatch the three inserts share: find the writer, run it, store it back. *)
Definition csv_dispatch (channel_id : Z) (f : CsvWriter * FileSystem -> CsvWriter * FileSystem) (b : CsvBackend) : CsvBackend :=
  match writers_ b !! channel_id with
  | None => b
  | Some w => let '(w', fs') := f (w, csv_fs b) in
              mkCsvBackend (output_root_ b) (<[channel_id := w']> (writers_ b)) fs'
  end.

(** Source: src/storage/backend/csv_backend.cpp:20-28, CsvBackend::InsertTick. *)
Definition CsvInsertTick (t : TickData) (b : CsvBackend) : CsvBackend :=
  csv_dispatch (tk_channel_id t) (AppendTick t) b.

(** Source: src/storage/backend/csv_backend.cpp:30-35, CsvBackend::InsertOrderbook. *)
Definition CsvInsertOrderbook (e : DepthUpdateEvent) (local_ts : Z) (depth_level : nat) (b : CsvBackend) : CsvBackend :=
  csv_dispatch (dp_channel_id e) (AppendOrderbook e local_ts depth_level) b.

(** Source: src/storage/backend/csv_backend.cpp:37-42, CsvBackend::InsertBookTicker. *)
Definition CsvInsertBookTicker (e : BookTickerEvent) (b : CsvBackend) : CsvBackend :=
  csv_dispatch (bt_channel_id e) (AppendBookTicker e) b.

(** Source: src/storage/backend/csv_backend.cpp:44-47, CsvBackend::FlushAndClose. *)
Definition CsvFlushAndClose (b : CsvBackend) : CsvBackend :=
  mkCsvBackend (output_root_ b) (CsvClose <$> writers_ b) (csv_fs b).
End csv.

(** ** Paths are distinct *)

Lemma append_cancel_l (a b c : string) : (a ++ b)%string = (a ++ c)%string -> b = c.
Proof. induction a as [|x a IH]; [done|]. intros H. injection H as H. by apply IH. Qed.

Lemma trades_ne_orderbook dir t t' : trades_path dir t <> orderbook_path dir t'.
Proof. intros H. by apply append_cancel_l in H. Qed.
Lemma trades_ne_bookticker dir t t' : trades_path dir t <> bookticker_path dir t'.
Proof. intros H. by apply append_cancel_l in H. Qed.
Lemma orderbook_ne_bookticker dir t t' : orderbook_path dir t <> bookticker_path dir t'.
Proof. intros H. by apply append_cancel_l in H. Qed.

(** Timestamps of the same UTC day name the same files. *)
Lemma same_day_paths dir t t' :
  t / kUsecsPerDay = t' / kUsecsPerDay ->
  trades_path dir t = trades_path dir t' /\ orderbook_path dir t = orderbook_path dir t' /\
  bookticker_path dir t = bookticker_path dir t'.
Proof. intros H. unfold trades_path, orderbook_path, bookticker_path, TimestampToDate. by rewrite H. Qed.

(** [if(exchange_ts == 0) exchange_ts = 1] does not change the day. *)
Lemma zero_ts_day ts : (if ts =? 0 then 1 else ts) / kUsecsPerDay = ts / kUsecsPerDay.
Proof. destruct (Z.eqb_spec ts 0) as [->|]; done. Qed.

(** ** The writer's invariant *)

(** Where a row belongs. *)
Definition row_home (dir : string) (r : Row) (p : string) : Prop :=
  match r with
  | TradeRow ts _ _ _ _ => p = trades_path dir ts
  | BookRow ts _ _ => p = orderbook_path dir ts
  | TickerRow ts _ _ _ _ _ _ => p = bookticker_path dir ts
  | TradeHeader => exists ts, p = trades_path dir ts
  | BookHeader _ => exists ts, p = orderbook_path dir ts
  | TickerHeader => exists ts, p = bookticker_path dir ts
  end.

Definition rows_filed (dir : string) (fs : FileSystem) : Prop :=
  map_Forall (fun p rows => Forall (fun r => row_home dir r p) rows) fs.

(** The three streams are open on the files of the current day, or all closed. *)
Definition streams_ok (w : CsvWriter) (fs : FileSystem) : Prop :=
  (trade_file_ w = None /\ orderbook_file_ w = None /\ bookticker_file_ w = None) \/
  (exists ts, current_date_day_ w = ts / kUsecsPerDay /\
     trade_file_ w = Some (trades_path (dir_ w) ts) /\ is_empty (trades_path (dir_ w) ts) fs = false /\
     orderbook_file_ w = Some (orderbook_path (dir_ w) ts) /\
     bookticker_file_ w = Some (bookticker_path (dir_ w) ts)).

Definition csv_ok (s : CsvWriter * FileSystem) : Prop := streams_ok s.1 s.2 /\ rows_filed (dir_ s.1) s.2.

Lemma write_filed dir p rows fs :
  Forall (fun r => row_home dir r p) rows -> rows_filed dir fs -> rows_filed dir (write (Some p) rows fs).
Proof.
  intros Hr Hf. apply map_Forall_insert_2; [|done]. apply Forall_app. split; [|done].
  destruct (fs !! p) as [old|] eqn:E; simpl; [|constructor]. by apply (Hf p).
Qed.

Lemma touch_filed dir p fs : rows_filed dir fs -> rows_filed dir (touch p fs).
Proof.
  intros Hf. unfold touch. destruct (fs !! p); [done|]. apply map_Forall_insert_2; [constructor|done].
Qed.

Lemma write_nonempty p p' rows fs :
  is_empty p fs = false \/ (p = p' /\ rows <> []) -> is_empty p (write (Some p') rows fs) = false.
Proof.
  intros H. unfold is_empty, write. destruct (decide (p = p')) as [->|Hne].
  - rewrite lookup_insert_eq. destruct H as [H|[_ H]].
    + unfold is_empty in H. destruct (fs !! p') as [[|]|]; done.
    + by destruct (default [] (fs !! p')), rows.
  - rewrite lookup_insert_ne by done. destruct H as [H|[? _]]; done.
Qed.

Lemma touch_nonempty p p' fs : is_empty p fs = false -> is_empty p (touch p' fs) = false.
Proof.
  intros H. unfold touch. destruct (fs !! p') eqn:E; [done|]. unfold is_empty in *.
  rewrite lookup_insert_ne; [done|]. intros <-. by rewrite E in H.
Qed.

(** Header of a file that was just opened. *)
Definition with_header (p : string) (h : Row) (fs : FileSystem) : FileSystem :=
  if is_empty p (touch p fs) then write (Some p) [h] (touch p fs) else touch p fs.

Lemma with_header_nonempty p h fs : is_empty p (with_header p h fs) = false.
Proof.
  unfold with_header. destruct (is_empty p (touch p fs)) eqn:E; [|done]. apply write_nonempty. by right.
Qed.

Lemma with_header_keeps p p' h fs : is_empty p fs = false -> is_empty p (with_header p' h fs) = false.
Proof.
  intros H. unfold with_header. apply (touch_nonempty p p') in H.
  destruct (is_empty p' (touch p' fs)); [|done]. apply write_nonempty. by left.
Qed.

Lemma with_header_filed dir p h fs : row_home dir h p -> rows_filed dir fs -> rows_filed dir (with_header p h fs).
Proof.
  intros Hh Hf. unfold with_header. apply (touch_filed dir p) in Hf.
  destruct (is_empty p (touch p fs)); [|done]. apply write_filed; [by constructor|done].
Qed.

Section csv_proofs.
Context (can_open : string -> bool).

(** The three outcomes of a rotation: nothing to do, a failed open, or fresh streams. *)
Lemma RotateIfNeeded_ok ts s ok w fs :
  csv_ok s -> RotateIfNeeded can_open ts s = (ok, (w, fs)) ->
  csv_ok (w, fs) /\ dir_ w = dir_ s.1 /\
  (ok = true -> trade_file_ w = Some (trades_path (dir_ w) ts) /\
     orderbook_file_ w = Some (orderbook_path (dir_ w) ts) /\ bookticker_file_ w = Some (bookticker_path (dir_ w) ts)).
Proof.
  destruct s as [w0 fs0]. intros [Hs Hf] Hr. simpl in Hf. unfold RotateIfNeeded in Hr.
  rewrite zero_ts_day in Hr. set (ts' := if ts =? 0 then 1 else ts) in *.
  assert (Hday : ts' / kUsecsPerDay = ts / kUsecsPerDay) by apply zero_ts_day.
  destruct (same_day_paths (dir_ w0) ts' ts Hday) as (Hpt & Hpo & Hpb).
  destruct ((ts / kUsecsPerDay =? current_date_day_ w0) && bool_decide (is_Some (trade_file_ w0))) eqn:E.
  { injection Hr as <- <- <-. split_and!; [done|done|]. intros _.
    apply andb_true_iff in E as [E1 E2]. apply Z.eqb_eq in E1. apply bool_decide_eq_true in E2 as [p Hp].
    destruct Hs as [(Hn & _)|(t & Hd & Ht & _ & Ho & Hb)]; [simpl in *; congruence|]. simpl in *.
    destruct (same_day_paths (dir_ w0) t ts ltac:(congruence)) as (H1 & H2 & H3). by rewrite <- H1, <- H2, <- H3. }
  clear E. cbn [CsvClose dir_] in Hr. rewrite Hpt, Hpo, Hpb in Hr.
  fold (with_header (trades_path (dir_ w0) ts) TradeHeader fs0) in Hr.
  assert (Hf1 : rows_filed (dir_ w0) (with_header (trades_path (dir_ w0) ts) TradeHeader fs0))
    by (apply with_header_filed; [by exists ts|done]).
  destruct (can_open (trades_path (dir_ w0) ts)); cbn [negb] in Hr;
    [|injection Hr as <- <- <-; split_and!; [split; [by left|done]|done|done]].
  destruct (can_open (orderbook_path (dir_ w0) ts)); cbn [negb] in Hr;
    [|injection Hr as <- <- <-; split_and!; [split; [by left|done]|done|done]].
  assert (Hf2 := touch_filed _ (orderbook_path (dir_ w0) ts) _ Hf1).
  destruct (can_open (bookticker_path (dir_ w0) ts)); cbn [negb] in Hr;
    [|injection Hr as <- <- <-; split_and!; [split; [by left|done]|done|done]].
  fold (with_header (bookticker_path (dir_ w0) ts) TickerHeader
          (touch (orderbook_path (dir_ w0) ts) (with_header (trades_path (dir_ w0) ts) TradeHeader fs0))) in Hr.
  injection Hr as <- <- <-. split_and!; [|done|done]. split.
  - right. exists ts. split_and!; try done. simpl. apply with_header_keeps, touch_nonempty, with_header_nonempty.
  - simpl. apply with_header_filed; [by exists ts|done].
Qed.

(** Writing a row to its own file keeps the invariant. *)
Lemma csv_write_ok w fs p rows :
  csv_ok (w, fs) -> Forall (fun r => row_home (dir_ w) r p) rows -> csv_ok (w, write (Some p) rows fs).
Proof using.
  intros [Hs Hf] Hr. split; simpl in *; [|by apply write_filed].
  destruct Hs as [Hs|(ts & Hd & Ht & He & Ho & Hb)]; [by left|right; exists ts; split_and!; try done].
  apply write_nonempty. by left.
Qed.

Lemma AppendTick_ok t s : csv_ok s -> csv_ok (AppendTick can_open t s) /\ dir_ (AppendTick can_open t s).1 = dir_ s.1.
Proof.
  intros Hs. unfold AppendTick. destruct (RotateIfNeeded can_open (tk_exchange_timestamp t) s) as [ok [w fs]] eqn:E.
  destruct (RotateIfNeeded_ok _ _ _ _ _ Hs E) as (Hok & Hd & Hopen). destruct ok; [|done].
  destruct (Hopen eq_refl) as (Ht & _). rewrite Ht. split; [|done]. apply csv_write_ok; [done|by constructor].
Qed.

Lemma AppendOrderbook_ok e lt dl s :
  csv_ok s -> csv_ok (AppendOrderbook can_open e lt dl s) /\ dir_ (AppendOrderbook can_open e lt dl s).1 = dir_ s.1.
Proof.
  intros Hs. unfold AppendOrderbook. destruct (RotateIfNeeded can_open (dp_exchange_timestamp e) s) as [ok [w fs]] eqn:E.
  destruct (RotateIfNeeded_ok _ _ _ _ _ Hs E) as (Hok & Hd & Hopen). destruct ok; [|done].
  destruct (Hopen eq_refl) as (_ & Ho & _). rewrite Ho.
  destruct (header_written_ w); cbn [orderbook_file_ depth_level_ fst snd dir_].
  - split; [|done]. rewrite Ho. apply csv_write_ok; [done|by constructor].
  - split; [|done]. apply csv_write_ok; [|by constructor].
    apply csv_write_ok; [|constructor; [by eexists|done]].
    destruct Hok as [Hst Hfl]. split; [|done]. unfold streams_ok in *. simpl in *. by rewrite <- Ho.
Qed.

Lemma AppendBookTicker_ok e s :
  csv_ok s -> csv_ok (AppendBookTicker can_open e s) /\ dir_ (AppendBookTicker can_open e s).1 = dir_ s.1.
Proof.
  intros Hs. unfold AppendBookTicker. destruct (RotateIfNeeded can_open (bt_exchange_timestamp e) s) as [ok [w fs]] eqn:E.
  destruct (RotateIfNeeded_ok _ _ _ _ _ Hs E) as (Hok & Hd & Hopen). destruct ok; [|done].
  destruct (Hopen eq_refl) as (_ & _ & Hb). rewrite Hb. split; [|done]. apply csv_write_ok; [done|by constructor].
Qed.
End csv_proofs.

(** ** Properties *)

Inductive csv_op :=
| CsvTick (t : TickData)
| CsvBook (e : DepthUpdateEvent) (local_ts : Z) (depth_level : nat)
| CsvTicker (e : BookTickerEvent)
| CsvCloseOp.

(** One call; which files can be opened may change from call to call. *)
Definition run_csv_op (x : (string -> bool) * csv_op) (s : CsvWriter * FileSystem) : CsvWriter * FileSystem :=
  match x.2 with
  | CsvTick t => AppendTick x.1 t s
  | CsvBook e lt dl => AppendOrderbook x.1 e lt dl s
  | CsvTicker e => AppendBookTicker x.1 e s
  | CsvCloseOp => (CsvClose s.1, s.2)
  end.

Definition run_csv (ops : list ((string -> bool) * csv_op)) (s : CsvWriter * FileSystem) : CsvWriter * FileSystem :=
  fold_left (fun s x => run_csv_op x s) ops s.

Lemma run_csv_op_ok x s : csv_ok s -> csv_ok (run_csv_op x s) /\ dir_ (run_csv_op x s).1 = dir_ s.1.
Proof.
  intros Hs. destruct x as [can [t|e lt dl|e|]]; unfold run_csv_op; cbn [fst snd].
  - by apply AppendTick_ok.
  - by apply AppendOrderbook_ok.
  - by apply AppendBookTicker_ok.
  - split; [|done]. destruct Hs as [_ Hf]. split; [by left|done].
Qed.

Lemma run_csv_ok ops s : csv_ok s -> csv_ok (run_csv ops s) /\ dir_ (run_csv ops s).1 = dir_ s.1.
Proof.
  revert s. induction ops as [|x ops IH]; intros s Hs; [done|]. unfold run_csv in *. simpl.
  destruct (run_csv_op_ok x s Hs) as [H1 H2]. destruct (IH _ H1) as [H3 H4]. split; [done|congruence].
Qed.

Lemma csv_open_ok mkdir_ok root ex ty sym :
  csv_ok ((CsvOpen mkdir_ok root ex ty sym csv0).2, ∅).
Proof.
  split; simpl; [|apply map_Forall_empty]. unfold CsvOpen. left. by destruct (EnsureDirExists _ _).
Qed.

(** C32: Rows are filed by the UTC date of their own event: after any sequence of
    appends and closes, in any order of timestamps (also back over midnight)
    and with any pattern of failing file opens, every trade, order book and
    book ticker row is in the file of its kind whose name carries the date of
    the row's exchange timestamp, and the open streams are those of one day. *)
Theorem csv_rows_filed_by_date (mkdir_ok : string -> bool) (root exchange type symbol : string)
    (ops : list ((string -> bool) * csv_op)) :
  let s := run_csv ops ((CsvOpen mkdir_ok root exchange type symbol csv0).2, ∅) in
  streams_ok s.1 s.2 /\
  forall p rows r, s.2 !! p = Some rows -> r ∈ rows -> row_home (dir_ s.1) r p.
Proof.
  intros s. destruct (run_csv_ok ops _ (csv_open_ok mkdir_ok root exchange type symbol)) as [[Hs Hf] _].
  split; [done|]. intros p rows r Hp Hr. specialize (Hf p rows Hp). simpl in Hf. rewrite Forall_forall in Hf. by apply Hf.
Qed.

Lemma write_lookup p p' rows fs :
  write (Some p') rows fs !! p = if decide (p = p') then Some (default [] (fs !! p) ++ rows) else fs !! p.
Proof.
  unfold write. case_decide; subst; [by rewrite lookup_insert_eq|by rewrite lookup_insert_ne].
Qed.

Lemma touch_lookup p p' fs : default [] (touch p' fs !! p) = default [] (fs !! p).
Proof.
  unfold touch. destruct (fs !! p') eqn:E; [done|]. destruct (decide (p = p')) as [->|].
  - by rewrite lookup_insert_eq, E.
  - by rewrite lookup_insert_ne.
Qed.

Lemma with_header_lookup p p' h fs :
  default [] (with_header p' h fs !! p)
  = if decide (p = p') then match default [] (fs !! p) with [] => [h] | l => l end else default [] (fs !! p).
Proof.
  unfold with_header. pose proof (touch_lookup p p' fs) as Ht. pose proof (touch_lookup p' p' fs) as Ht'.
  unfold is_empty. destruct (decide (p = p')) as [->|Hne].
  - destruct (touch p' fs !! p') as [[|x l]|] eqn:E; simpl in Ht; rewrite <- Ht; rewrite ?write_lookup, ?decide_True by done;
      rewrite ?E; done.
  - destruct (touch p' fs !! p') as [[|x l]|]; rewrite ?write_lookup, ?decide_False by done; done.
Qed.

(** With all opens succeeding, a rotation leaves the trade file as it was, with a header if it was new. *)
Lemma rotate_trades ts s w fs :
  csv_ok s -> RotateIfNeeded (fun _ => true) ts s = (true, (w, fs)) ->
  let p := trades_path (dir_ s.1) ts in
  default [] (fs !! p) = match default [] (s.2 !! p) with [] => [TradeHeader] | l => l end.
Proof.
  destruct s as [w0 fs0]. intros [Hs _] Hr p. unfold p. cbn [fst snd] in *. clear p. unfold RotateIfNeeded in Hr.
  rewrite zero_ts_day in Hr.
  destruct ((ts / kUsecsPerDay =? current_date_day_ w0) && bool_decide (is_Some (trade_file_ w0))) eqn:E.
  - injection Hr as <- <-. apply andb_true_iff in E as [E1 E2]. apply Z.eqb_eq in E1. apply bool_decide_eq_true in E2 as [p Hp].
    destruct Hs as [(Hn & _)|(t & Hd & Ht & He & _)]; [congruence|].
    destruct (same_day_paths (dir_ w0) t ts ltac:(congruence)) as (H1 & _). rewrite H1 in He. unfold is_empty in He.
    by destruct (fs0 !! trades_path (dir_ w0) ts) as [[|]|].
  - cbn [negb CsvClose dir_] in Hr. destruct (same_day_paths (dir_ w0) _ ts (zero_ts_day ts)) as (Hpt & Hpo & Hpb).
    rewrite Hpt, Hpo, Hpb in Hr. fold (with_header (trades_path (dir_ w0) ts) TradeHeader fs0) in Hr.
    fold (with_header (bookticker_path (dir_ w0) ts) TickerHeader
          (touch (orderbook_path (dir_ w0) ts) (with_header (trades_path (dir_ w0) ts) TradeHeader fs0))) in Hr.
    injection Hr as <- <-. rewrite with_header_lookup, decide_False by apply trades_ne_bookticker.
    rewrite touch_lookup, with_header_lookup, decide_True by done. done.
Qed.

Lemma rotate_always ts s : exists w fs, RotateIfNeeded (fun _ => true) ts s = (true, (w, fs)).
Proof.
  destruct s as [w fs]. unfold RotateIfNeeded. cbv zeta. cbn [negb]. destruct (_ && _); by do 2 eexists.
Qed.

(** No tick is lost: when the files can be opened, appending a tick to a
    channel's writer in any state it can reach extends the trade file of the
    tick's UTC date, whose previous content is kept (a new file gets its header
    first), by exactly the row of that tick. *)
Theorem csv_append_tick_exact (s : CsvWriter * FileSystem) (t : TickData) :
  csv_ok s ->
  let p := trades_path (dir_ s.1) (tk_exchange_timestamp t) in
  (AppendTick (fun _ => true) t s).2 !! p
  = Some (match default [] (s.2 !! p) with [] => [TradeHeader] | l => l end
          ++ [TradeRow (tk_exchange_timestamp t) (tk_local_diff t) (tk_price t) (tk_quantity t)
                (if tk_is_buyer_maker t then -1 else 1)]).
Proof.
  intros Hs p. unfold AppendTick.
  destruct (rotate_always (tk_exchange_timestamp t) s) as (w & fs & E). rewrite E.
  destruct (RotateIfNeeded_ok _ _ _ _ _ _ Hs E) as (_ & Hd & Hopen). destruct (Hopen eq_refl) as (-> & _).
  cbn [snd]. rewrite write_lookup, Hd. fold p. rewrite decide_True by done.
  pose proof (rotate_trades _ _ _ _ Hs E) as Hrt. fold p in Hrt. by rewrite Hrt.
Qed.

(** Reopening an order book file repeats its header: a writer that opens
    an existing, non-empty order book file (after a restart on the same day, or
    when timestamps return to an earlier day) writes another header line before
    its first row, although for the two other files a non-empty file is
    detected and the header skipped. *)
Theorem orderbook_header_repeated (mkdir_ok : string -> bool) (root exchange type symbol : string)
    (fs : FileSystem) (e : DepthUpdateEvent) (local_ts : Z) (depth_level : nat) :
  let w := (CsvOpen mkdir_ok root exchange type symbol csv0).2 in
  let p := orderbook_path (dir_ w) (dp_exchange_timestamp e) in
  (AppendOrderbook (fun _ => true) e local_ts depth_level (w, fs)).2 !! p
  = Some (default [] (fs !! p)
          ++ [BookHeader depth_level; BookRow (dp_exchange_timestamp e) local_ts (book_row_levels e depth_level)]).
Proof.
  intros w p. assert (Hw : trade_file_ w = None) by (unfold w, CsvOpen; by destruct (EnsureDirExists _ _)).
  unfold AppendOrderbook, RotateIfNeeded. rewrite Hw. rewrite (bool_decide_false (is_Some None)) by (by intros [? ?]).
  rewrite andb_false_r. cbn [negb CsvClose dir_ orderbook_file_ header_written_ depth_level_ fst snd].
  destruct (same_day_paths (dir_ w) _ (dp_exchange_timestamp e) (zero_ts_day (dp_exchange_timestamp e))) as (Hpt & Hpo & Hpb).
  rewrite Hpt, Hpo, Hpb. fold p. fold (with_header (trades_path (dir_ w) (dp_exchange_timestamp e)) TradeHeader fs).
  set (fs1 := with_header (trades_path (dir_ w) (dp_exchange_timestamp e)) TradeHeader fs).
  fold (with_header (bookticker_path (dir_ w) (dp_exchange_timestamp e)) TickerHeader (touch p fs1)).
  rewrite write_lookup, decide_True by done. rewrite write_lookup, decide_True by done. cbn [default].
  rewrite with_header_lookup, decide_False by (apply orderbook_ne_bookticker).
  rewrite touch_lookup. unfold fs1. rewrite with_header_lookup, decide_False by (intros H; symmetry in H; by apply trades_ne_orderbook in H).
  unfold id. by rewrite <- app_assoc.
Qed.

(** *** Witness *)

Lemma csv_append_tick_exact_witness :
  let s := (mkCsvWriter "t/" None None None UINT64_MAX 0 false, ∅ : FileSystem) in
  csv_ok s /\ (AppendTick (fun _ => true) tick0 s).2 !! trades_path "t/" 0
  = Some [TradeHeader; TradeRow 0 0 dzero dzero 1].
Proof.
  intros s. assert (Hs : csv_ok s) by (split; [by left|apply map_Forall_empty]).
  split; [exact Hs|]. exact (csv_append_tick_exact s tick0 Hs).
Defined.
