(* ===== verification/Mmap.v ===== *)
(** * Memory-mapped storage

    [MmapStorageEngine] (src/storage/engine/mmap_engine.cpp) appends raw records
    to a mapped file and rolls to a new file when the next record would reach
    the size limit; [MmapBackend] (src/storage/backend/mmap_backend.cpp) keeps
    three engines per channel and a fallback engine for the DolphinDB backend.

    A file is its size and its bytes (a missing key is a zero byte, so a sparse
    2 GB file costs nothing); a mapping is the path of the file it maps.  A
    [memcpy] outside the mapping, or through a null mapping, is undefined
    behaviour: the operation is then [None].  What the operating system refuses
    is a parameter. *)
From S2P Require Import Prelude Doubles Events Paths Bytes.

Record MFile := mkMFile { mf_size : Z; mf_bytes : gmap Z byte }.
Definition mfile0 : MFile := mkMFile 0 ∅.
Abbreviation MmapFS := (gmap string MFile).

(** [memcpy(base + off, bs, |bs|)] and the bytes of [[off, off + n)]. *)
Fixpoint mem_write (off : Z) (bs : list byte) (m : gmap Z byte) : gmap Z byte :=
  match bs with
  | [] => m
  | b :: bs' => <[off := b]> (mem_write (off + 1) bs' m)
  end.

Definition mem_get (m : gmap Z byte) (i : Z) : byte := default NUL (m !! i).
Definition mem_read (off n : Z) (m : gmap Z byte) : list byte := mem_get m <$> seqZ off n.

(** [ftruncate]: bytes past the new end are lost. *)
Definition resize (n : Z) (f : MFile) : MFile :=
  mkMFile n (filter (fun kv => kv.1 < n) (mf_bytes f)).

(** The operating system: which calls succeed, and its page size. *)
Record OS := mkOS {
  os_mkdir : string -> bool;
  os_open : string -> bool;
  os_ftruncate : string -> bool;
  os_mmap : string -> bool;
  os_page_size : Z
}.

(** Source: src/storage/engine/mmap_engine.h:16-16, mmap_detail::kHeaderSize. *)
Definition kHeaderSize : Z := 64.

(** Source: src/storage/engine/mmap_engine.h:51-59, MmapStorageEngine (data members).
    [fd_] and [mmap_ptr_] are the path they refer to, if any. *)
Record MmapEngine := mkEngine {
  max_file_size_ : Z;
  mmap_size_ : Z;
  fd_ : option string;
  mmap_ptr_ : option string;
  current_mapped_offset_ : Z;
  output_path_ : string;
  file_prefix_ : string;
  file_sequence_ : Z
}.

Definition default_max_file_size : Z := 2 * 1024 * 1024 * 1024.

(** Source: src/storage/engine/mmap_engine.cpp:17-17, MmapStorageEngine::MmapStorageEngine. *)
Definition engine_new (max_file_size : Z) : MmapEngine :=
  mkEngine max_file_size 0 None None kHeaderSize "" "" 0.

(** Source: src/storage/engine/mmap_engine.h:45-45, MmapStorageEngine::IsOpen. *)
Definition IsOpen (e : MmapEngine) : bool :=
  bool_decide (is_Some (fd_ e)) && bool_decide (is_Some (mmap_ptr_ e)).

(** Source: src/storage/engine/mmap_engine.cpp:163-173, MmapStorageEngine::MakeFileName.
    [snprintf] keeps the first 127 characters. *)
Definition MakeFileName (e : MmapEngine) (sequence : Z) : string :=
  string_of_list_ascii (take 127
    (list_ascii_of_string (output_path_ e) ++ list_ascii_of_string (file_prefix_ e) ++
     "_"%char :: decimal04 sequence ++ list_ascii_of_string ".bin")).

Definition set_fd (fd : option string) (e : MmapEngine) : MmapEngine :=
  mkEngine (max_file_size_ e) (mmap_size_ e) fd (mmap_ptr_ e) (current_mapped_offset_ e)
    (output_path_ e) (file_prefix_ e) (file_sequence_ e).
Definition set_mapping (ptr : option string) (size off : Z) (e : MmapEngine) : MmapEngine :=
  mkEngine (max_file_size_ e) size (fd_ e) ptr off (output_path_ e) (file_prefix_ e) (file_sequence_ e).
Definition set_naming (path prefix : string) (seq : Z) (e : MmapEngine) : MmapEngine :=
  mkEngine (max_file_size_ e) (mmap_size_ e) (fd_ e) (mmap_ptr_ e) (current_mapped_offset_ e) path prefix seq.

(** A store of the process into its mapping of file [f]. *)
Definition poke (f : string) (off : Z) (bs : list byte) (fs : MmapFS) : MmapFS :=
  let file := default mfile0 (fs !! f) in
  <[f := mkMFile (mf_size file) (mem_write off bs (mf_bytes file))]> fs.

Definition memcpy_to (e : MmapEngine) (off : Z) (bs : list byte) (fs : MmapFS) : option MmapFS :=
  match mmap_ptr_ e with
  | Some f => if off + Z.of_nat (length bs) <=? mmap_size_ e then Some (poke f off bs fs) else None
  | None => None
  end.

Section engine.
Context (os : OS).

Definition page_aligned (n : Z) : Z :=
  u64 (u64 (n + os_page_size os - 1) / os_page_size os * os_page_size os).

(** Source: src/storage/engine/mmap_engine.cpp:30-63, MmapStorageEngine::OpenOrCreate.
    The part that opens, sizes and maps a file; RollNewFile repeats it. *)
Definition map_file (fname : string) (e : MmapEngine) (fs : MmapFS) : bool * (MmapEngine * MmapFS) :=
  if negb (os_open os fname) then (false, (set_fd None e, fs))
  else
    let fs := match fs !! fname with Some _ => fs | None => <[fname := mfile0]> fs end in
    let mmap_size := page_aligned (max_file_size_ e) in
    if negb (os_ftruncate os fname) then (false, (set_fd None e, fs))
    else
      let fs := <[fname := resize mmap_size (default mfile0 (fs !! fname))]> fs in
      if negb (os_mmap os fname)
      then (false, (set_fd None (set_mapping None (mmap_size_ e) (current_mapped_offset_ e) e), fs))
      else
        let fs := poke fname 8 (le_bytes 8 (max_file_size_ e)) fs in       (* file_size *)
        let fs := poke fname 0 (le_bytes 8 kHeaderSize) fs in              (* write_offset *)
        (true, (set_fd (Some fname) (set_mapping (Some fname) mmap_size kHeaderSize e), fs)).

(** Source: src/storage/engine/mmap_engine.cpp:21-64, MmapStorageEngine::OpenOrCreate. *)
Definition OpenOrCreate (output_path file_prefix : string) (e : MmapEngine) (fs : MmapFS)
    : bool * (MmapEngine * MmapFS) :=
  let e := set_naming (EnsureTrailingSlash output_path) file_prefix (file_sequence_ e) e in
  if negb (EnsureDirExists (os_mkdir os) (output_path_ e)) then (false, (e, fs))
  else map_file (MakeFileName e (file_sequence_ e)) e fs.

(** Source: src/storage/engine/mmap_engine.cpp:151-161, MmapStorageEngine::Close.
    [msync] and [munmap] leave the bytes of the file as they are. *)
Definition EngineClose (e : MmapEngine) : MmapEngine :=
  set_fd None (set_mapping None (mmap_size_ e) (current_mapped_offset_ e) e).

(** Source: src/storage/engine/mmap_engine.cpp:98-143, MmapStorageEngine::RollNewFile. *)
Definition RollNewFile (e : MmapEngine) (fs : MmapFS) : bool * (MmapEngine * MmapFS) :=
  let e := EngineClose e in
  let e := set_naming (output_path_ e) (file_prefix_ e) (i32 (file_sequence_ e + 1)) e in
  map_file (MakeFileName e (file_sequence_ e)) e fs.

(** Copy the record, publish the new end, advance. *)
Definition append_bytes (bs : list byte) (e : MmapEngine) (fs : MmapFS) : option (MmapEngine * MmapFS) :=
  let off := current_mapped_offset_ e in
  let after := u64 (off + Z.of_nat (length bs)) in
  match memcpy_to e off bs fs with
  | None => None
  | Some fs =>
      match memcpy_to e 0 (le_bytes 8 after) fs with
      | None => None
      | Some fs => Some (set_mapping (mmap_ptr_ e) (mmap_size_ e) after e, fs)
      end
  end.

(** The boundary test and the append that AppendRecord and AppendRaw share. *)
Definition append_rolling (bs : list byte) (e : MmapEngine) (fs : MmapFS) : option (MmapEngine * MmapFS) :=
  if max_file_size_ e <=? u64 (current_mapped_offset_ e + Z.of_nat (length bs)) then
    match RollNewFile e fs with
    | (false, s) => Some s
    | (true, (e, fs)) => append_bytes bs e fs
    end
  else append_bytes bs e fs.

(** Source: src/storage/engine/mmap_engine.cpp:66-86, MmapStorageEngine::AppendRecord. *)
Definition AppendRecord (tick : TickData) (storage_target : Z) (e : MmapEngine) (fs : MmapFS)
    : option (MmapEngine * MmapFS) :=
  if negb (IsOpen e) then Some (e, fs)
  else append_rolling (envelope_bytes (mkEnvelope tick storage_target 0)) e fs.

(** Source: src/storage/engine/mmap_engine.cpp:88-96, MmapStorageEngine::AppendRaw. *)
Definition AppendRaw (data : list byte) (e : MmapEngine) (fs : MmapFS) : option (MmapEngine * MmapFS) :=
  if negb (IsOpen e) || (length data =? 0)%nat then Some (e, fs)
  else append_rolling data e fs.
End engine.

(** ** The backend *)

(** Source: src/storage/backend/mmap_backend.h:56-60, MmapBackend (data members). *)
Record MmapBackend := mkMmapBackend {
  output_root_ : string;
  tick_engines_ : gmap Z MmapEngine;
  ob_engines_ : gmap Z MmapEngine;
  bt_engines_ : gmap Z MmapEngine;
  fallback_ : option MmapEngine
}.

Definition mmap_backend0 (output_root : string) : MmapBackend := mkMmapBackend output_root ∅ ∅ ∅ None.

Definition set_tick_engines (m : gmap Z MmapEngine) (b : MmapBackend) : MmapBackend :=
  mkMmapBackend (output_root_ b) m (ob_engines_ b) (bt_engines_ b) (fallback_ b).
Definition set_ob_engines (m : gmap Z MmapEngine) (b : MmapBackend) : MmapBackend :=
  mkMmapBackend (output_root_ b) (tick_engines_ b) m (bt_engines_ b) (fallback_ b).
Definition set_bt_engines (m : gmap Z MmapEngine) (b : MmapBackend) : MmapBackend :=
  mkMmapBackend (output_root_ b) (tick_engines_ b) (ob_engines_ b) m (fallback_ b).
Definition set_fallback (f : option MmapEngine) (b : MmapBackend) : MmapBackend :=
  mkMmapBackend (output_root_ b) (tick_engines_ b) (ob_engines_ b) (bt_engines_ b) f.

(** [unordered_map::emplace]: an existing entry is kept. *)
Definition emplace (k : Z) (e : MmapEngine) (m : gmap Z MmapEngine) : gmap Z MmapEngine :=
  match m !! k with Some _ => m | None => <[k := e]> m end.

Section backend.
Context (os : OS).

(** One of the three engines of a channel: opened, and kept if that worked. *)
Definition open_into (dir prefix : string) (channel_id : Z) (m : gmap Z MmapEngine) (fs : MmapFS)
    : gmap Z MmapEngine * MmapFS :=
  match OpenOrCreate os dir prefix (engine_new default_max_file_size) fs with
  | (true, (e, fs)) => (emplace channel_id e m, fs)
  | (false, (_, fs)) => (m, fs)
  end.

(** Source: src/storage/backend/mmap_backend.cpp:11-30, MmapBackend::RegisterChannel. *)
Definition MmapRegisterChannel (channel_id : Z) (exchange market_type symbol : string)
    (b : MmapBackend) (fs : MmapFS) : MmapBackend * MmapFS :=
  let key := (exchange ++ "/" ++ market_type ++ "/" ++ symbol)%string in
  let mmap_dir := JoinPath (EnsureTrailingSlash (output_root_ b)) (key ++ "/") in
  let '(m, fs) := open_into mmap_dir "tick" channel_id (tick_engines_ b) fs in
  let b := set_tick_engines m b in
  let '(m, fs) := open_into mmap_dir "ob" channel_id (ob_engines_ b) fs in
  let b := set_ob_engines m b in
  let '(m, fs) := open_into mmap_dir "bt" channel_id (bt_engines_ b) fs in
  (set_bt_engines m b, fs).

(** Source: src/storage/backend/mmap_backend.cpp:107-118, MmapBackend::WriteOrderbook. *)
Definition WriteOrderbook (event : DepthUpdateEvent) (local_ts : Z) (e : MmapEngine) (fs : MmapFS)
    : option (MmapEngine * MmapFS) :=
  let hdr := mkBookHeader (dp_exchange_timestamp event) local_ts
               (RecordCopySymbol (replicate kSymbolFieldBytes NUL) (dp_symbol event) 12)
               (dp_bid_count event) (dp_ask_count event) in
  match AppendRaw os (book_header_bytes hdr) e fs with
  | None => None
  | Some (e, fs) =>
      let r := if (0 <? dp_bid_count event)%nat
               then AppendRaw os (levels_bytes (depth_bids event)) e fs else Some (e, fs) in
      match r with
      | None => None
      | Some (e, fs) =>
          if (0 <? dp_ask_count event)%nat
          then AppendRaw os (levels_bytes (depth_asks event)) e fs else Some (e, fs)
      end
  end.

(** Source: src/storage/backend/mmap_backend.cpp:120-131, MmapBackend::WriteBookTicker. *)
Definition WriteBookTicker (event : BookTickerEvent) (e : MmapEngine) (fs : MmapFS)
    : option (MmapEngine * MmapFS) :=
  let rec := mkTickerRecord (bt_exchange_timestamp event) (bt_local_diff event)
               (RecordCopySymbol (replicate kSymbolFieldBytes NUL) (bt_symbol event) 12)
               (bt_best_bid_price event) (bt_best_bid_qty event)
               (bt_best_ask_price event) (bt_best_ask_qty event) in
  AppendRaw os (ticker_record_bytes rec) e fs.

(** Source: src/storage/backend/mmap_backend.cpp:32-39, MmapBackend::InsertTick. *)
Definition MmapInsertTick (tick : TickData) (b : MmapBackend) (fs : MmapFS) : option (MmapBackend * MmapFS) :=
  match tick_engines_ b !! tk_channel_id tick with
  | None => Some (b, fs)
  | Some e =>
      match AppendRecord os tick 0 e fs with
      | None => None
      | Some (e, fs) => Some (set_tick_engines (<[tk_channel_id tick := e]> (tick_engines_ b)) b, fs)
      end
  end.

(** Source: src/storage/backend/mmap_backend.cpp:41-46, MmapBackend::InsertOrderbook. *)
Definition MmapInsertOrderbook (event : DepthUpdateEvent) (local_ts : Z) (b : MmapBackend) (fs : MmapFS)
    : option (MmapBackend * MmapFS) :=
  match ob_engines_ b !! dp_channel_id event with
  | None => Some (b, fs)
  | Some e =>
      match WriteOrderbook event local_ts e fs with
      | None => None
      | Some (e, fs) => Some (set_ob_engines (<[dp_channel_id event := e]> (ob_engines_ b)) b, fs)
      end
  end.

(** Source: src/storage/backend/mmap_backend.cpp:48-53, MmapBackend::InsertBookTicker. *)
Definition MmapInsertBookTicker (event : BookTickerEvent) (b : MmapBackend) (fs : MmapFS)
    : option (MmapBackend * MmapFS) :=
  match bt_engines_ b !! bt_channel_id event with
  | None => Some (b, fs)
  | Some e =>
      match WriteBookTicker event e fs with
      | None => None
      | Some (e, fs) => Some (set_bt_engines (<[bt_channel_id event := e]> (bt_engines_ b)) b, fs)
      end
  end.

(** Source: src/storage/backend/mmap_backend.cpp:55-74, MmapBackend::FlushAndClose. *)
Definition MmapFlushAndClose (b : MmapBackend) : MmapBackend :=
  mkMmapBackend (output_root_ b) (EngineClose <$> tick_engines_ b) (EngineClose <$> ob_engines_ b)
    (EngineClose <$> bt_engines_ b) None.

(** Source: src/storage/backend/mmap_backend.cpp:76-86, MmapBackend::EnsureFallback. *)
Definition EnsureFallback (b : MmapBackend) (fs : MmapFS) : MmapBackend * MmapFS :=
  match fallback_ b with
  | Some _ => (b, fs)
  | None =>
      let fallback_path := JoinPath (EnsureTrailingSlash (output_root_ b)) "degraded/" in
      match OpenOrCreate os fallback_path "tick" (engine_new default_max_file_size) fs with
      | (true, (fb, fs)) => (set_fallback (Some fb) b, fs)
      | (false, (_, fs)) => (b, fs)
      end
  end.

(** Write through the fallback engine, if there is one. *)
Definition on_fallback (write : MmapEngine -> MmapFS -> option (MmapEngine * MmapFS)) (b : MmapBackend) (fs : MmapFS)
    : option (MmapBackend * MmapFS) :=
  match fallback_ b with
  | None => Some (b, fs)
  | Some e => match write e fs with
              | None => None
              | Some (e, fs) => Some (set_fallback (Some e) b, fs)
              end
  end.

(** Source: src/storage/backend/mmap_backend.cpp:88-91, MmapBackend::AppendFallbackTick. *)
Definition AppendFallbackTick (tick : TickData) := on_fallback (AppendRecord os tick 1).

(** Source: src/storage/backend/mmap_backend.cpp:93-96, MmapBackend::AppendFallbackOrderbook. *)
Definition AppendFallbackOrderbook (event : DepthUpdateEvent) (local_ts : Z) := on_fallback (WriteOrderbook event local_ts).

(** Source: src/storage/backend/mmap_backend.cpp:98-101, MmapBackend::AppendFallbackBookTicker. *)
Definition AppendFallbackBookTicker (event : BookTickerEvent) := on_fallback (WriteBookTicker event).
End backend.

(** ** What a reader of a file sees

    The header's [write_offset] says where the published records end. *)

Definition write_offset (f : MFile) : Z := le_value (mem_read 0 8 (mf_bytes f)).
Definition published (f : MFile) : list byte :=
  mem_read kHeaderSize (write_offset f - kHeaderSize) (mf_bytes f).

(** The bytes published by the file at a path. *)
Definition published_at (fs : MmapFS) (path : string) : list byte := published (default mfile0 (fs !! path)).

Lemma mem_get_write off bs m i :
  mem_get (mem_write off bs m) i =
    if decide (off <= i < off + Z.of_nat (length bs)) then default NUL (bs !! Z.to_nat (i - off)) else mem_get m i.
Proof.
  revert off. induction bs as [|b bs IH]; intros off; cbn [mem_write length].
  - destruct (decide _); [lia|done].
  - unfold mem_get in *. destruct (decide (i = off)) as [->|Hne].
    + rewrite lookup_insert_eq, decide_True by lia. by rewrite Z.sub_diag.
    + rewrite lookup_insert_ne by done. rewrite IH. repeat case_dec; try lia; [|done].
      replace (Z.to_nat (i - off)) with (S (Z.to_nat (i - (off + 1)))) by lia. done.
Qed.

Lemma mem_read_ext off n m m' :
  (forall i, off <= i < off + n -> mem_get m i = mem_get m' i) -> mem_read off n m = mem_read off n m'.
Proof.
  intros H. apply list_fmap_ext. intros j x Hx. apply lookup_seqZ in Hx. apply H. lia.
Qed.

Lemma mem_read_write_out o n off bs m :
  o + n <= off \/ off + Z.of_nat (length bs) <= o -> mem_read o n (mem_write off bs m) = mem_read o n m.
Proof. intros H. apply mem_read_ext. intros i Hi. rewrite mem_get_write. by rewrite decide_False by lia. Qed.

Lemma mem_read_write_in off bs m n :
  n = Z.of_nat (length bs) -> mem_read off n (mem_write off bs m) = bs.
Proof.
  intros ->. apply list_eq. intros j. unfold mem_read. rewrite list_lookup_fmap.
  destruct (decide (j < length bs)%nat) as [Hj|Hj].
  - rewrite (proj2 (lookup_seqZ off (Z.of_nat (length bs)) j (off + Z.of_nat j))) by lia. cbn.
    rewrite mem_get_write, decide_True by lia.
    replace (Z.to_nat (off + Z.of_nat j - off)) with j by lia.
    destruct (lookup_lt_is_Some_2 bs j) as [b ->]; [lia|done].
  - rewrite (lookup_ge_None_2 bs) by lia. by rewrite lookup_seqZ_ge by lia.
Qed.

Lemma mem_read_app off n1 n2 m :
  0 <= n1 -> 0 <= n2 -> mem_read off (n1 + n2) m = mem_read off n1 m ++ mem_read (off + n1) n2 m.
Proof. intros. unfold mem_read. by rewrite seqZ_app, fmap_app by lia. Qed.

(** A file publishes [log]. *)
Definition holds (f : MFile) (log : list byte) : Prop :=
  write_offset f = kHeaderSize + Z.of_nat (length log) /\
  mem_read kHeaderSize (Z.of_nat (length log)) (mf_bytes f) = log.

Lemma holds_published f log : holds f log -> published f = log.
Proof. intros [H1 H2]. unfold published. rewrite H1. replace (_ - _) with (Z.of_nat (length log)) by lia. done. Qed.

(** Writing [bs] at the end and then the new end publishes [log ++ bs]. *)
Lemma holds_append f log bs :
  holds f log -> in_range 64 (kHeaderSize + Z.of_nat (length (log ++ bs))) ->
  holds (mkMFile (mf_size f)
           (mem_write 0 (le_bytes 8 (kHeaderSize + Z.of_nat (length (log ++ bs))))
              (mem_write (kHeaderSize + Z.of_nat (length log)) bs (mf_bytes f)))) (log ++ bs).
Proof.
  unfold holds, write_offset, kHeaderSize. cbn [mf_bytes]. intros [H1 H2] Hr. split.
  - rewrite mem_read_write_in by (by rewrite length_le_bytes). by apply le_value_bytes.
  - rewrite mem_read_write_out by (rewrite length_le_bytes; lia).
    rewrite length_app, Nat2Z.inj_add, mem_read_app by lia. f_equal.
    + rewrite mem_read_write_out by lia. done.
    + by apply mem_read_write_in.
Qed.

(** A file whose header has just been written publishes nothing. *)
Lemma holds_header size m : holds (mkMFile size (mem_write 0 (le_bytes 8 kHeaderSize) m)) [].
Proof.
  unfold holds, write_offset. cbn [mf_bytes]. split; [|done].
  rewrite mem_read_write_in by (by rewrite length_le_bytes). by apply le_value_bytes.
Qed.

(** ** File names *)

Lemma length_decimal fuel n : (length (decimal fuel n) <= fuel)%nat.
Proof.
  revert n. induction fuel as [|fuel IH]; intros n; cbn [decimal]; [cbn; lia|].
  destruct (n <? 10); [cbn; lia|]. rewrite length_app. specialize (IH (n / 10)). cbn. lia.
Qed.

Lemma length_decimal04 n : (length (decimal04 n) <= 10)%nat.
Proof.
  unfold decimal04. rewrite length_app, length_replicate. pose proof (length_decimal 10 n). lia.
Qed.

(** The inputs leave room for the longest sequence number in the 128 bytes. *)
Definition name_fits (e : MmapEngine) : Prop :=
  (String.length (output_path_ e) + String.length (file_prefix_ e) <= 112)%nat.

Lemma length_list_ascii s : length (list_ascii_of_string s) = String.length s.
Proof. induction s as [|c s IH]; [done|]. cbn. by rewrite IH. Qed.

Lemma MakeFileName_inj e a b :
  name_fits e -> 0 <= a < 10 ^ 10 -> 0 <= b < 10 ^ 10 -> MakeFileName e a = MakeFileName e b -> a = b.
Proof.
  unfold name_fits, MakeFileName. intros Hn Ha Hb H.
  apply (f_equal list_ascii_of_string) in H. rewrite !list_ascii_of_string_of_list_ascii in H.
  pose proof (length_decimal04 a). pose proof (length_decimal04 b).
  rewrite !take_ge in H by (rewrite !length_app, !length_cons, !length_app, !length_list_ascii; cbn [String.length]; lia).
  apply app_inv_head, app_inv_head in H. injection H as H. apply app_inv_tail in H.
  rewrite <- (decimal04_value a), <- (decimal04_value b) by done. by rewrite H.
Qed.

(** ** Mapping a file *)

Definition os_accepts (os : OS) (f : string) : Prop :=
  os_open os f = true /\ os_ftruncate os f = true /\ os_mmap os f = true.

Lemma map_file_other os fname e fs g :
  g <> fname -> (map_file os fname e fs).2.2 !! g = fs !! g.
Proof.
  intros Hg. unfold map_file, poke.
  destruct (os_open os fname), (os_ftruncate os fname), (os_mmap os fname); cbn; try done;
    destruct (fs !! fname); rewrite ?lookup_insert_ne by congruence; done.
Qed.

Lemma map_file_ok os fname e fs :
  os_accepts os fname ->
  exists fs', map_file os fname e fs =
                (true, (set_fd (Some fname) (set_mapping (Some fname) (page_aligned os (max_file_size_ e)) kHeaderSize e), fs'))
              /\ holds (default mfile0 (fs' !! fname)) [].
Proof.
  intros (Ho & Ht & Hm). unfold map_file. rewrite Ho, Ht, Hm. cbn [negb].
  eexists. split; [done|]. unfold poke. rewrite lookup_insert_eq. apply holds_header.
Qed.

(** ** The rolling log an engine implements

    The abstract state is the list of finished files and the current one. *)

Definition log_append (max : Z) (s : list (list byte) * list byte) (bs : list byte) : list (list byte) * list byte :=
  if max <=? kHeaderSize + Z.of_nat (length s.2) + Z.of_nat (length bs) then (s.1 ++ [s.2], bs) else (s.1, s.2 ++ bs).

Record engine_at (os : OS) (e : MmapEngine) (fs : MmapFS) (s : list (list byte) * list byte) : Prop := {
  ea_fd : fd_ e = Some (MakeFileName e (file_sequence_ e));
  ea_ptr : mmap_ptr_ e = Some (MakeFileName e (file_sequence_ e));
  ea_seq : file_sequence_ e = Z.of_nat (length s.1);
  ea_off : current_mapped_offset_ e = kHeaderSize + Z.of_nat (length s.2);
  ea_cur : holds (default mfile0 (fs !! MakeFileName e (file_sequence_ e))) s.2;
  ea_prev : forall k log, s.1 !! k = Some log -> holds (default mfile0 (fs !! MakeFileName e (Z.of_nat k))) log;
  ea_size : mmap_size_ e = page_aligned os (max_file_size_ e);
  ea_fit : kHeaderSize + Z.of_nat (length s.2) <= max_file_size_ e
}.

(** Sizes for which no 64-bit sum wraps. *)
Definition sane_sizes (os : OS) (max : Z) : Prop :=
  0 < os_page_size os <= 2 ^ 30 /\ kHeaderSize < max <= 2 ^ 62.

Lemma page_aligned_ge os max : sane_sizes os max -> max <= page_aligned os max.
Proof.
  unfold sane_sizes, page_aligned, kHeaderSize. intros [Hp Hm].
  rewrite (wrap_small 64 (max + os_page_size os - 1)) by (unfold in_range; lia).
  pose proof (Z.div_mod (max + os_page_size os - 1) (os_page_size os)).
  pose proof (Z.mod_pos_bound (max + os_page_size os - 1) (os_page_size os)).
  rewrite wrap_small by (unfold in_range; lia). lia.
Qed.

Section refinement.
Context (os : OS) (max : Z) (Hsane : sane_sizes os max) (Hos : forall f, os_accepts os f).

Definition engine_ok (e : MmapEngine) (fs : MmapFS) (s : list (list byte) * list byte) : Prop :=
  engine_at os e fs s /\ max_file_size_ e = max /\ name_fits e.

(** The naming of a file depends on the path and prefix only. *)
Definition same_names (e e' : MmapEngine) : Prop :=
  output_path_ e = output_path_ e' /\ file_prefix_ e = file_prefix_ e'.

Lemma append_bytes_refines e fs s bs :
  engine_ok e fs s -> kHeaderSize + Z.of_nat (length s.2) + Z.of_nat (length bs) <= max ->
  Z.of_nat (length s.1) < 2 ^ 31 ->
  exists e' fs', append_bytes bs e fs = Some (e', fs') /\ engine_ok e' fs' (s.1, s.2 ++ bs) /\ same_names e e'.
Proof.
  intros ([Hfd Hptr Hseq Hoff Hcur Hprev Hsize Hfit] & Hmax & Hname) Hlen Hn.
  pose proof (page_aligned_ge os max Hsane). destruct Hsane as [_ Hm]. unfold kHeaderSize in *.
  set (f := MakeFileName e (file_sequence_ e)) in *.
  assert (Hafter : u64 (current_mapped_offset_ e + Z.of_nat (length bs)) = 64 + Z.of_nat (length (s.2 ++ bs))).
  { rewrite Hoff, length_app, wrap_small; unfold in_range; lia. }
  unfold append_bytes, memcpy_to. rewrite Hafter, Hptr, length_le_bytes, Hoff, Hsize, Hmax.
  rewrite (proj2 (Z.leb_le _ _)) by lia. rewrite (proj2 (Z.leb_le (0 + Z.of_nat 8) _)) by lia.
  eexists _, _. split; [reflexivity|]. split; [|done]. split; [|done].
  split; cbn [set_mapping fd_ mmap_ptr_ file_sequence_ current_mapped_offset_ mmap_size_ max_file_size_ fst snd];
    try done; try (rewrite Hmax; done).
  - change (MakeFileName _ _) with f. unfold poke. rewrite !lookup_insert_eq. cbn [from_option id mf_size mf_bytes].
    apply holds_append; [done|]. unfold in_range, kHeaderSize. rewrite length_app. lia.
  - intros k log Hk. change (MakeFileName _ _) with (MakeFileName e (Z.of_nat k)).
    pose proof (lookup_lt_Some _ _ _ Hk). unfold poke.
    assert (f <> MakeFileName e (Z.of_nat k)).
    { intros Heq. apply MakeFileName_inj in Heq; [lia|done|lia|lia]. }
    rewrite !lookup_insert_ne by done. by apply Hprev.
  - rewrite length_app, Hmax. unfold kHeaderSize. lia.
Qed.

Lemma roll_refines e fs s :
  engine_ok e fs s -> Z.of_nat (length s.1) < 2 ^ 31 - 1 ->
  exists e' fs', RollNewFile os e fs = (true, (e', fs')) /\ engine_ok e' fs' (s.1 ++ [s.2], []) /\ same_names e e'.
Proof.
  intros ([Hfd Hptr Hseq Hoff Hcur Hprev Hsize Hfit] & Hmax & Hname) Hn.
  unfold RollNewFile.
  assert (Hi : i32 (file_sequence_ (EngineClose e) + 1) = Z.of_nat (length (s.1 ++ [s.2]))).
  { change (file_sequence_ (EngineClose e)) with (file_sequence_ e). rewrite Hseq, length_app. cbn [length].
    unfold swrap. rewrite Z.mod_small; lia. }
  rewrite Hi. set (e1 := set_naming _ _ _ _).
  assert (Hseq1 : file_sequence_ e1 = Z.of_nat (length (s.1 ++ [s.2]))) by done.
  destruct (map_file_ok os (MakeFileName e1 (file_sequence_ e1)) e1 fs (Hos _)) as (fs' & Heq & Hh).
  pose proof (fun g => map_file_other os (MakeFileName e1 (file_sequence_ e1)) e1 fs g) as Hother.
  rewrite Heq in Hother. cbn [snd] in Hother.
  eexists _, fs'. split; [exact Heq|]. split; [|done]. split; [|done].
  split; try done.
  - intros k log Hk. cbn [fst] in Hk.
    change (MakeFileName (set_fd _ _) (Z.of_nat k)) with (MakeFileName e (Z.of_nat k)).
    assert (Hlt := lookup_lt_Some _ _ _ Hk). rewrite length_app in Hlt. cbn [length] in Hlt.
    rewrite Hother.
    + apply lookup_snoc_Some in Hk as [[Hk1 Hk2]|[Hk1 Hk2]]; [by apply Hprev|].
      subst. by rewrite <- Hseq.
    + rewrite Hseq1. change (MakeFileName e1) with (MakeFileName e). intros Hf.
      rewrite length_app in Hf. cbn [length] in Hf. apply MakeFileName_inj in Hf; [lia|done|lia|lia].
  - destruct Hsane as [_ ?]. cbn [fst snd length max_file_size_ set_fd set_mapping e1 set_naming EngineClose]. lia.
Qed.

Lemma append_rolling_refines e fs s bs :
  engine_ok e fs s -> kHeaderSize + Z.of_nat (length bs) <= max -> Z.of_nat (length s.1) < 2 ^ 31 - 1 ->
  exists e' fs', append_rolling os bs e fs = Some (e', fs') /\ engine_ok e' fs' (log_append max s bs) /\ same_names e e'.
Proof.
  intros Hok Hlen Hn. pose proof Hok as ([_ _ _ Hoff _ _ _ Hfit] & Hmax & _).
  unfold append_rolling, log_append. rewrite Hoff, Hmax.
  destruct Hsane as [_ Hm]. rewrite wrap_small by (unfold in_range, kHeaderSize in *; lia).
  destruct (Z.leb_spec max (kHeaderSize + Z.of_nat (length s.2) + Z.of_nat (length bs))).
  - destruct (roll_refines e fs s Hok Hn) as (e1 & fs1 & -> & Hok1 & Hn1).
    destruct (append_bytes_refines e1 fs1 _ bs Hok1) as (e2 & fs2 & -> & Hok2 & Hn2);
      cbn [fst snd length]; [lia|rewrite length_app; cbn [length]; lia|].
    exists e2, fs2. split; [done|]. split; [exact Hok2|]. destruct Hn1, Hn2. split; congruence.
  - apply append_bytes_refines; [done|lia..].
Qed.
End refinement.

(** ** Reading the files back *)

(** The files of an engine in the order of their sequence numbers. *)
Definition all_files (e : MmapEngine) (fs : MmapFS) : list (list byte) :=
  (fun k => published_at fs (MakeFileName e k)) <$> seqZ 0 (file_sequence_ e + 1).

Fixpoint chunks (fuel n : nat) (bs : list byte) : list (list byte) :=
  match fuel with
  | O => []
  | S fuel' => match bs with [] => [] | _ => take n bs :: chunks fuel' n (drop n bs) end
  end.

(** The tick records a file publishes. *)
Definition read_ticks (bs : list byte) : list StorageTickEnvelope :=
  envelope_of_bytes <$> chunks (length bs) (Z.to_nat sizeof_StorageTickEnvelope) bs.

Lemma all_files_engine_at os e fs s : engine_at os e fs s -> all_files e fs = s.1 ++ [s.2].
Proof.
  intros [Hfd Hptr Hseq Hoff Hcur Hprev Hsize Hfit]. unfold all_files.
  rewrite seqZ_app, fmap_app by lia. f_equal.
  - rewrite Hseq. apply list_eq. intros k. rewrite list_lookup_fmap.
    destruct (decide (k < length s.1)%nat) as [Hk|Hk].
    + rewrite (proj2 (lookup_seqZ 0 (Z.of_nat (length s.1)) k (Z.of_nat k))) by lia. cbn [fmap option_fmap option_map].
      destruct (lookup_lt_is_Some_2 s.1 k Hk) as [log Hlog]. rewrite Hlog. f_equal.
      apply holds_published. eauto.
    + rewrite (lookup_ge_None_2 s.1) by lia. by rewrite lookup_seqZ_ge by lia.
  - rewrite Hseq, !Z.add_0_l. change (seqZ ?x 1) with [0 + x]. rewrite Z.add_0_l. cbn [fmap list_fmap].
    f_equal. apply holds_published. by rewrite <- Hseq.
Qed.

Lemma chunks_concat n blocks fuel :
  (0 < n)%nat -> Forall (fun b => length b = n) blocks -> (length blocks <= fuel)%nat ->
  chunks fuel n (concat blocks) = blocks.
Proof.
  intros Hn. revert fuel. induction blocks as [|b bs IH]; intros fuel Hb Hf; [by destruct fuel|].
  apply Forall_cons in Hb as [Hb Hbs]. destruct fuel as [|fuel]; [cbn in Hf; lia|].
  cbn [concat chunks]. destruct (b ++ concat bs) as [|x l] eqn:E.
  - apply (f_equal length) in E. rewrite length_app in E. cbn in E. lia.
  - rewrite <- E. rewrite take_app_length', drop_app_length' by done. rewrite IH; [done|done|]. cbn in Hf. lia.
Qed.

Lemma length_concat_ge {A} (n : nat) (blocks : list (list A)) :
  (0 < n)%nat -> Forall (fun b => length b = n) blocks -> (length blocks <= length (concat blocks))%nat.
Proof.
  intros Hn. induction 1 as [|b bs Hb _ IH]; cbn; [lia|]. rewrite length_app. lia.
Qed.

Definition storable (e : StorageTickEnvelope) : Prop :=
  valid_tick (env_data e) /\ in_range 32 (env_storage_target e) /\ in_range 32 (env_recovery_status e).

Lemma read_ticks_records envs :
  Forall storable envs -> read_ticks (concat (envelope_bytes <$> envs)) = envs.
Proof.
  intros H. unfold read_ticks.
  assert (Hlen : Forall (fun b => length b = Z.to_nat sizeof_StorageTickEnvelope) (envelope_bytes <$> envs)).
  { apply Forall_fmap. eapply Forall_impl; [exact H|]. intros e [[] _]. by apply length_envelope_bytes. }
  rewrite chunks_concat; [|vm_compute; lia|done|eapply length_concat_ge; [|done]; vm_compute; lia].
  rewrite <- list_fmap_compose. rewrite <- (list_fmap_id envs) at 2.
  apply list_fmap_ext. intros i e He. cbn. eapply Forall_lookup_1 in H; [|exact He].
  destruct H as (? & ? & ?). by apply envelope_of_bytes_bytes.
Qed.

(** The rolling log only cuts between records: every file holds whole records,
    and in file order they are the records appended. *)
Lemma log_append_groups {A} max (enc : A -> list byte) (xs : list A) g c :
  exists g' c', fold_left (log_append max) (enc <$> xs) ((fun l => concat (enc <$> l)) <$> g, concat (enc <$> c)) =
                  ((fun l => concat (enc <$> l)) <$> g', concat (enc <$> c')) /\
                concat g' ++ c' = concat g ++ c ++ xs /\ (length g' <= length g + length xs)%nat.
Proof.
  revert g c. induction xs as [|x xs IH]; intros g c; cbn [fmap list_fmap fold_left].
  - exists g, c. rewrite app_nil_r. split; [done|]. split; [done|lia].
  - unfold log_append at 2. cbn [fst snd]. destruct (_ <=? _).
    + destruct (IH (g ++ [c]) [x]) as (g' & c' & Heq & Hc & Hl). exists g', c'. split.
      * rewrite fmap_app in Heq. cbn in Heq. rewrite app_nil_r in Heq. exact Heq.
      * rewrite Hc, concat_app. cbn. rewrite app_nil_r, <- !app_assoc. split; [done|].
        rewrite length_app in Hl. cbn in Hl. lia.
    + destruct (IH g (c ++ [x])) as (g' & c' & Heq & Hc & Hl). exists g', c'. split.
      * rewrite fmap_app, concat_app in Heq. cbn in Heq. rewrite app_nil_r in Heq. exact Heq.
      * rewrite Hc, <- !app_assoc. split; [done|]. cbn. lia.
Qed.

Lemma log_append_length max s bs : (length (log_append max s bs).1 <= S (length s.1))%nat.
Proof. unfold log_append. destruct (_ <=? _); cbn; rewrite ?length_app; cbn; lia. Qed.

(** ** Sequences of appends *)

Fixpoint append_all {A} (append : A -> MmapEngine -> MmapFS -> option (MmapEngine * MmapFS))
    (xs : list A) (e : MmapEngine) (fs : MmapFS) : option (MmapEngine * MmapFS) :=
  match xs with
  | [] => Some (e, fs)
  | x :: xs' => match append x e fs with Some (e, fs) => append_all append xs' e fs | None => None end
  end.

Section runs.
Context (os : OS) (max : Z) (Hsane : sane_sizes os max) (Hos : forall f, os_accepts os f).

Lemma engine_ok_open e fs s : engine_ok os max e fs s -> IsOpen e = true.
Proof. intros ([Hfd Hptr _ _ _ _ _ _] & _). unfold IsOpen. by rewrite Hfd, Hptr. Qed.

(** Any append that is [append_rolling] of an encoding on an open engine. *)
Lemma append_all_refines {A} append (enc : A -> list byte) xs e fs s :
  (forall x e fs, x ∈ xs -> IsOpen e = true -> append x e fs = append_rolling os (enc x) e fs) ->
  Forall (fun x => kHeaderSize + Z.of_nat (length (enc x)) <= max) xs ->
  engine_ok os max e fs s -> Z.of_nat (length s.1 + length xs) < 2 ^ 31 - 1 ->
  exists e' fs', append_all append xs e fs = Some (e', fs') /\
    engine_ok os max e' fs' (fold_left (log_append max) (enc <$> xs) s) /\ same_names e e'.
Proof.
  intros Happ Hfit. revert e fs s. induction xs as [|x xs IH]; intros e fs s Hok Hn; cbn [append_all].
  - by exists e, fs.
  - apply Forall_cons in Hfit as [Hx Hxs].
    rewrite Happ; [|apply elem_of_cons; by left|by eapply engine_ok_open].
    cbn [length] in Hn.
    destruct (append_rolling_refines os max Hsane Hos e fs s (enc x) Hok Hx) as (e1 & fs1 & -> & Hok1 & Hn1); [lia|].
    pose proof (log_append_length max s (enc x)).
    destruct (IH ltac:(intros; apply Happ; [apply elem_of_cons; auto|done]) Hxs e1 fs1 _ Hok1)
      as (e2 & fs2 & Heq & Hok2 & Hn2); [lia|].
    exists e2, fs2. split; [exact Heq|]. split; [exact Hok2|]. destruct Hn1, Hn2. split; congruence.
Qed.

Lemma open_refines path prefix fs :
  EnsureDirExists (os_mkdir os) (EnsureTrailingSlash path) = true ->
  (String.length (EnsureTrailingSlash path) + String.length prefix <= 112)%nat ->
  exists e fs', OpenOrCreate os path prefix (engine_new max) fs = (true, (e, fs')) /\
    engine_ok os max e fs' ([], []).
Proof.
  intros Hdir Hlen. unfold OpenOrCreate. cbn [set_naming output_path_ file_sequence_ engine_new]. rewrite Hdir. cbn [negb].
  set (e0 := set_naming _ _ _ _).
  destruct (map_file_ok os (MakeFileName e0 0) e0 fs (Hos _)) as (fs' & Heq & Hh).
  eexists _, fs'. split; [exact Heq|]. split; [|done]. split; try done.
  destruct Hsane as [_ ?]. cbn. unfold kHeaderSize in *. lia.
Qed.
End runs.

(** C22: Appending raw records to a freshly opened engine implements a rolling log: every call succeeds, no byte
    is copied outside the mapping, and the files in sequence order publish exactly the contents of the abstract
    log, which starts a new file when a record would reach the size limit and never splits one record. *)
Theorem mmap_log_refinement os max path prefix (records : list (list byte)) fs :
  sane_sizes os max -> (forall f, os_accepts os f) ->
  EnsureDirExists (os_mkdir os) (EnsureTrailingSlash path) = true ->
  (String.length (EnsureTrailingSlash path) + String.length prefix <= 112)%nat ->
  Forall (fun r => (0 < length r)%nat /\ kHeaderSize + Z.of_nat (length r) <= max) records ->
  Z.of_nat (length records) < 2 ^ 31 - 1 ->
  exists e0 fs0 e fs',
    OpenOrCreate os path prefix (engine_new max) fs = (true, (e0, fs0)) /\
    append_all (AppendRaw os) records e0 fs0 = Some (e, fs') /\
    let '(files, cur) := fold_left (log_append max) records ([], []) in
    all_files e fs' = files ++ [cur].
Proof.
  intros Hsane Hos Hdir Hname Hrec Hn.
  destruct (open_refines os max Hsane Hos path prefix fs Hdir Hname) as (e0 & fs0 & Hopen & Hok).
  destruct (append_all_refines os max Hsane Hos (AppendRaw os) id records e0 fs0 _
              ltac:(intros x e1 fs1 Hx Hop; eapply Forall_forall in Hrec; [|exact Hx];
                    unfold AppendRaw; rewrite Hop, (proj2 (Nat.eqb_neq (length x) 0)); [done|lia])
              ltac:(eapply Forall_impl; [exact Hrec|by intros r [_ ?]]) Hok ltac:(cbn; lia))
    as (e & fs' & Hrun & Hok' & _).
  exists e0, fs0, e, fs'. split; [done|]. split; [done|].
  rewrite list_fmap_id in Hok'. destruct (fold_left _ _ _) as [files cur].
  by apply (all_files_engine_at os e fs' (files, cur)), Hok'.
Qed.

(** C10: Ticks are recoverable: reading the published tick records of the engine's files in sequence order
    returns exactly the appended ticks, in order, bit for bit, each tagged with its storage target. *)
Theorem mmap_ticks_recoverable os max path prefix target (ticks : list TickData) fs :
  sane_sizes os max -> (forall f, os_accepts os f) ->
  EnsureDirExists (os_mkdir os) (EnsureTrailingSlash path) = true ->
  (String.length (EnsureTrailingSlash path) + String.length prefix <= 112)%nat ->
  kHeaderSize + sizeof_StorageTickEnvelope <= max -> in_range 32 target ->
  Forall valid_tick ticks -> Z.of_nat (length ticks) < 2 ^ 31 - 1 ->
  exists e0 fs0 e fs',
    OpenOrCreate os path prefix (engine_new max) fs = (true, (e0, fs0)) /\
    append_all (fun t => AppendRecord os t target) ticks e0 fs0 = Some (e, fs') /\
    concat (read_ticks <$> all_files e fs') = (fun t => mkEnvelope t target 0) <$> ticks.
Proof.
  intros Hsane Hos Hdir Hname Hfit Ht Hv Hn.
  destruct (open_refines os max Hsane Hos path prefix fs Hdir Hname) as (e0 & fs0 & Hopen & Hok).
  set (env := fun t => mkEnvelope t target 0).
  destruct (append_all_refines os max Hsane Hos (fun t => AppendRecord os t target) (envelope_bytes ∘ env) ticks e0 fs0 _
              ltac:(intros x e1 fs1 _ Hop; unfold AppendRecord; by rewrite Hop)
              ltac:(eapply Forall_impl; [exact Hv|]; intros t [Hw _]; cbn [compose]; unfold compose;
                    rewrite length_envelope_bytes by exact Hw; exact Hfit) Hok ltac:(cbn; lia))
    as (e & fs' & Hrun & Hok' & _).
  exists e0, fs0, e, fs'. split; [done|]. split; [done|].
  destruct Hok' as [Hat _]. rewrite (all_files_engine_at _ _ _ _ Hat).
  destruct (log_append_groups max envelope_bytes (env <$> ticks) [] []) as (g & c & Heq & Hc & _).
  rewrite list_fmap_compose. cbn [fmap list_fmap concat] in Heq. rewrite Heq. cbn [fst snd].
  cbn [concat app] in Hc. rewrite <- Hc.
  assert (Hst : Forall storable (concat g ++ c)).
  { rewrite Hc. apply Forall_fmap. eapply Forall_impl; [exact Hv|]. intros t ?.
    split; [done|]. split; [done|]. unfold in_range; cbn; lia. }
  apply Forall_app in Hst as [Hg Hcs]. rewrite fmap_app, concat_app. cbn [fmap list_fmap concat]. rewrite app_nil_r.
  f_equal; [|by apply read_ticks_records].
  clear Heq Hc. induction g as [|l g IH]; [done|]. cbn [concat] in Hg. apply Forall_app in Hg as [Hl Hg].
  cbn [fmap list_fmap concat]. f_equal; [by apply read_ticks_records|by apply IH].
Qed.

(** ** No access outside the mapping

    With the default file size no operation of the backend, in any order and
    whatever the operating system refuses, touches memory outside a mapping. *)

Definition engine_safe (os : OS) (e : MmapEngine) : Prop :=
  max_file_size_ e = default_max_file_size /\
  (is_Some (mmap_ptr_ e) ->
   mmap_size_ e = page_aligned os default_max_file_size /\
   kHeaderSize <= current_mapped_offset_ e <= default_max_file_size).

Definition backend_safe (os : OS) (b : MmapBackend) : Prop :=
  map_Forall (fun _ => engine_safe os) (tick_engines_ b) /\ map_Forall (fun _ => engine_safe os) (ob_engines_ b) /\
  map_Forall (fun _ => engine_safe os) (bt_engines_ b) /\ (forall e, fallback_ b = Some e -> engine_safe os e).

Inductive MmapOp :=
| OpRegister (channel_id : Z) (exchange market_type symbol : string)
| OpInsertTick (t : TickData)
| OpInsertOrderbook (ev : DepthUpdateEvent) (local_ts : Z)
| OpInsertBookTicker (ev : BookTickerEvent)
| OpEnsureFallback
| OpFallbackTick (t : TickData)
| OpFallbackOrderbook (ev : DepthUpdateEvent) (local_ts : Z)
| OpFallbackBookTicker (ev : BookTickerEvent)
| OpFlushAndClose.

Definition mmap_step (os : OS) (op : MmapOp) (s : MmapBackend * MmapFS) : option (MmapBackend * MmapFS) :=
  let '(b, fs) := s in
  match op with
  | OpRegister c ex mt sym => Some (MmapRegisterChannel os c ex mt sym b fs)
  | OpInsertTick t => MmapInsertTick os t b fs
  | OpInsertOrderbook ev ts => MmapInsertOrderbook os ev ts b fs
  | OpInsertBookTicker ev => MmapInsertBookTicker os ev b fs
  | OpEnsureFallback => Some (EnsureFallback os b fs)
  | OpFallbackTick t => AppendFallbackTick os t b fs
  | OpFallbackOrderbook ev ts => AppendFallbackOrderbook os ev ts b fs
  | OpFallbackBookTicker ev => AppendFallbackBookTicker os ev b fs
  | OpFlushAndClose => Some (MmapFlushAndClose b, fs)
  end.

Definition run_mmap (os : OS) (ops : list MmapOp) (s : MmapBackend * MmapFS) : option (MmapBackend * MmapFS) :=
  foldl (fun r op => match r with Some s => mmap_step os op s | None => None end) (Some s) ops.

(** The structures handed to the backend are well formed. *)
Definition op_wf (op : MmapOp) : Prop :=
  match op with
  | OpInsertTick t | OpFallbackTick t => wf_tick t
  | OpInsertOrderbook ev _ | OpFallbackOrderbook ev _ => wf_depth ev
  | OpInsertBookTicker ev | OpFallbackBookTicker ev => length (bt_symbol ev) = 12%nat
  | _ => True
  end.

Section safety.
Context (os : OS) (Hsane : sane_sizes os default_max_file_size).

Lemma map_file_safe fname e fs :
  max_file_size_ e = default_max_file_size -> mmap_ptr_ e = None ->
  engine_safe os (map_file os fname e fs).2.1 /\
  ((map_file os fname e fs).1 = true ->
   is_Some (mmap_ptr_ (map_file os fname e fs).2.1) /\
   current_mapped_offset_ (map_file os fname e fs).2.1 = kHeaderSize).
Proof.
  intros Hm Hp. unfold map_file, engine_safe.
  destruct (os_open os fname), (os_ftruncate os fname), (os_mmap os fname);
    cbn -[page_aligned default_max_file_size]; rewrite ?Hp, ?Hm; (split; [split; [done|]|try done]);
    try (by intros [? ?]); try (intros _; split; [done|]); try (unfold kHeaderSize, default_max_file_size; lia); done.
Qed.

Lemma append_bytes_safe bs e fs :
  engine_safe os e -> is_Some (mmap_ptr_ e) ->
  current_mapped_offset_ e + Z.of_nat (length bs) <= default_max_file_size ->
  exists e' fs', append_bytes bs e fs = Some (e', fs') /\ engine_safe os e'.
Proof.
  intros [Hm Hs] Hp Hlen. destruct (Hs Hp) as [Hsz Hoff]. destruct Hp as [f Hf].
  pose proof (page_aligned_ge os _ Hsane) as Hge. unfold default_max_file_size, kHeaderSize in *.
  unfold append_bytes, memcpy_to. rewrite Hf, Hsz, length_le_bytes.
  rewrite !(proj2 (Z.leb_le _ _)) by lia. eexists _, _. split; [done|].
  split; [done|]. cbn -[page_aligned Z.mul]. intros _. split; [done|].
  unfold kHeaderSize. rewrite wrap_small by (unfold in_range; lia). unfold default_max_file_size. lia.
Qed.

Lemma append_rolling_safe bs e fs :
  engine_safe os e -> is_Some (mmap_ptr_ e) -> kHeaderSize + Z.of_nat (length bs) <= default_max_file_size ->
  exists e' fs', append_rolling os bs e fs = Some (e', fs') /\ engine_safe os e'.
Proof.
  intros Hs Hp Hlen. unfold append_rolling. destruct (proj2 Hs Hp) as [_ Hoff].
  destruct (Z.leb_spec (max_file_size_ e) (u64 (current_mapped_offset_ e + Z.of_nat (length bs)))) as [H|H].
  - unfold RollNewFile. set (e1 := set_naming _ _ _ _).
    destruct (map_file_safe (MakeFileName e1 (file_sequence_ e1)) e1 fs) as [Hs1 Hs2];
      [apply Hs|done|].
    destruct (map_file _ _ _ _) as [[] [e2 fs2]]; cbn [fst snd] in *; [|by eexists _, _].
    destruct (Hs2 eq_refl) as [Hp2 Ho2]. apply append_bytes_safe; [done|done|]. by rewrite Ho2.
  - apply append_bytes_safe; [done|done|]. rewrite (proj1 Hs) in H.
    unfold kHeaderSize, default_max_file_size in *. rewrite wrap_small in H by (unfold in_range; lia). lia.
Qed.

Lemma IsOpen_ptr e : IsOpen e = true -> is_Some (mmap_ptr_ e).
Proof. unfold IsOpen. intros H. bool_to_prop. by apply bool_decide_eq_true in H0. Qed.

Lemma AppendRaw_safe bs e fs :
  engine_safe os e -> kHeaderSize + Z.of_nat (length bs) <= default_max_file_size ->
  exists e' fs', AppendRaw os bs e fs = Some (e', fs') /\ engine_safe os e'.
Proof.
  intros Hs Hlen. unfold AppendRaw. destruct (IsOpen e) eqn:E; cbn [negb orb]; [|by eexists _, _].
  destruct (_ =? _)%nat; [by eexists _, _|]. apply append_rolling_safe; eauto using IsOpen_ptr.
Qed.

Lemma AppendRecord_safe t target e fs :
  engine_safe os e -> wf_tick t -> exists e' fs', AppendRecord os t target e fs = Some (e', fs') /\ engine_safe os e'.
Proof.
  intros Hs Ht. unfold AppendRecord. destruct (IsOpen e) eqn:E; cbn [negb]; [|by eexists _, _].
  apply append_rolling_safe; [done|by apply IsOpen_ptr|]. rewrite length_envelope_bytes by done. vm_compute. discriminate.
Qed.

Lemma length_RecordCopySymbol src :
  length src = 12%nat -> length (RecordCopySymbol (replicate kSymbolFieldBytes NUL) src 12) = kSymbolFieldBytes.
Proof.
  intros H. change (RecordCopySymbol ?dst src 12) with (<[12%nat := NUL]> (splice 0 (take 12 src) dst)).
  rewrite length_insert, length_splice; rewrite ?length_replicate; [done|]. rewrite length_take, H. vm_compute. lia.
Qed.

Lemma depth_levels_fit (e : DepthUpdateEvent) :
  kHeaderSize + Z.of_nat (length (levels_bytes (depth_bids e))) <= kHeaderSize + 16 * Z.of_nat (dp_bid_count e) /\
  kHeaderSize + Z.of_nat (length (levels_bytes (depth_asks e))) <= kHeaderSize + 16 * Z.of_nat (dp_ask_count e).
Proof.
  rewrite !length_levels_bytes. unfold depth_bids, depth_asks, sizeof_PriceLevel. rewrite !length_take. lia.
Qed.

Lemma WriteOrderbook_safe ev ts e fs :
  engine_safe os e -> wf_depth ev -> exists e' fs', WriteOrderbook os ev ts e fs = Some (e', fs') /\ engine_safe os e'.
Proof.
  intros Hs [Hsym _ _ Hb Ha]. unfold WriteOrderbook. destruct (depth_levels_fit ev) as [Hfb Hfa].
  assert (Hk : kMaxOrderbookLevels = 100%nat) by done.
  set (h := mkBookHeader _ _ _ _ _).
  destruct (AppendRaw_safe (book_header_bytes h) e fs Hs) as (e1 & fs1 & -> & Hs1).
  { rewrite length_book_header_bytes by (by apply length_RecordCopySymbol). vm_compute. discriminate. }
  assert (H1 : exists e2 fs2, (if (0 <? dp_bid_count ev)%nat then AppendRaw os (levels_bytes (depth_bids ev)) e1 fs1
                               else Some (e1, fs1)) = Some (e2, fs2) /\ engine_safe os e2).
  { destruct (0 <? dp_bid_count ev)%nat; [|by eexists _, _]. apply AppendRaw_safe; [done|].
    unfold kHeaderSize, default_max_file_size in *. lia. }
  destruct H1 as (e2 & fs2 & -> & Hs2).
  destruct (0 <? dp_ask_count ev)%nat; [|by eexists _, _]. apply AppendRaw_safe; [done|].
  unfold kHeaderSize, default_max_file_size in *. lia.
Qed.

Lemma WriteBookTicker_safe ev e fs :
  engine_safe os e -> length (bt_symbol ev) = 12%nat ->
  exists e' fs', WriteBookTicker os ev e fs = Some (e', fs') /\ engine_safe os e'.
Proof.
  intros Hs Hsym. apply AppendRaw_safe; [done|].
  rewrite length_ticker_record_bytes by (by apply length_RecordCopySymbol). vm_compute. discriminate.
Qed.
End safety.

Section backend_safety.
Context (os : OS) (Hsane : sane_sizes os default_max_file_size).

Lemma OpenOrCreate_safe path prefix fs : engine_safe os (OpenOrCreate os path prefix (engine_new default_max_file_size) fs).2.1.
Proof.
  unfold OpenOrCreate. destruct (negb _); [split; [done|by intros [? ?]]|]. by apply map_file_safe.
Qed.

Lemma open_into_safe dir prefix c m fs :
  map_Forall (fun _ => engine_safe os) m -> map_Forall (fun _ => engine_safe os) (open_into os dir prefix c m fs).1.
Proof.
  intros Hm. unfold open_into. pose proof (OpenOrCreate_safe dir prefix fs) as Hs.
  destruct (OpenOrCreate _ _ _ _ _) as [[] [e fs1]]; [|done]. cbn [fst snd] in *. unfold emplace.
  destruct (m !! c); [done|]. by apply map_Forall_insert_2.
Qed.

Lemma EngineClose_safe e : engine_safe os e -> engine_safe os (EngineClose e).
Proof. intros [Hm _]. split; [done|]. by intros [? ?]. Qed.

Lemma map_Forall_close (m : gmap Z MmapEngine) :
  map_Forall (fun _ => engine_safe os) m -> map_Forall (fun _ => engine_safe os) (EngineClose <$> m).
Proof. rewrite map_Forall_fmap. intros H k e Hk. apply EngineClose_safe. by eapply H. Qed.

Lemma on_fallback_safe write b fs :
  backend_safe os b ->
  (forall e, engine_safe os e -> exists e' fs', write e fs = Some (e', fs') /\ engine_safe os e') ->
  exists s', on_fallback write b fs = Some s' /\ backend_safe os s'.1.
Proof.
  intros (H1 & H2 & H3 & H4) Hw. unfold on_fallback. destruct (fallback_ b) as [e|] eqn:E.
  2: { eexists. split; [done|]. split_and!; try done. cbn. by rewrite E. }
  destruct (Hw e (H4 e eq_refl)) as (e' & fs' & -> & He'). eexists. split; [done|].
  split_and!; try done. cbn. by intros ? [= <-].
Qed.

Lemma MmapRegisterChannel_safe c ex mt sym b fs :
  backend_safe os b -> backend_safe os (MmapRegisterChannel os c ex mt sym b fs).1.
Proof.
  intros (H1 & H2 & H3 & H4). unfold MmapRegisterChannel. set (dir := JoinPath _ _).
  pose proof (open_into_safe dir "tick" c _ fs H1). destruct (open_into _ _ "tick" _ _ _) as [m1 fs1]. cbn in *.
  pose proof (open_into_safe dir "ob" c _ fs1 H2). destruct (open_into _ _ "ob" _ _ _) as [m2 fs2]. cbn in *.
  pose proof (open_into_safe dir "bt" c _ fs2 H3). destruct (open_into _ _ "bt" _ _ _) as [m3 fs3]. cbn in *.
  split_and!; done.
Qed.

Lemma mmap_step_safe op s :
  op_wf op -> backend_safe os s.1 -> exists s', mmap_step os op s = Some s' /\ backend_safe os s'.1.
Proof.
  destruct s as [b fs]. intros Hw Hb. pose proof Hb as (H1 & H2 & H3 & H4).
  destruct op as [c ex mt sym|t|ev ts|ev| |t|ev ts|ev|]; cbn [mmap_step op_wf] in *.
  - eexists. split; [done|]. by apply MmapRegisterChannel_safe.
  - unfold MmapInsertTick. destruct (tick_engines_ b !! _) as [e|] eqn:E; [|by eexists].
    destruct (AppendRecord_safe os Hsane t 0 e fs (H1 _ _ E) Hw) as (e' & fs' & -> & He').
    eexists. split; [done|]. split_and!; try done. by apply map_Forall_insert_2.
  - unfold MmapInsertOrderbook. destruct (ob_engines_ b !! _) as [e|] eqn:E; [|by eexists].
    destruct (WriteOrderbook_safe os Hsane ev ts e fs (H2 _ _ E) Hw) as (e' & fs' & -> & He').
    eexists. split; [done|]. split_and!; try done. by apply map_Forall_insert_2.
  - unfold MmapInsertBookTicker. destruct (bt_engines_ b !! _) as [e|] eqn:E; [|by eexists].
    destruct (WriteBookTicker_safe os Hsane ev e fs (H3 _ _ E) Hw) as (e' & fs' & -> & He').
    eexists. split; [done|]. split_and!; try done. by apply map_Forall_insert_2.
  - eexists. split; [done|]. unfold EnsureFallback. destruct (fallback_ b); [done|].
    set (path := JoinPath _ _). pose proof (OpenOrCreate_safe path "tick" fs) as Hs.
    destruct (OpenOrCreate _ _ _ _ _) as [[] [e fs1]]; [|done]. cbn [fst snd] in *.
    split_and!; try done. cbn. by intros ? [= <-].
  - apply on_fallback_safe; [done|]. intros e He. by apply AppendRecord_safe.
  - apply on_fallback_safe; [done|]. intros e He. by apply WriteOrderbook_safe.
  - apply on_fallback_safe; [done|]. intros e He. by apply WriteBookTicker_safe.
  - eexists. split; [done|]. split_and!; try (by apply map_Forall_close). done.
Qed.

Lemma run_mmap_safe ops s :
  Forall op_wf ops -> backend_safe os s.1 -> exists s', run_mmap os ops s = Some s' /\ backend_safe os s'.1.
Proof.
  unfold run_mmap. revert s. induction ops as [|op ops IH]; intros s Hw Hb; [by exists s|].
  apply Forall_cons in Hw as [Hw Hws]. cbn [foldl].
  destruct (mmap_step_safe op s Hw Hb) as (s1 & -> & Hb1). by apply IH.
Qed.
End backend_safety.

(** C20: No operation of the mmap backend copies bytes outside a mapped file: whatever sequence of registrations,
    inserts, fallback appends and closes runs, and whichever directory, open, truncate and map calls the operating
    system refuses (a refused roll included), every [memcpy] stays within the mapping. *)
Theorem mmap_never_out_of_bounds os root (ops : list MmapOp) fs :
  0 < os_page_size os <= 2 ^ 30 -> Forall op_wf ops ->
  is_Some (run_mmap os ops (mmap_backend0 root, fs)).
Proof.
  intros Hp Hw.
  destruct (run_mmap_safe os ltac:(split; [done|]; vm_compute; split; congruence) ops (mmap_backend0 root, fs) Hw)
    as (s & -> & _); [|done].
  split_and!; try apply map_Forall_empty. done.
Qed.

(** ** Reopening, split records, truncated names *)

(** Opening an engine on a file that already holds records resets the header's write offset: whatever an
    earlier run published in that file is published no longer, and the next append overwrites it. *)
Theorem mmap_reopen_discards os max path prefix fs e fs' :
  OpenOrCreate os path prefix (engine_new max) fs = (true, (e, fs')) ->
  published_at fs' (MakeFileName e 0) = [] /\ current_mapped_offset_ e = kHeaderSize.
Proof.
  unfold OpenOrCreate. cbn [set_naming output_path_ file_sequence_ engine_new].
  destruct (negb _); [done|]. set (e0 := set_naming _ _ _ _). unfold map_file.
  destruct (os_open os _); [|done]. destruct (os_ftruncate os _); [|done]. destruct (os_mmap os _); [|done].
  cbn [negb]. intros [= <- <-]. split; [|done]. apply holds_published. unfold poke.
  change (MakeFileName (set_fd _ _) 0) with (MakeFileName e0 0). rewrite lookup_insert_eq. apply holds_header.
Qed.

Definition demo_os : OS := mkOS (fun _ => true) (fun _ => true) (fun _ => true) (fun _ => true) 4096.

Definition demo_tick (id : Z) : TickData :=
  mkTick 1700000000000000 1000 id (d_of_Z 42) (d_of_Z 7) 5 (list_ascii_of_string "BTCUSDT" ++ replicate 5 NUL)
    true (replicate 3 NUL).

Lemma demo_tick_valid id : in_range 64 id -> valid_tick (demo_tick id).
Proof. intros H. split; [split; try done; unfold in_range; cbn; lia|]. by split; vm_compute. Qed.

(** What an engine with the given limit has on disk after a run of appends. *)
Definition demo_run (max : Z) (ids : list Z) (fs : MmapFS) : option (MmapEngine * MmapFS) :=
  match OpenOrCreate demo_os "d" "tick" (engine_new max) fs with
  | (true, (e, fs)) => append_all (fun id => AppendRecord demo_os (demo_tick id) 0) ids e fs
  | _ => None
  end.

Definition demo_published (r : option (MmapEngine * MmapFS)) : list Z :=
  match r with
  | Some (e, fs) => tk_trade_id ∘ env_data <$> concat (read_ticks <$> all_files e fs)
  | None => []
  end.

Lemma mmap_log_refinement_witness :
  let records := [replicate 100 "a"%char; replicate 60 "b"%char; replicate 60 "c"%char] in
  exists e0 fs0 e fs',
    OpenOrCreate demo_os "d" "ob" (engine_new 256) ∅ = (true, (e0, fs0)) /\
    append_all (AppendRaw demo_os) records e0 fs0 = Some (e, fs') /\
    let '(files, cur) := fold_left (log_append 256) records ([], []) in
    all_files e fs' = files ++ [cur].
Proof.
  apply (mmap_log_refinement demo_os 256 "d" "ob" _ ∅); try done;
    try (unfold sane_sizes, kHeaderSize; cbn; lia).
  - vm_compute. lia.
  - repeat constructor; vm_compute; lia || discriminate.
Defined.

Lemma mmap_ticks_recoverable_witness :
  exists e0 fs0 e fs',
    OpenOrCreate demo_os "d" "tick" (engine_new 256) ∅ = (true, (e0, fs0)) /\
    append_all (fun t => AppendRecord demo_os t 1) [demo_tick 1; demo_tick 2] e0 fs0 = Some (e, fs') /\
    concat (read_ticks <$> all_files e fs') = (fun t => mkEnvelope t 1 0) <$> [demo_tick 1; demo_tick 2].
Proof.
  apply (mmap_ticks_recoverable demo_os 256 "d" "tick" 1 _ ∅); try done;
    try (unfold sane_sizes, in_range, kHeaderSize; cbn; lia).
  - vm_compute. lia.
  - repeat constructor; apply demo_tick_valid; unfold in_range; lia.
Defined.

(** Two files were written by that run. *)
Example demo_run_rolls :
  (fun r => (demo_published (Some r), file_sequence_ r.1)) <$> demo_run 256 [1; 2; 3] ∅ = Some ([1; 2; 3], 2).
Proof. vm_compute. reflexivity. Qed.

(** A file left by an earlier run, with four bytes published. *)
Definition old_file : MFile := mkMFile 4096 (mem_write 0 (le_bytes 8 68) (mem_write 64 (list_ascii_of_string "data") ∅)).
Definition old_fs : MmapFS := {[ "d/tick_0000.bin"%string := old_file ]}.

Lemma mmap_reopen_discards_witness :
  string_of_list_ascii (published_at old_fs "d/tick_0000.bin") = "data"%string /\
  exists e fs', OpenOrCreate demo_os "d" "tick" (engine_new 1000) old_fs = (true, (e, fs')) /\
    published_at fs' (MakeFileName e 0) = [] /\ current_mapped_offset_ e = kHeaderSize.
Proof.
  split; [vm_compute; reflexivity|]. eexists _, _. split; [reflexivity|].
  apply (mmap_reopen_discards demo_os 1000 "d" "tick" old_fs). reflexivity.
Defined.

Definition refusing_os : OS := mkOS (fun _ => true) (fun f => negb (String.eqb f "r/degraded/tick_0000.bin")) (fun _ => true) (fun _ => true) 4096.

Lemma mmap_never_out_of_bounds_witness :
  is_Some (run_mmap refusing_os
    [OpRegister 5 "binance" "spot" "BTCUSDT"; OpInsertTick (demo_tick 1); OpEnsureFallback; OpFallbackTick (demo_tick 2);
     OpInsertOrderbook (mkDepth 1 5 0 0 symbol0 (replicate 100 level0) (replicate 100 level0) 100 3) 9;
     OpFlushAndClose; OpInsertTick (demo_tick 3)]
    (mmap_backend0 "r", ∅)).
Proof.
  apply mmap_never_out_of_bounds; [cbn; lia|].
  repeat constructor; try (cbn; lia); try (unfold in_range; cbn; lia); apply demo_tick_valid; unfold in_range; lia.
Defined.

Definition demo_book : DepthUpdateEvent :=
  mkDepth 1 5 0 0 symbol0 (replicate 100 (mkLevel (d_of_Z 3) (d_of_Z 4))) (replicate 100 level0) 5 0.

(** An order book record is not atomic in the files: its header and its levels are separate appends, so a
    roll can come between them.  Here the header ends file 0 and the five bid levels it announces start file 1. *)
Theorem orderbook_record_split :
  match OpenOrCreate demo_os "d" "ob" (engine_new 200) ∅ with
  | (true, (e, fs)) =>
      match WriteOrderbook demo_os demo_book 9 e fs with
      | Some (e', fs') =>
          length <$> all_files e' fs' = [Z.to_nat sizeof_OrderbookRecordHeader; (5 * 16)%nat] /\
          published_at fs' (MakeFileName e' 1) = levels_bytes (depth_bids demo_book)
      | None => False
      end
  | _ => False
  end.
Proof. vm_compute. split; reflexivity. Qed.

(** A file name is built in 128 bytes and cut to 127 characters: when the output path alone fills them, the
    trade, book and ticker engines of a channel and all their sequence numbers get one file name (the comment at
    the truncation branch promises an unambiguous name). *)
Theorem mmap_long_path_collides e1 e2 a b :
  output_path_ e1 = output_path_ e2 -> (127 <= String.length (output_path_ e1))%nat ->
  MakeFileName e1 a = MakeFileName e2 b.
Proof.
  intros Hp Hl. unfold MakeFileName. rewrite <- Hp. f_equal.
  rewrite !take_app_le by (rewrite length_list_ascii; lia). done.
Qed.

Lemma mmap_long_path_collides_witness :
  let path := string_of_list_ascii (replicate 130 "x"%char) in
  let e prefix := set_naming path prefix 0 (engine_new 256) in
  MakeFileName (e "tick"%string) 0 = MakeFileName (e "ob"%string) 7.
Proof. intros path e. apply mmap_long_path_collides; [done|]. cbn. lia. Defined.
