(* ===== verification/Schema.v ===== *)
(** * The DolphinDB schema

    [DolphinDBSchema] (src/storage/client/dolphindb_schema.cpp) creates the
    database, the partitioned tables, the shared stream tables and their
    subscriptions.  The DolphinDB server and client library are a parameter
    ([DolphinLib]): the state of the world behind the connection, and what
    running a script, connecting and writing rows do to it.  A script is the
    statement the code formats, kept with its arguments; a call that throws
    returns [Throw] with the message. *)
From S2P Require Import Prelude Doubles Events Paths Timestamp.

Inductive Res (A : Type) :=
| Ret (a : A)
| Throw (msg : string).
Arguments Ret {A} a.
Arguments Throw {A} msg.

(** The statements the program sends to the server. *)
Inductive Script :=
| ExistsDatabase (db : string)
| CreateDatabase (db range_spec : string) (hash_buckets : Z)
| QueryDomain (db : string)
| AddValuePartitions (db boundaries : string)
| ExistsTable (db name : string)
| CreatePartitionedTable (db cols types name : string)
| ExistsObject (name : string)
| ShareStreamTable (cols types name : string)
| CountPubTables (stream : string)
| SubscribeTable (stream name db : string) (batch_size : Z) (throttle : double)
| CountObjs (stream : string)
| Ping.

(** The three writers of the client. *)
Inductive Table := Trades | Orderbook | BookTicker.

#[export] Instance Table_eq_dec : EqDecision Table.
Proof. solve_decision. Defined.

(** A row handed to a writer. *)
Inductive DBRow :=
| TradeDBRow (ts diff id : Z) (price qty : double) (direction : Z) (maker : bool)
    (symbol exchange market_type : string) (trade_date : Z)
| BookDBRow (ts local_ts : Z) (symbol exchange market_type : string) (trade_date : Z)
    (bid_prices bid_sizes ask_prices ask_sizes : list double)
| TickerDBRow (ts diff : Z) (bid_price bid_qty ask_price ask_qty : double)
    (symbol exchange market_type : string) (trade_date : Z).

(** The third-party client library and the server behind it. *)
Record DolphinLib := mkDolphinLib {
  World : Type;
  Value : Type;
  db_run : Script -> World -> Res Value * World;
  val_bool : Value -> Res bool;
  val_int : Value -> Res Z;
  val_member : Value -> string -> Res string;
  db_connect : World -> Res bool * World;
  db_login : World -> Res unit * World;
  db_close : World -> Res unit * World;
  mtw_create : Table -> World -> Res unit * World;
  mtw_insert : Table -> DBRow -> World -> Res bool * World;
  mtw_drain : Table -> World -> Res unit * World
}.

(** ** Computations that may throw *)

Definition M (W A : Type) : Type := W -> Res A * W.

#[export] Instance M_ret W : MRet (M W) := fun A a w => (Ret a, w).
#[export] Instance M_bind W : MBind (M W) := fun A B k m w =>
  match m w with (Ret a, w) => k a w | (Throw e, w) => (Throw e, w) end.

Definition rethrow {W A} (msg : string) : M W A := fun w => (Throw msg, w).
(** [try { m } catch (e) { h(e) }] *)
Definition mcatch {W A} (m : M W A) (h : string -> M W A) : M W A :=
  fun w => match m w with (Ret a, w) => (Ret a, w) | (Throw e, w) => h e w end.
Definition lift {W A} (r : Res A) : M W A := fun w => (r, w).

(** [for (x : xs) body] *)
Fixpoint mfor {W A} (xs : list A) (body : A -> M W unit) : M W unit :=
  match xs with
  | [] => mret tt
  | x :: xs' => body x ;; mfor xs' body
  end.

Definition contains (sub s : string) : bool := match String.index 0 sub s with Some _ => true | None => false end.

(** ** Table descriptors *)

(** Source: src/storage/client/dolphindb_schema.h:23-28, DolphinDBSchema::TableSpec. *)
Record TableSpec := mkTableSpec { ts_name : string; ts_stream_name : string; ts_cols : string; ts_types : string }.

(** Source: src/storage/client/dolphindb_schema.h:31-34, DolphinDBSchema::kTrades. *)
Definition kTrades : TableSpec := mkTableSpec "trades" "trades_stream"
  "`exchange_timestamp`local_diff`trade_id`price`quantity`direction`is_buyer_maker`symbol`exchange`market_type`trade_date"
  "[LONG,LONG,LONG,DOUBLE,DOUBLE,INT,BOOL,SYMBOL,SYMBOL,SYMBOL,DATE]".

(** Source: src/storage/client/dolphindb_schema.h:35-38, DolphinDBSchema::kOrderbook. *)
Definition kOrderbook : TableSpec := mkTableSpec "orderbook" "orderbook_stream"
  "`exchange_timestamp`local_diff`symbol`exchange`market_type`trade_date`bid_prices`bid_sizes`ask_prices`ask_sizes"
  "[LONG,LONG,SYMBOL,SYMBOL,SYMBOL,DATE,DOUBLE[],DOUBLE[],DOUBLE[],DOUBLE[]]".

(** Source: src/storage/client/dolphindb_schema.h:39-42, DolphinDBSchema::kBookTicker. *)
Definition kBookTicker : TableSpec := mkTableSpec "bookticker" "bookticker_stream"
  "`exchange_timestamp`local_diff`best_bid_price`best_bid_qty`best_ask_price`best_ask_qty`symbol`exchange`market_type`trade_date"
  "[LONG,LONG,DOUBLE,DOUBLE,DOUBLE,DOUBLE,SYMBOL,SYMBOL,SYMBOL,DATE]".

Definition specs : list TableSpec := [kTrades; kOrderbook; kBookTicker].

(** Source: src/storage/client/dolphindb_schema.h:44-50, DolphinDBSchema::Config. *)
Record SchemaConfig := mkSchemaCfg {
  sc_dfs_db_path : string;
  sc_hash_buckets : Z;
  sc_partition_granularity : string;
  sc_mtw_batch_size : Z;
  sc_mtw_throttle_sec : double
}.

(** ** Partition boundaries *)

Definition leap_february (y : Z) : bool :=
  ((Z.rem y 4 =? 0) && negb (Z.rem y 100 =? 0)) || (Z.rem y 400 =? 0).

Definition days_in_month (y m : Z) : Z :=
  if (m =? 2) && leap_february y then 29
  else default 0 ([31; 28; 31; 30; 31; 30; 31; 31; 30; 31; 30; 31] !! Z.to_nat (m - 1)).

(** The dates the loops of [BuildRangeSpec] run through, in order. *)
Definition range_dates (start_year end_year : Z) (granularity : string) : list (Z * Z * Z) :=
  let years := seqZ start_year (end_year - start_year + 1) in
  if (granularity =? "day")%string then
    concat ((fun y => concat ((fun m => (fun d => (y, m, d)) <$> seqZ 1 (days_in_month y m)) <$> seqZ 1 12)) <$> years)
  else if (granularity =? "month")%string then
    concat ((fun y => (fun m => (y, m, 1)) <$> seqZ 1 12) <$> years)
  else (fun y => (y, 1, 1)) <$> years.

(** ["YYYY.MM.DD"] in double quotes. *)
Definition quoted_date (d : Z * Z * Z) : string :=
  let '(y, m, d) := d in
  (dquote ++ string_of_list_ascii (decimal04 y) ++ "." ++ two_digits m ("." ++ two_digits d dquote))%string.

(** Source: src/storage/client/dolphindb_schema.cpp:14-50, DolphinDBSchema::BuildRangeSpec. *)
Definition BuildRangeSpec (start_year end_year : Z) (granularity : string) : string :=
  ("date([" ++ String.concat "," (quoted_date <$> range_dates start_year end_year granularity) ++ "])")%string.

Example range_month : BuildRangeSpec 2025 2025 "year" =
  ("date([" ++ dquote ++ "2025.01.01" ++ dquote ++ "])")%string.
Proof. vm_compute. reflexivity. Qed.

(** ** Reading the last partition boundary *)

Fixpoint last_dotdot (i : nat) (l : list ascii) : option nat :=
  match l with
  | "."%char :: (("."%char :: _) as l') => match last_dotdot (S i) l' with Some j => Some j | None => Some i end
  | _ :: l' => last_dotdot (S i) l'
  | [] => None
  end.

(** [" \t\n\r"] *)
Definition is_blank (c : ascii) : bool := let n := nat_of_ascii c in
  (n =? 32)%nat || (n =? 9)%nat || (n =? 10)%nat || (n =? 13)%nat.

Fixpoint drop_while (p : ascii -> bool) (l : list ascii) : list ascii :=
  match l with
  | [] => []
  | c :: l' => if p c then drop_while p l' else l
  end.

Definition trim (l : list ascii) : list ascii :=
  reverse (drop_while is_blank (reverse (drop_while is_blank l))).

Definition isdigit (c : ascii) : bool := let n := nat_of_ascii c in (48 <=? n)%nat && (n <=? 57)%nat.

Fixpoint leading_digits (l : list ascii) : list ascii :=
  match l with
  | c :: l' => if isdigit c then c :: leading_digits l' else []
  | [] => []
  end.

(** [std::stoi] of at most four characters: leading white space ([isspace]),
    an optional sign, and at least one digit. *)
Definition stoi (l : list ascii) : Res Z :=
  let isspace c := is_blank c || (nat_of_ascii c =? 11)%nat || (nat_of_ascii c =? 12)%nat in
  let l := drop_while isspace l in
  let '(sign, l) := match l with
                    | "-"%char :: l' => (-1, l')
                    | "+"%char :: l' => (1, l')
                    | _ => (1, l)
                    end in
  match leading_digits l with
  | [] => Throw "stoi"
  | ds => Ret (sign * decimal_value ds)
  end.

Fixpoint find_char (c : ascii) (i : nat) (l : list ascii) : option nat :=
  match l with
  | [] => None
  | x :: l' => if Ascii.eqb x c then Some i else find_char c (S i) l'
  end.

(** The year of the last boundary, [0] when none is recognised. *)
Definition last_boundary_year (boundaries_str : string) : Res Z :=
  let s := list_ascii_of_string boundaries_str in
  let last_boundary :=
    match last_dotdot 0 s with
    | Some i => if (i + 2 <? length s)%nat then drop (i + 2) s else s
    | None => s
    end in
  let last_boundary := trim last_boundary in
  if (4 <=? length last_boundary)%nat && match head last_boundary with Some c => isdigit c | None => false end
  then stoi (take 4 last_boundary)
  else match find_char (ascii_of_nat 34) 0 last_boundary with
       | Some q => if (q + 5 <? length last_boundary)%nat then stoi (take 4 (drop (q + 1) last_boundary)) else Ret 0
       | None => Ret 0
       end.

(** ** Schema operations *)

(** The characters a database path may have. *)
Definition path_char_ok (c : ascii) : bool :=
  let n := nat_of_ascii c in
  ((97 <=? n)%nat && (n <=? 122)%nat) || ((65 <=? n)%nat && (n <=? 90)%nat) || isdigit c ||
  bool_decide (c ∈ ["/"; "_"; ":"; "-"; "."; "~"]%char).

Section schema.
Context (L : DolphinLib).
Abbreviation W := (World L).

Definition run (s : Script) : M W (Value L) := db_run L s.

(** Source: src/storage/client/dolphindb_schema.cpp:52-109, DolphinDBSchema::TryExtendPartitionRange. *)
Definition TryExtendPartitionRange (db_path : string) (start_year end_year : Z) (granularity : string) : M W bool :=
  mcatch
    (result ← run (QueryDomain db_path);
     type_str ← lift (val_member L result "type");
     boundaries_str ← lift (val_member L result "boundaries");
     if negb (type_str =? "RANGE")%string then mret true
     else
       last_year ← lift (last_boundary_year boundaries_str);
       (if last_year <? end_year
        then run (AddValuePartitions db_path (BuildRangeSpec (Z.max last_year start_year) end_year granularity)) ;; mret tt
        else mret tt) ;;
       mret true)
    (fun _ => mret false).

(** Source: src/storage/client/dolphindb_schema.cpp:140-158, DolphinDBSchema::InitSchema (step 1).
    Create the database, or extend its partition range. *)
Definition init_database (cfg : SchemaConfig) (start_year end_year : Z) : M W unit :=
  result ← run (ExistsDatabase (sc_dfs_db_path cfg));
  db_exists ← lift (val_bool L result);
  if negb db_exists
  then run (CreateDatabase (sc_dfs_db_path cfg) (BuildRangeSpec start_year end_year (sc_partition_granularity cfg))
              (sc_hash_buckets cfg)) ;; mret tt
  else TryExtendPartitionRange (sc_dfs_db_path cfg) start_year end_year (sc_partition_granularity cfg) ;; mret tt.

(** Source: src/storage/client/dolphindb_schema.cpp:164-173, DolphinDBSchema::InitSchema (step 2, loop body).
    A partitioned table. *)
Definition init_dfs_table (cfg : SchemaConfig) (s : TableSpec) : M W unit :=
  result ← run (ExistsTable (sc_dfs_db_path cfg) (ts_name s));
  exists_ ← lift (val_bool L result);
  if negb exists_ : bool
  then run (CreatePartitionedTable (sc_dfs_db_path cfg) (ts_cols s) (ts_types s) (ts_name s)) ;; mret tt
  else mret tt.

(** Source: src/storage/client/dolphindb_schema.cpp:176-196, DolphinDBSchema::InitSchema (step 3, loop body).
    A shared stream table; another instance may create it meanwhile. *)
Definition init_stream_table (s : TableSpec) : M W unit :=
  result ← run (ExistsObject (ts_stream_name s));
  exists_ ← mcatch (lift (val_bool L result)) (fun _ => mret false);
  if negb exists_ : bool
  then mcatch (run (ShareStreamTable (ts_cols s) (ts_types s) (ts_stream_name s)) ;; mret tt)
         (fun err => if contains "already" err || contains "registered" err then mret tt else rethrow err)
  else mret tt.

(** Source: src/storage/client/dolphindb_schema.cpp:199-222, DolphinDBSchema::InitSchema (step 4, loop body).
    The subscription of the table to its stream. *)
Definition init_subscription (cfg : SchemaConfig) (s : TableSpec) : M W unit :=
  result ← run (CountPubTables (ts_stream_name s));
  count ← mcatch (lift (val_int L result)) (fun _ => mret 0);
  if count =? 0
  then mcatch (run (SubscribeTable (ts_stream_name s) (ts_name s) (sc_dfs_db_path cfg) (sc_mtw_batch_size cfg)
                      (sc_mtw_throttle_sec cfg)) ;; mret tt)
         (fun err => if contains "already" err || contains "exist" err || contains "duplicate" err then mret tt
                     else rethrow err)
  else mret tt.

(** Source: src/storage/client/dolphindb_schema.cpp:111-230, DolphinDBSchema::InitSchema.
    [cur_year] is the year the local clock shows. *)
Definition InitSchema (cur_year : Z) (cfg : SchemaConfig) : M W bool :=
  let g := sc_partition_granularity cfg in
  if negb ((g =? "day") || (g =? "month") || (g =? "year"))%string then mret false
  else if negb (forallb path_char_ok (list_ascii_of_string (sc_dfs_db_path cfg))) then mret false
  else
    let start_year := cur_year - kPartitionYearBack in
    let end_year := cur_year + kPartitionYearForward in
    mcatch
      (init_database cfg start_year end_year ;;
       mfor specs (init_dfs_table cfg) ;;
       mfor specs init_stream_table ;;
       mfor specs (init_subscription cfg) ;;
       mret true)
      (fun _ => mret false).

(** Source: src/storage/client/dolphindb_schema.cpp:236-269, DolphinDBSchema::ValidateSchema (loop body).
    One table of the check: [false] stops it. *)
Definition validate_table (db_path : string) (s : TableSpec) : M W bool :=
  result ← run (CountObjs (ts_stream_name s));
  count ← mcatch (lift (val_int L result)) (fun _ => mret 0);
  if count =? 0 then mret false
  else
    result ← run (ExistsTable db_path (ts_name s));
    exists_ ← lift (val_bool L result);
    if negb exists_ : bool then mret false
    else
      run (CountPubTables (ts_stream_name s)) ;;      (* no subscription: a warning only *)
      mret true.

Fixpoint validate_tables (db_path : string) (l : list TableSpec) : M W bool :=
  match l with
  | [] => mret true
  | s :: l' => ok ← validate_table db_path s; if ok : bool then validate_tables db_path l' else mret false
  end.

(** Source: src/storage/client/dolphindb_schema.cpp:232-276, DolphinDBSchema::ValidateSchema. *)
Definition ValidateSchema (db_path : string) : M W bool :=
  mcatch (validate_tables db_path specs) (fun _ => mret false).
End schema.

(** ** What the schema code relies on

    The server's catalogue: partitioned tables by database and name, objects
    (shared tables and variables) by name, and the files of its working
    directory.  The laws are the documented behaviour of the statements the
    code sends, for a statement that returns; any statement may throw at any
    time instead.  [exists(name)] tests for a file or directory, not for an
    object. *)
Class ServerLaws (L : DolphinLib) := {
  tables : World L -> string -> string -> Prop;
  objects : World L -> string -> Prop;
  files : World L -> string -> Prop;
  (** No statement of the program drops a table or an object, or touches a file of that kind. *)
  run_keeps : forall s w, (forall db n, tables w db n -> tables (db_run L s w).2 db n) /\
                          (forall n, objects w n -> objects (db_run L s w).2 n) /\
                          (forall n, files (db_run L s w).2 n <-> files w n);
  create_table_makes : forall db c t n w v w',
    db_run L (CreatePartitionedTable db c t n) w = (Ret v, w') -> tables w' db n;
  share_makes : forall c t n w v w', db_run L (ShareStreamTable c t n) w = (Ret v, w') -> objects w' n;
  (** The refusal that the code takes for "already registered by another instance". *)
  share_refused : forall c t n w msg w',
    db_run L (ShareStreamTable c t n) w = (Throw msg, w') ->
    contains "already" msg || contains "registered" msg = true -> objects w' n;
  exists_table_reports : forall db n w v w',
    db_run L (ExistsTable db n) w = (Ret v, w') -> exists b, val_bool L v = Ret b /\ (b = true <-> tables w' db n);
  exists_reports : forall n w v w',
    db_run L (ExistsObject n) w = (Ret v, w') -> exists b, val_bool L v = Ret b /\ (b = true <-> files w' n);
  count_objs_reports : forall n w v w',
    db_run L (CountObjs n) w = (Ret v, w') -> exists k, val_int L v = Ret k /\ (k <> 0 <-> objects w' n)
}.

Section server.
Context {L : DolphinLib} `{!ServerLaws L}.
Abbreviation W := (World L).

Definition grows (w w' : W) : Prop :=
  (forall db n, tables w db n -> tables w' db n) /\ (forall n, objects w n -> objects w' n) /\ (forall n, files w' n <-> files w n).

#[local] Instance grows_preorder : PreOrder grows.
Proof. unfold grows. split; [by intros w|]. intros a b c (? & ? & Hb) (? & ? & Hc). split_and!; eauto. intros n. by rewrite Hc. Qed.

(** A computation that removes nothing, whether it returns or throws. *)
Class Growing {A} (m : M W A) : Prop := growing : forall w, grows w (m w).2.

#[local] Instance growing_run s : Growing (run L s).
Proof. intros w. apply run_keeps. Qed.
#[local] Instance growing_ret {A} (a : A) : Growing (mret a).
Proof. intros w. reflexivity. Qed.
#[local] Instance growing_lift {A} (r : Res A) : Growing (lift r).
Proof. intros w. reflexivity. Qed.
#[local] Instance growing_rethrow {A} msg : Growing (rethrow (A := A) msg).
Proof. intros w. reflexivity. Qed.
#[local] Instance growing_bind {A B} (m : M W A) (k : A -> M W B) :
  Growing m -> (forall a, Growing (k a)) -> Growing (m ≫= k).
Proof.
  intros Hm Hk w. unfold mbind, M_bind. specialize (Hm w). destruct (m w) as [[a|e] w']; cbn in *; [|done].
  etrans; [exact Hm|apply Hk].
Qed.
#[local] Instance growing_catch {A} (m : M W A) h : Growing m -> (forall e, Growing (h e)) -> Growing (mcatch m h).
Proof.
  intros Hm Hh w. unfold mcatch. specialize (Hm w). destruct (m w) as [[a|e] w']; cbn in *; [done|].
  etrans; [exact Hm|apply Hh].
Qed.
#[local] Instance growing_if {A} (b : bool) (m1 m2 : M W A) : Growing m1 -> Growing m2 -> Growing (if b then m1 else m2).
Proof. by destruct b. Qed.
#[local] Instance growing_for {A} (xs : list A) body : (forall x, Growing (body x)) -> Growing (mfor xs body).
Proof. intros Hb. induction xs; cbn; apply _. Qed.
#[local] Instance growing_extend db a b g : Growing (TryExtendPartitionRange L db a b g).
Proof. unfold TryExtendPartitionRange. apply _. Qed.

(** Whenever the computation returns, the world satisfies [Q]. *)
Definition ensures {A} (m : M W A) (Q : W -> Prop) : Prop := forall w a w', m w = (Ret a, w') -> Q w'.

Definition stable (Q : W -> Prop) : Prop := forall w w', grows w w' -> Q w -> Q w'.

Lemma ensures_bind_l {A B} (m : M W A) (k : A -> M W B) Q :
  ensures m Q -> stable Q -> (forall a, Growing (k a)) -> ensures (m ≫= k) Q.
Proof.
  intros Hm HQ Hk w b w'. unfold mbind, M_bind. destruct (m w) as [[a|e] w1] eqn:E; [|done].
  intros H. pose proof (Hk a w1) as Hg. rewrite H in Hg. eauto.
Qed.

Lemma ensures_bind_r {A B} (m : M W A) (k : A -> M W B) Q : (forall a, ensures (k a) Q) -> ensures (m ≫= k) Q.
Proof.
  intros Hk w b w'. unfold mbind, M_bind. destruct (m w) as [[a|e] w1]; [|done]. apply Hk.
Qed.

Lemma ensures_for {A} (xs : list A) body (Q : A -> W -> Prop) :
  (forall x, Growing (body x)) -> (forall x, stable (Q x)) -> (forall x, ensures (body x) (Q x)) ->
  ensures (mfor xs body) (fun w => Forall (fun x => Q x w) xs).
Proof.
  intros Hg Hs Hb. induction xs as [|x xs IH]; cbn [mfor]; [by intros w a w' [= <- <-]|].
  intros w a w'. unfold mbind, M_bind. destruct (body x w) as [[[]|e] w1] eqn:E; [|done]. intros H.
  pose proof (growing_for xs body Hg w1) as Hw. rewrite H in Hw. constructor; [|by eapply IH].
  eapply Hs; [exact Hw|]. by eapply Hb.
Qed.

Lemma init_dfs_table_ensures cfg s : ensures (init_dfs_table L cfg s) (fun w => tables w (sc_dfs_db_path cfg) (ts_name s)).
Proof.
  unfold init_dfs_table, run. intros w a w'. unfold mbind, M_bind, lift.
  destruct (db_run L (ExistsTable _ _) w) as [[v|e] w1] eqn:E1; [|done].
  destruct (exists_table_reports _ _ _ _ _ E1) as ([] & -> & Hb); cbn [negb].
  - intros [= <- <-]. by apply Hb.
  - destruct (db_run L (CreatePartitionedTable _ _ _ _) w1) as [[v2|e] w2] eqn:E2; [|done].
    intros [= <- <-]. eapply create_table_makes; eauto.
Qed.

(** The stream table is there, or a file of its name has been taken for it. *)
Definition stream_or_file (s : TableSpec) (w : W) : Prop := files w (ts_stream_name s) \/ objects w (ts_stream_name s).

Lemma init_stream_table_ensures s : ensures (init_stream_table L s) (stream_or_file s).
Proof.
  unfold init_stream_table, run. intros w a w'. unfold mbind, M_bind, lift, mcatch.
  destruct (db_run L (ExistsObject _) w) as [[v|e] w1] eqn:E1; [|done].
  destruct (exists_reports _ _ _ _ E1) as ([] & -> & Hb); cbn [negb].
  - intros [= <- <-]. left. by apply Hb.
  - intros H. right. destruct (db_run L (ShareStreamTable _ _ _) w1) as [[v2|e2] w2] eqn:E2; cbn in H.
    + injection H as <- <-. eapply share_makes; eauto.
    + destruct (contains "already" e2 || contains "registered" e2) eqn:Ec; [|done].
      injection H as <- <-. eapply share_refused; eauto.
Qed.

Lemma stable_tables db : stable (fun w => Forall (fun s => tables w db (ts_name s)) specs).
Proof. intros w w' [Ht _] H. eapply Forall_impl; [exact H|]. eauto. Qed.
Lemma stable_stream_or_file s : stable (stream_or_file s).
Proof. intros w w' (_ & Ho & Hf) [H|H]; [left; by apply Hf|right; by apply Ho]. Qed.
Lemma stable_streams : stable (fun w => Forall (fun s => stream_or_file s w) specs).
Proof. intros w w' Hg H. eapply Forall_impl; [exact H|]. intros s. by apply stable_stream_or_file. Qed.

#[local] Instance growing_init_database cfg a b : Growing (init_database L cfg a b).
Proof. unfold init_database. apply _. Qed.

Lemma InitSchema_ensures cur_year cfg w w' :
  InitSchema L cur_year cfg w = (Ret true, w') ->
  Forall (fun s => tables w' (sc_dfs_db_path cfg) (ts_name s)) specs /\ Forall (fun s => stream_or_file s w') specs /\ grows w w'.
Proof.
  unfold InitSchema. destruct (negb _); [done|]. destruct (negb _); [done|]. unfold mcatch.
  set (m := mbind _ _). intros H.
  assert (Hg : Growing m) by (unfold m, init_dfs_table, init_stream_table, init_subscription; apply _).
  assert (Hm : m w = (Ret true, w')) by (destruct (m w) as [[b|e] w1]; [exact H|cbv in H; discriminate]). clear H.
  pose proof (Hg w) as Hw. rewrite Hm in Hw. split_and!; [| |exact Hw].
  - refine ((_ : ensures m (fun w => Forall (fun s => tables w (sc_dfs_db_path cfg) (ts_name s)) specs)) _ _ _ Hm).
    apply ensures_bind_r. intros _. apply ensures_bind_l.
    + apply ensures_for; [intros; unfold init_dfs_table; apply _|intros x a b [Ht _] H; eauto|].
      apply init_dfs_table_ensures.
    + apply stable_tables.
    + intros _. unfold init_stream_table, init_subscription. apply _.
  - refine ((_ : ensures m (fun w => Forall (fun s => stream_or_file s w) specs)) _ _ _ Hm).
    apply ensures_bind_r. intros _. apply ensures_bind_r. intros _. apply ensures_bind_l.
    + apply ensures_for; [intros; unfold init_stream_table; apply _|apply stable_stream_or_file|].
      apply init_stream_table_ensures.
    + apply stable_streams.
    + intros _. unfold init_subscription. apply _.
Qed.

(** *** The check *)

(** What the program needs of the catalogue. *)
Definition table_present (db : string) (w : W) (s : TableSpec) : Prop := tables w db (ts_name s) /\ objects w (ts_stream_name s).
Definition schema_present (db : string) (w : W) : Prop := Forall (table_present db w) specs.

Lemma stable_present db s : stable (fun w => table_present db w s).
Proof. intros w w' (Ht & Ho & _) [? ?]. split; eauto. Qed.

(** The queries of the check, and that none of them throws when they are sent in turn. *)
Definition table_queries (db : string) (s : TableSpec) : list Script :=
  [CountObjs (ts_stream_name s); ExistsTable db (ts_name s); CountPubTables (ts_stream_name s)].
Definition validation (db : string) : list Script := concat (table_queries db <$> specs).
Fixpoint answers (l : list Script) (w : W) : Prop :=
  match l with
  | [] => True
  | s :: l' => (exists v, (db_run L s w).1 = Ret v) /\ answers l' (db_run L s w).2
  end.

#[local] Instance growing_validate db s : Growing (validate_table L db s).
Proof. unfold validate_table. apply _. Qed.

Lemma validate_table_true db s w rest :
  table_present db w s -> answers (table_queries db s ++ rest) w ->
  exists w', validate_table L db s w = (Ret true, w') /\ answers rest w'.
Proof.
  intros [Ht Ho] ([v1 H1] & [v2 H2] & [v3 H3] & Hr). unfold validate_table, mbind, M_bind, mcatch, lift, run.
  pose proof (run_keeps (CountObjs (ts_stream_name s)) w) as G1. destruct (db_run L (CountObjs _) w) as [r1 w1] eqn:E1. cbn in H1, G1. subst r1.
  destruct (count_objs_reports _ _ _ _ E1) as (k & -> & Hk). destruct (Z.eqb_spec k 0) as [->|]; [by destruct (proj2 Hk (proj1 (proj2 G1) _ Ho))|].
  cbn [fst snd] in H2, H3, Hr. pose proof (run_keeps (ExistsTable db (ts_name s)) w1) as G2.
  destruct (db_run L (ExistsTable _ _) w1) as [r2 w2] eqn:E2. cbn [fst snd] in *. subst r2.
  destruct (exists_table_reports _ _ _ _ _ E2) as (b & -> & Hb). rewrite (proj2 Hb (proj1 G2 _ _ (proj1 G1 _ _ Ht))). cbn [negb].
  destruct (db_run L (CountPubTables _) w2) as [r3 w3]. cbn in *. subst r3. by exists w3.
Qed.

Lemma validate_table_sound db s w w' : validate_table L db s w = (Ret true, w') -> table_present db w' s.
Proof.
  unfold validate_table, mbind, M_bind, mcatch, lift, run.
  destruct (db_run L (CountObjs _) w) as [[v1|] w1] eqn:E1; [|done].
  destruct (count_objs_reports _ _ _ _ E1) as (k & -> & Hk). destruct (Z.eqb_spec k 0); [done|].
  pose proof (run_keeps (ExistsTable db (ts_name s)) w1) as G2. destruct (db_run L (ExistsTable _ _) w1) as [[v2|] w2] eqn:E2; [|done].
  destruct (exists_table_reports _ _ _ _ _ E2) as ([] & -> & Hb); [|done]. cbn [negb snd] in *.
  pose proof (run_keeps (CountPubTables (ts_stream_name s)) w2) as G3.
  destruct (db_run L (CountPubTables _) w2) as [[v3|] w3]; [|done]. intros [= <-]. cbn in G3.
  eapply stable_present; [exact G3|]. split; [by apply Hb|]. by apply G2, Hk.
Qed.

Lemma validate_tables_sound db l w w' : validate_tables L db l w = (Ret true, w') -> Forall (table_present db w') l /\ grows w w'.
Proof.
  revert w. induction l as [|s l IH]; intros w; cbn; [intros [= <-]; by split; [constructor|]|].
  unfold mbind at 1, M_bind at 1. pose proof (growing_validate db s w) as G. destruct (validate_table L db s w) as [[[]|] w1] eqn:E; [|done..].
  intros H. destruct (IH _ H) as [Hl Hg]. cbn in G. split; [|by etrans]. constructor; [|done].
  eapply stable_present; [exact Hg|]. by apply (validate_table_sound _ _ w).
Qed.

Lemma ValidateSchema_sound db w w' : ValidateSchema L db w = (Ret true, w') -> schema_present db w'.
Proof.
  unfold ValidateSchema, mcatch. destruct (validate_tables L db specs w) as [[b|] w1] eqn:E; [|done].
  intros [= -> ->]. by apply (validate_tables_sound _ _ w).
Qed.

Lemma ValidateSchema_true db w : schema_present db w -> answers (validation db) w -> exists w', ValidateSchema L db w = (Ret true, w').
Proof.
  unfold ValidateSchema, mcatch, validation, schema_present. intros Hp Ha.
  assert (H : exists w', validate_tables L db specs w = (Ret true, w')); [|destruct H as [w' ->]; by exists w'].
  revert w Hp Ha. induction specs as [|s l IH]; intros w Hp Ha; [by exists w|]. apply Forall_cons in Hp as [Hs Hl].
  destruct (validate_table_true db s w (List.concat (list_fmap _ _ (table_queries db) l)) Hs Ha) as (w1 & E & Ha1).
  pose proof (growing_validate db s w) as G. rewrite E in G. cbn [validate_tables]. unfold mbind, M_bind. rewrite E.
  apply IH; [|done]. eapply Forall_impl; [exact Hl|]. intros t. by apply stable_present.
Qed.
End server.

(** C29: Initialising the schema establishes what the check tests, except for one case.  Whenever [InitSchema] reports success
    the three partitioned tables exist, and each stream table is shared (one that another instance shared meanwhile
    included) unless a file of its name exists on the server, because [exists(name)], which decides whether it is
    created, tests for files.  Without such a file [ValidateSchema] then succeeds whenever none of its queries throws, and
    whenever [ValidateSchema] succeeds the tables and the stream tables are there. *)
Theorem schema_init_then_valid (L : DolphinLib) `{!ServerLaws L} cur_year cfg w w' :
  InitSchema L cur_year cfg w = (Ret true, w') ->
  let db := sc_dfs_db_path cfg in
  Forall (fun s => tables w' db (ts_name s)) specs /\
  Forall (fun s => ~ files w (ts_stream_name s) -> objects w' (ts_stream_name s)) specs /\
  (Forall (fun s => ~ files w (ts_stream_name s)) specs -> answers (validation db) w' ->
     exists w'', ValidateSchema L db w' = (Ret true, w'')) /\
  (forall w1 w2, ValidateSchema L db w1 = (Ret true, w2) -> schema_present db w2).
Proof.
  intros H db. destruct (InitSchema_ensures _ _ _ _ H) as (Ht & Hs & _ & _ & Hf). fold db in Ht.
  assert (Ho : Forall (fun s => ~ files w (ts_stream_name s) -> objects w' (ts_stream_name s)) specs).
  { eapply Forall_impl; [exact Hs|]. intros s [Hx|Hx] Hn; [|done]. by apply Hf in Hx. }
  split_and!; [done|done| |intros w1 w2; apply ValidateSchema_sound].
  intros Hn Ha. apply ValidateSchema_true; [|done]. apply Forall_forall. intros s Hin. rewrite Forall_forall in Ht, Ho, Hn.
  split; [by apply Ht|]. by apply Ho, Hn.
Qed.

(** ** A small server

    An in-memory catalogue and row store that satisfies the laws; which
    connection attempts and which row inserts succeed is scripted. *)
Record MemDB := mkMemDB {
  db_tables : list (string * string);
  db_streams : list string;
  db_files : list string;
  db_subs : list string;
  db_rows : list (Table * DBRow);
  connects : list bool;      (* outcome of the coming connection attempts; then true *)
  inserts : list bool        (* outcome of the coming row inserts; then true *)
}.

Inductive MemValue := VBool (b : bool) | VInt (n : Z) | VDomain.

Definition mem_run (s : Script) (w : MemDB) : Res MemValue * MemDB :=
  match s with
  | ExistsDatabase _ => (Ret (VBool true), w)
  | QueryDomain _ => (Ret VDomain, w)
  | CreateDatabase _ _ _ | AddValuePartitions _ _ | Ping => (Ret (VInt 2), w)
  | ExistsTable db n => (Ret (VBool (bool_decide ((db, n) ∈ db_tables w))), w)
  | CreatePartitionedTable db _ _ n =>
      (Ret (VBool true), mkMemDB ((db, n) :: db_tables w) (db_streams w) (db_files w) (db_subs w) (db_rows w) (connects w) (inserts w))
  | ExistsObject n => (Ret (VBool (bool_decide (n ∈ db_files w))), w)
  | ShareStreamTable _ _ n =>
      if bool_decide (n ∈ db_streams w) then (Throw "name already in use", w)
      else (Ret (VBool true), mkMemDB (db_tables w) (n :: db_streams w) (db_files w) (db_subs w) (db_rows w) (connects w) (inserts w))
  | CountPubTables n => (Ret (VInt (if bool_decide (n ∈ db_subs w) then 1 else 0)), w)
  | SubscribeTable n _ _ _ _ =>
      if bool_decide (n ∉ db_streams w) then (Throw "the table does not exist", w)
      else (Ret (VBool true), mkMemDB (db_tables w) (db_streams w) (db_files w) (n :: db_subs w) (db_rows w) (connects w) (inserts w))
  | CountObjs n => (Ret (VInt (if bool_decide (n ∈ db_streams w) then 1 else 0)), w)
  end.

Definition mem_connect (w : MemDB) : Res bool * MemDB :=
  (Ret (default true (head (connects w))),
   mkMemDB (db_tables w) (db_streams w) (db_files w) (db_subs w) (db_rows w) (tail (connects w)) (inserts w)).

Definition mem_insert (t : Table) (r : DBRow) (w : MemDB) : Res bool * MemDB :=
  let ok := default true (head (inserts w)) in
  (Ret ok, mkMemDB (db_tables w) (db_streams w) (db_files w) (db_subs w) (if ok : bool then db_rows w ++ [(t, r)] else db_rows w)
             (connects w) (tail (inserts w))).

Definition MemLib : DolphinLib := mkDolphinLib MemDB MemValue mem_run
  (fun v => match v with VBool b => Ret b | _ => Throw "not a boolean" end)
  (fun v => match v with VInt n => Ret n | _ => Throw "not a number" end)
  (fun v k => match v with
              | VDomain => Ret (if (k =? "type")%string then "RANGE" else "2024.01.01..2030.01.01")%string
              | _ => Throw "not a dictionary"
              end)
  mem_connect (fun w => (Ret tt, w)) (fun w => (Ret tt, w)) (fun _ w => (Ret tt, w)) mem_insert (fun _ w => (Ret tt, w)).

#[export] Instance MemLaws : ServerLaws MemLib.
Proof.
  refine (Build_ServerLaws MemLib (fun w db n => (db, n) ∈ db_tables w) (fun w n => n ∈ db_streams w) (fun w n => n ∈ db_files w) _ _ _ _ _ _ _).
  - intros s w. destruct s; cbn; try (split_and!; intros; done).
    + split_and!; intros; [apply elem_of_cons; by right|done..].
    + case_bool_decide; cbn; (split_and!; intros; [done| |done]); [done|apply elem_of_cons; by right].
    + case_bool_decide; cbn; by split_and!.
  - intros db c t n w v w' [= <- <-]. apply elem_of_cons. by left.
  - intros c t n w v w'. cbn. case_bool_decide; [done|]. intros [= <- <-]. apply elem_of_cons. by left.
  - intros c t n w msg w'. cbn. case_bool_decide; [|done]. by intros [= <- <-] _.
  - intros db n w v w' [= <- <-]. eexists. split; [done|]. apply bool_decide_eq_true.
  - intros n w v w' [= <- <-]. eexists. split; [done|]. apply bool_decide_eq_true.
  - intros n w v w' [= <- <-]. eexists. split; [done|]. by case_bool_decide.
Defined.

Definition memdb (streams files : list string) : MemDB := mkMemDB [] streams files [] [] [] [].
Definition memdb0 : MemDB := memdb ["orderbook_stream"%string] [].
Definition demo_schema_cfg : SchemaConfig := mkSchemaCfg "dfs://trade_db" 20 "year" 20000 (d_of_Z 1).

(** The order book stream is already shared, which [exists] does not see. *)
Lemma schema_init_then_valid_witness :
  exists w', InitSchema MemLib 2025 demo_schema_cfg memdb0 = (Ret true, w') /\
  Forall (fun s => tables w' "dfs://trade_db" (ts_name s)) specs /\
  exists w'', ValidateSchema MemLib "dfs://trade_db" w' = (Ret true, w'').
Proof.
  eexists. split; [vm_compute; reflexivity|].
  assert (Hn : Forall (fun s => ~ files memdb0 (ts_stream_name s)) specs) by (repeat constructor; apply not_elem_of_nil).
  destruct (schema_init_then_valid MemLib 2025 demo_schema_cfg memdb0 _ ltac:(vm_compute; reflexivity)) as (H1 & _ & H3 & _).
  split; [exact H1|]. apply (H3 Hn). vm_compute. repeat (split; [eexists; reflexivity|]). exact I.
Defined.

(** A file called [trades_stream] in the server's working directory keeps the stream table from being created.  The subscription
    to it is refused because the table does not exist, a message that the code takes for "exists already":
    [InitSchema] reports success, and [ValidateSchema] fails. *)
Lemma file_hides_missing_stream :
  exists w', InitSchema MemLib 2025 demo_schema_cfg (memdb [] ["trades_stream"%string]) = (Ret true, w') /\
  ~ objects w' (ts_stream_name kTrades) /\ (ValidateSchema MemLib "dfs://trade_db" w').1 = Ret false.
Proof.
  eexists. split; [vm_compute; reflexivity|]. split; [|vm_compute; reflexivity].
  change ("trades_stream"%string ∉ ["bookticker_stream"%string; "orderbook_stream"%string]). apply (bool_decide_unpack _). vm_compute. exact I.
Qed.

(** ** The partition range and the validated dates *)

Definition day_number (d : Z * Z * Z) : Z := UtcDaysFromEpoch d.1.1 d.1.2 d.2.

(** RANGE partitioning stores the days from the first boundary up to, not including, the last. *)
Definition covered (boundaries : list (Z * Z * Z)) (day : Z) : Prop :=
  match head boundaries, last boundaries with
  | Some a, Some b => day_number a <= day < day_number b
  | _, _ => False
  end.

Lemma last_concat_snoc {A} (ls : list (list A)) l : l <> [] -> last (concat (ls ++ [l])) = last l.
Proof.
  intros Hl. rewrite concat_app. cbn [concat]. rewrite app_nil_r.
  destruct l as [|x l _] using rev_ind; [done|]. by rewrite app_assoc, !last_snoc.
Qed.

Lemma seqZ_snoc a n : 0 <= n -> seqZ a (n + 1) = seqZ a n ++ [a + n].
Proof. intros Hn. rewrite seqZ_app by lia. by f_equal. Qed.

(** First and last boundary of every granularity. *)
Lemma range_dates_ends s e g : s <= e ->
  head (range_dates s e g) = Some (s, 1, 1) /\
  exists m d, last (range_dates s e g) = Some (e, m, d) /\ 1 <= d.
Proof.
  intros Hse. unfold range_dates. destruct (g =? "day")%string; [|destruct (g =? "month")%string].
  - set (f := fun y => concat _). split.
    + rewrite (seqZ_cons s) by lia. unfold f. cbn [fmap list_fmap]. change (seqZ 1 12) with (1 :: seqZ 2 11).
      cbn [fmap list_fmap]. change (days_in_month s 1) with 31. change (seqZ 1 31) with (1 :: seqZ 2 30). done.
    + exists 12, 31. split; [|lia]. rewrite (seqZ_snoc s) by lia. replace (s + (e - s)) with e by lia.
      rewrite fmap_app. change (f <$> [e]) with [f e].
      assert (Hf : last (f e) = Some (e, 12, 31)).
      { unfold f. change (seqZ 1 12) with (seqZ 1 11 ++ [12]). rewrite fmap_app. cbn [fmap list_fmap].
        change (days_in_month e 12) with 31. rewrite last_concat_snoc by done. done. }
      rewrite last_concat_snoc; [done|]. intros H0. by rewrite H0 in Hf.
  - split.
    + rewrite (seqZ_cons s) by lia. done.
    + exists 12, 1. split; [|lia]. rewrite (seqZ_snoc s) by lia. replace (s + (e - s)) with e by lia.
      rewrite fmap_app. cbn [fmap list_fmap]. by rewrite last_concat_snoc.
  - split.
    + rewrite (seqZ_cons s) by lia. done.
    + exists 1, 1. split; [|lia]. rewrite (seqZ_snoc s) by lia. replace (s + (e - s)) with e by lia.
      rewrite fmap_app. cbn [fmap list_fmap]. by rewrite last_snoc.
Qed.

Lemma window_covered y d g :
  d <= max_valid_date y ->
  covered (range_dates (y - kPartitionYearBack) (y + kPartitionYearForward) g) d <->
  UtcDaysFromEpoch (y - kPartitionYearBack) 1 1 <= d.
Proof.
  intros Hd.
  destruct (range_dates_ends (y - kPartitionYearBack) (y + kPartitionYearForward) g) as (Hh & m & dd & Hl & Hdd);
    [unfold kPartitionYearBack, kPartitionYearForward; lia|].
  unfold covered. rewrite Hh, Hl. unfold day_number. cbn [fst snd].
  pose proof (UtcDays_first (y + kPartitionYearForward) m dd Hdd). unfold max_valid_date in Hd. lia.
Qed.

(** The partition boundaries that [InitSchema] creates cover a validated trade date exactly when it is not
    before the first of January of the previous year; the upper end always suffices.  A date from 2000 up to then
    passes [IsValidTradeDate] although the database has no partition for it. *)
Theorem partitions_cover_recent_dates now d granularity :
  0 <= now < 2 ^ 36 -> valid_trade_date now d = true ->
  covered (range_dates (year_of_time now - kPartitionYearBack) (year_of_time now + kPartitionYearForward) granularity) d <->
  UtcDaysFromEpoch (year_of_time now - kPartitionYearBack) 1 1 <= d.
Proof.
  intros Hnow Hv. destruct (year_of_time_range now Hnow) as [Hy Hmax].
  apply window_covered. unfold valid_trade_date in Hv. rewrite i32_small in Hv by done. bool_to_prop. lia.
Qed.

(** In January 2026: 1 June 2024 is accepted but has no partition. *)
Lemma partitions_cover_recent_dates_witness :
  valid_trade_date 1767225600 (UtcDaysFromEpoch 2024 6 1) = true /\
  ~ covered (range_dates (year_of_time 1767225600 - kPartitionYearBack)
               (year_of_time 1767225600 + kPartitionYearForward) "day") (UtcDaysFromEpoch 2024 6 1).
Proof.
  assert (Hv : valid_trade_date 1767225600 (UtcDaysFromEpoch 2024 6 1) = true) by (vm_compute; reflexivity).
  split; [exact Hv|]. intros Hc.
  pose proof (proj1 (partitions_cover_recent_dates 1767225600 (UtcDaysFromEpoch 2024 6 1) "day" ltac:(lia) Hv) Hc) as H.
  clear Hc Hv. vm_compute in H. by apply H.
Defined.
