(* ===== verification/Dolphin.v ===== *)
(** * The DolphinDB backend

    [StorageChannelRegistry] (src/storage/channel_registry.h), [DolphinDBClient]
    (src/storage/client/dolphindb_client.cpp) and [DolphinDBBackend]
    (src/storage/backend/dolphindb_backend.cpp): ticks are buffered and handed to
    the table writer in batches, books and tickers one by one; when the writer
    fails the backend degrades, tries to reconnect, and falls back to the mmap
    storage.  The clock readings of a call are its [Clock] argument; address and
    credentials, which never change, are left to the library. *)
From S2P Require Import Prelude Doubles Events Paths Config Timestamp Mmap Schema.

(** ** The channel registry *)

(** Source: src/storage/channel_registry.h:17-22, ChannelMeta. *)
Record ChannelMeta := mkMeta { cm_exchange : string; cm_market_type : string; cm_symbol : string; cm_depth_level : Z }.

(** Source: src/storage/channel_registry.h:60-61, StorageChannelRegistry (data members). *)
Record StorageChannelRegistry := mkRegistry { channels_ : gmap Z ChannelMeta; frozen_ : bool }.

Definition registry0 : StorageChannelRegistry := mkRegistry ∅ false.

(** Source: src/storage/channel_registry.cpp:7-21, StorageChannelRegistry::Register.
    A release build: a late registration is logged and refused. *)
Definition StorageRegister (channel_id : Z) (exchange market_type symbol : string) (depth_level : Z)
    (r : StorageChannelRegistry) : StorageChannelRegistry :=
  if frozen_ r then r
  else mkRegistry (<[channel_id := mkMeta exchange market_type symbol depth_level]> (channels_ r)) (frozen_ r).

(** Source: src/storage/channel_registry.h:46-46, StorageChannelRegistry::Freeze. *)
Definition Freeze (r : StorageChannelRegistry) : StorageChannelRegistry := mkRegistry (channels_ r) true.

(** Source: src/storage/channel_registry.h:52-55, StorageChannelRegistry::Find. *)
Definition Find (channel_id : Z) (r : StorageChannelRegistry) : option ChannelMeta := channels_ r !! channel_id.

(** ** The client *)

(** Source: src/storage/client/dolphindb_client.h:99-126, DolphinDBClient (data members).
    A pointer is whether it is set. *)
Record Client := mkClient {
  connected_ : bool;
  last_health_check_ns_ : Z;
  conn_ : bool;
  registry_ : StorageChannelRegistry;
  trades_writer_ : bool;
  ob_writer_ : bool;
  bt_writer_ : bool
}.

(** Source: src/storage/client/dolphindb_client.cpp:25-25, DolphinDBClient::DolphinDBClient. *)
Definition client0 : Client := mkClient false 0 true registry0 false false false.

Definition set_connected (v : bool) (c : Client) : Client :=
  mkClient v (last_health_check_ns_ c) (conn_ c) (registry_ c) (trades_writer_ c) (ob_writer_ c) (bt_writer_ c).
Definition set_health (ns : Z) (c : Client) : Client :=
  mkClient (connected_ c) ns (conn_ c) (registry_ c) (trades_writer_ c) (ob_writer_ c) (bt_writer_ c).
Definition set_conn (v : bool) (c : Client) : Client :=
  mkClient (connected_ c) (last_health_check_ns_ c) v (registry_ c) (trades_writer_ c) (ob_writer_ c) (bt_writer_ c).
Definition set_registry (r : StorageChannelRegistry) (c : Client) : Client :=
  mkClient (connected_ c) (last_health_check_ns_ c) (conn_ c) r (trades_writer_ c) (ob_writer_ c) (bt_writer_ c).
Definition writer (t : Table) (c : Client) : bool :=
  match t with Trades => trades_writer_ c | Orderbook => ob_writer_ c | BookTicker => bt_writer_ c end.
Definition set_writer (t : Table) (v : bool) (c : Client) : Client :=
  mkClient (connected_ c) (last_health_check_ns_ c) (conn_ c) (registry_ c)
    (if decide (t = Trades) then v else trades_writer_ c)
    (if decide (t = Orderbook) then v else ob_writer_ c)
    (if decide (t = BookTicker) then v else bt_writer_ c).

(** What the clocks show during a call. *)
Record Clock := mkClock { steady_ns : Z; wall_s : Z; local_year : Z }.

Section client.
Context (L : DolphinLib) (cfg : DolphinDBConfig).

(** Client computations: the client's members and the world. *)
Abbreviation CM := (M (Client * World L)).

Definition get_client : CM Client := fun s => (Ret s.1, s).
Definition modify (f : Client -> Client) : CM unit := fun s => (Ret tt, (f s.1, s.2)).
Definition lib {A} (m : M (World L) A) : CM A := fun s => let '(r, w) := m s.2 in (r, (s.1, w)).

Definition schema_config : SchemaConfig :=
  mkSchemaCfg (dd_dfs_db_path cfg) (dd_hash_buckets cfg) (dd_partition_granularity cfg) (dd_mtw_batch_size cfg)
    (dd_mtw_throttle_sec cfg).

(** Source: src/storage/client/dolphindb_client.cpp:29-40, DolphinDBClient::InitSchema. *)
Definition ClientInitSchema (k : Clock) : CM bool :=
  c ← get_client;
  if conn_ c then lib (InitSchema L (local_year k) schema_config) else mret false.

(** Draining and releasing one writer; an exception is logged. *)
Definition drain (skip_drain : bool) (t : Table) : CM unit :=
  c ← get_client;
  if negb (writer t c) then mret tt
  else
    mcatch (if skip_drain then mret tt else lib (mtw_drain L t)) (fun _ => mret tt) ;;
    modify (set_writer t false).

(** Source: src/storage/client/dolphindb_client.cpp:112-142, DolphinDBClient::DestroyWriters. *)
Definition DestroyWriters (skip_drain : bool) : CM unit :=
  drain skip_drain Trades ;; drain skip_drain Orderbook ;; drain skip_drain BookTicker.

(** Source: src/storage/client/dolphindb_client.cpp:90-110, DolphinDBClient::InitWriters. *)
Definition InitWriters : CM bool :=
  mcatch
    (lib (mtw_create L Trades) ;; modify (set_writer Trades true) ;;
     lib (mtw_create L Orderbook) ;; modify (set_writer Orderbook true) ;;
     lib (mtw_create L BookTicker) ;; modify (set_writer BookTicker true) ;;
     mret true)
    (fun _ => DestroyWriters false ;; mret false).

(** [conn_->close(); conn_.reset();]: an exception of [close] leaves the connection. *)
Definition close_connection : CM unit := lib (db_close L) ;; modify (set_conn false).

(** The part of Connect and Reconnect after the connection is up. *)
Definition finish_connect (k : Clock) : CM bool :=
  lib (db_login L) ;;
  modify (set_health (steady_ns k)) ;;
  schema_ok ← (if dd_auto_init_schema cfg then ClientInitSchema k else mret true);
  if negb schema_ok : bool then close_connection ;; mret false
  else
    writers_ok ← InitWriters;
    if negb writers_ok : bool then close_connection ;; mret false
    else modify (set_connected true) ;; mret true.

(** Source: src/storage/client/dolphindb_client.cpp:42-83, DolphinDBClient::Connect. *)
Definition Connect (k : Clock) : CM bool :=
  mcatch
    (ok ← lib (db_connect L);
     if negb ok : bool then mret false else finish_connect k)
    (fun _ => mret false).

(** Source: src/storage/client/dolphindb_client.cpp:144-155, DolphinDBClient::Disconnect. *)
Definition Disconnect : CM unit :=
  DestroyWriters true ;;
  c ← get_client;
  if negb (conn_ c) then mret tt
  else mcatch (lib (db_close L)) (fun _ => mret tt) ;; modify (set_conn false) ;; modify (set_connected false).

(** Source: src/storage/client/dolphindb_client.cpp:161-192, DolphinDBClient::IsHealthy. *)
Definition IsHealthy (k : Clock) : CM bool :=
  c ← get_client;
  if negb (connected_ c) then mret false
  else if dd_health_check_interval_ms cfg =? 0 then mret true
  else
    let elapsed_ms := u64 (Z.quot (i64 (steady_ns k - last_health_check_ns_ c)) 1000000) in
    if elapsed_ms <? dd_health_check_interval_ms cfg then mret true
    else
      mcatch
        (result ← lib (db_run L Ping);
         n ← lift (val_int L result);
         if negb (n =? 2) then modify (set_connected false) ;; mret false
         else modify (set_health (steady_ns k)) ;; mret true)
        (fun _ => modify (set_connected false) ;; mret false).

(** Source: src/storage/client/dolphindb_client.cpp:194-242, DolphinDBClient::Reconnect. *)
Definition Reconnect (k : Clock) : CM bool :=
  DestroyWriters false ;;
  c ← get_client;
  (if conn_ c then mcatch (lib (db_close L)) (fun _ => mret tt) else mret tt) ;;
  modify (set_connected false) ;;
  modify (set_conn true) ;;
  mcatch
    (ok ← lib (db_connect L);
     if negb ok : bool then mret false else finish_connect k)
    (fun _ => mret false).

(** Source: src/storage/client/dolphindb_client.cpp:248-250, DolphinDBClient::RegisterChannel. *)
Definition ClientRegisterChannel (channel_id : Z) (exchange market_type symbol : string) (depth_level : Z) (c : Client) : Client :=
  set_registry (StorageRegister channel_id exchange market_type symbol depth_level (registry_ c)) c.

(** Source: src/storage/client/dolphindb_client.cpp:252-256, DolphinDBClient::ValidateSchema. *)
Definition ClientValidateSchema : CM bool :=
  c ← get_client;
  if negb (connected_ c) || negb (conn_ c) then mret false
  else lib (ValidateSchema L (dd_dfs_db_path cfg)).

(** Exchange, market type and symbol of a row: the registered ones, or the
    symbol of the event alone. *)
Definition resolve (c : Client) (channel_id : Z) (event_symbol : list ascii) : string * string * string :=
  match Find channel_id (registry_ c) with
  | Some m => (cm_exchange m, cm_market_type m, cm_symbol m)
  | None => (""%string, ""%string, string_of_list_ascii (c_str event_symbol))
  end.

(** [writer->insert]; a refusal and an exception are the same to the caller. *)
Definition insert_row (t : Table) (r : DBRow) : CM bool :=
  mcatch (lib (mtw_insert L t r)) (fun _ => mret false).

Definition trade_row (c : Client) (t : TickData) : DBRow :=
  let '(exchange, market_type, symbol) := resolve c (tk_channel_id t) (tk_symbol t) in
  TradeDBRow (i64 (tk_exchange_timestamp t)) (i64 (tk_local_diff t)) (i64 (tk_trade_id t)) (tk_price t) (tk_quantity t)
    (if tk_is_buyer_maker t then -1 else 1) (tk_is_buyer_maker t) symbol exchange market_type
    (UsecToDateInt (tk_exchange_timestamp t)).

Fixpoint insert_trades (k : Clock) (batch : list TickData) : CM bool :=
  match batch with
  | [] => mret true
  | t :: batch' =>
      c ← get_client;
      if negb (valid_trade_date (wall_s k) (UsecToDateInt (tk_exchange_timestamp t))) then mret false
      else
        ok ← insert_row Trades (trade_row c t);
        if ok : bool then insert_trades k batch' else mret false
  end.

(** Source: src/storage/client/dolphindb_client.cpp:263-300, DolphinDBClient::TableInsertTrades. *)
Definition TableInsertTrades (k : Clock) (batch : list TickData) : CM bool :=
  c ← get_client;
  if negb (connected_ c) || negb (trades_writer_ c) then mret false
  else if (length batch =? 0)%nat then mret true
  else
    ok ← insert_trades k batch;
    if ok : bool then modify (set_health (steady_ns k)) ;; mret true else mret false.

(** The depth a book is written with. *)
Definition book_depth (c : Client) (channel_id : Z) : nat :=
  match Find channel_id (registry_ c) with
  | Some m => if 0 <? cm_depth_level m then Nat.min (Z.to_nat (cm_depth_level m)) kMaxOrderbookLevels
              else kMaxOrderbookLevels
  | None => kMaxOrderbookLevels
  end.

(** [i < count ? levels[i].field : 0.0] *)
Definition column (f : PriceLevel -> double) (levels : list PriceLevel) (count depth : nat) : list double :=
  (fun i => if (i <? count)%nat then f (levels !!! i) else dzero) <$> seq 0 depth.

Definition book_row (c : Client) (e : DepthUpdateEvent) (local_ts : Z) : DBRow :=
  let '(exchange, market_type, symbol) := resolve c (dp_channel_id e) (dp_symbol e) in
  let depth := book_depth c (dp_channel_id e) in
  BookDBRow (i64 (dp_exchange_timestamp e)) (i64 local_ts) symbol exchange market_type
    (UsecToDateInt (dp_exchange_timestamp e))
    (column lv_price (dp_bids e) (dp_bid_count e) depth) (column lv_quantity (dp_bids e) (dp_bid_count e) depth)
    (column lv_price (dp_asks e) (dp_ask_count e) depth) (column lv_quantity (dp_asks e) (dp_ask_count e) depth).

(** Insert one row and note the activity. *)
Definition insert_one (k : Clock) (t : Table) (date : Z) (row : DBRow) : CM bool :=
  if negb (valid_trade_date (wall_s k) date) then mret false
  else
    ok ← insert_row t row;
    if ok : bool then modify (set_health (steady_ns k)) ;; mret true else mret false.

(** Source: src/storage/client/dolphindb_client.cpp:306-382, DolphinDBClient::TableInsertOrderbook. *)
Definition TableInsertOrderbook (k : Clock) (e : DepthUpdateEvent) (local_ts : Z) : CM bool :=
  c ← get_client;
  if negb (connected_ c) || negb (ob_writer_ c) then mret false
  else insert_one k Orderbook (UsecToDateInt (dp_exchange_timestamp e)) (book_row c e local_ts).

Definition ticker_row (c : Client) (e : BookTickerEvent) : DBRow :=
  let '(exchange, market_type, symbol) := resolve c (bt_channel_id e) (bt_symbol e) in
  TickerDBRow (i64 (bt_exchange_timestamp e)) (i64 (bt_local_diff e)) (bt_best_bid_price e) (bt_best_bid_qty e)
    (bt_best_ask_price e) (bt_best_ask_qty e) symbol exchange market_type (UsecToDateInt (bt_exchange_timestamp e)).

(** Source: src/storage/client/dolphindb_client.cpp:388-418, DolphinDBClient::TableInsertBookTicker. *)
Definition TableInsertBookTicker (k : Clock) (e : BookTickerEvent) : CM bool :=
  c ← get_client;
  if negb (connected_ c) || negb (bt_writer_ c) then mret false
  else insert_one k BookTicker (UsecToDateInt (bt_exchange_timestamp e)) (ticker_row c e).
End client.

(** ** The fallback as the backend sees it

    [sink_open] is the creation of the mmap backend at the first degradation,
    the appends are its AppendFallback operations ([None]: undefined behaviour),
    [sink_close] is FlushAndClose and the release of the pointer. *)
Record Sink := mkSink {
  SinkState : Type;
  sink_open : string -> SinkState -> SinkState;
  sink_tick : TickData -> SinkState -> option SinkState;
  sink_book : DepthUpdateEvent -> Z -> SinkState -> option SinkState;
  sink_ticker : BookTickerEvent -> SinkState -> option SinkState;
  sink_close : SinkState -> SinkState
}.

(** What has been handed to a fallback. *)
Inductive Stored :=
| StoredTick (t : TickData)
| StoredBook (e : DepthUpdateEvent) (local_ts : Z)
| StoredTicker (e : BookTickerEvent).

(** The promise of a fallback: once opened it takes every well-formed record,
    and each append is one more record of its log. *)
Class FallbackSink (S : Sink) := {
  sink_log : SinkState S -> list Stored;
  sink_ok : SinkState S -> Prop;
  open_ok : forall path s, sink_ok (sink_open S path s) /\ sink_log (sink_open S path s) = sink_log s;
  tick_ok : forall t s, sink_ok s -> wf_tick t ->
    exists s', sink_tick S t s = Some s' /\ sink_ok s' /\ sink_log s' = sink_log s ++ [StoredTick t];
  book_ok : forall e ts s, sink_ok s -> wf_depth e ->
    exists s', sink_book S e ts s = Some s' /\ sink_ok s' /\ sink_log s' = sink_log s ++ [StoredBook e ts];
  ticker_ok : forall e s, sink_ok s -> length (bt_symbol e) = 12%nat ->
    exists s', sink_ticker S e s = Some s' /\ sink_ok s' /\ sink_log s' = sink_log s ++ [StoredTicker e];
  close_log : forall s, sink_log (sink_close S s) = sink_log s
}.

(** The promise of the table writers: the rows they accepted, in order; no
    other call of the library changes them. *)
Class RowLog (L : DolphinLib) := {
  row_log : World L -> list (Table * DBRow);
  rows_insert : forall t r w, row_log (mtw_insert L t r w).2 =
    row_log w ++ (if (mtw_insert L t r w).1 is Ret true then [(t, r)] else []);
  rows_run : forall s w, row_log (db_run L s w).2 = row_log w;
  rows_connect : forall w, row_log (db_connect L w).2 = row_log w;
  rows_login : forall w, row_log (db_login L w).2 = row_log w;
  rows_close : forall w, row_log (db_close L w).2 = row_log w;
  rows_create : forall t w, row_log (mtw_create L t w).2 = row_log w;
  rows_drain : forall t w, row_log (mtw_drain L t w).2 = row_log w
}.

(** ** The backend *)

(** Source: src/storage/backend/dolphindb_backend.h:75-109, DolphinDBBackend (data members). *)
Record DolphinBackend := mkDolphin {
  buffer_size_ : Z;
  flush_interval_ns_ : Z;
  dolphindb_ : Client;
  degraded_ : bool;
  reconnecting_ : bool;
  fallback_once_ : bool;
  mmap_output_path_ : string;
  tick_buffer_a_ : list TickData;
  tick_buffer_b_ : list TickData;
  active_buffer_ : bool;          (* false: a, true: b *)
  last_flush_ns_ : Z
}.

Definition dolphin0 (buffer_size flush_interval_ns : Z) (mmap_output_path : string) : DolphinBackend :=
  mkDolphin buffer_size flush_interval_ns client0 false false false mmap_output_path [] [] false 0.

Definition set_client (c : Client) (b : DolphinBackend) : DolphinBackend :=
  mkDolphin (buffer_size_ b) (flush_interval_ns_ b) c (degraded_ b) (reconnecting_ b) (fallback_once_ b)
    (mmap_output_path_ b) (tick_buffer_a_ b) (tick_buffer_b_ b) (active_buffer_ b) (last_flush_ns_ b).
Definition set_degraded (v : bool) (b : DolphinBackend) : DolphinBackend :=
  mkDolphin (buffer_size_ b) (flush_interval_ns_ b) (dolphindb_ b) v (reconnecting_ b) (fallback_once_ b)
    (mmap_output_path_ b) (tick_buffer_a_ b) (tick_buffer_b_ b) (active_buffer_ b) (last_flush_ns_ b).
Definition set_reconnecting (v : bool) (b : DolphinBackend) : DolphinBackend :=
  mkDolphin (buffer_size_ b) (flush_interval_ns_ b) (dolphindb_ b) (degraded_ b) v (fallback_once_ b)
    (mmap_output_path_ b) (tick_buffer_a_ b) (tick_buffer_b_ b) (active_buffer_ b) (last_flush_ns_ b).
Definition set_once (v : bool) (b : DolphinBackend) : DolphinBackend :=
  mkDolphin (buffer_size_ b) (flush_interval_ns_ b) (dolphindb_ b) (degraded_ b) (reconnecting_ b) v
    (mmap_output_path_ b) (tick_buffer_a_ b) (tick_buffer_b_ b) (active_buffer_ b) (last_flush_ns_ b).
Definition set_buffers (a b' : list TickData) (active : bool) (last : Z) (b : DolphinBackend) : DolphinBackend :=
  mkDolphin (buffer_size_ b) (flush_interval_ns_ b) (dolphindb_ b) (degraded_ b) (reconnecting_ b) (fallback_once_ b)
    (mmap_output_path_ b) a b' active last.

Section backend.
Context (L : DolphinLib) (S : Sink) (cfg : DolphinDBConfig).

(** The backend, the world behind the client, and the fallback. *)
Definition DState : Type := DolphinBackend * World L * SinkState S.

(** Run a client computation on the backend's client.  The table inserts and
    Reconnect return: their exceptions are caught inside. *)
Definition on_client {A} (m : M (Client * World L) A) (s : DState) : Res A * DState :=
  let '(b, w, f) := s in
  let '(r, (c, w)) := m (dolphindb_ b, w) in (r, (set_client c b, w, f)).

(** Source: src/storage/backend/dolphindb_backend.cpp:23-44, DolphinDBBackend::Configure. *)
Definition Configure (k : Clock) (buffer_size flush_interval_ns : Z) (mmap_output_path : string) (s : DState) : DState :=
  let '(b, w, f) := s in
  let b := mkDolphin buffer_size flush_interval_ns (dolphindb_ b) (degraded_ b) (reconnecting_ b) (fallback_once_ b)
             mmap_output_path (tick_buffer_a_ b) (tick_buffer_b_ b) (active_buffer_ b) (last_flush_ns_ b) in
  (on_client (Connect L cfg k) (b, w, f)).2.

(** Source: src/storage/backend/dolphindb_backend.cpp:46-49, DolphinDBBackend::RegisterChannel. *)
Definition DolphinRegisterChannel (channel_id : Z) (exchange market_type symbol : string) (depth_level : Z) (s : DState) : DState :=
  let '(b, w, f) := s in
  (set_client (ClientRegisterChannel channel_id exchange market_type symbol depth_level (dolphindb_ b)) b, w, f).

(** Source: src/storage/backend/dolphindb_backend.cpp:51-51, DolphinDBBackend::FreezeChannels. *)
Definition DolphinFreezeChannels (s : DState) : DState :=
  let '(b, w, f) := s in
  (set_client (set_registry (Freeze (registry_ (dolphindb_ b))) (dolphindb_ b)) b, w, f).

(** Source: src/storage/backend/dolphindb_backend.cpp:103-127, DolphinDBBackend::TryReconnect.
    When another thread is reconnecting, [others_done] says whether the spin
    loop saw it finish before giving up. *)
Definition TryReconnect (k : Clock) (others_done : bool) (s : DState) : bool * DState :=
  if reconnecting_ s.1.1 then (if others_done then negb (degraded_ s.1.1) else false, s)
  else
    let '(b, w, f) := s in
    let '(r, (b, w, f)) := on_client (Reconnect L cfg k) (set_reconnecting true b, w, f) in
    let ok := if r is Ret true then true else false in
    let b := if ok then set_degraded false b else b in
    (ok, (set_reconnecting false b, w, f)).

(** Source: src/storage/backend/dolphindb_backend.cpp:133-143, FallbackRef. *)
Definition FallbackRef (s : DState) : DState :=
  let '(b, w, f) := s in
  if fallback_once_ b then s else (set_once true b, w, sink_open S (mmap_output_path_ b) f).

(** One attempt under the shared lock; a failed one degrades. *)
Definition attempt (try_insert : M (Client * World L) bool) (s : DState) : bool * DState :=
  if degraded_ s.1.1 then (false, s)
  else
    let '(r, (b, w, f)) := on_client try_insert s in
    if r is Ret true then (true, (b, w, f)) else (false, (set_degraded true b, w, f)).

(** Source: src/storage/backend/dolphindb_backend.cpp:57-90, DolphinDBBackend::InsertWithFallback. *)
Definition InsertWithFallback (k : Clock) (others_done : bool) (try_insert : M (Client * World L) bool)
    (fallback : DState -> option DState) (retry_after_reconnect : bool) (s : DState) : option (bool * DState) :=
  let '(ok, s) := attempt try_insert s in
  if ok then Some (true, s)
  else
    let '(reconnected, s) := TryReconnect k others_done s in
    let '(ok, s) := if reconnected && retry_after_reconnect then attempt try_insert s else (false, s) in
    if ok : bool then Some (true, s)
    else match fallback s with Some s => Some (false, s) | None => None end.

(** An append through the fallback. *)
Definition via_fallback (append : SinkState S -> option (SinkState S)) (s : DState) : option DState :=
  let '(b, w, f) := FallbackRef s in
  match append f with Some f => Some (b, w, f) | None => None end.

Fixpoint fallback_ticks (ticks : list TickData) (f : SinkState S) : option (SinkState S) :=
  match ticks with
  | [] => Some f
  | t :: ticks' => match sink_tick S t f with Some f => fallback_ticks ticks' f | None => None end
  end.

Definition valid_ts (k : Clock) (ts : Z) : bool := valid_trade_date (wall_s k) (UsecToDateInt ts).

(** Source: src/storage/backend/dolphindb_backend.cpp:205-229, DolphinDBBackend::FlushBuffer. *)
Definition FlushBuffer (k : Clock) (others_done : bool) (batch : list TickData) (s : DState) : option DState :=
  let valid_batch := List.filter (fun t => valid_ts k (tk_exchange_timestamp t)) batch in
  if (length valid_batch =? 0)%nat then Some s
  else snd <$> InsertWithFallback k others_done (TableInsertTrades L k valid_batch)
                 (via_fallback (fallback_ticks valid_batch)) false s.

(** Source: src/storage/backend/dolphindb_backend.cpp:149-181, DolphinDBBackend::InsertTick. *)
Definition DolphinInsertTick (k : Clock) (others_done : bool) (tick : TickData) (s : DState) : option DState :=
  let '(b, w, f) := s in
  let active := (if active_buffer_ b then tick_buffer_b_ b else tick_buffer_a_ b) ++ [tick] in
  let threshold_reached := buffer_size_ b <=? Z.of_nat (length active) in
  let time_elapsed := negb threshold_reached && (flush_interval_ns_ b <? u64 (steady_ns k - last_flush_ns_ b)) in
  let store x active_b last := if active_buffer_ b then set_buffers (tick_buffer_a_ b) x active_b last b
                               else set_buffers x (tick_buffer_b_ b) active_b last b in
  if threshold_reached || time_elapsed
  then FlushBuffer k others_done active (store [] (negb (active_buffer_ b)) (steady_ns k), w, f)
  else Some (store active (active_buffer_ b) (last_flush_ns_ b), w, f).

(** Source: src/storage/backend/dolphindb_backend.cpp:183-192, DolphinDBBackend::InsertOrderbook. *)
Definition DolphinInsertOrderbook (k : Clock) (others_done : bool) (e : DepthUpdateEvent) (local_ts : Z) (s : DState)
    : option DState :=
  if negb (valid_ts k (dp_exchange_timestamp e)) then Some s
  else snd <$> InsertWithFallback k others_done (TableInsertOrderbook L k e local_ts)
                 (via_fallback (sink_book S e local_ts)) true s.

(** Source: src/storage/backend/dolphindb_backend.cpp:194-203, DolphinDBBackend::InsertBookTicker. *)
Definition DolphinInsertBookTicker (k : Clock) (others_done : bool) (e : BookTickerEvent) (s : DState) : option DState :=
  if negb (valid_ts k (bt_exchange_timestamp e)) then Some s
  else snd <$> InsertWithFallback k others_done (TableInsertBookTicker L k e)
                 (via_fallback (sink_ticker S e)) true s.

(** Source: src/storage/backend/dolphindb_backend.cpp:231-253, DolphinDBBackend::FlushAndClose. *)
Definition DolphinFlushAndClose (k : Clock) (others_done : bool) (s : DState) : option DState :=
  let '(b, w, f) := s in
  let drain_a := tick_buffer_a_ b in
  let drain_b := tick_buffer_b_ b in
  let s := (set_buffers [] [] (active_buffer_ b) (last_flush_ns_ b) b, w, f) in
  match FlushBuffer k others_done drain_a s with
  | None => None
  | Some s =>
      match FlushBuffer k others_done drain_b s with
      | None => None
      | Some (b, w, f) =>
          let f := if fallback_once_ b then sink_close S f else f in
          Some (on_client (Disconnect L) (b, w, f)).2
      end
  end.
End backend.

(** ** Client computations that write no row *)

Section rows.
Context {L : DolphinLib} `{!RowLog L} (cfg : DolphinDBConfig).
Abbreviation CM := (M (Client * World L)).

(** The accepted rows and the registry stay as they are. *)
Class Quiet {A} (m : CM A) : Prop := quiet : forall s,
  row_log (m s).2.2 = row_log s.2 /\ registry_ (m s).2.1 = registry_ s.1.

#[local] Instance quiet_ret {A} (a : A) : Quiet (mret a).
Proof. by intros s. Qed.
#[local] Instance quiet_lift {A} (r : Res A) : Quiet (lift r).
Proof. by intros s. Qed.
#[local] Instance quiet_get : Quiet (get_client L).
Proof. by intros s. Qed.
#[local] Instance quiet_bind {A B} (m : CM A) (k : A -> CM B) : Quiet m -> (forall a, Quiet (k a)) -> Quiet (m ≫= k).
Proof.
  intros Hm Hk s. unfold mbind, M_bind. specialize (Hm s). destruct (m s) as [[a|e] s1]; cbn in *; [|done].
  destruct Hm as [<- <-]. apply Hk.
Qed.
#[local] Instance quiet_catch {A} (m : CM A) h : Quiet m -> (forall e, Quiet (h e)) -> Quiet (mcatch m h).
Proof.
  intros Hm Hh s. unfold mcatch. specialize (Hm s). destruct (m s) as [[a|e] s1]; cbn in *; [done|].
  destruct Hm as [<- <-]. apply Hh.
Qed.
#[local] Instance quiet_if {A} (b : bool) (m1 m2 : CM A) : Quiet m1 -> Quiet m2 -> Quiet (if b then m1 else m2).
Proof. by destruct b. Qed.

Lemma quiet_modify f : (forall c, registry_ (f c) = registry_ c) -> Quiet (modify L f).
Proof. intros Hf s. by split; cbn. Qed.
#[local] Instance quiet_connected v : Quiet (modify L (set_connected v)).
Proof. by apply quiet_modify. Qed.
#[local] Instance quiet_health v : Quiet (modify L (set_health v)).
Proof. by apply quiet_modify. Qed.
#[local] Instance quiet_conn v : Quiet (modify L (set_conn v)).
Proof. by apply quiet_modify. Qed.
#[local] Instance quiet_writer t v : Quiet (modify L (set_writer t v)).
Proof. by apply quiet_modify. Qed.

(** A library call that leaves the accepted rows alone. *)
Lemma quiet_lib {A} (m : M (World L) A) : (forall w, row_log (m w).2 = row_log w) -> Quiet (lib L m).
Proof. intros Hm s. unfold lib. specialize (Hm s.2). by destruct (m s.2) as [r w]. Qed.
#[local] Instance quiet_connect : Quiet (lib L (db_connect L)).
Proof. apply quiet_lib, rows_connect. Qed.
#[local] Instance quiet_login : Quiet (lib L (db_login L)).
Proof. apply quiet_lib, rows_login. Qed.
#[local] Instance quiet_close : Quiet (lib L (db_close L)).
Proof. apply quiet_lib, rows_close. Qed.
#[local] Instance quiet_create t : Quiet (lib L (mtw_create L t)).
Proof. apply quiet_lib, rows_create. Qed.
#[local] Instance quiet_drain t : Quiet (lib L (mtw_drain L t)).
Proof. apply quiet_lib, rows_drain. Qed.

(** A schema computation is made of scripts only. *)
Class Scripts {A} (m : M (World L) A) : Prop := scripts : forall w, row_log (m w).2 = row_log w.
#[local] Instance scripts_run s : Scripts (run L s).
Proof. intros w. apply rows_run. Qed.
#[local] Instance scripts_ret {A} (a : A) : Scripts (mret a).
Proof. by intros w. Qed.
#[local] Instance scripts_lift {A} (r : Res A) : Scripts (lift r).
Proof. by intros w. Qed.
#[local] Instance scripts_rethrow {A} msg : Scripts (rethrow (A := A) msg).
Proof. by intros w. Qed.
#[local] Instance scripts_bind {A B} (m : M (World L) A) (k : A -> M (World L) B) :
  Scripts m -> (forall a, Scripts (k a)) -> Scripts (m ≫= k).
Proof.
  intros Hm Hk w. unfold mbind, M_bind. specialize (Hm w). destruct (m w) as [[a|e] w']; cbn in *; [|done].
  by rewrite Hk.
Qed.
#[local] Instance scripts_catch {A} (m : M (World L) A) h : Scripts m -> (forall e, Scripts (h e)) -> Scripts (mcatch m h).
Proof.
  intros Hm Hh w. unfold mcatch. specialize (Hm w). destruct (m w) as [[a|e] w']; cbn in *; [done|]. by rewrite Hh.
Qed.
#[local] Instance scripts_if {A} (b : bool) (m1 m2 : M (World L) A) : Scripts m1 -> Scripts m2 -> Scripts (if b then m1 else m2).
Proof. by destruct b. Qed.
#[local] Instance scripts_for {A} (xs : list A) body : (forall x, Scripts (body x)) -> Scripts (mfor xs body).
Proof. intros Hb. induction xs; cbn; apply _. Qed.
#[local] Instance scripts_extend db a b g : Scripts (TryExtendPartitionRange L db a b g).
Proof. unfold TryExtendPartitionRange. apply _. Qed.
#[local] Instance scripts_init y c : Scripts (InitSchema L y c).
Proof.
  unfold InitSchema, init_database, init_dfs_table, init_stream_table, init_subscription. apply _.
Qed.

#[local] Instance quiet_schema y c : Quiet (lib L (InitSchema L y c)).
Proof. apply quiet_lib, scripts_init. Qed.
#[local] Instance quiet_destroy skip : Quiet (DestroyWriters L skip).
Proof. unfold DestroyWriters, drain. apply _. Qed.
#[local] Instance quiet_finish k : Quiet (finish_connect L cfg k).
Proof. unfold finish_connect, close_connection, ClientInitSchema, InitWriters. apply _. Qed.

Lemma quiet_Reconnect k : Quiet (Reconnect L cfg k).
Proof. unfold Reconnect. apply _. Qed.
Lemma quiet_Connect k : Quiet (Connect L cfg k).
Proof. unfold Connect. apply _. Qed.
Lemma quiet_Disconnect : Quiet (Disconnect L).
Proof. unfold Disconnect. apply _. Qed.

(** *** Inserting one row *)

(** What a row insert does: the row is accepted or nothing is. *)
Definition inserts_row (m : CM bool) (row : Client -> Table * DBRow) : Prop := forall s,
  registry_ (m s).2.1 = registry_ s.1 /\
  row_log (m s).2.2 = row_log s.2 ++ (if (m s).1 is Ret true then [row s.1] else []).

Lemma insert_row_inserts t r : inserts_row (insert_row L t r) (fun _ => (t, r)).
Proof.
  intros s. unfold insert_row, mcatch, lib. pose proof (rows_insert t r s.2) as H.
  destruct (mtw_insert L t r s.2) as [[[]|e] w]; cbn in *; done.
Qed.

Lemma insert_one_inserts k t date r : inserts_row (insert_one L k t date r) (fun _ => (t, r)).
Proof.
  intros s. unfold insert_one. destruct (negb _); [cbn; by rewrite app_nil_r|].
  unfold mbind, M_bind. destruct (insert_row_inserts t r s) as [H1 H2].
  destruct (insert_row L t r s) as [[[]|e] s1]; cbn in *; done.
Qed.

Lemma TableInsertOrderbook_inserts k e ts :
  inserts_row (TableInsertOrderbook L k e ts) (fun c => (Orderbook, book_row c e ts)).
Proof.
  intros s. unfold TableInsertOrderbook, mbind, M_bind, get_client. cbn.
  destruct (_ || _); [cbn; by rewrite app_nil_r|]. apply insert_one_inserts.
Qed.

Lemma TableInsertBookTicker_inserts k e :
  inserts_row (TableInsertBookTicker L k e) (fun c => (BookTicker, ticker_row c e)).
Proof.
  intros s. unfold TableInsertBookTicker, mbind, M_bind, get_client. cbn.
  destruct (_ || _); [cbn; by rewrite app_nil_r|]. apply insert_one_inserts.
Qed.

(** *** A batch of trades: success means every row was accepted *)

Lemma trade_row_registry c c' t : registry_ c = registry_ c' -> trade_row c t = trade_row c' t.
Proof. unfold trade_row, resolve. by intros ->. Qed.
Lemma book_row_registry c c' e ts : registry_ c = registry_ c' -> book_row c e ts = book_row c' e ts.
Proof. unfold book_row, resolve, book_depth. by intros ->. Qed.
Lemma ticker_row_registry c c' e : registry_ c = registry_ c' -> ticker_row c e = ticker_row c' e.
Proof. unfold ticker_row, resolve. by intros ->. Qed.

Lemma insert_trades_cons k t batch s :
  insert_trades L k (t :: batch) s =
    if negb (valid_trade_date (wall_s k) (UsecToDateInt (tk_exchange_timestamp t))) then (Ret false, s)
    else match insert_row L Trades (trade_row s.1 t) s with
         | (Ret true, s1) => insert_trades L k batch s1
         | r => r
         end.
Proof.
  cbn [insert_trades]. unfold mbind, M_bind, get_client. cbn [fst snd]. destruct (negb _); [done|].
  by destruct (insert_row L Trades (trade_row s.1 t) s) as [[[]|e] s1].
Qed.

Lemma insert_trades_rows k batch s :
  registry_ (insert_trades L k batch s).2.1 = registry_ s.1 /\
  exists n, row_log (insert_trades L k batch s).2.2 =
              row_log s.2 ++ ((fun t => (Trades, trade_row s.1 t)) <$> take n batch) /\
            ((insert_trades L k batch s).1 = Ret true -> n = length batch).
Proof.
  revert s. induction batch as [|t batch IH]; intros s.
  - split; [done|]. exists 0%nat. cbn. by rewrite app_nil_r.
  - rewrite insert_trades_cons. destruct (negb _).
    { split; [done|]. exists 0%nat. cbn. by rewrite app_nil_r. }
    destruct (insert_row_inserts Trades (trade_row s.1 t) s) as [H1 H2].
    destruct (insert_row L Trades (trade_row s.1 t) s) as [[[]|e] s1]; cbn [fst snd] in *.
    + destruct (IH s1) as (IHr & n & IHn & IHl). split; [congruence|].
      exists (S n). rewrite IHn, H2, <- app_assoc. split; [|intros Hr; cbn; f_equal; auto].
      f_equal. cbn. f_equal. apply list_fmap_ext. intros i x _. f_equal. by apply trade_row_registry.
    + split; [done|]. exists 0%nat. split; [exact H2|done].
    + split; [done|]. exists 0%nat. split; [exact H2|done].
Qed.

Lemma TableInsertTrades_rows k batch s :
  registry_ (TableInsertTrades L k batch s).2.1 = registry_ s.1 /\
  exists n, row_log (TableInsertTrades L k batch s).2.2 =
              row_log s.2 ++ ((fun t => (Trades, trade_row s.1 t)) <$> take n batch) /\
            ((TableInsertTrades L k batch s).1 = Ret true -> n = length batch).
Proof.
  unfold TableInsertTrades, mbind, M_bind, get_client. cbn [fst snd].
  destruct (_ || _); [split; [done|]; exists 0%nat; cbn; by rewrite app_nil_r|].
  destruct (Nat.eqb_spec (length batch) 0) as [H0|H0].
  { split; [done|]. exists 0%nat. cbn. by rewrite app_nil_r. }
  destruct (insert_trades_rows k batch s) as (H1 & n & H2 & H3).
  destruct (insert_trades L k batch s) as [[[]|e] s1]; cbn [fst snd] in *; (split; [done|]); exists n; done.
Qed.
End rows.

(** ** Delivery *)

Section delivery.
Context {L : DolphinLib} `{!RowLog L} {S : Sink} `{!FallbackSink S} (cfg : DolphinDBConfig).
Abbreviation St := (DState L S).

Definition rows (s : St) : list (Table * DBRow) := row_log s.1.2.
Definition stored (s : St) : list Stored := sink_log s.2.
Definition client_of (s : St) : Client := dolphindb_ s.1.1.
Definition buffers (s : St) : list TickData * list TickData * bool :=
  (tick_buffer_a_ s.1.1, tick_buffer_b_ s.1.1, active_buffer_ s.1.1).

(** A created fallback works. *)
Definition fallback_ready (s : St) : Prop := fallback_once_ s.1.1 = true -> sink_ok s.2.

(** Everything but the rows and the fallback is as before. *)
Record framed (s s' : St) : Prop := {
  fr_registry : registry_ (client_of s') = registry_ (client_of s);
  fr_buffers : buffers s' = buffers s
}.

#[export] Instance framed_preorder : PreOrder framed.
Proof. split; [by split|]. intros a b c [? ?] [? ?]. split; congruence. Qed.

Lemma on_client_rows {A} (m : M (Client * World L) A) (s : St) :
  rows (on_client L S m s).2 = row_log (m (client_of s, s.1.2)).2.2 /\
  (on_client L S m s).1 = (m (client_of s, s.1.2)).1 /\
  (on_client L S m s).2.2 = s.2 /\ fallback_once_ (on_client L S m s).2.1.1 = fallback_once_ s.1.1 /\
  buffers (on_client L S m s).2 = buffers s /\
  registry_ (client_of (on_client L S m s).2) = registry_ (m (client_of s, s.1.2)).2.1.
Proof.
  destruct s as [[b w] f]. unfold rows, client_of, buffers, on_client. cbn [fst snd].
  destruct (m (dolphindb_ b, w)) as [r [c w']]. done.
Qed.

(** Phase 1: the row is accepted and nothing else happens, or the backend is degraded. *)
Lemma attempt_spec m row (s : St) :
  inserts_row m row ->
  rows (attempt L S m s).2 = rows s ++ (if (attempt L S m s).1 then [row (client_of s)] else []) /\
  (attempt L S m s).2.2 = s.2 /\ fallback_once_ (attempt L S m s).2.1.1 = fallback_once_ s.1.1 /\
  framed s (attempt L S m s).2.
Proof.
  intros Hm. unfold attempt. destruct (degraded_ s.1.1).
  { cbn. rewrite app_nil_r. split_and!; try done. }
  destruct (on_client_rows m s) as (H1 & H2 & H3 & H4 & H5 & H6).
  destruct (Hm (client_of s, s.1.2)) as [Hr Hrow]. cbn [fst snd] in Hr, Hrow.
  rewrite <- H2, <- H1 in Hrow. destruct (on_client L S m s) as [r [[b w] f]]. cbn [fst snd] in *.
  assert (Hfr : framed s (b, w, f)) by (split; [by rewrite H6, Hr|done]).
  destruct r as [[]|e]; cbn [fst snd]; split_and!; try done.
  - destruct Hfr as [Ha Hb]. by split.
  - destruct Hfr as [Ha Hb]. by split.
Qed.

(** Phase 2: reconnecting writes no row and leaves the fallback alone. *)
Lemma TryReconnect_spec k od (s : St) :
  rows (TryReconnect L S cfg k od s).2 = rows s /\ (TryReconnect L S cfg k od s).2.2 = s.2 /\
  fallback_once_ (TryReconnect L S cfg k od s).2.1.1 = fallback_once_ s.1.1 /\
  framed s (TryReconnect L S cfg k od s).2.
Proof.
  unfold TryReconnect. destruct (reconnecting_ s.1.1); [by split_and!|].
  destruct s as [[b w] f]. set (s1 := (set_reconnecting true b, w, f)).
  destruct (on_client_rows (Reconnect L cfg k) s1) as (H1 & _ & H3 & H4 & H5 & H6).
  destruct (quiet_Reconnect cfg k (client_of s1, s1.1.2)) as [Hq1 Hq2].
  destruct (on_client L S (Reconnect L cfg k) s1) as [r [[b' w'] f']]. cbn [fst snd] in *.
  assert (Hrows : row_log w' = row_log w) by (etrans; [exact H1|exact Hq1]).
  assert (Hreg : registry_ (dolphindb_ b') = registry_ (dolphindb_ b)) by (etrans; [exact H6|exact Hq2]).
  unfold buffers in H5. cbn in H5. injection H5 as Ha Hb Hc.
  destruct r as [[]|e]; cbn; split_and!; try done; split; unfold buffers, client_of; cbn; congruence.
Qed.

Lemma FallbackRef_spec (s : St) :
  fallback_ready s ->
  sink_ok (FallbackRef L S s).2 /\ stored (FallbackRef L S s) = stored s /\ rows (FallbackRef L S s) = rows s /\
  fallback_once_ (FallbackRef L S s).1.1 = true /\ framed s (FallbackRef L S s).
Proof.
  destruct s as [[b w] f]. intros Hok. unfold FallbackRef.
  destruct (fallback_once_ b) eqn:E.
  - cbn. split_and!; try done. by apply Hok.
  - cbn. destruct (open_ok (mmap_output_path_ b) f) as [H1 H2]. split_and!; try done.
Qed.

(** Phase 3: an append through the fallback. *)
Lemma via_fallback_spec append new (s : St) :
  (forall f, sink_ok f -> exists f', append f = Some f' /\ sink_ok f' /\ sink_log f' = sink_log f ++ new) ->
  fallback_ready s ->
  exists s', via_fallback L S append s = Some s' /\ rows s' = rows s /\ stored s' = stored s ++ new /\
    fallback_ready s' /\ framed s s'.
Proof.
  intros Happ Hok. destruct (FallbackRef_spec s Hok) as (H1 & H2 & H3 & H4 & H5). unfold via_fallback.
  destruct (FallbackRef L S s) as [[b w] f]. cbn [fst snd] in *. destruct (Happ f H1) as (f' & -> & Hf1 & Hf2).
  eexists. split; [done|]. split; [exact H3|]. split; [|split].
  - unfold stored in *. cbn [fst snd] in *. by rewrite Hf2, H2.
  - by intros _.
  - destruct H5 as [Ha Hb]. by split.
Qed.

(** The three phases: the row is accepted by the database, or else the fallback takes it. *)
Lemma InsertWithFallback_once k od m row fallback retry new (s : St) :
  inserts_row m row -> (forall c c', registry_ c = registry_ c' -> row c = row c') ->
  (forall s1 : St, fallback_ready s1 -> exists s', fallback s1 = Some s' /\ rows s' = rows s1 /\
     stored s' = stored s1 ++ new /\ fallback_ready s' /\ framed s1 s') ->
  fallback_ready s ->
  exists ok s', InsertWithFallback L S cfg k od m fallback retry s = Some (ok, s') /\
    rows s' = rows s ++ (if ok then [row (client_of s)] else []) /\
    stored s' = stored s ++ (if ok then [] else new) /\ fallback_ready s' /\ framed s s'.
Proof.
  intros Hm Hrow Hfb Hok. unfold InsertWithFallback.
  destruct (attempt_spec m row s Hm) as (A1 & A2 & A3 & A4).
  destruct (attempt L S m s) as [ok1 s1]. cbn [fst snd] in *.
  assert (Hst1 : stored s1 = stored s) by (unfold stored; by rewrite A2).
  assert (Hok1 : fallback_ready s1) by (unfold fallback_ready; rewrite A2, A3; exact Hok).
  destruct ok1.
  { exists true, s1. rewrite app_nil_r. by split_and!. }
  rewrite app_nil_r in A1.
  destruct (TryReconnect_spec k od s1) as (B1 & B2 & B3 & B4).
  destruct (TryReconnect L S cfg k od s1) as [rec s2]. cbn [fst snd] in *.
  assert (Hok2 : fallback_ready s2) by (unfold fallback_ready; rewrite B2, B3; exact Hok1).
  assert (Hst2 : stored s2 = stored s1) by (unfold stored; by rewrite B2).
  assert (Hretry : exists ok s3, (if rec && retry then attempt L S m s2 else (false, s2)) = (ok, s3) /\
            rows s3 = rows s2 ++ (if ok then [row (client_of s2)] else []) /\ s3.2 = s2.2 /\
            fallback_once_ s3.1.1 = fallback_once_ s2.1.1 /\ framed s2 s3).
  { destruct (rec && retry).
    - destruct (attempt_spec m row s2 Hm) as (C1 & C2 & C3 & C4).
      destruct (attempt L S m s2) as [ok3 s3]. by exists ok3, s3.
    - exists false, s2. rewrite app_nil_r. split_and!; try done. }
  destruct Hretry as (ok3 & s3 & -> & C1 & C2 & C3 & C4).
  assert (F3 : framed s s3) by (etrans; [exact A4|]; etrans; [exact B4|exact C4]).
  assert (Hok3 : fallback_ready s3) by (unfold fallback_ready; rewrite C2, C3; exact Hok2).
  assert (Hst3 : stored s3 = stored s) by (unfold stored in *; rewrite C2; congruence).
  destruct ok3.
  - exists true, s3. rewrite app_nil_r. split_and!; try done. rewrite C1, B1, A1. do 2 f_equal.
    apply Hrow. destruct A4, B4. congruence.
  - rewrite app_nil_r in C1. destruct (Hfb s3 Hok3) as (s4 & -> & D1 & D2 & D3 & D4).
    exists false, s4. rewrite app_nil_r. split_and!; try done.
    + by rewrite D1, C1, B1, A1.
    + by rewrite D2, Hst3.
    + etrans; [exact F3|exact D4].
Qed.

(** A batch: some rows may be accepted before a refusal, success means all were. *)
Lemma attempt_batch k batch (s : St) :
  exists r, rows (attempt L S (TableInsertTrades L k batch) s).2 = rows s ++ r /\
  ((attempt L S (TableInsertTrades L k batch) s).1 = true ->
   r = (fun t => (Trades, trade_row (client_of s) t)) <$> batch) /\
  (attempt L S (TableInsertTrades L k batch) s).2.2 = s.2 /\
  fallback_once_ (attempt L S (TableInsertTrades L k batch) s).2.1.1 = fallback_once_ s.1.1 /\
  framed s (attempt L S (TableInsertTrades L k batch) s).2.
Proof.
  set (m := TableInsertTrades L k batch). unfold attempt. destruct (degraded_ s.1.1).
  { exists []. rewrite app_nil_r. by split_and!. }
  destruct (on_client_rows m s) as (H1 & H2 & H3 & H4 & H5 & H6).
  destruct (TableInsertTrades_rows k batch (client_of s, s.1.2)) as (Hr & n & Hrow & Hall). cbn [fst snd] in Hr, Hrow.
  fold m in Hr, Hrow, Hall. rewrite <- H2 in Hall. rewrite <- H1 in Hrow.
  destruct (on_client L S m s) as [r [[b w] f]]. cbn [fst snd] in *.
  eexists. split; [|split; [|split; [|split]]].
  - destruct r as [[]|e]; exact Hrow.
  - destruct r as [[]|e]; cbn [fst snd]; try done. intros _. by rewrite (Hall eq_refl), firstn_all.
  - destruct r as [[]|e]; exact H3.
  - destruct r as [[]|e]; exact H4.
  - assert (Hreg : registry_ (dolphindb_ b) = registry_ (client_of s)) by (etrans; [exact H6|exact Hr]).
    destruct r as [[]|e]; split; done.
Qed.

Lemma fallback_ticks_spec ticks f :
  Forall wf_tick ticks -> sink_ok f ->
  exists f', fallback_ticks S ticks f = Some f' /\ sink_ok f' /\ sink_log f' = sink_log f ++ (StoredTick <$> ticks).
Proof.
  intros Hw. revert f. induction Hw as [|t ticks Ht _ IH]; intros f Hf; cbn [fallback_ticks].
  - exists f. rewrite app_nil_r. done.
  - destruct (tick_ok t f Hf Ht) as (f1 & -> & Hf1 & Hl1). destruct (IH f1 Hf1) as (f2 & -> & Hf2 & Hl2).
    exists f2. rewrite Hl2, Hl1, <- app_assoc. done.
Qed.

(** Where a tick has ended up. *)
Definition delivered (s : St) (reg : Client) (t : TickData) : Prop :=
  (Trades, trade_row reg t) ∈ rows s \/ StoredTick t ∈ stored s.

(** Rows and stored records are only ever added. *)
Definition extends (s s' : St) : Prop := rows s `prefix_of` rows s' /\ stored s `prefix_of` stored s'.

Lemma delivered_extends s s' c t : extends s s' -> delivered s c t -> delivered s' c t.
Proof.
  intros [[r Hr] [n Hn]] [H|H]; [left|right]; rewrite ?Hr, ?Hn; apply elem_of_app; by left.
Qed.

#[export] Instance extends_preorder : PreOrder extends.
Proof. unfold extends. split; [by intros s|]. intros a b c [? ?] [? ?]. split; by etrans. Qed.

(** Flushing a batch delivers its valid ticks. *)
Lemma FlushBuffer_spec k od batch (s : St) :
  Forall wf_tick batch -> fallback_ready s ->
  exists s', FlushBuffer L S cfg k od batch s = Some s' /\ fallback_ready s' /\ framed s s' /\ extends s s' /\
    forall t, t ∈ batch -> valid_ts k (tk_exchange_timestamp t) = true -> delivered s' (client_of s) t.
Proof.
  intros Hw Hok. unfold FlushBuffer. set (valid := List.filter _ batch).
  assert (Hin : forall t, t ∈ batch -> valid_ts k (tk_exchange_timestamp t) = true -> t ∈ valid).
  { intros t Ht Hv. apply list_elem_of_In, filter_In. split; [by apply list_elem_of_In|done]. }
  destruct (Nat.eqb_spec (length valid) 0) as [H0|H0].
  { exists s. split_and!; try done. intros t Ht Hv. apply nil_length_inv in H0.
    specialize (Hin t Ht Hv). rewrite H0 in Hin. by apply elem_of_nil in Hin. }
  assert (Hwv : Forall wf_tick valid).
  { apply Forall_forall. intros t Ht. apply list_elem_of_In, filter_In in Ht as [Ht _].
    eapply Forall_forall; [exact Hw|]. by apply list_elem_of_In. }
  unfold InsertWithFallback.
  destruct (attempt_batch k valid s) as (r & A1 & Aok & A2 & A3 & A4).
  destruct (attempt L S (TableInsertTrades L k valid) s) as [ok1 s1]. cbn [fst snd] in *.
  assert (Hst1 : stored s1 = stored s) by (unfold stored; by rewrite A2).
  assert (Hok1 : fallback_ready s1) by (unfold fallback_ready; rewrite A2, A3; exact Hok).
  destruct ok1.
  { exists s1. split; [done|]. split; [done|]. split; [done|]. split; [split; [by exists r|by rewrite Hst1]|].
    intros t Ht Hv. left. rewrite A1, (Aok eq_refl). apply elem_of_app. right.
    apply list_elem_of_fmap. exists t. eauto. }
  destruct (TryReconnect_spec k od s1) as (B1 & B2 & B3 & B4).
  destruct (TryReconnect L S cfg k od s1) as [rec s2]. cbn [fst snd] in *. rewrite andb_false_r.
  assert (Hok2 : fallback_ready s2) by (unfold fallback_ready; rewrite B2, B3; exact Hok1).
  assert (Hst2 : stored s2 = stored s1) by (unfold stored; by rewrite B2).
  destruct (via_fallback_spec (fallback_ticks S valid) (StoredTick <$> valid) s2
              ltac:(intros f Hf; by apply fallback_ticks_spec) Hok2) as (s3 & -> & C1 & C2 & C3 & C4).
  exists s3. split; [done|]. split; [done|].
  split; [etrans; [exact A4|]; etrans; [exact B4|exact C4]|]. split.
  - split; [exists r; by rewrite C1, B1, A1|rewrite C2, Hst2, Hst1; by eexists].
  - intros t Ht Hv. right. rewrite C2. apply elem_of_app. right. apply list_elem_of_fmap. exists t. eauto.
Qed.
End delivery.

(** ** Runs of the backend *)

Inductive DOp :=
| DTick (t : TickData)
| DBook (e : DepthUpdateEvent) (local_ts : Z)
| DTicker (e : BookTickerEvent).

Definition dstep (L : DolphinLib) (S : Sink) (cfg : DolphinDBConfig) (c : Clock * bool * DOp) (s : DState L S)
    : option (DState L S) :=
  let '(k, od, op) := c in
  match op with
  | DTick t => DolphinInsertTick L S cfg k od t s
  | DBook e ts => DolphinInsertOrderbook L S cfg k od e ts s
  | DTicker e => DolphinInsertBookTicker L S cfg k od e s
  end.

Fixpoint run_dolphin (L : DolphinLib) (S : Sink) (cfg : DolphinDBConfig) (calls : list (Clock * bool * DOp)) (s : DState L S)
    : option (DState L S) :=
  match calls with
  | [] => Some s
  | c :: calls' => match dstep L S cfg c s with Some s => run_dolphin L S cfg calls' s | None => None end
  end.

Definition dop_wf (op : DOp) : Prop :=
  match op with
  | DTick t => wf_tick t
  | DBook e _ => wf_depth e
  | DTicker e => length (bt_symbol e) = 12%nat
  end.

Section runs.
Context {L : DolphinLib} `{!RowLog L} {S : Sink} `{!FallbackSink S} (cfg : DolphinDBConfig).
Abbreviation St := (DState L S).

(** The backend between calls. *)
Definition backend_ok (s : St) : Prop :=
  fallback_ready s /\ Forall wf_tick (tick_buffer_a_ s.1.1 ++ tick_buffer_b_ s.1.1).

(** A tick is buffered or delivered. *)
Definition accounted (c : Client) (t : TickData) (s : St) : Prop :=
  t ∈ tick_buffer_a_ s.1.1 ++ tick_buffer_b_ s.1.1 \/ delivered s c t.

(** One row or one fallback record, whichever way it went. *)
Definition exactly_once (s s' : St) (row : Table * DBRow) (record : Stored) : Prop :=
  (rows s' = rows s ++ [row] /\ stored s' = stored s) \/ (rows s' = rows s /\ stored s' = stored s ++ [record]).

Lemma orderbook_once k od e ts (s : St) :
  fallback_ready s -> wf_depth e -> valid_ts k (dp_exchange_timestamp e) = true ->
  exists s', DolphinInsertOrderbook L S cfg k od e ts s = Some s' /\
    exactly_once s s' (Orderbook, book_row (client_of s) e ts) (StoredBook e ts) /\ fallback_ready s' /\ framed s s'.
Proof.
  intros Hok Hw Hv. unfold DolphinInsertOrderbook. rewrite Hv. cbn [negb].
  destruct (InsertWithFallback_once cfg k od (TableInsertOrderbook L k e ts) (fun c => (Orderbook, book_row c e ts))
              (via_fallback L S (sink_book S e ts)) true [StoredBook e ts] s) as (ok & s' & -> & H1 & H2 & H3 & H4);
    [apply TableInsertOrderbook_inserts|intros; f_equal; by apply book_row_registry| |done|].
  { intros s1 Hs1. apply via_fallback_spec; [|done]. intros f Hf. by apply book_ok. }
  exists s'. split; [done|]. split; [|done]. destruct ok; [left|right]; rewrite app_nil_r in *; done.
Qed.

Lemma ticker_once k od e (s : St) :
  fallback_ready s -> length (bt_symbol e) = 12%nat -> valid_ts k (bt_exchange_timestamp e) = true ->
  exists s', DolphinInsertBookTicker L S cfg k od e s = Some s' /\
    exactly_once s s' (BookTicker, ticker_row (client_of s) e) (StoredTicker e) /\ fallback_ready s' /\ framed s s'.
Proof.
  intros Hok Hw Hv. unfold DolphinInsertBookTicker. rewrite Hv. cbn [negb].
  destruct (InsertWithFallback_once cfg k od (TableInsertBookTicker L k e) (fun c => (BookTicker, ticker_row c e))
              (via_fallback L S (sink_ticker S e)) true [StoredTicker e] s) as (ok & s' & -> & H1 & H2 & H3 & H4);
    [apply TableInsertBookTicker_inserts|intros; f_equal; by apply ticker_row_registry| |done|].
  { intros s1 Hs1. apply via_fallback_spec; [|done]. intros f Hf. by apply ticker_ok. }
  exists s'. split; [done|]. split; [|done]. destruct ok; [left|right]; rewrite app_nil_r in *; done.
Qed.

Lemma exactly_once_extends s s' row record : exactly_once s s' row record -> extends s s'.
Proof. intros [[H1 H2]|[H1 H2]]; split; rewrite ?H1, ?H2; (done || by eexists). Qed.

(** A call that leaves the buffers alone keeps every tick accounted for. *)
Lemma framed_accounted c t (s s' : St) : framed s s' -> extends s s' -> accounted c t s -> accounted c t s'.
Proof.
  intros [_ Hb] Hx [H|H]; [left|right; by eapply delivered_extends].
  unfold buffers in Hb. injection Hb as -> -> _. done.
Qed.

Lemma framed_ok (s s' : St) : framed s s' -> fallback_ready s' -> backend_ok s -> backend_ok s'.
Proof. intros [_ Hb] Hr [_ Hw]. split; [done|]. unfold buffers in Hb. injection Hb as -> -> _. done. Qed.

(** What a step does to the ticks. *)
Definition step_ok (k : Clock) (new : list TickData) (s s' : St) : Prop :=
  backend_ok s' /\ extends s s' /\ registry_ (client_of s') = registry_ (client_of s) /\
  forall t, valid_ts k (tk_exchange_timestamp t) = true -> (t ∈ new \/ accounted (client_of s) t s) ->
    accounted (client_of s) t s'.

Lemma InsertTick_ok k od t (s : St) :
  backend_ok s -> wf_tick t -> exists s', DolphinInsertTick L S cfg k od t s = Some s' /\ step_ok k [t] s s'.
Proof.
  intros [Hok Hw] Ht. destruct s as [[b w] f]. unfold DolphinInsertTick. cbn [fst snd] in *.
  set (act := (if active_buffer_ b then tick_buffer_b_ b else tick_buffer_a_ b) ++ [t]).
  set (other := if active_buffer_ b then tick_buffer_a_ b else tick_buffer_b_ b).
  assert (Hact : Forall wf_tick act /\ Forall wf_tick other).
  { apply Forall_app in Hw as [Ha Hb]. unfold act, other. rewrite Forall_app.
    destruct (active_buffer_ b); split_and!; try done; by constructor. }
  destruct Hact as [Hwa Hwo].
  assert (Hmem : forall x, x = t \/ x ∈ tick_buffer_a_ b ++ tick_buffer_b_ b -> x ∈ act \/ x ∈ other).
  { intros x. unfold act, other. rewrite !elem_of_app, list_elem_of_singleton. destruct (active_buffer_ b); tauto. }
  destruct (_ || _).
  - set (s1 := ((if active_buffer_ b then _ else _), w, f)).
    assert (Hs1 : fallback_ready s1) by (unfold s1, fallback_ready; destruct (active_buffer_ b); exact Hok).
    assert (Hb1 : forall x, x ∈ other -> x ∈ tick_buffer_a_ s1.1.1 ++ tick_buffer_b_ s1.1.1).
    { intros x. unfold s1, other. rewrite elem_of_app. destruct (active_buffer_ b); cbn; tauto. }
    assert (Hw1 : Forall wf_tick (tick_buffer_a_ s1.1.1 ++ tick_buffer_b_ s1.1.1)).
    { apply Forall_app. unfold s1, other in *. destruct (active_buffer_ b); cbn; split; (done || by constructor). }
    assert (Hc1 : client_of s1 = client_of (b, w, f)) by (unfold s1; by destruct (active_buffer_ b)).
    assert (Hx1 : extends (b, w, f) s1) by (split; done).
    destruct (FlushBuffer_spec cfg k od act s1 Hwa Hs1) as (s2 & -> & H1 & H2 & H3 & H4).
    exists s2. split; [done|]. split; [by eapply framed_ok|]. split; [by etrans|].
    split; [rewrite (fr_registry _ _ H2); by rewrite Hc1|]. rewrite <- Hc1.
    intros x Hv [Hx|[Hx|Hx]].
    + apply list_elem_of_singleton in Hx as ->. destruct (Hmem t) as [H|H]; [by left|right; by apply H4|].
      eapply framed_accounted; [done..|]. left. by apply Hb1.
    + destruct (Hmem x) as [H|H]; [by right|right; by apply H4|].
      eapply framed_accounted; [done..|]. left. by apply Hb1.
    + right. eapply delivered_extends; [|exact Hx]. by etrans.
  - eexists. split; [done|]. set (s1 := ((if active_buffer_ b then _ else _), w, f)).
    assert (Hb1 : forall x, x ∈ act \/ x ∈ other -> x ∈ tick_buffer_a_ s1.1.1 ++ tick_buffer_b_ s1.1.1).
    { intros x. unfold s1, act, other. rewrite !elem_of_app. destruct (active_buffer_ b); cbn; rewrite ?elem_of_app; tauto. }
    split; [split|split; [split; done|split]].
    + unfold s1, fallback_ready. by destruct (active_buffer_ b).
    + apply Forall_app. unfold s1, act, other in *. destruct (active_buffer_ b); cbn; done.
    + unfold s1. by destruct (active_buffer_ b).
    + intros x Hv [Hx|[Hx|Hx]]; [left|left|right; exact Hx].
      * apply list_elem_of_singleton in Hx as ->. apply Hb1, Hmem. by left.
      * apply Hb1, Hmem. by right.
Qed.

Definition ticks_of (op : DOp) : list TickData := match op with DTick t => [t] | _ => [] end.

Lemma unbuffered_ok k (s s' : St) row record :
  backend_ok s -> exactly_once s s' row record -> fallback_ready s' -> framed s s' -> step_ok k [] s s'.
Proof.
  intros Hok Ho Hr Hf. pose proof (exactly_once_extends _ _ _ _ Ho) as Hx.
  split; [by eapply framed_ok|]. split; [done|]. split; [by apply Hf|].
  intros t _ [H|H]; [by apply elem_of_nil in H|]. by eapply framed_accounted.
Qed.

Lemma dstep_ok k od op (s : St) :
  backend_ok s -> dop_wf op -> exists s', dstep L S cfg (k, od, op) s = Some s' /\ step_ok k (ticks_of op) s s'.
Proof.
  intros Hok Hw. assert (Hid : step_ok k [] s s).
  { split; [done|]. split; [done|]. split; [done|]. intros t _ [H|H]; [by apply elem_of_nil in H|done]. }
  destruct op as [t|e ts|e]; cbn [dstep ticks_of dop_wf] in *.
  - by apply InsertTick_ok.
  - destruct (valid_ts k (dp_exchange_timestamp e)) eqn:Hv.
    + destruct (orderbook_once k od e ts s (proj1 Hok) Hw Hv) as (s' & -> & H1 & H2 & H3).
      exists s'. split; [done|]. by eapply unbuffered_ok.
    + exists s. split; [|done]. unfold DolphinInsertOrderbook. by rewrite Hv.
  - destruct (valid_ts k (bt_exchange_timestamp e)) eqn:Hv.
    + destruct (ticker_once k od e s (proj1 Hok) Hw Hv) as (s' & -> & H1 & H2 & H3).
      exists s'. split; [done|]. by eapply unbuffered_ok.
    + exists s. split; [|done]. unfold DolphinInsertBookTicker. by rewrite Hv.
Qed.

Lemma accounted_registry c c' t (s : St) : registry_ c = registry_ c' -> accounted c t s -> accounted c' t s.
Proof. intros Hc [H|[H|H]]; [by left|right; left|right; by right]. by rewrite <- (trade_row_registry c c' t Hc). Qed.

Lemma run_dolphin_ok calls (s : St) :
  backend_ok s -> Forall (fun c => dop_wf c.2) calls ->
  exists s', run_dolphin L S cfg calls s = Some s' /\ backend_ok s' /\
    registry_ (client_of s') = registry_ (client_of s) /\
    forall t, Forall (fun c => valid_ts c.1.1 (tk_exchange_timestamp t) = true) calls ->
      (t ∈ concat (ticks_of ∘ snd <$> calls) \/ accounted (client_of s) t s) -> accounted (client_of s) t s'.
Proof.
  intros Hok Hw. revert s Hok. induction Hw as [|[[k od] op] calls Hop Hw IH]; intros s Hok; cbn [run_dolphin].
  - exists s. split_and!; try done. intros t _ [H|H]; [by apply elem_of_nil in H|done].
  - destruct (dstep_ok k od op s Hok Hop) as (s1 & -> & Hok1 & Hx1 & Hr1 & Hacc1).
    destruct (IH s1 Hok1) as (s2 & -> & Hok2 & Hr2 & Hacc2).
    exists s2. split; [done|]. split; [done|]. split; [congruence|].
    intros t Hv Ht. apply Forall_cons in Hv as [Hv Hvs].
    eapply accounted_registry; [exact Hr1|]. apply Hacc2; [done|].
    assert (Hcase : t ∈ concat (ticks_of ∘ snd <$> calls) \/ (t ∈ ticks_of op \/ accounted (client_of s) t s)).
    { destruct Ht as [Ht|Ht]; [|by right; right]. cbn in Ht. apply elem_of_app in Ht as [Ht|Ht]; [by right; left|by left]. }
    destruct Hcase as [H|H]; [by left|right]. eapply accounted_registry; [symmetry; exact Hr1|]. by apply Hacc1.
Qed.

Lemma FlushAndClose_ok k od (s : St) :
  backend_ok s ->
  exists s', DolphinFlushAndClose L S cfg k od s = Some s' /\
    forall t, valid_ts k (tk_exchange_timestamp t) = true -> accounted (client_of s) t s -> delivered s' (client_of s) t.
Proof.
  intros [Hok Hw]. destruct s as [[b w] f]. unfold DolphinFlushAndClose. cbn [fst snd] in *.
  apply Forall_app in Hw as [Hwa Hwb].
  set (s0 := (set_buffers [] [] (active_buffer_ b) (last_flush_ns_ b) b, w, f)).
  destruct (FlushBuffer_spec cfg k od (tick_buffer_a_ b) s0 Hwa Hok) as (s1 & -> & A1 & A2 & A3 & A4).
  destruct (FlushBuffer_spec cfg k od (tick_buffer_b_ b) s1 Hwb A1) as ([[b2 w2] f2] & -> & B1 & B2 & B3 & B4).
  set (f3 := if fallback_once_ b2 then sink_close S f2 else f2).
  destruct (on_client_rows (Disconnect L) (b2, w2, f3)) as (C1 & _ & C3 & _).
  destruct (quiet_Disconnect (client_of (b2, w2, f3), w2)) as [Hq _].
  eexists. split; [done|]. intros t Hv Hacc.
  assert (Hlog : sink_log f3 = sink_log f2) by (unfold f3; destruct (fallback_once_ b2); [apply close_log|done]).
  assert (Hx : extends (b2, w2, f2) (on_client L S (Disconnect L) (b2, w2, f3)).2).
  { split; [unfold rows in *; cbn [fst snd] in *; rewrite C1, Hq; done|]. unfold stored. rewrite C3. cbn [snd]. by rewrite Hlog. }
  eapply delivered_extends; [exact Hx|]. destruct Hacc as [H|H].
  - apply elem_of_app in H as [H|H].
    + eapply delivered_extends; [exact B3|]. by apply (A4 t).
    + destruct (B4 t H Hv) as [H1|H1]; [left|by right].
      rewrite <- (trade_row_registry (client_of s1)); [exact H1|]. apply (fr_registry _ _ A2).
  - eapply delivered_extends; [|exact H]. etrans; [|exact B3]. etrans; [|exact A3]. split; done.
Qed.
End runs.

(** C7: No trade is lost.  Whatever the table writers refuse, whatever throws and however reconnecting goes, a run
    of inserts followed by FlushAndClose returns, and every tick inserted whose timestamp is valid has been accepted
    by the trades writer as its row, or has been appended to the fallback storage. *)
Theorem dolphin_no_tick_lost (L : DolphinLib) `{!RowLog L} (S : Sink) `{!FallbackSink S} cfg calls k od (s : DState L S) :
  tick_buffer_a_ s.1.1 = [] -> tick_buffer_b_ s.1.1 = [] -> fallback_once_ s.1.1 = false ->
  Forall (fun c => dop_wf c.2) calls ->
  exists s1 s2, run_dolphin L S cfg calls s = Some s1 /\ DolphinFlushAndClose L S cfg k od s1 = Some s2 /\
    forall t, t ∈ concat (ticks_of ∘ snd <$> calls) ->
      Forall (fun k' => valid_ts k' (tk_exchange_timestamp t) = true) (k :: (fst ∘ fst <$> calls)) ->
      (Trades, trade_row (client_of s) t) ∈ rows s2 \/ StoredTick t ∈ stored s2.
Proof.
  intros Ha Hb Ho Hw.
  assert (Hok : backend_ok s) by (split; [unfold fallback_ready; by rewrite Ho|rewrite Ha, Hb; constructor]).
  destruct (run_dolphin_ok cfg calls s Hok Hw) as (s1 & -> & Hok1 & Hr & Hacc).
  destruct (FlushAndClose_ok cfg k od s1 Hok1) as (s2 & Hf & Hdel). exists s1, s2. split; [done|]. split; [done|].
  intros t Ht Hv. apply Forall_cons in Hv as [Hvk Hvs]. rewrite Forall_fmap in Hvs.
  destruct (Hdel t Hvk) as [H|H]; [|left|by right].
  - eapply accounted_registry; [symmetry; exact Hr|]. apply Hacc; [exact Hvs|by left].
  - by rewrite <- (trade_row_registry (client_of s1) (client_of s) t Hr).
Qed.

(** A book update or ticker with a valid timestamp is written exactly once: one row accepted by the table writer
    (at the first attempt or at the retry after a reconnection) or one fallback record, never both and never none. *)
Theorem dolphin_book_exactly_once (L : DolphinLib) `{!RowLog L} (S : Sink) `{!FallbackSink S} cfg k od e ts ev (s : DState L S) :
  fallback_ready s -> wf_depth e -> length (bt_symbol ev) = 12%nat ->
  valid_ts k (dp_exchange_timestamp e) = true -> valid_ts k (bt_exchange_timestamp ev) = true ->
  (exists s', DolphinInsertOrderbook L S cfg k od e ts s = Some s' /\
     exactly_once s s' (Orderbook, book_row (client_of s) e ts) (StoredBook e ts)) /\
  (exists s', DolphinInsertBookTicker L S cfg k od ev s = Some s' /\
     exactly_once s s' (BookTicker, ticker_row (client_of s) ev) (StoredTicker ev)).
Proof.
  intros Hok He Hev Hv1 Hv2. split.
  - destruct (orderbook_once cfg k od e ts s Hok He Hv1) as (s' & H1 & H2 & _). eauto.
  - destruct (ticker_once cfg k od ev s Hok Hev Hv2) as (s' & H1 & H2 & _). eauto.
Qed.

(** ** The mmap storage as fallback

    The state is the [MmapBackend] pointer, the files, and the records written so far: those that found the file open and left it
    open, a failed roll closes it.  An append through the null pointer that FlushAndClose leaves is undefined behaviour. *)

(** The degradation file is there to be written to. *)
Definition writing (b : MmapBackend) : bool := match fallback_ b with Some e => IsOpen e | None => false end.

Definition MmapSink (os : OS) : Sink :=
  let append (f : MmapBackend -> MmapFS -> option (MmapBackend * MmapFS)) (r : Stored)
        (s : option MmapBackend * MmapFS * list Stored) :=
    match s with
    | (Some b, fs, log) => match f b fs with
                           | Some (b', fs) => Some (Some b', fs, if writing b && writing b' then log ++ [r] else log)
                           | None => None
                           end
    | (None, _, _) => None
    end in
  mkSink (option MmapBackend * MmapFS * list Stored)
    (fun path s => let '(b, fs) := EnsureFallback os (mmap_backend0 path) s.1.2 in (Some b, fs, s.2))
    (fun t => append (AppendFallbackTick os t) (StoredTick t))
    (fun e ts => append (AppendFallbackOrderbook os e ts) (StoredBook e ts))
    (fun e => append (AppendFallbackBookTicker os e) (StoredTicker e))
    (fun s => (None, s.1.2, s.2)).

Definition mmap_sink_ok (os : OS) (s : SinkState (MmapSink os)) : Prop :=
  match s with (Some b, _, _) => backend_safe os b /\ writing b = true | (None, _, _) => False end.

(** Operating systems with a usable page size and a disk that does not fail. *)
Class Disk (os : OS) : Prop := {
  disk_sizes : sane_sizes os default_max_file_size;
  disk_accepts : forall f, os_accepts os f;
  disk_mkdir : forall path, EnsureDirExists (os_mkdir os) path = true
}.

(** On such a disk an open file stays open. *)
Section open.
Context (os : OS) `{!Disk os}.

Lemma append_rolling_open bs e fs e' fs' : IsOpen e = true -> append_rolling os bs e fs = Some (e', fs') -> IsOpen e' = true.
Proof.
  intros Ho. unfold append_rolling, append_bytes, RollNewFile. destruct (_ <=? _).
  - set (e1 := set_naming _ _ _ _). destruct (map_file_ok os (MakeFileName e1 (file_sequence_ e1)) e1 fs (disk_accepts _)) as (fs1 & -> & _).
    repeat case_match; try done. by intros [= <- _].
  - repeat case_match; try done. by intros [= <- _].
Qed.
Lemma AppendRecord_open t target e fs e' fs' : IsOpen e = true -> AppendRecord os t target e fs = Some (e', fs') -> IsOpen e' = true.
Proof. intros Ho. unfold AppendRecord. rewrite Ho. by apply append_rolling_open. Qed.
Lemma AppendRaw_open bs e fs e' fs' : IsOpen e = true -> AppendRaw os bs e fs = Some (e', fs') -> IsOpen e' = true.
Proof. intros Ho. unfold AppendRaw. rewrite Ho. destruct (_ =? _)%nat; [by intros [= <- _]|by apply append_rolling_open]. Qed.
Lemma WriteOrderbook_open ev ts e fs e' fs' : IsOpen e = true -> WriteOrderbook os ev ts e fs = Some (e', fs') -> IsOpen e' = true.
Proof.
  intros Ho. unfold WriteOrderbook. destruct (AppendRaw os _ e fs) as [[e1 fs1]|] eqn:E1; [|done]. apply AppendRaw_open in E1; [|done].
  destruct (if (0 <? dp_bid_count ev)%nat then _ else _) as [[e2 fs2]|] eqn:E2; [|done].
  assert (Ho2 : IsOpen e2 = true) by (destruct (0 <? dp_bid_count ev)%nat; [by eapply AppendRaw_open|by simplify_eq]).
  destruct (0 <? dp_ask_count ev)%nat; [by apply AppendRaw_open|by intros [= <- _]].
Qed.
Lemma WriteBookTicker_open ev e fs e' fs' : IsOpen e = true -> WriteBookTicker os ev e fs = Some (e', fs') -> IsOpen e' = true.
Proof. apply AppendRaw_open. Qed.

Lemma on_fallback_writing write b fs b' fs' :
  (forall e fs e' fs', IsOpen e = true -> write e fs = Some (e', fs') -> IsOpen e' = true) ->
  writing b = true -> on_fallback write b fs = Some (b', fs') -> writing b' = true.
Proof.
  intros Hw Hb. unfold writing, on_fallback in *. destruct (fallback_ b) as [e|]; [|done].
  destruct (write e fs) as [[e1 fs1]|] eqn:E; [|done]. intros [= <- _]. cbn. by eapply Hw.
Qed.

Lemma EnsureFallback_writing path fs : writing (EnsureFallback os (mmap_backend0 path) fs).1 = true.
Proof.
  unfold EnsureFallback, OpenOrCreate. cbn [fallback_ mmap_backend0]. rewrite disk_mkdir. cbn [negb].
  set (e1 := set_naming _ _ _ _). by destruct (map_file_ok os (MakeFileName e1 (file_sequence_ e1)) e1 fs (disk_accepts _)) as (fs1 & -> & _).
Qed.
End open.

#[export] Instance MmapSinkFallback os `{!Disk os} : FallbackSink (MmapSink os).
Proof.
  refine (Build_FallbackSink (MmapSink os) snd (mmap_sink_ok os) _ _ _ _ _).
  - intros path [[b fs] log]. cbn -[EnsureFallback]. pose proof (EnsureFallback_writing os path fs) as Hw.
    destruct (mmap_step_safe os disk_sizes OpEnsureFallback (mmap_backend0 path, fs) I) as (s' & [= <-] & Hs).
    { split_and!; try apply map_Forall_empty. done. }
    destruct (EnsureFallback os (mmap_backend0 path) fs) as [b' fs']. done.
  - intros t [[[b|] fs] log] Hok Hw; [|done]. destruct Hok as [Hok Ho]. cbn in *.
    destruct (mmap_step_safe os disk_sizes (OpFallbackTick t) (b, fs) Hw Hok) as ([b' fs'] & Heq & Hs).
    cbn in Heq. assert (Ho' : writing b' = true) by (eapply on_fallback_writing; [apply (AppendRecord_open os)|exact Ho|exact Heq]).
    rewrite Heq, Ho, Ho'. by eexists.
  - intros e ts [[[b|] fs] log] Hok Hw; [|done]. destruct Hok as [Hok Ho]. cbn in *.
    destruct (mmap_step_safe os disk_sizes (OpFallbackOrderbook e ts) (b, fs) Hw Hok) as ([b' fs'] & Heq & Hs).
    cbn in Heq. assert (Ho' : writing b' = true) by (eapply on_fallback_writing; [apply (WriteOrderbook_open os)|exact Ho|exact Heq]).
    rewrite Heq, Ho, Ho'. by eexists.
  - intros e [[[b|] fs] log] Hok Hw; [|done]. destruct Hok as [Hok Ho]. cbn in *.
    destruct (mmap_step_safe os disk_sizes (OpFallbackBookTicker e) (b, fs) Hw Hok) as ([b' fs'] & Heq & Hs).
    cbn in Heq. assert (Ho' : writing b' = true) by (eapply on_fallback_writing; [apply (WriteBookTicker_open os)|exact Ho|exact Heq]).
    rewrite Heq, Ho, Ho'. by eexists.
  - by intros [[b fs] log].
Defined.

(** Without a disk the records are gone: nothing is written and no call says so. *)
Lemma fallback_lost_silently os path t fs log :
  (forall f, os_open os f = false) ->
  let s := sink_open (MmapSink os) path (None, fs, log) in
  exists s', sink_tick (MmapSink os) t s = Some s' /\ s'.2 = log.
Proof.
  intros Ho. cbn. unfold EnsureFallback, OpenOrCreate, map_file. cbn [fallback_ mmap_backend0]. rewrite Ho.
  destruct (EnsureDirExists _ _); cbn; by eexists.
Qed.

#[export] Instance demo_disk : Disk demo_os.
Proof.
  split.
  - unfold sane_sizes, kHeaderSize, default_max_file_size. cbn. lia.
  - done.
  - intros path. unfold EnsureDirExists. assert (H : forall l pre, mkdir_prefixes (os_mkdir demo_os) pre l = true)
      by (induction l as [|a l IH]; intros pre; cbn; [done|]; repeat case_match; try done; apply IH).
    rewrite H. by repeat case_match.
Qed.

#[export] Instance MemRows : RowLog MemLib.
Proof.
  refine (Build_RowLog MemLib db_rows _ _ _ _ _ _ _); cbn; try done.
  - intros t r w. destruct (inserts w) as [|[] l]; cbn; by rewrite ?app_nil_r.
  - intros s w. destruct s; cbn; try done; by case_bool_decide.
Defined.

(** *** Witnesses

    The first connection works; the second row is refused, the reconnection
    fails, and the rest goes to the fallback. *)
Definition demo_clock : Clock := mkClock 50000000 1767225600 2026.
Definition demo_world : MemDB := mkMemDB [] [] [] [] [] [true; false] [true; false].
Definition demo_backend : DState MemLib (MmapSink demo_os) :=
  Configure MemLib (MmapSink demo_os) dolphin_cfg0 demo_clock 1 10000000 "cache"
    (dolphin0 0 0 "", demo_world, (None, ∅, [])).
Definition demo_calls : list (Clock * bool * DOp) :=
  (fun t => (demo_clock, true, DTick t)) <$> [demo_tick 1; demo_tick 2; demo_tick 3].

Lemma demo_calls_wf : Forall (fun c => dop_wf c.2) demo_calls.
Proof. repeat constructor; apply demo_tick_valid; unfold in_range; lia. Qed.

Definition stored_id (r : Stored) : Z := match r with StoredTick t => tk_trade_id t | _ => 0 end.

Lemma dolphin_no_tick_lost_witness :
  exists s1 s2, run_dolphin MemLib (MmapSink demo_os) dolphin_cfg0 demo_calls demo_backend = Some s1 /\
    DolphinFlushAndClose MemLib (MmapSink demo_os) dolphin_cfg0 demo_clock true s1 = Some s2 /\
    ((Trades, trade_row (client_of demo_backend) (demo_tick 2)) ∈ rows s2 \/ StoredTick (demo_tick 2) ∈ stored s2).
Proof.
  destruct (dolphin_no_tick_lost MemLib (MmapSink demo_os) dolphin_cfg0 demo_calls demo_clock true demo_backend
              eq_refl eq_refl eq_refl demo_calls_wf) as (s1 & s2 & H1 & H2 & H3).
  exists s1, s2. split; [exact H1|]. split; [exact H2|]. apply H3.
  - cbn. rewrite !elem_of_cons. tauto.
  - repeat constructor.
Defined.

(** In that run tick 1 is in the database; ticks 2 and 3 are in the fallback. *)
Example demo_run_delivery :
  match run_dolphin MemLib (MmapSink demo_os) dolphin_cfg0 demo_calls demo_backend with
  | Some s => (length (rows s), stored_id <$> stored s)
  | None => (0%nat, [])
  end = (1%nat, [2; 3]).
Proof. vm_compute. reflexivity. Qed.

Definition valid_book : DepthUpdateEvent :=
  mkDepth 1 5 1700000000000000 0 symbol0 (replicate 100 level0) (replicate 100 level0) 5 0.
Definition valid_ticker : BookTickerEvent := mkBookTicker 5 1700000000000000 0 symbol0 dzero dzero dzero dzero.

Lemma dolphin_book_exactly_once_witness :
  (exists s', DolphinInsertOrderbook MemLib (MmapSink demo_os) dolphin_cfg0 demo_clock true valid_book 9 demo_backend = Some s' /\
     exactly_once demo_backend s' (Orderbook, book_row (client_of demo_backend) valid_book 9) (StoredBook valid_book 9)) /\
  (exists s', DolphinInsertBookTicker MemLib (MmapSink demo_os) dolphin_cfg0 demo_clock true valid_ticker demo_backend = Some s' /\
     exactly_once demo_backend s' (BookTicker, ticker_row (client_of demo_backend) valid_ticker) (StoredTicker valid_ticker)).
Proof.
  apply dolphin_book_exactly_once; [| |reflexivity|vm_compute; reflexivity|vm_compute; reflexivity].
  - unfold fallback_ready. vm_compute. discriminate.
  - split; cbn; unfold kMaxOrderbookLevels; lia.
Defined.
