(* ===== verification/Contention.v ===== *)
(** * The DolphinDB backend under contention

    Every parser thread and the Rithmic receiver call the one [DolphinDBBackend]
    (src/storage/backend/dolphindb_backend.cpp).  In [Dolphin] a call runs by itself;
    here any number of threads are inside calls at once, and a step is one visible
    action: taking or giving back the shared or the exclusive side of
    [dolphindb_mtx_], an access to [degraded_] or [reconnecting_], the section of
    [buffer_mtx_], one row handed to a table writer, one record appended to the
    fallback.  Each step reads the clock anew.  The lock is a state of its own, the
    number of its readers and whether it has a writer, so that exclusion is proved
    and not assumed. *)
From S2P Require Import Prelude Doubles Events Config Mmap Schema Dolphin.

(** ** Calls in progress *)

(** What [InsertWithFallback] was called for. *)
Inductive Job := JTicks (batch : list TickData) | JBook (e : DepthUpdateEvent) (local_ts : Z) | JTicker (e : BookTickerEvent).

(** Source: src/storage/backend/dolphindb_backend.cpp:190-228, InsertWithFallback (retry_after_reconnect of its three callers). *)
Definition retry_after_reconnect (j : Job) : bool := match j with JTicks _ => false | _ => true end.

(** Source: src/storage/backend/dolphindb_backend.h:68-68, DolphinDBBackend::kReconnectMaxSpin. *)
Definition kReconnectMaxSpin : Z := 10000.

(** Where a thread is. [second]: in the attempt after a reconnection. *)
Inductive Pc :=
  | PIdle
  | PPush (t : TickData)                                (* InsertTick, before the buffer section *)
  | PFlush (batch : list TickData)                      (* FlushBuffer, before the validation *)
  | PShared (j : Job) (second : bool)                   (* waits for the shared lock *)
  | PCheck (j : Job) (second : bool)                    (* has it, before [degraded_] is read *)
  | PRows (batch rest : list TickData) (second : bool)  (* has it, in TableInsertTrades *)
  | PUnlock (j : Job) (second : bool)                   (* has it, not inserted *)
  | PReturn                                             (* has it, inserted *)
  | PGate (j : Job)                                     (* TryReconnect, before the exchange *)
  | PSpin (j : Job) (spin_count : Z)
  | PReread (j : Job)                                   (* left the spin loop *)
  | PExclusive (j : Job)                                (* won the gate, waits for the exclusive lock *)
  | PReconnect (j : Job)                                (* has it *)
  | PReopen (j : Job) (ok : bool)                       (* has it, before the gate is reopened *)
  | PRelease (j : Job) (ok : bool)                      (* has it, returns *)
  | PFallback (j : Job).                                (* phase 3 *)


(** ** Reconnecting never throws

    The gate is reopened after [Reconnect] without a guard, so that an exception there would close it for good:
    all of them are caught inside. *)

Section returns.
Context {L : DolphinLib} (cfg : DolphinDBConfig).
Abbreviation CM := (M (Client * World L)).

Class Returns {A} (m : CM A) : Prop := returns : forall s, exists a, (m s).1 = Ret a.
#[local] Instance returns_ret {A} (a : A) : Returns (mret a).
Proof. intros s. by exists a. Qed.
#[local] Instance returns_get : Returns (get_client L).
Proof. intros s. by exists s.1. Qed.
#[local] Instance returns_modify f : Returns (modify L f).
Proof. intros s. by exists tt. Qed.
#[local] Instance returns_bind {A B} (m : CM A) (k : A -> CM B) : Returns m -> (forall a, Returns (k a)) -> Returns (m ≫= k).
Proof. intros Hm Hk s. unfold mbind, M_bind. destruct (Hm s) as [a Ha]. destruct (m s) as [r s1]. cbn in Ha. subst r. apply Hk. Qed.
#[local] Instance returns_catch {A} (m : CM A) h : (forall e, Returns (h e)) -> Returns (mcatch m h).
Proof. intros Hh s. unfold mcatch. destruct (m s) as [[a|e] s1]; [by exists a|apply Hh]. Qed.
#[local] Instance returns_if {A} (b : bool) (m1 m2 : CM A) : Returns m1 -> Returns m2 -> Returns (if b then m1 else m2).
Proof. by destruct b. Qed.

Lemma Reconnect_returns k : Returns (Reconnect L cfg k).
Proof. unfold Reconnect, DestroyWriters, drain. apply _. Qed.
End returns.

Section contention.
Context {L : DolphinLib} {S : Sink} (cfg : DolphinDBConfig).
Abbreviation St := (DState L S).

(** What the threads share: the backend and [dolphindb_mtx_]. *)
Record Shared := mkShared { backend : St; readers : nat; has_writer : bool }.

Definition put_backend (f : DolphinBackend -> DolphinBackend) (d : St) : St := (f d.1.1, d.1.2, d.2).

(** Source: src/storage/backend/dolphindb_backend.cpp:149-176, DolphinDBBackend::InsertTick (the section of buffer_mtx_).
    The buffer to flush, if it is time. *)
Definition push_tick (k : Clock) (tick : TickData) (b : DolphinBackend) : option (list TickData) * DolphinBackend :=
  let active := (if active_buffer_ b then tick_buffer_b_ b else tick_buffer_a_ b) ++ [tick] in
  let threshold_reached := buffer_size_ b <=? Z.of_nat (length active) in
  let time_elapsed := negb threshold_reached && (flush_interval_ns_ b <? u64 (steady_ns k - last_flush_ns_ b)) in
  let store x active_b last := if active_buffer_ b then set_buffers (tick_buffer_a_ b) x active_b last b
                               else set_buffers x (tick_buffer_b_ b) active_b last b in
  if threshold_reached || time_elapsed then (Some active, store [] (negb (active_buffer_ b)) (steady_ns k))
  else (None, store active (active_buffer_ b) (last_flush_ns_ b)).

(** It is the first half of the sequential call. *)
Lemma InsertTick_push k od t (d : St) :
  DolphinInsertTick L S cfg k od t d =
  match push_tick k t d.1.1 with
  | (Some batch, b) => FlushBuffer L S cfg k od batch (put_backend (fun _ => b) d)
  | (None, b) => Some (put_backend (fun _ => b) d)
  end.
Proof. destruct d as [[b w] f]. unfold DolphinInsertTick, push_tick. by destruct (_ || _). Qed.

(** Source: src/storage/backend/dolphindb_backend.cpp:60-69, DolphinDBBackend::InsertWithFallback (an attempt).
    Phase 1, or the retry of phase 2, once the shared lock is held; a batch is begun, a single row inserted. *)
Definition check (k : Clock) (j : Job) (second : bool) (d : St) : Pc * St :=
  match j with
  | JTicks batch =>
      let c := dolphindb_ d.1.1 in
      if degraded_ d.1.1 then (PUnlock j second, d)
      else if negb (connected_ c) || negb (trades_writer_ c) then (PUnlock j second, put_backend (set_degraded true) d)
      else if (length batch =? 0)%nat then (PReturn, d)
      else (PRows batch batch second, d)
  | JBook e local_ts =>
      let '(ok, d) := attempt L S (TableInsertOrderbook L k e local_ts) d in (if ok then PReturn else PUnlock j second, d)
  | JTicker e =>
      let '(ok, d) := attempt L S (TableInsertBookTicker L k e) d in (if ok then PReturn else PUnlock j second, d)
  end.

(** Source: src/storage/backend/dolphindb_backend.cpp:220-227, DolphinDBBackend::FlushBuffer (write_batch_to_mmap).
    Phase 3: one append through the fallback. *)
Definition append_fallback (j : Job) (d : St) : option (Pc * St) :=
  match j with
  | JTicks [] => Some (PIdle, d)
  | JTicks (t :: rest) => (fun d => (PFallback (JTicks rest), d)) <$> via_fallback L S (sink_tick S t) d
  | JBook e local_ts => (fun d => (PIdle, d)) <$> via_fallback L S (sink_book S e local_ts) d
  | JTicker e => (fun d => (PIdle, d)) <$> via_fallback L S (sink_ticker S e) d
  end.

(** Source: src/storage/backend/dolphindb_backend.cpp:72-88, DolphinDBBackend::InsertWithFallback (after TryReconnect). *)
Definition after_reconnect (j : Job) (reconnected : bool) : Pc :=
  if reconnected && retry_after_reconnect j then PShared j true else PFallback j.

(** Source: src/storage/backend/dolphindb_backend.cpp:57-127, DolphinDBBackend::InsertWithFallback and TryReconnect (steps).
    One step of a thread; [None] while it is blocked. *)
Definition thread_step (k : Clock) (shutdown : bool) (pc : Pc) (s : Shared) : option (Pc * Shared) :=
  let d := backend s in
  let on x := Some (x.1, mkShared x.2 (readers s) (has_writer s)) in
  match pc with
  | PIdle => None
  | PPush t =>
      let '(batch, b) := push_tick k t d.1.1 in
      on (if batch is Some batch then PFlush batch else PIdle, put_backend (fun _ => b) d)
  | PFlush batch =>
      let valid_batch := List.filter (fun t => valid_ts k (tk_exchange_timestamp t)) batch in
      on (if (length valid_batch =? 0)%nat then PIdle else PShared (JTicks valid_batch) false, d)
  | PShared j second =>
      if has_writer s then None else Some (PCheck j second, mkShared d (Datatypes.S (readers s)) (has_writer s))
  | PCheck j second => on (check k j second d)
  | PRows batch (t :: rest) second =>
      let '(r, d) := on_client L S (insert_trades L k [t]) d in
      on (if r is Ret true then (PRows batch rest second, d) else (PUnlock (JTicks batch) second, put_backend (set_degraded true) d))
  | PRows batch [] second => on (PReturn, (on_client L S (modify L (set_health (steady_ns k))) d).2)
  | PUnlock j second => Some (if second then PFallback j else PGate j, mkShared d (pred (readers s)) (has_writer s))
  | PReturn => Some (PIdle, mkShared d (pred (readers s)) (has_writer s))
  | PGate j =>
      if reconnecting_ d.1.1 then on (PSpin j 0, d) else on (PExclusive j, put_backend (set_reconnecting true) d)
  | PSpin j spin_count =>
      on (if negb (reconnecting_ d.1.1) then PReread j
          else if shutdown then after_reconnect j false
          else if kReconnectMaxSpin <? spin_count + 1 then after_reconnect j false
          else PSpin j (spin_count + 1), d)
  | PReread j => on (after_reconnect j (negb (degraded_ d.1.1)), d)
  | PExclusive j =>
      if has_writer s || negb (readers s =? 0)%nat then None else Some (PReconnect j, mkShared d (readers s) true)
  | PReconnect j =>
      let '(r, d) := on_client L S (Reconnect L cfg k) d in
      let ok := if r is Ret true then true else false in
      on (PReopen j ok, if ok then put_backend (set_degraded false) d else d)
  | PReopen j ok => on (PRelease j ok, put_backend (set_reconnecting false) d)
  | PRelease j ok => Some (after_reconnect j ok, mkShared d (readers s) false)
  | PFallback j => match append_fallback j d with Some x => on x | None => None end
  end.

(** ** All threads *)

Record Conc := mkConc { shared : Shared; pcs : list Pc; accepted : list DOp }.

Inductive CLabel :=
  | CCall (i : nat) (k : Clock) (op : DOp)        (* an idle thread enters a call *)
  | CStep (i : nat) (k : Clock) (shutdown : bool).

(** Source: src/storage/backend/dolphindb_backend.cpp:183-203, DolphinDBBackend::InsertOrderbook and InsertBookTicker (validation). *)
Definition enter (k : Clock) (op : DOp) : option Pc :=
  match op with
  | DTick t => Some (PPush t)
  | DBook e ts => if valid_ts k (dp_exchange_timestamp e) then Some (PShared (JBook e ts) false) else None
  | DTicker e => if valid_ts k (bt_exchange_timestamp e) then Some (PShared (JTicker e) false) else None
  end.

(** A call with an invalid timestamp returns at once. *)
Definition cexec (l : CLabel) (s : Conc) : option Conc :=
  match l with
  | CCall i k op =>
      match pcs s !! i with
      | Some PIdle => Some (match enter k op with
                            | Some pc => mkConc (shared s) (<[i := pc]> (pcs s)) (accepted s ++ [op])
                            | None => s
                            end)
      | _ => None
      end
  | CStep i k shutdown =>
      match pcs s !! i with
      | Some pc => match thread_step k shutdown pc (shared s) with
                   | Some (pc, sh) => Some (mkConc sh (<[i := pc]> (pcs s)) (accepted s))
                   | None => None
                   end
      | None => None
      end
  end.

Fixpoint crun (ls : list CLabel) (s : Conc) : option Conc :=
  match ls with [] => Some s | l :: ls => match cexec l s with Some s => crun ls s | None => None end end.

Definition conc0 (n : nat) (d : St) : Conc := mkConc (mkShared d 0 false) (replicate n PIdle) [].
Definition label_ok (l : CLabel) : Prop := match l with CCall _ _ op => dop_wf op | CStep _ _ _ => True end.
Definition label_clock (l : CLabel) : Clock := match l with CCall _ k _ | CStep _ k _ => k end.
End contention.

(** ** What the threads hold and what is still to be written *)

Definition holds_shared (pc : Pc) : nat := match pc with PCheck _ _ | PRows _ _ _ | PUnlock _ _ | PReturn => 1 | _ => 0 end.
Definition holds_exclusive (pc : Pc) : nat := match pc with PReconnect _ | PReopen _ _ | PRelease _ _ => 1 | _ => 0 end.
Definition holds_gate (pc : Pc) : nat := match pc with PExclusive _ | PReconnect _ | PReopen _ _ => 1 | _ => 0 end.

(** The work of a thread. *)
Definition pc_job (pc : Pc) : Job :=
  match pc with
  | PIdle | PReturn => JTicks []
  | PPush t => JTicks [t]
  | PFlush batch => JTicks batch
  | PRows _ rest _ => JTicks rest
  | PShared j _ | PCheck j _ | PUnlock j _ | PGate j | PSpin j _ | PReread j | PExclusive j | PReconnect j
  | PReopen j _ | PRelease j _ | PFallback j => j
  end.

Definition job_ticks (j : Job) : list TickData := match j with JTicks batch => batch | _ => [] end.
Definition job_rows (c : Client) (j : Job) : list (Table * DBRow) :=
  match j with JTicks _ => [] | JBook e ts => [(Orderbook, book_row c e ts)] | JTicker e => [(BookTicker, ticker_row c e)] end.
Definition job_ok (j : Job) : Prop :=
  match j with JTicks batch => Forall wf_tick batch | JBook e _ => wf_depth e | JTicker e => length (bt_symbol e) = 12%nat end.
Definition pc_ok (pc : Pc) : Prop :=
  job_ok (pc_job pc) /\ match pc with PRows batch rest _ => Forall wf_tick batch /\ rest ⊆ batch | _ => True end.

(** The books and tickers among the rows of the database and the records of the fallback. *)
Definition is_book (r : Table * DBRow) : Prop := r.1 <> Trades.
#[export] Instance is_book_dec r : Decision (is_book r).
Proof. unfold is_book. apply _. Defined.
Definition record_row (c : Client) (r : Stored) : option (Table * DBRow) :=
  match r with
  | StoredTick _ => None
  | StoredBook e ts => Some (Orderbook, book_row c e ts)
  | StoredTicker e => Some (BookTicker, ticker_row c e)
  end.
Definition op_row (c : Client) (op : DOp) : option (Table * DBRow) :=
  match op with DTick _ => None | DBook e ts => Some (Orderbook, book_row c e ts) | DTicker e => Some (BookTicker, ticker_row c e) end.

#[export] Instance idle_dec pc : Decision (pc = PIdle).
Proof. destruct pc; ((by left) || (by right)). Defined.

(** Changing one thread changes a sum over the threads by that thread. *)
Lemma concat_insert {A B} (f : A -> list B) l i x y :
  l !! i = Some x -> concat (f <$> <[i := y]> l) ++ f x ≡ₚ concat (f <$> l) ++ f y.
Proof.
  revert i. induction l as [|a l IH]; intros [|i]; cbn; [done..| |].
  - intros [= ->]. rewrite (Permutation_app_comm (f y)), (Permutation_app_comm (f x)), <- !app_assoc.
    apply Permutation_app_head, Permutation_app_comm.
  - intros H. rewrite <- !app_assoc. apply Permutation_app_head, IH, H.
Qed.

Definition total (f : Pc -> nat) (l : list Pc) : nat := sum_list (f <$> l).
Lemma total_insert f l i x y : l !! i = Some x -> (total f (<[i := y]> l) + f x = total f l + f y)%nat.
Proof.
  unfold total. revert i. induction l as [|a l IH]; intros [|i]; csimpl; [done..| |]; [intros [= ->]; lia|].
  intros H%IH. csimpl in *. lia.
Qed.
Lemma total_ge f l i x : l !! i = Some x -> (f x <= total f l)%nat.
Proof. unfold total. revert i. induction l as [|a l IH]; intros [|i]; csimpl; [done..| |]; [intros [= ->]; lia|]. intros H%IH. lia. Qed.
Lemma total_pos f l : (0 < total f l)%nat -> exists i x, l !! i = Some x /\ (0 < f x)%nat.
Proof.
  unfold total. induction l as [|a l IH]; cbn; [lia|]. intros H. destruct (decide (0 < f a)%nat).
  - by exists 0%nat, a.
  - destruct IH as (i & x & Hi & Hx); [lia|]. by exists (S i), x.
Qed.
Lemma total_zero f l i x : total f l = 0%nat -> l !! i = Some x -> f x = 0%nat.
Proof. intros H Hi. pose proof (total_ge f l i x Hi). lia. Qed.

Section contention_proofs.
Context {L : DolphinLib} `{!RowLog L} {S : Sink} `{!FallbackSink S} (cfg : DolphinDBConfig).
Abbreviation St := (DState L S).

(** ** The locks *)

Lemma on_client_gate {A} (m : M (Client * World L) A) (d : St) : reconnecting_ (on_client L S m d).2.1.1 = reconnecting_ d.1.1.
Proof. destruct d as [[b w] f]. unfold on_client. by destruct (m _) as [r [c w']]. Qed.
Lemma attempt_gate m (d : St) : reconnecting_ (attempt L S m d).2.1.1 = reconnecting_ d.1.1.
Proof.
  unfold attempt. destruct (degraded_ _); [done|]. pose proof (on_client_gate m d) as H.
  destruct (on_client L S m d) as [r [[b w] f]]. destruct r as [[]|]; exact H.
Qed.
Lemma check_gate k j second (d : St) : reconnecting_ (check k j second d).2.1.1 = reconnecting_ d.1.1.
Proof.
  unfold check. destruct j as [batch|e ts|e].
  - by repeat case_match.
  - pose proof (attempt_gate (TableInsertOrderbook L k e ts) d). by destruct (attempt _ _ _ d) as [[] ?].
  - pose proof (attempt_gate (TableInsertBookTicker L k e) d). by destruct (attempt _ _ _ d) as [[] ?].
Qed.
Lemma via_fallback_gate append (d d' : St) : via_fallback L S append d = Some d' -> reconnecting_ d'.1.1 = reconnecting_ d.1.1.
Proof.
  destruct d as [[b w] f]. unfold via_fallback, FallbackRef. destruct (fallback_once_ b); destruct (append _); by intros [= <-].
Qed.
Lemma append_fallback_gate j (d d' : St) pc : append_fallback j d = Some (pc, d') -> reconnecting_ d'.1.1 = reconnecting_ d.1.1.
Proof.
  unfold append_fallback. destruct j as [[|t rest]|e ts|e]; [by intros [= _ <-]|..];
    destruct (via_fallback L S _ d) as [d1|] eqn:E; cbn; try done; intros [= _ <-]; by eapply via_fallback_gate.
Qed.
Lemma push_gate k t b : reconnecting_ (push_tick k t b).2 = reconnecting_ b.
Proof. unfold push_tick. destruct (_ || _), (active_buffer_ b); done. Qed.
Lemma check_holds k j second (d : St) :
  holds_shared (check k j second d).1 = 1%nat /\ holds_exclusive (check k j second d).1 = 0%nat /\ holds_gate (check k j second d).1 = 0%nat.
Proof.
  unfold check. destruct j as [batch|e ts|e].
  - by repeat case_match.
  - by destruct (attempt _ _ _ d) as [[] ?].
  - by destruct (attempt _ _ _ d) as [[] ?].
Qed.

(** The lock and the gate show what the thread holds. *)
Definition holds_ok (pc : Pc) (s : Shared (L := L) (S := S)) : Prop :=
  (holds_shared pc <= readers s)%nat /\ (holds_exclusive pc <= Nat.b2n (has_writer s))%nat /\
  (holds_gate pc <= Nat.b2n (reconnecting_ (backend s).1.1))%nat /\ (has_writer s = true -> readers s = 0%nat).

(** A step changes the lock and the gate by what the thread takes or gives back. *)
Lemma step_locks k sd pc (s : Shared (L := L) (S := S)) pc' s' :
  thread_step cfg k sd pc s = Some (pc', s') -> holds_ok pc s ->
  (readers s' + holds_shared pc = readers s + holds_shared pc')%nat /\
  (Nat.b2n (has_writer s') + holds_exclusive pc = Nat.b2n (has_writer s) + holds_exclusive pc')%nat /\
  (Nat.b2n (reconnecting_ (backend s').1.1) + holds_gate pc = Nat.b2n (reconnecting_ (backend s).1.1) + holds_gate pc')%nat /\
  (has_writer s' = true -> readers s' = 0%nat).
Proof.
  destruct s as [d r w]. unfold holds_ok. cbn [backend readers has_writer]. intros He (H1 & H2 & H3 & H4).
  destruct pc; cbn [thread_step backend readers has_writer] in He.
  - done.
  - pose proof (push_gate k t d.1.1) as Hg. destruct (push_tick k t d.1.1) as [[batch|] b]; cbn in He, Hg; simplify_eq; cbn; rewrite Hg; split_and!; (done || lia).
  - destruct (_ =? _)%nat; cbn in He; simplify_eq; cbn; split_and!; (done || lia).
  - destruct w; [done|]. simplify_eq. cbn. split_and!; (done || lia).
  - destruct (check_holds k j second d) as (C1 & C2 & C3). pose proof (check_gate k j second d) as C4.
    destruct (check k j second d) as [pc1 d1]. cbn in He, C1, C2, C3, C4. simplify_eq. cbn. rewrite C1, C2, C3, C4. split_and!; (done || lia).
  - destruct rest as [|t rest].
    + pose proof (on_client_gate (modify L (set_health (steady_ns k))) d) as Hg. cbn in He. simplify_eq. cbn [backend readers has_writer].
      cbn [holds_shared holds_exclusive holds_gate]. rewrite Hg. split_and!; (done || lia).
    + pose proof (on_client_gate (insert_trades L k [t]) d) as Hg. destruct (on_client L S _ d) as [x d1]. cbn in Hg.
      destruct x as [[]|]; cbn in He; simplify_eq; cbn; rewrite Hg; split_and!; (done || lia).
  - destruct second; simplify_eq; cbn in *; split_and!; try lia; intros Hw; specialize (H4 Hw); lia.
  - simplify_eq. cbn in *. split_and!; try lia. intros Hw. specialize (H4 Hw). lia.
  - destruct (reconnecting_ d.1.1) eqn:E; cbn in He; simplify_eq; cbn; rewrite ?E; cbn; split_and!; (done || lia).
  - unfold after_reconnect in He. destruct (negb _), sd, (kReconnectMaxSpin <? spin_count + 1), (retry_after_reconnect j); cbn in He; simplify_eq; cbn; split_and!; (done || lia).
  - unfold after_reconnect in He. destruct (negb _), (retry_after_reconnect j); cbn in He; simplify_eq; cbn; split_and!; (done || lia).
  - destruct w; [done|]. destruct (Nat.eqb_spec r 0); [|done]. cbn in He. simplify_eq. cbn. split_and!; (done || lia).
  - pose proof (on_client_gate (Reconnect L cfg k) d) as Hg. destruct (on_client L S _ d) as [x d1]. cbn in Hg.
    destruct x as [[]|]; cbn in He; simplify_eq; cbn; rewrite Hg; split_and!; (done || lia).
  - cbn in He. simplify_eq. cbn in *. destruct (reconnecting_ d.1.1); cbn in *; split_and!; (done || lia).
  - unfold after_reconnect in He. destruct ok, (retry_after_reconnect j), w; cbn in He; simplify_eq; cbn in *; split_and!; (done || lia).
  - destruct (append_fallback j d) as [[pc1 d1]|] eqn:E; [|done]. pose proof (append_fallback_gate _ _ _ _ E) as Hg. cbn in He. simplify_eq.
    cbn. rewrite Hg. assert (Hn : holds_shared pc' = 0%nat /\ holds_exclusive pc' = 0%nat /\ holds_gate pc' = 0%nat).
    { unfold append_fallback in E. destruct j as [[|t rest]|e ts|e]; [by simplify_eq|..];
        destruct (via_fallback L S _ d); cbn in E; by simplify_eq. }
    destruct Hn as (-> & -> & ->). split_and!; (done || lia).
Qed.

(** ** The events *)

Definition buffered (d : St) : list TickData := tick_buffer_a_ d.1.1 ++ tick_buffer_b_ d.1.1.
(** The rows of the books and tickers that have been written, by either way. *)
Definition book_log (c : Client) (d : St) : list (Table * DBRow) := filter is_book (rows d) ++ omap (record_row c) (stored d).

(** What one step of a thread does to the events; [c] has the channel registry. *)
Record moved (k : Clock) (c : Client) (pc : Pc) (d : St) (pc' : Pc) (d' : St) : Prop := {
  mv_registry : registry_ (client_of d') = registry_ (client_of d);
  mv_ok : backend_ok d';
  mv_pc : pc_ok pc';
  mv_books : book_log c d' ++ job_rows c (pc_job pc') ≡ₚ book_log c d ++ job_rows c (pc_job pc);
  mv_delivered : forall t, delivered d c t -> delivered d' c t;
  mv_ticks : forall t, valid_ts k (tk_exchange_timestamp t) = true -> t ∈ buffered d ++ job_ticks (pc_job pc) ->
    t ∈ buffered d' ++ job_ticks (pc_job pc') \/ delivered d' c t
}.

(** A step that writes nothing. *)
Lemma moved_quiet k c pc pc' (d d' : St) :
  backend_ok d -> rows d' = rows d -> d'.2 = d.2 -> fallback_once_ d'.1.1 = fallback_once_ d.1.1 -> framed d d' ->
  pc_ok pc' -> job_rows c (pc_job pc') = job_rows c (pc_job pc) ->
  (forall t, valid_ts k (tk_exchange_timestamp t) = true -> t ∈ job_ticks (pc_job pc) -> t ∈ job_ticks (pc_job pc')) ->
  moved k c pc d pc' d'.
Proof.
  intros Hok Hr Hs Ho Hf Hp Hj Ht. assert (Hst : stored d' = stored d) by (unfold stored; by rewrite Hs).
  assert (Hb : buffered d' = buffered d) by (destruct Hf as [_ H]; unfold buffers in H; unfold buffered; injection H as -> -> _; done).
  split; try done.
  - apply Hf.
  - eapply framed_ok; [exact Hf| |done]. destruct Hok as [Hready _]. unfold fallback_ready in *. by rewrite Ho, Hs.
  - unfold book_log. by rewrite Hr, Hst, Hj.
  - intros t. unfold delivered. by rewrite Hr, Hst.
  - intros t Hv. rewrite Hb, !elem_of_app. intros [H|H]; left; eauto.
Qed.

(** A step that leaves the data alone. *)
Lemma moved_same k c pc pc' (d d' : St) :
  backend_ok d -> d'.1.2 = d.1.2 -> d'.2 = d.2 -> fallback_once_ d'.1.1 = fallback_once_ d.1.1 ->
  dolphindb_ d'.1.1 = dolphindb_ d.1.1 -> buffers d' = buffers d -> pc_ok pc' -> pc_job pc' = pc_job pc ->
  moved k c pc d pc' d'.
Proof.
  intros Hok Hw Hs Ho Hc Hb Hp Hj. apply moved_quiet; try done.
  - unfold rows. by rewrite Hw.
  - split; [unfold client_of; by rewrite Hc|done].
  - by rewrite Hj.
  - by rewrite Hj.
Qed.

(** A step that writes the row or the record of the thread's job. *)
Lemma moved_written k c pc pc' (d d' : St) newr news :
  backend_ok d -> fallback_ready d' -> framed d d' -> pc_ok pc' ->
  rows d' = rows d ++ newr -> stored d' = stored d ++ news ->
  filter is_book newr ++ omap (record_row c) news ++ job_rows c (pc_job pc') ≡ₚ job_rows c (pc_job pc) ->
  (forall t, valid_ts k (tk_exchange_timestamp t) = true -> t ∈ job_ticks (pc_job pc) ->
     t ∈ job_ticks (pc_job pc') \/ (Trades, trade_row c t) ∈ newr \/ StoredTick t ∈ news) ->
  moved k c pc d pc' d'.
Proof.
  intros Hok Hready Hf Hp Hr Hs Hb Ht.
  assert (Hbuf : buffered d' = buffered d) by (destruct Hf as [_ H]; unfold buffers in H; unfold buffered; injection H as -> -> _; done).
  split; try done.
  - apply Hf.
  - by eapply framed_ok.
  - unfold book_log. rewrite Hr, Hs, filter_app, omap_app, <- Hb. solve_Permutation.
  - intros t [H|H]; [left|right]; rewrite ?Hr, ?Hs; apply elem_of_app; by left.
  - intros t Hv. rewrite Hbuf, !elem_of_app. intros [H|H]; [by left; left|]. destruct (Ht t Hv H) as [H1|[H1|H1]]; [by left; right|..];
      right; [left; rewrite Hr|right; rewrite Hs]; apply elem_of_app; by right.
Qed.

Lemma pc_ok_job pc : (forall batch rest second, pc <> PRows batch rest second) -> job_ok (pc_job pc) -> pc_ok pc.
Proof. intros H Hj. split; [done|]. destruct pc; try done. by edestruct H. Qed.

(** The buffer section: the tick joins the active buffer, which stays or is taken out to be flushed. *)
Lemma push_tick_spec k t b :
  exists other, tick_buffer_a_ b ++ tick_buffer_b_ b ++ [t] ≡ₚ
    match push_tick k t b with
    | (Some batch, b') => batch ++ other
    | (None, b') => other
    end /\ tick_buffer_a_ (push_tick k t b).2 ++ tick_buffer_b_ (push_tick k t b).2 = other /\
  dolphindb_ (push_tick k t b).2 = dolphindb_ b /\ fallback_once_ (push_tick k t b).2 = fallback_once_ b.
Proof.
  unfold push_tick. eexists. split; [|split; [reflexivity|]].
  - destruct (_ || _), (active_buffer_ b); cbn; solve_Permutation.
  - destruct (_ || _), (active_buffer_ b); done.
Qed.

Lemma moved_push k c t (d : St) :
  backend_ok d -> pc_ok (PPush t) ->
  moved k c (PPush t) d (if (push_tick k t d.1.1).1 is Some batch then PFlush batch else PIdle) (put_backend (fun _ => (push_tick k t d.1.1).2) d).
Proof.
  intros [Hready Hw] [Ht _]. destruct d as [[b w] f]. cbn [fst snd] in *. destruct (push_tick_spec k t b) as (other & Hp & Ho & Hc & Hn).
  cbn in Ht. set (pc' := if _ is Some _ then _ else _).
  assert (Hall : tick_buffer_a_ b ++ tick_buffer_b_ b ++ [t] ≡ₚ job_ticks (pc_job pc') ++ other).
  { unfold pc'. destruct (push_tick k t b) as [[batch|] b']; done. }
  assert (Hwf : Forall wf_tick (job_ticks (pc_job pc') ++ other)).
  { rewrite <- Hall, app_assoc. apply Forall_app. by split. }
  apply Forall_app in Hwf as [Hwj Hwo].
  assert (Hj : job_rows c (pc_job pc') = []) by (unfold pc'; by destruct (push_tick k t b) as [[batch|] b']).
  unfold put_backend. cbn [fst snd]. split.
  - unfold client_of. cbn [fst snd]. by rewrite Hc.
  - split; [unfold fallback_ready; cbn [fst snd]; by rewrite Hn|cbn [fst snd]; by rewrite Ho].
  - apply pc_ok_job; [unfold pc'; by destruct (push_tick k t b) as [[batch|] b']|].
    unfold pc' in *. destruct (push_tick k t b) as [[batch|] b']; cbn in *; [done|constructor].
  - by rewrite Hj.
  - by intros x.
  - intros x _ Hx. left. unfold buffered in *. cbn [fst snd] in *. rewrite Ho. cbn in Hx. rewrite <- app_assoc, Hall in Hx.
    rewrite elem_of_app in *. tauto.
Qed.

Lemma moved_flush k c batch (d : St) :
  backend_ok d -> pc_ok (PFlush batch) ->
  let valid := List.filter (fun t => valid_ts k (tk_exchange_timestamp t)) batch in
  moved k c (PFlush batch) d (if (length valid =? 0)%nat then PIdle else PShared (JTicks valid) false) d.
Proof.
  intros Hok [Hw _] valid. cbn in Hw.
  assert (Hin : forall t, t ∈ valid <-> t ∈ batch /\ valid_ts k (tk_exchange_timestamp t) = true)
    by (intros t; unfold valid; rewrite !list_elem_of_In; apply filter_In).
  assert (Hpc : job_ticks (pc_job (if (length valid =? 0)%nat then PIdle else PShared (JTicks valid) false)) = valid).
  { destruct (Nat.eqb_spec (length valid) 0) as [H0|H0]; [|done]. cbn. symmetry. by apply nil_length_inv. }
  apply moved_quiet; try done.
  - destruct (_ =? _)%nat; (apply pc_ok_job; [done|]); [constructor|]. cbn. apply Forall_forall. intros t [Ht _]%Hin.
    by eapply Forall_forall.
  - by destruct (_ =? _)%nat.
  - intros t Hv Ht. rewrite Hpc. apply Hin. by split.
Qed.

(** A single row: accepted, or the thread goes on. *)
Lemma moved_attempt k c j second m row (d : St) :
  registry_ c = registry_ (client_of d) -> backend_ok d -> job_ok j -> (forall batch, j <> JTicks batch) ->
  inserts_row m row -> (forall c c', registry_ c = registry_ c' -> row c = row c') -> job_rows c j = [row c] -> is_book (row c) ->
  moved k c (PCheck j second) d (if (attempt L S m d).1 then PReturn else PUnlock j second) (attempt L S m d).2.
Proof.
  intros Hc Hok Hj Hnt Hm Hrow Hjr Hb. destruct (attempt_spec m row d Hm) as (A1 & A2 & A3 & A4).
  destruct (attempt L S m d) as [ok d']. cbn [fst snd] in *.
  assert (Hready : fallback_ready d') by (destruct Hok as [H _]; unfold fallback_ready in *; by rewrite A2, A3).
  rewrite <- (Hrow c (client_of d) Hc) in A1.
  destruct ok; (eapply moved_written; [done|done|done| |exact A1|unfold stored; rewrite A2; by rewrite app_nil_r| |]).
  - apply pc_ok_job; [done|constructor].
  - rewrite filter_cons_True by done. cbn. by rewrite Hjr.
  - intros t _ Ht. destruct j; [by edestruct Hnt|by apply elem_of_nil in Ht..].
  - by apply pc_ok_job.
  - done.
  - intros t _ Ht. by left.
Qed.

Lemma moved_check k c j second (d : St) :
  registry_ c = registry_ (client_of d) -> backend_ok d -> pc_ok (PCheck j second) ->
  moved k c (PCheck j second) d (check k j second d).1 (check k j second d).2.
Proof.
  intros Hc Hok [Hj _]. cbn in Hj. unfold check. destruct j as [batch|e ts|e].
  - assert (Hu : pc_ok (PUnlock (JTicks batch) second)) by (by apply pc_ok_job).
    destruct (degraded_ d.1.1); [by apply moved_same|]. destruct (_ || _); [by apply moved_same|].
    destruct (Nat.eqb_spec (length batch) 0) as [H0|H0].
    + apply nil_length_inv in H0 as ->. by apply moved_same.
    + by apply moved_same.
  - pose proof (moved_attempt k c (JBook e ts) second (TableInsertOrderbook L k e ts) (fun c => (Orderbook, book_row c e ts)) d Hc Hok Hj) as H.
    destruct (attempt L S _ d) as [ok d']. apply H; try done.
    + apply TableInsertOrderbook_inserts.
    + intros c1 c2 H12. f_equal. by apply book_row_registry.
  - pose proof (moved_attempt k c (JTicker e) second (TableInsertBookTicker L k e) (fun c => (BookTicker, ticker_row c e)) d Hc Hok Hj) as H.
    destruct (attempt L S _ d) as [ok d']. apply H; try done.
    + apply TableInsertBookTicker_inserts.
    + intros c1 c2 H12. f_equal. by apply ticker_row_registry.
Qed.

Lemma take_one {A} n (x : A) : take n [x] = [] \/ take n [x] = [x].
Proof. destruct n as [|[|n]]; auto. Qed.

(** One row of a batch. *)
Lemma moved_row k c batch t rest second (d : St) :
  registry_ c = registry_ (client_of d) -> backend_ok d -> pc_ok (PRows batch (t :: rest) second) ->
  let '(r, d') := on_client L S (insert_trades L k [t]) d in
  moved k c (PRows batch (t :: rest) second) d
    (if r is Ret true then PRows batch rest second else PUnlock (JTicks batch) second)
    (if r is Ret true then d' else put_backend (set_degraded true) d').
Proof.
  intros Hc Hok (Hj & Hw & Hsub). destruct (on_client_rows (insert_trades L k [t]) d) as (H1 & H2 & H3 & H4 & H5 & H6).
  destruct (insert_trades_rows k [t] (client_of d, d.1.2)) as (Hr & n & Hrow & Hall). rewrite <- H2 in Hall. rewrite <- H1 in Hrow.
  destruct (on_client L S (insert_trades L k [t]) d) as [r d']. cbn [fst snd] in *.
  assert (Hf : framed d d') by (split; [by rewrite H6, Hr|done]).
  assert (Hready : fallback_ready d') by (destruct Hok as [H _]; unfold fallback_ready in *; by rewrite H3, H4).
  set (d2 := if r is Ret true then d' else put_backend (set_degraded true) d').
  assert (Hd2 : rows d2 = rows d' /\ stored d2 = stored d' /\ fallback_ready d2 /\ framed d d2).
  { unfold d2. destruct d' as [[b w] f]. destruct r as [[]|]; split_and!; try done; destruct Hf; by split. }
  destruct Hd2 as (R1 & R2 & R3 & R4).
  assert (Hstored : stored d2 = stored d ++ []) by (rewrite R2, app_nil_r; unfold stored; by rewrite H3).
  set (pc' := if r is Ret true then _ else _).
  assert (Hpc : pc_ok pc').
  { unfold pc'. destruct r as [[]|]; [|by apply pc_ok_job..]. split; [by apply Forall_cons in Hj as [_ Hj]|]. split; [done|set_solver]. }
  assert (Hjr : job_rows c (pc_job pc') = []) by (unfold pc'; by destruct r as [[]|]).
  eapply moved_written; [done|done|done|done|by rewrite R1|exact Hstored| |].
  - rewrite Hjr. by destruct (take_one n t) as [->| ->].
  - intros x _ Hx. cbn in Hx. unfold pc'. destruct r as [[]|]; [|left; apply Hsub; exact Hx..].
    rewrite (Hall eq_refl). apply elem_of_cons in Hx as [->|Hx]; [|by left]. right. left. cbn. apply elem_of_cons. left. f_equal.
    by apply trade_row_registry.
Qed.

(** A client computation that writes no row. *)
Lemma moved_client {A} k c pc pc' (m : M (Client * World L) A) (d d' : St) :
  Quiet m -> backend_ok d -> pc_ok pc' -> pc_job pc' = pc_job pc ->
  d' = (on_client L S m d).2 \/ (exists v, d' = put_backend (set_degraded v) (on_client L S m d).2) ->
  moved k c pc d pc' d'.
Proof.
  intros Hq Hok Hp Hj Hd. destruct (on_client_rows m d) as (H1 & H2 & H3 & H4 & H5 & H6).
  destruct (Hq (client_of d, d.1.2)) as [Hr Hc]. destruct (on_client L S m d) as [r [[b w] f]]. cbn [fst snd] in *.
  assert (Hf : framed d (b, w, f)) by (split; [by rewrite H6, Hc|done]).
  assert (Hrows : rows (b, w, f) = rows d) by (by rewrite H1, Hr).
  destruct Hd as [->|[v ->]]; apply moved_quiet; try done; try (by rewrite Hj).
  destruct Hf as [Ha Hb]. by split.
Qed.

(** Phase 3 writes the record, and a created fallback takes it. *)
Lemma moved_append k c pc' append new job' (d : St) pc :
  backend_ok d -> (forall f, sink_ok f -> exists f', append f = Some f' /\ sink_ok f' /\ sink_log f' = sink_log f ++ new) ->
  pc_ok pc' -> pc_job pc' = job' -> omap (record_row c) new ++ job_rows c job' ≡ₚ job_rows c (pc_job pc) ->
  (forall t, t ∈ job_ticks (pc_job pc) -> t ∈ job_ticks job' \/ StoredTick t ∈ new) ->
  exists d', via_fallback L S append d = Some d' /\ moved k c pc d pc' d'.
Proof.
  intros Hok Ha Hp Hj Hb Ht. destruct (via_fallback_spec append new d Ha (proj1 Hok)) as (d' & -> & H1 & H2 & H3 & H4).
  exists d'. split; [done|]. eapply (moved_written _ _ _ _ _ _ []); [done|done|done|done|by rewrite app_nil_r|exact H2|by rewrite Hj|].
  intros t _ H. rewrite Hj. destruct (Ht t H); auto.
Qed.

Lemma moved_fallback k c j (d : St) :
  backend_ok d -> pc_ok (PFallback j) ->
  exists pc' d', append_fallback j d = Some (pc', d') /\ moved k c (PFallback j) d pc' d'.
Proof.
  intros Hok [Hj _]. cbn in Hj. unfold append_fallback.
  assert (Hidle : pc_ok PIdle) by (apply pc_ok_job; [done|constructor]).
  destruct j as [[|t rest]|e ts|e].
  - exists PIdle, d. split; [done|]. by apply moved_same.
  - apply Forall_cons in Hj as [Ht Hrest].
    destruct (moved_append k c (PFallback (JTicks rest)) (sink_tick S t) [StoredTick t] (JTicks rest) d (PFallback (JTicks (t :: rest))))
      as (d' & -> & Hm); [done|intros f Hf; by apply tick_ok|by apply pc_ok_job|done|done| |by exists (PFallback (JTicks rest)), d'].
    intros x Hx. cbn in *. apply elem_of_cons in Hx as [->|Hx]; [right; apply elem_of_cons; by left|by left].
  - destruct (moved_append k c PIdle (sink_book S e ts) [StoredBook e ts] (JTicks []) d (PFallback (JBook e ts)))
      as (d' & -> & Hm); [done|intros f Hf; by apply book_ok|done|done|done|by intros t Ht%elem_of_nil|by exists PIdle, d'].
  - destruct (moved_append k c PIdle (sink_ticker S e) [StoredTicker e] (JTicks []) d (PFallback (JTicker e)))
      as (d' & -> & Hm); [done|intros f Hf; by apply ticker_ok|done|done|done|by intros t Ht%elem_of_nil|by exists PIdle, d'].
Qed.

Lemma after_reconnect_job j ok : pc_job (after_reconnect j ok) = j /\ (job_ok j -> pc_ok (after_reconnect j ok)).
Proof. unfold after_reconnect. destruct (ok && _); (split; [done|]); intros Hj; by apply pc_ok_job. Qed.

Lemma step_moved k sd c pc (s : Shared (L := L) (S := S)) pc' s' :
  thread_step cfg k sd pc s = Some (pc', s') -> registry_ c = registry_ (client_of (backend s)) ->
  backend_ok (backend s) -> pc_ok pc -> moved k c pc (backend s) pc' (backend s').
Proof.
  destruct s as [d r w]. cbn [backend]. intros He Hc Hok Hpc. pose proof Hpc as [Hj _].
  destruct pc; cbn [thread_step backend readers has_writer] in He.
  - done.
  - pose proof (moved_push k c t d Hok Hpc) as H. destruct (push_tick k t d.1.1) as [batch b]. cbn in He. by simplify_eq.
  - pose proof (moved_flush k c batch d Hok Hpc) as H. cbn in He. by simplify_eq.
  - destruct w; [done|]. simplify_eq. by apply moved_same; [..|apply pc_ok_job|].
  - pose proof (moved_check k c j second d Hc Hok Hpc) as H. cbn in He. by simplify_eq.
  - destruct rest as [|t rest].
    + cbn in He. simplify_eq. eapply (moved_client k c _ _ (modify L (set_health (steady_ns k)))); [|done| |done|by left].
      * by apply quiet_modify.
      * apply pc_ok_job; [done|constructor].
    + pose proof (moved_row k c batch t rest second d Hc Hok Hpc) as H. destruct (on_client L S _ d) as [x d1].
      destruct x as [[]|]; cbn in He; by simplify_eq.
  - simplify_eq. destruct second; by apply moved_same; [..|apply pc_ok_job|].
  - simplify_eq. by apply moved_same; [..|apply pc_ok_job|].
  - destruct (reconnecting_ d.1.1); cbn in He; simplify_eq; by apply moved_same; [..|apply pc_ok_job|].
  - cbn [fst snd] in He. simplify_eq. destruct (after_reconnect_job j false) as [H1 H2]. cbn [backend].
    repeat case_match; apply moved_same; try done; (by apply pc_ok_job) || by apply H2.
  - cbn [fst snd] in He. simplify_eq. destruct (after_reconnect_job j (negb (degraded_ d.1.1))) as [H1 H2]. by apply moved_same; [..|apply H2|].
  - destruct (_ || _); [done|]. simplify_eq. by apply moved_same; [..|apply pc_ok_job|].
  - destruct (on_client L S (Reconnect L cfg k) d) as [x d1] eqn:E. cbn [fst snd] in He. simplify_eq. cbn [backend].
    eapply (moved_client k c _ _ (Reconnect L cfg k)); [apply quiet_Reconnect|done|by apply pc_ok_job|done|]. rewrite E.
    destruct x as [[]|]; [right; by exists false|by left..].
  - cbn in He. simplify_eq. by apply moved_same; [..|apply pc_ok_job|].
  - destruct (after_reconnect_job j ok) as [H1 H2]. simplify_eq. by apply moved_same; [..|apply H2|].
  - destruct (moved_fallback k c j d Hok Hpc) as (pc1 & d1 & E & H). rewrite E in He. cbn in He. by simplify_eq.
Qed.

(** ** The invariant of all threads *)

Record conc_inv (c : Client) (log0 : list (Table * DBRow)) (s : Conc (L := L) (S := S)) : Prop := {
  ci_registry : registry_ c = registry_ (client_of (backend (shared s)));
  ci_ok : backend_ok (backend (shared s));
  ci_pcs : Forall pc_ok (pcs s);
  ci_readers : readers (shared s) = total holds_shared (pcs s);
  ci_writer : Nat.b2n (has_writer (shared s)) = total holds_exclusive (pcs s);
  ci_gate : Nat.b2n (reconnecting_ (backend (shared s)).1.1) = total holds_gate (pcs s);
  ci_excl : has_writer (shared s) = true -> readers (shared s) = 0%nat;
  ci_books : book_log c (backend (shared s)) ++ concat (job_rows c ∘ pc_job <$> pcs s) ≡ₚ log0 ++ omap (op_row c) (accepted s)
}.

(** Where a tick can be. *)
Definition tracked (c : Client) (t : TickData) (s : Conc (L := L) (S := S)) : Prop :=
  t ∈ buffered (backend (shared s)) \/ (exists i pc, pcs s !! i = Some pc /\ t ∈ job_ticks (pc_job pc)) \/
  delivered (backend (shared s)) c t.

Lemma enter_spec c k op pc :
  enter k op = Some pc -> dop_wf op ->
  pc_ok pc /\ job_ticks (pc_job pc) = ticks_of op /\ job_rows c (pc_job pc) = option_list (op_row c op) /\
  holds_shared pc = 0%nat /\ holds_exclusive pc = 0%nat /\ holds_gate pc = 0%nat.
Proof.
  intros He Hw. destruct op as [t|e ts|e]; cbn in *; repeat case_match; simplify_eq; (split; [apply pc_ok_job; [done|]|done]); try done.
  by constructor.
Qed.

Lemma call_inv c log0 (s : Conc (L := L) (S := S)) i k op pc :
  conc_inv c log0 s -> dop_wf op -> pcs s !! i = Some PIdle -> enter k op = Some pc ->
  conc_inv c log0 (mkConc (shared s) (<[i := pc]> (pcs s)) (accepted s ++ [op])).
Proof.
  intros HI Hw Hi He. destruct (enter_spec c k op pc He Hw) as (Hp & _ & Hr & H1 & H2 & H3).
  destruct HI. split; cbn [shared pcs accepted]; try done.
  - by apply Forall_insert.
  - pose proof (total_insert holds_shared (pcs s) i PIdle pc Hi) as Ht. rewrite H1 in Ht. cbn in Ht. lia.
  - pose proof (total_insert holds_exclusive (pcs s) i PIdle pc Hi) as Ht. rewrite H2 in Ht. cbn in Ht. lia.
  - pose proof (total_insert holds_gate (pcs s) i PIdle pc Hi) as Ht. rewrite H3 in Ht. cbn in Ht. lia.
  - pose proof (concat_insert (job_rows c ∘ pc_job) (pcs s) i PIdle pc Hi) as Hc. cbn [compose] in Hc.
    change (job_rows c (pc_job PIdle)) with (@nil (Table * DBRow)) in Hc. rewrite app_nil_r in Hc.
    rewrite Hc, app_assoc, ci_books0, omap_app, <- app_assoc, Hr. cbn. by destruct (op_row c op).
Qed.

Lemma tstep_inv c log0 (s : Conc (L := L) (S := S)) i k sd pc pc' sh :
  conc_inv c log0 s -> pcs s !! i = Some pc -> thread_step cfg k sd pc (shared s) = Some (pc', sh) ->
  conc_inv c log0 (mkConc sh (<[i := pc']> (pcs s)) (accepted s)) /\ moved k c pc (backend (shared s)) pc' (backend sh).
Proof.
  intros HI Hi He. assert (Hp : pc_ok pc) by (eapply Forall_lookup; [apply HI|exact Hi]).
  assert (Hm : moved k c pc (backend (shared s)) pc' (backend sh)) by (eapply step_moved; try done; apply HI).
  split; [|done]. destruct HI, Hm.
  pose proof (total_ge holds_shared _ _ _ Hi). pose proof (total_ge holds_exclusive _ _ _ Hi). pose proof (total_ge holds_gate _ _ _ Hi).
  destruct (step_locks k sd pc (shared s) pc' sh He) as (L1 & L2 & L3 & L4); [split_and!; (done || lia)|].
  pose proof (total_insert holds_shared _ _ _ pc' Hi). pose proof (total_insert holds_exclusive _ _ _ pc' Hi).
  pose proof (total_insert holds_gate _ _ _ pc' Hi).
  split; cbn [shared pcs accepted]; try done; try lia.
  - by rewrite mv_registry0.
  - by apply Forall_insert.
  - pose proof (concat_insert (job_rows c ∘ pc_job) (pcs s) i pc pc' Hi) as Hc. cbn [compose] in Hc.
    apply (Permutation_app_inv_r (job_rows c (pc_job pc))). rewrite <- ci_books0, <- app_assoc, Hc.
    rewrite (Permutation_app_comm (concat _)), app_assoc, mv_books0. solve_Permutation.
Qed.

Lemma cexec_inv c log0 l (s s' : Conc (L := L) (S := S)) :
  conc_inv c log0 s -> label_ok l -> cexec cfg l s = Some s' -> conc_inv c log0 s'.
Proof.
  intros HI Hl. destruct l as [i k op|i k sd]; cbn.
  - destruct (pcs s !! i) as [[]|] eqn:Hi; try done. destruct (enter k op) as [pc|] eqn:He; intros [= <-]; [|done]. by eapply call_inv.
  - destruct (pcs s !! i) as [pc|] eqn:Hi; [|done]. destruct (thread_step cfg k sd pc (shared s)) as [[pc' sh]|] eqn:He; [|done].
    intros [= <-]. by eapply tstep_inv.
Qed.

Lemma cexec_tracked c log0 l (s s' : Conc (L := L) (S := S)) t :
  conc_inv c log0 s -> label_ok l -> cexec cfg l s = Some s' -> valid_ts (label_clock l) (tk_exchange_timestamp t) = true ->
  (tracked c t s -> tracked c t s') /\ (DTick t ∈ accepted s' -> DTick t ∈ accepted s \/ tracked c t s').
Proof.
  intros HI Hl He Hv. destruct l as [i k op|i k sd]; cbn in He, Hv, Hl.
  - destruct (pcs s !! i) as [[]|] eqn:Hi; try done. destruct (enter k op) as [pc|] eqn:Hen; injection He as <-; [|by auto].
    destruct (enter_spec c k op pc Hen Hl) as (_ & Ht & _). pose proof (lookup_lt_Some _ _ _ Hi) as Hlt. split.
    + intros [H|[(n & x & Hn & Hx)|H]]; [by left| |by right; right]. right. left. exists n, x. split; [|done].
      cbn. destruct (decide (n = i)) as [->|Hne]; [rewrite Hi in Hn; simplify_eq; by apply elem_of_nil in Hx|].
      by rewrite list_lookup_insert_ne.
    + cbn. rewrite elem_of_app, list_elem_of_singleton. intros [H|H]; [by left|right]. subst op. right. left. exists i, pc. split.
      * cbn. by apply list_lookup_insert_eq.
      * rewrite Ht. apply list_elem_of_singleton. done.
  - destruct (pcs s !! i) as [pc|] eqn:Hi; [|done]. destruct (thread_step cfg k sd pc (shared s)) as [[pc' sh]|] eqn:Hst; [|done].
    injection He as <-. destruct (tstep_inv c log0 s i k sd pc pc' sh HI Hi Hst) as [_ [_ _ _ _ Hd Ht]].
    pose proof (lookup_lt_Some _ _ _ Hi) as Hlt. split; [|by auto].
    assert (Hmine : t ∈ buffered (backend (shared s)) ++ job_ticks (pc_job pc) -> tracked c t (mkConc sh (<[i := pc']> (pcs s)) (accepted s))).
    { intros H. destruct (Ht t Hv H) as [[H1|H1]%elem_of_app|H1]; [by left| |by right; right]. right. left. exists i, pc'.
      split; [|done]. cbn. by apply list_lookup_insert_eq. }
    intros [H|[(n & x & Hn & Hx)|H]]; [apply Hmine, elem_of_app; by left| |right; right; by apply Hd].
    destruct (decide (n = i)) as [->|Hne]; [rewrite Hi in Hn; simplify_eq; apply Hmine, elem_of_app; by right|].
    right. left. exists n, x. split; [|done]. cbn. by rewrite list_lookup_insert_ne.
Qed.

Lemma crun_inv c log0 ls (s s' : Conc (L := L) (S := S)) :
  conc_inv c log0 s -> Forall label_ok ls -> crun cfg ls s = Some s' ->
  conc_inv c log0 s' /\
  forall t, Forall (fun l => valid_ts (label_clock l) (tk_exchange_timestamp t) = true) ls ->
    (DTick t ∈ accepted s -> tracked c t s) -> DTick t ∈ accepted s' -> tracked c t s'.
Proof.
  intros HI Hl. revert s HI. induction Hl as [|l ls Hl Hls IH]; intros s HI; cbn [crun]; [intros [= <-]; by auto|].
  destruct (cexec cfg l s) as [s1|] eqn:E; [|done]. intros Hr. pose proof (cexec_inv c log0 l s s1 HI Hl E) as HI1.
  destruct (IH s1 HI1 Hr) as [HI2 Ht]. split; [done|]. intros t Hv Hs. apply Forall_cons in Hv as [Hv Hvs].
  destruct (cexec_tracked c log0 l s s1 t HI Hl E Hv) as [T1 T2]. apply Ht; [done|]. intros H. destruct (T2 H); auto.
Qed.

Lemma conc0_inv n (d : St) :
  backend_ok d -> reconnecting_ d.1.1 = false -> conc_inv (client_of d) (book_log (client_of d) d) (conc0 n d).
Proof.
  intros Hok Hr. assert (Ht : forall f, f PIdle = 0%nat -> total f (replicate n PIdle) = 0%nat)
    by (intros f Hf; unfold total; induction n; cbn; [done|]; by rewrite Hf).
  split; cbn [conc0 shared pcs accepted backend readers has_writer]; try done.
  - apply Forall_replicate. apply pc_ok_job; [done|constructor].
  - by rewrite Ht.
  - by rewrite Ht.
  - by rewrite Hr, Ht.
  - rewrite !app_nil_r. assert (Hz : concat (job_rows (client_of d) ∘ pc_job <$> replicate n PIdle) = []) by (clear; induction n as [|n IH]; csimpl; [done|exact IH]).
    by rewrite Hz, app_nil_r.
Qed.

(** ** Every call can return *)

Definition size (j : Job) : Z := match j with JTicks batch => Z.of_nat (length batch) | _ => 1 end.
Definition pushes_of (pc : Pc) : nat := match pc with PPush _ => 1 | _ => 0 end.

(** A bound on the steps to the end of the call, once the tick is in its buffer. *)
Definition rankZ (pc : Pc) : Z :=
  match pc with
  | PIdle | PPush _ => 0
  | PReturn => 1
  | PFallback j => 2 + size j
  | PUnlock j true => 3 + size j
  | PRows batch rest true => 4 + size (JTicks batch) + Z.of_nat (length rest)
  | PCheck j true => 9 + 2 * size j
  | PShared j true => 10 + 2 * size j
  | PRelease j _ | PReread j => 11 + 2 * size j
  | PReopen j _ => 12 + 2 * size j
  | PReconnect j => 13 + 2 * size j
  | PExclusive j => 14 + 2 * size j
  | PSpin j n => 12 + 2 * size j + Z.max 0 (kReconnectMaxSpin + 1 - n)
  | PGate j => 20 + 2 * size j + kReconnectMaxSpin
  | PUnlock j false => 21 + 2 * size j + kReconnectMaxSpin
  | PRows batch rest false => 22 + 2 * size (JTicks batch) + kReconnectMaxSpin + Z.of_nat (length rest)
  | PCheck j false => 30 + 3 * size j + kReconnectMaxSpin
  | PShared j false => 31 + 3 * size j + kReconnectMaxSpin
  | PFlush batch => 32 + 3 * size (JTicks batch) + kReconnectMaxSpin
  end.
Definition rank (pc : Pc) : nat := Z.to_nat (rankZ pc).

Definition closer (pc' pc : Pc) : Prop :=
  (pushes_of pc' < pushes_of pc)%nat \/ (pushes_of pc' = pushes_of pc /\ (rank pc' < rank pc)%nat).

Lemma size_nonneg j : 0 <= size j.
Proof. destruct j; cbn; lia. Qed.

Lemma closer_rank pc' pc : pushes_of pc' = 0%nat -> pushes_of pc = 0%nat -> rankZ pc' < rankZ pc -> 0 < rankZ pc -> closer pc' pc.
Proof. intros H1 H2 H3 H4. right. split; [congruence|]. unfold rank. lia. Qed.

Lemma check_closer k j second (d : St) : closer (check k j second d).1 (PCheck j second).
Proof.
  assert (Hc : forall pc', pc' = PReturn \/ pc' = PUnlock j second \/ (exists batch, j = JTicks batch /\ pc' = PRows batch batch second) ->
    closer pc' (PCheck j second)).
  { pose proof (size_nonneg j). intros pc' [->|[->|(batch & -> & ->)]]; apply closer_rank; try done; destruct second; cbn in *; unfold kReconnectMaxSpin; lia. }
  apply Hc. unfold check. destruct j as [batch|e ts|e].
  - destruct (degraded_ _); [by auto|]. destruct (_ || _); [by auto|]. destruct (_ =? _)%nat; [by auto|]. right. right. by exists batch.
  - destruct (attempt L S _ d) as [[] d']; auto.
  - destruct (attempt L S _ d) as [[] d']; auto.
Qed.

Lemma after_reconnect_closer j ok pc : pushes_of pc = 0%nat -> 10 + 2 * size j < rankZ pc -> closer (after_reconnect j ok) pc.
Proof.
  intros Hp Hr. pose proof (size_nonneg j). unfold after_reconnect. destruct (ok && _); apply closer_rank; try done; cbn; lia.
Qed.

(** A thread that holds the lock, or finds it free, gets closer to its end. *)
Lemma thread_moves k pc (s : Shared (L := L) (S := S)) :
  pc <> PIdle -> backend_ok (backend s) -> pc_ok pc ->
  (has_writer s = false /\ readers s = 0%nat) \/ (0 < holds_shared pc + holds_exclusive pc)%nat ->
  exists pc' s', thread_step cfg k false pc s = Some (pc', s') /\ closer pc' pc.
Proof.
  destruct s as [d r w]. cbn [backend readers has_writer]. intros Hne Hok Hpc Hlock.
  destruct pc; cbn [thread_step backend readers has_writer holds_shared holds_exclusive Nat.add] in *; try done.
  - destruct (push_tick k t d.1.1) as [batch b]. eexists _, _. split; [done|]. left. destruct batch; cbn; lia.
  - eexists _, _. split; [done|]. cbn [fst]. pose proof (filter_length_le (fun t => valid_ts k (tk_exchange_timestamp t)) batch).
    destruct (_ =? _)%nat; apply closer_rank; try done; cbn; unfold kReconnectMaxSpin; lia.
  - destruct Hlock as [[-> ->]|?]; [|lia]. eexists _, _. split; [done|]. pose proof (size_nonneg j).
    apply closer_rank; try done; destruct second; cbn; unfold kReconnectMaxSpin; lia.
  - eexists _, _. split; [done|]. apply check_closer.
  - destruct rest as [|t rest].
    + eexists _, _. split; [done|]. apply closer_rank; try done; destruct second; cbn; unfold kReconnectMaxSpin; lia.
    + destruct (on_client L S _ d) as [x d1]. eexists _, _. split; [done|].
      destruct x as [[]|]; apply closer_rank; try done; destruct second; cbn; unfold kReconnectMaxSpin; lia.
  - eexists _, _. split; [done|]. pose proof (size_nonneg j). destruct second; apply closer_rank; try done; cbn; unfold kReconnectMaxSpin; lia.
  - eexists _, _. split; [done|]. by apply closer_rank.
  - pose proof (size_nonneg j). destruct (reconnecting_ _); (eexists _, _; split; [done|]); apply closer_rank; try done; cbn; unfold kReconnectMaxSpin; lia.
  - eexists _, _. split; [done|]. cbn [fst]. pose proof (size_nonneg j). destruct (negb _); [apply closer_rank; try done; cbn; lia|].
    destruct (Z.ltb_spec kReconnectMaxSpin (spin_count + 1)); [apply after_reconnect_closer; [done|cbn; lia]|].
    apply closer_rank; try done; cbn; lia.
  - eexists _, _. split; [done|]. apply after_reconnect_closer; [done|cbn; lia].
  - destruct Hlock as [[-> ->]|?]; [|lia]. eexists _, _. split; [done|]. pose proof (size_nonneg j). apply closer_rank; try done; cbn; lia.
  - destruct (on_client L S _ d) as [x d1]. eexists _, _. split; [done|]. pose proof (size_nonneg j). apply closer_rank; try done; cbn; lia.
  - eexists _, _. split; [done|]. pose proof (size_nonneg j). apply closer_rank; try done; cbn; lia.
  - eexists _, _. split; [done|]. apply after_reconnect_closer; [done|cbn; lia].
  - destruct (moved_fallback k client0 j d Hok Hpc) as (pc1 & d1 & E & _). rewrite E. eexists _, _. split; [done|]. cbn [fst].
    unfold append_fallback in E. destruct j as [[|t rest]|e ts|e]; [by simplify_eq; apply closer_rank|..];
      destruct (via_fallback L S _ d); cbn in E; simplify_eq; apply closer_rank; try done; cbn; lia.
Qed.

(** As long as a call is in progress, some thread can get closer to the end of its call. *)
Lemma some_thread_moves c log0 k (s : Conc (L := L) (S := S)) :
  conc_inv c log0 s -> ~ Forall (fun pc => pc = PIdle) (pcs s) ->
  exists i pc pc' sh, pcs s !! i = Some pc /\ thread_step cfg k false pc (shared s) = Some (pc', sh) /\ closer pc' pc.
Proof.
  intros HI Hn.
  assert (Hgo : forall i pc, pcs s !! i = Some pc -> pc <> PIdle ->
    (has_writer (shared s) = false /\ readers (shared s) = 0%nat) \/ (0 < holds_shared pc + holds_exclusive pc)%nat ->
    exists i pc pc' sh, pcs s !! i = Some pc /\ thread_step cfg k false pc (shared s) = Some (pc', sh) /\ closer pc' pc).
  { intros i pc Hi Hpc Hl. destruct (thread_moves k pc (shared s)) as (pc' & sh & H1 & H2); [done|apply HI| |done|by exists i, pc, pc', sh].
    eapply Forall_lookup; [apply HI|exact Hi]. }
  destruct (decide (0 < total holds_shared (pcs s))%nat) as [Hs|Hs].
  { destruct (total_pos _ _ Hs) as (i & pc & Hi & Hpc). apply (Hgo i pc); [done|by destruct pc; cbn in Hpc; lia || done|lia]. }
  destruct (decide (0 < total holds_exclusive (pcs s))%nat) as [Hx|Hx].
  { destruct (total_pos _ _ Hx) as (i & pc & Hi & Hpc). apply (Hgo i pc); [done|by destruct pc; cbn in Hpc; lia || done|lia]. }
  apply not_Forall_Exists, Exists_exists in Hn as (pc & [i Hi]%list_elem_of_lookup & Hpc); [|apply _].
  apply (Hgo i pc); [done|done|]. left. pose proof (ci_readers _ _ _ HI). pose proof (ci_writer _ _ _ HI).
  split; [destruct (has_writer (shared s)); cbn in *; [lia|done]|lia].
Qed.

Lemma all_return c log0 k (s : Conc (L := L) (S := S)) :
  conc_inv c log0 s ->
  exists ls s', Forall (fun l => exists i, l = CStep i k false) ls /\ crun cfg ls s = Some s' /\ Forall (fun pc => pc = PIdle) (pcs s').
Proof.
  remember (total pushes_of (pcs s)) as n eqn:Hn. revert s Hn. induction (lt_wf n) as [n _ IHn]. intros s Hn.
  remember (total rank (pcs s)) as r eqn:Hr. revert s Hn Hr. induction (lt_wf r) as [r _ IHr]. intros s Hn Hr HI.
  destruct (decide (Forall (fun pc => pc = PIdle) (pcs s))) as [Hd|Hd]; [by exists [], s|].
  destruct (some_thread_moves c log0 k s HI Hd) as (i & pc & pc' & sh & Hi & Hst & Hc).
  set (s1 := mkConc sh (<[i := pc']> (pcs s)) (accepted s)).
  assert (HI1 : conc_inv c log0 s1) by (by eapply tstep_inv).
  assert (He : cexec cfg (CStep i k false) s = Some s1) by (cbn; by rewrite Hi, Hst).
  pose proof (total_insert pushes_of _ _ _ pc' Hi) as Tp. pose proof (total_insert rank _ _ _ pc' Hi) as Tr.
  assert (Hnext : exists ls s', Forall (fun l => exists i, l = CStep i k false) ls /\ crun cfg ls s1 = Some s' /\
                    Forall (fun pc => pc = PIdle) (pcs s')).
  { destruct Hc as [Hc|[Hc1 Hc2]]; [eapply IHn; [|reflexivity|done]|eapply IHr; [| |reflexivity|done]]; unfold s1; cbn [pcs]; lia. }
  destruct Hnext as (ls & s' & H1 & H2 & H3). exists (CStep i k false :: ls), s'. split; [constructor; eauto|].
  split; [by cbn [crun]; rewrite He|done].
Qed.
End contention_proofs.

Lemma steps_accept_nothing {L : DolphinLib} {S : Sink} cfg ls k (s s' : Conc (L := L) (S := S)) :
  Forall (fun l => exists i, l = CStep i k false) ls -> crun cfg ls s = Some s' -> accepted s' = accepted s.
Proof.
  intros Hl. revert s. induction Hl as [|l ls [i ->] _ IH]; intros s; cbn [crun]; [by intros [= <-]|].
  destruct (cexec cfg (CStep i k false) s) as [s1|] eqn:E; [|done]. intros H. rewrite (IH s1 H). cbn in E.
  repeat case_match; by simplify_eq.
Qed.

(** C23: The DolphinDB backend is safe under contention.  However the calls of any number of threads interleave, whatever the
    table writers refuse and however reconnecting goes: at most one thread reconnects, and none inserts meanwhile; every book and ticker
    accepted so far is in the database or in the fallback, exactly once, or is still the work of one thread; every tick whose
    timestamp is valid throughout is in a buffer, the work of a thread, in the database or in the fallback; and all calls can
    return, after which every book and ticker has been written exactly once. *)
Theorem dolphin_threads_deliver (L : DolphinLib) `{!RowLog L} (S : Sink) `{!FallbackSink S} cfg n ls (d : DState L S) (s : Conc) :
  tick_buffer_a_ d.1.1 = [] -> tick_buffer_b_ d.1.1 = [] -> fallback_once_ d.1.1 = false -> reconnecting_ d.1.1 = false ->
  Forall label_ok ls -> crun cfg ls (conc0 n d) = Some s ->
  let c := client_of d in
  (total holds_exclusive (pcs s) <= 1 /\ (total holds_exclusive (pcs s) = 1 -> total holds_shared (pcs s) = 0))%nat /\
  book_log c (backend (shared s)) ++ concat (job_rows c ∘ pc_job <$> pcs s) ≡ₚ book_log c d ++ omap (op_row c) (accepted s) /\
  (forall t, Forall (fun l => valid_ts (label_clock l) (tk_exchange_timestamp t) = true) ls -> DTick t ∈ accepted s -> tracked c t s) /\
  (forall k, exists ls' s', Forall (fun l => exists i, l = CStep i k false) ls' /\ crun cfg ls' s = Some s' /\
     Forall (fun pc => pc = PIdle) (pcs s') /\ book_log c (backend (shared s')) ≡ₚ book_log c d ++ omap (op_row c) (accepted s)).
Proof.
  intros Ha Hb Ho Hg Hl Hr c.
  assert (Hok : backend_ok d) by (split; [unfold fallback_ready; by rewrite Ho|rewrite Ha, Hb; constructor]).
  destruct (crun_inv cfg c (book_log c d) ls (conc0 n d) s (conc0_inv n d Hok Hg) Hl Hr) as [HI Ht].
  pose proof (ci_writer _ _ _ HI) as Hw. pose proof (ci_excl _ _ _ HI) as He. pose proof (ci_readers _ _ _ HI) as Hrd.
  split; [|split; [apply HI|split]].
  - destruct (has_writer (shared s)); cbn in Hw; (split; [lia|]); [|lia]. intros _. specialize (He eq_refl). lia.
  - intros t Hv. apply Ht; [done|]. by intros H%elem_of_nil.
  - intros k. destruct (all_return cfg c (book_log c d) k s HI) as (ls' & s' & H1 & H2 & H3). exists ls', s'.
    split; [done|]. split; [done|]. split; [done|].
    destruct (crun_inv cfg c (book_log c d) ls' s s' HI) as [HI' _]; [|done|].
    { eapply Forall_impl; [exact H1|]. by intros l [i ->]. }
    pose proof (ci_books _ _ _ HI') as Hp. rewrite (steps_accept_nothing cfg ls' k s s' H1 H2) in Hp. rewrite <- Hp.
    assert (Hz : forall l, Forall (fun pc => pc = PIdle) l -> concat (job_rows c ∘ pc_job <$> l) = [])
      by (induction 1 as [|x l -> _ IH]; [done|exact IH]).
    by rewrite Hz, app_nil_r.
Qed.

(** ** Runs *)

(** Three connections succeed, the first row is refused. *)
Definition contended : DState MemLib (MmapSink demo_os) :=
  Configure MemLib (MmapSink demo_os) dolphin_cfg0 demo_clock 1 10000000 "cache"
    (dolphin0 0 0 "", mkMemDB [] [] [] [] [] [true; true; true] [false; true; true; true], (None, ∅, [])).

Definition steps_of (i n : nat) : list CLabel := replicate n (CStep i demo_clock false).

(** Two threads find the database degraded; one reconnects, then the other. *)
Definition reconnect_twice : list CLabel :=
  [CCall 0 demo_clock (DBook valid_book 9); CCall 1 demo_clock (DTicker valid_ticker)] ++
  steps_of 0 3 ++ steps_of 1 3 ++ steps_of 0 5 ++ steps_of 1 2.

(** The other thread is about to reconnect although the connection is up and nothing is degraded. *)
Definition torn_down (s : Conc (L := MemLib) (S := MmapSink demo_os)) : bool :=
  match pcs s !! 1%nat with
  | Some (PReconnect _) => negb (degraded_ (backend (shared s)).1.1) && connected_ (dolphindb_ (backend (shared s)).1.1) && (length (accepted s) =? 2)%nat
  | _ => false
  end.
Lemma reconnect_twice_run : from_option torn_down false (crun dolphin_cfg0 reconnect_twice (conc0 2 contended)) = true.
Proof. vm_compute. reflexivity. Qed.

(** The gate admits one thread at a time, but a thread that passes it does not look at [degraded_] again: when another has
    recovered the connection meanwhile, it tears the healthy connection down and reconnects once more. *)
Lemma healthy_connection_torn_down :
  exists s, crun dolphin_cfg0 reconnect_twice (conc0 2 contended) = Some s /\ torn_down s = true.
Proof.
  pose proof reconnect_twice_run as H. destruct (crun dolphin_cfg0 reconnect_twice (conc0 2 contended)) as [s|]; [|done]. by exists s.
Qed.

Lemma dolphin_threads_deliver_witness :
  exists s, crun dolphin_cfg0 reconnect_twice (conc0 2 contended) = Some s /\ torn_down s = true /\
    (total holds_exclusive (pcs s) <= 1 /\ (total holds_exclusive (pcs s) = 1 -> total holds_shared (pcs s) = 0))%nat /\
    forall k, exists ls' s', Forall (fun l => exists i, l = CStep i k false) ls' /\ crun dolphin_cfg0 ls' s = Some s' /\
      Forall (fun pc => pc = PIdle) (pcs s') /\
      book_log (client_of contended) (backend (shared s')) ≡ₚ book_log (client_of contended) contended ++ omap (op_row (client_of contended)) (accepted s).
Proof.
  assert (Hl : Forall label_ok reconnect_twice).
  { repeat constructor; cbn; unfold kMaxOrderbookLevels; lia. }
  destruct healthy_connection_torn_down as (s & E & Ht).
  destruct (dolphin_threads_deliver MemLib (MmapSink demo_os) dolphin_cfg0 2 reconnect_twice contended s eq_refl eq_refl eq_refl eq_refl Hl E)
    as (H1 & _ & _ & H4).
  exists s. split; [exact E|]. split; [exact Ht|]. split; [exact H1|exact H4].
Defined.
