(* ===== verification/Router.v ===== *)
(** * The storage router

    [StorageRouter] (src/storage/storage_router.cpp) is a facade over one
    backend, chosen once by [MakeBackend] (src/storage/storage_backend_factory.cpp)
    from the configuration.  The interface [IStorageBackend] is a record of
    operations over a state; the three backends are its instances.  An operation
    that would be undefined behaviour is [None]. *)
From S2P Require Import Prelude Doubles Events Exchange Config Timestamp Csv Mmap Schema Dolphin.

(** Source: src/storage/i_storage_backend.h:30-58, IStorageBackend.
    The state holds everything the backend can reach. *)
Record IStorageBackend := mkBackend {
  BState : Type;
  b_name : string;
  b_register : Z -> string -> string -> string -> Z -> BState -> BState;
  b_freeze : BState -> BState;
  b_insert_tick : Clock -> TickData -> BState -> option BState;
  b_insert_orderbook : Clock -> DepthUpdateEvent -> Z -> Z -> BState -> option BState;
  b_insert_book_ticker : Clock -> BookTickerEvent -> BState -> option BState;
  b_flush_and_close : Clock -> BState -> option BState
}.

(** What the outside world decides: the operating system, the database, the
    directories and files the CSV writer may create. *)
Record Environment := mkEnv {
  env_os : OS;
  env_lib : DolphinLib;
  env_mkdir : string -> bool;
  env_can_open : string -> bool
}.

Section backends.
Context (E : Environment).

Definition CsvBackendI : IStorageBackend := mkBackend CsvBackend "csv"
  (fun id ex mt sym _ b => CsvRegisterChannel (env_mkdir E) id ex mt sym b)
  id
  (fun _ t b => Some (CsvInsertTick (env_can_open E) t b))
  (fun _ e ts depth b => Some (CsvInsertOrderbook (env_can_open E) e ts (Z.to_nat depth) b))
  (fun _ e b => Some (CsvInsertBookTicker (env_can_open E) e b))
  (fun _ b => Some (CsvFlushAndClose b)).

Definition MmapBackendI : IStorageBackend := mkBackend (MmapBackend * MmapFS) "mmap"
  (fun id ex mt sym _ s => MmapRegisterChannel (env_os E) id ex mt sym s.1 s.2)
  id
  (fun _ t s => MmapInsertTick (env_os E) t s.1 s.2)
  (fun _ e ts _ s => MmapInsertOrderbook (env_os E) e ts s.1 s.2)
  (fun _ e s => MmapInsertBookTicker (env_os E) e s.1 s.2)
  (fun _ s => Some (MmapFlushAndClose s.1, s.2)).

(** One thread at a time: no other thread is reconnecting. *)
Definition DolphinBackendI (cfg : DolphinDBConfig) : IStorageBackend :=
  let S := MmapSink (env_os E) in
  mkBackend (DState (env_lib E) S) "dolphindb"
    (DolphinRegisterChannel (env_lib E) S)
    (DolphinFreezeChannels (env_lib E) S)
    (fun k t => DolphinInsertTick (env_lib E) S cfg k true t)
    (fun k e ts _ => DolphinInsertOrderbook (env_lib E) S cfg k true e ts)
    (fun k e => DolphinInsertBookTicker (env_lib E) S cfg k true e)
    (fun k => DolphinFlushAndClose (env_lib E) S cfg k true).

(** A backend with its state, as [unique_ptr<IStorageBackend>] holds it. *)
Definition AnyBackend : Type := { B : IStorageBackend & BState B }.

(** Source: src/storage/storage_backend_factory.cpp:13-36, MakeBackend.
    [w] is the database as the process finds it. *)
Definition MakeBackend (cfg : StorageConfig) (k : Clock) (w : World (env_lib E)) (fs : MmapFS) (csv : FileSystem) : AnyBackend :=
  if (st_use_engine cfg =? "mmap")%string then
    existT MmapBackendI (mmap_backend0 (mm_output_path (st_mmap cfg)), fs)
  else if (st_use_engine cfg =? "dolphindb")%string then
    let dd := st_dolphindb cfg in
    existT (DolphinBackendI dd)
      (Configure (env_lib E) (MmapSink (env_os E)) dd k (dd_buffer_size dd) (u64 (u64 (dd_flush_interval_ms dd) * 1000000))
         (mm_output_path (st_mmap cfg)) (dolphin0 2000 10000000 "", w, (None, fs, [])))
  else existT CsvBackendI (mkCsvBackend (cs_output_path (st_csv cfg)) ∅ csv).

(** Source: src/storage/storage_router.h:55-60, StorageRouter (data members). *)
Record StorageRouter := mkRouter { persist_to_disk_ : bool; backend_ : AnyBackend }.

(** Source: src/storage/storage_router.cpp:40-48, StorageRouter::StorageRouter. *)
Definition router_new (cfg : StorageConfig) (k : Clock) (w : World (env_lib E)) (fs : MmapFS) (csv : FileSystem) : StorageRouter :=
  mkRouter (st_persist_to_disk cfg) (MakeBackend cfg k w fs csv).

Definition update (f : forall B : IStorageBackend, BState B -> option (BState B)) (r : StorageRouter) : option StorageRouter :=
  let '(existT B s) := backend_ r in
  match f B s with Some s => Some (mkRouter (persist_to_disk_ r) (existT B s)) | None => None end.

(** Source: src/storage/storage_router.cpp:54-59, StorageRouter::RegisterChannel. *)
Definition RouterRegisterChannel (channel_id : Z) (info : ChannelInfo) (persist_to_disk : bool) (r : StorageRouter) : StorageRouter :=
  if negb (persist_to_disk_ r) || negb persist_to_disk then r
  else default r (update (fun B s => Some (b_register B channel_id (ci_exchange info) (ChannelTypeName (ci_type info))
                                            (ci_symbol info) (ci_depth_level info) s)) r).

(** Source: src/storage/storage_router.cpp:61-61, StorageRouter::FreezeChannels. *)
Definition RouterFreezeChannels (r : StorageRouter) : StorageRouter :=
  default r (update (fun B s => Some (b_freeze B s)) r).

(** Source: src/storage/storage_router.cpp:72-72, StorageRouter::RouteTick. *)
Definition RouteTick (k : Clock) (t : TickData) : StorageRouter -> option StorageRouter :=
  update (fun B => b_insert_tick B k t).

(** Source: src/storage/storage_router.cpp:74-76, StorageRouter::RouteOrderbook. *)
Definition RouteOrderbook (k : Clock) (e : DepthUpdateEvent) (local_ts : Z) (info : ChannelInfo) : StorageRouter -> option StorageRouter :=
  update (fun B => b_insert_orderbook B k e local_ts (ci_depth_level info)).

(** Source: src/storage/storage_router.cpp:78-78, StorageRouter::RouteBookTicker. *)
Definition RouteBookTicker (k : Clock) (e : BookTickerEvent) : StorageRouter -> option StorageRouter :=
  update (fun B => b_insert_book_ticker B k e).

(** Source: src/storage/storage_router.cpp:80-80, StorageRouter::FlushAndClose. *)
Definition RouterFlushAndClose (k : Clock) : StorageRouter -> option StorageRouter :=
  update (fun B => b_flush_and_close B k).
End backends.

(** ** The persistence flags *)

Section persistence.
Context (E : Environment).

(** A csv or mmap backend with no writer for a channel. *)
Definition not_registered (id : Z) (b : AnyBackend) : Prop :=
  (exists cb, b = existT (CsvBackendI E) cb /\ writers_ cb !! id = None) \/
  (exists mb fs, b = existT (MmapBackendI E) (mb, fs) /\
     tick_engines_ mb !! id = None /\ ob_engines_ mb !! id = None /\ bt_engines_ mb !! id = None).

Lemma open_into_other os dir prefix c m fs id :
  id <> c -> m !! id = None -> (open_into os dir prefix c m fs).1 !! id = None.
Proof.
  intros Hne Hm. unfold open_into. destruct (OpenOrCreate _ _ _ _ _) as [[] [e fs1]]; [|done]. cbn [fst].
  unfold emplace. destruct (m !! c); [done|]. by rewrite lookup_insert_ne.
Qed.

Lemma register_not_registered id c info p r :
  not_registered id (backend_ r) -> (c = id -> p && persist_to_disk_ r = false) ->
  not_registered id (backend_ (RouterRegisterChannel c info p r)) /\
  persist_to_disk_ (RouterRegisterChannel c info p r) = persist_to_disk_ r.
Proof.
  intros Hn Hp. unfold RouterRegisterChannel.
  destruct (persist_to_disk_ r) eqn:Epd; cbn [negb orb]; [|done].
  destruct p; cbn [negb]; [|done]. cbn in Hp. assert (Hne : id <> c) by (intros ->; by specialize (Hp eq_refl)).
  unfold update. destruct Hn as [(cb & -> & Hw)|(mb & fs & -> & H1 & H2 & H3)]; cbn -[MmapRegisterChannel].
  - split; [left|done]. eexists. split; [done|]. unfold CsvRegisterChannel.
    destruct (CsvOpen _ _ _ _ _ _) as [[] w]; [|done]. destruct (writers_ cb !! c); [done|]. cbn. by rewrite lookup_insert_ne.
  - split; [right|done]. unfold MmapRegisterChannel. set (dir := Paths.JoinPath _ _). cbn [fst snd].
    pose proof (open_into_other (env_os E) dir "tick" c _ fs id Hne H1) as G1.
    destruct (open_into _ _ "tick" _ _ _) as [m1 fs1]. cbn in G1 |- *.
    pose proof (open_into_other (env_os E) dir "ob" c _ fs1 id Hne H2) as G2.
    destruct (open_into _ _ "ob" _ _ _) as [m2 fs2]. cbn in G2 |- *.
    pose proof (open_into_other (env_os E) dir "bt" c _ fs2 id Hne H3) as G3.
    destruct (open_into _ _ "bt" _ _ _) as [m3 fs3]. cbn in G3 |- *.
    eexists _, _. by split_and!.
Qed.

(** The registrations of a start-up: identifier, channel and per-symbol flag. *)
Definition register_all (regs : list (Z * ChannelInfo * bool)) (r : StorageRouter) : StorageRouter :=
  foldl (fun r c => RouterRegisterChannel c.1.1 c.1.2 c.2 r) r regs.

Lemma register_all_not_registered id regs r :
  not_registered id (backend_ r) ->
  Forall (fun c => c.1.1 = id -> c.2 && persist_to_disk_ r = false) regs ->
  not_registered id (backend_ (register_all regs r)).
Proof.
  intros Hn Hf. revert r Hn Hf. induction regs as [|[[c info] p] regs IH]; intros r Hn Hf; [done|].
  apply Forall_cons in Hf as [Hp Hf]. cbn [register_all foldl fst snd].
  destruct (register_not_registered id c info p r Hn Hp) as [Hn' Hpd]. apply IH; [done|]. by rewrite Hpd.
Qed.

Lemma new_not_registered id cfg k w fs csv :
  st_use_engine cfg <> "dolphindb"%string -> not_registered id (MakeBackend E cfg k w fs csv).
Proof.
  intros Hne. unfold MakeBackend. destruct (st_use_engine cfg =? "mmap")%string eqn:E1.
  - right. eexists _, _. split; [done|]. cbn. split_and!; apply lookup_empty.
  - destruct (String.eqb_spec (st_use_engine cfg) "dolphindb"); [done|].
    left. eexists. split; [done|]. cbn. apply lookup_empty.
Qed.

Lemma not_registered_ignored id k r t e ts info ev :
  not_registered id (backend_ r) -> tk_channel_id t = id -> dp_channel_id e = id -> bt_channel_id ev = id ->
  RouteTick k t r = Some r /\ RouteOrderbook k e ts info r = Some r /\ RouteBookTicker k ev r = Some r.
Proof.
  intros Hn Ht He Hev. destruct r as [pd b]. cbn in Hn. unfold RouteTick, RouteOrderbook, RouteBookTicker, update. cbn.
  destruct Hn as [([root ws cfs] & -> & Hw)|(mb & fs & -> & H1 & H2 & H3)]; cbn in *.
  - unfold CsvInsertTick, CsvInsertOrderbook, CsvInsertBookTicker, csv_dispatch. cbn.
    by rewrite Ht, He, Hev, Hw.
  - unfold MmapInsertTick, MmapInsertOrderbook, MmapInsertBookTicker. by rewrite Ht, He, Hev, H1, H2, H3.
Qed.
End persistence.

(** C26: With the csv and mmap engines the persistence flags are honoured: when storage as a whole or the symbol is
    not to be persisted, no event of the channel changes anything, whatever other channels are registered. *)
Theorem persistence_flags_honoured E cfg k w fs csv regs id t e ts info ev :
  st_use_engine cfg <> "dolphindb"%string ->
  Forall (fun c => c.1.1 = id -> c.2 && st_persist_to_disk cfg = false) regs ->
  tk_channel_id t = id -> dp_channel_id e = id -> bt_channel_id ev = id ->
  let r := register_all regs (router_new E cfg k w fs csv) in
  RouteTick k t r = Some r /\ RouteOrderbook k e ts info r = Some r /\ RouteBookTicker k ev r = Some r.
Proof.
  intros Hne Hf Ht He Hev r. apply (not_registered_ignored E id); try done.
  apply register_all_not_registered; [|done]. by apply new_not_registered.
Qed.

(** ** The DolphinDB engine does not ask *)

Definition demo_env : Environment := mkEnv demo_os MemLib (fun _ => true) (fun _ => true).
Definition unpersisted_cfg : StorageConfig :=
  mkStorageCfg "dolphindb" false (mkDolphinCfg "127.0.0.1" 8848 "admin" "" 1 10 20000 (d_of_Z 1) 4 true 5000 "dfs://trade_db" 20 "day")
    mmap_cfg0 csv_cfg0.
Definition demo_channel : ChannelInfo := mkChannel 5 "binance" Spot "BTCUSDT" 20 "binance:spot:BTCUSDT".

Lemma make_dolphin E cfg k w fs csv :
  st_use_engine cfg = "dolphindb"%string ->
  MakeBackend E cfg k w fs csv =
    existT (DolphinBackendI E (st_dolphindb cfg))
      (Configure (env_lib E) (MmapSink (env_os E)) (st_dolphindb cfg) k (dd_buffer_size (st_dolphindb cfg))
         (u64 (u64 (dd_flush_interval_ms (st_dolphindb cfg)) * 1000000)) (mm_output_path (st_mmap cfg))
         (dolphin0 2000 10000000 "", w, (None, fs, []))).
Proof. intros H. unfold MakeBackend. rewrite H. reflexivity. Qed.

Lemma register_unpersisted c info p r : persist_to_disk_ r = false -> RouterRegisterChannel c info p r = r.
Proof. intros H. unfold RouterRegisterChannel. by rewrite H. Qed.

Lemma route_dolphin E dd p k t (s s' : DState (env_lib E) (MmapSink (env_os E))) :
  DolphinInsertTick (env_lib E) (MmapSink (env_os E)) dd k true t s = Some s' ->
  RouteTick k t (mkRouter p (existT (DolphinBackendI E dd) s)) = Some (mkRouter p (existT (DolphinBackendI E dd) s')).
Proof. intros H. unfold RouteTick, update. cbn -[DolphinInsertTick]. by rewrite H. Qed.

Definition unpersisted_router : StorageRouter :=
  RouterRegisterChannel 5 demo_channel false
    (router_new demo_env unpersisted_cfg demo_clock (mkMemDB [] [] [] [] [] [] []) ∅ ∅).

(** The state of its backend. *)
Definition unpersisted_state : DState MemLib (MmapSink demo_os) :=
  Configure (env_lib demo_env) (MmapSink (env_os demo_env)) (st_dolphindb unpersisted_cfg) demo_clock
    (dd_buffer_size (st_dolphindb unpersisted_cfg)) (u64 (u64 (dd_flush_interval_ms (st_dolphindb unpersisted_cfg)) * 1000000))
    (mm_output_path (st_mmap unpersisted_cfg)) (dolphin0 2000 10000000 "", mkMemDB [] [] [] [] [] [] [], (None, ∅, [])).

Definition row_summary (r : Table * DBRow) : Z * string * string :=
  match r with
  | (Trades, TradeDBRow _ _ id _ _ _ _ symbol exchange _ _) => (id, symbol, exchange)
  | _ => (0, "", "")%string
  end.

Lemma unpersisted_insert :
  exists s', DolphinInsertTick MemLib (MmapSink demo_os) (st_dolphindb unpersisted_cfg) demo_clock true (demo_tick 1)
               unpersisted_state = Some s' /\
    (row_summary <$> rows s') = [(1, "BTCUSDT", "")%string].
Proof. eexists. split; vm_compute; reflexivity. Qed.

(** The DolphinDB engine writes the trades of a channel although persistence is switched off for storage as a
    whole and for the symbol: only the registration asks for the flags, and this backend inserts the ticks of
    channels that were never registered. *)
Theorem dolphin_ignores_persist_flag :
  exists s', RouteTick demo_clock (demo_tick 1) unpersisted_router =
               Some (mkRouter false (existT (DolphinBackendI demo_env (st_dolphindb unpersisted_cfg)) s')) /\
    (row_summary <$> rows (L := MemLib) (S := MmapSink demo_os) s') = [(1, "BTCUSDT", "")%string].
Proof.
  destruct unpersisted_insert as (s' & Hs & Hrows). exists s'. split; [|exact Hrows].
  assert (Hr : unpersisted_router = mkRouter false (existT (DolphinBackendI demo_env (st_dolphindb unpersisted_cfg)) unpersisted_state)).
  { unfold unpersisted_router. rewrite register_unpersisted by reflexivity.
    unfold router_new. rewrite make_dolphin by reflexivity. unfold unpersisted_state.
    change (st_persist_to_disk unpersisted_cfg) with false. reflexivity. }
  rewrite Hr. apply route_dolphin. exact Hs.
Qed.

Definition mmap_cfg : StorageConfig := mkStorageCfg "mmap" true dolphin_cfg0 mmap_cfg0 csv_cfg0.

Lemma persistence_flags_honoured_witness :
  let r := register_all [(7, demo_channel, true); (5, demo_channel, false)]
             (router_new demo_env mmap_cfg demo_clock (mkMemDB [] [] [] [] [] [] []) ∅ ∅) in
  RouteTick demo_clock (demo_tick 1) r = Some r /\ RouteOrderbook demo_clock valid_book 9 demo_channel r = Some r /\
  RouteBookTicker demo_clock valid_ticker r = Some r.
Proof.
  apply (persistence_flags_honoured demo_env mmap_cfg demo_clock (mkMemDB [] [] [] [] [] [] []) ∅ ∅ _ 5); try done.
  repeat constructor; done.
Defined.
