(* ===== verification/Singleton.v ===== *)
(** * The creation of the storage router

    [StorageRouter::Instance] (src/storage/storage_router.cpp) publishes the router with
    a compare-and-exchange: threads that race create one each, one of them wins, the
    others delete theirs.  Every atomic access is one step; objects are numbered. *)
From S2P Require Import Prelude.

(** Where a thread is inside [Instance]. *)
Inductive InstancePc :=
| PcLoad                          (* before the acquire load *)
| PcCreate                        (* it found no instance *)
| PcExchange (created : nat)      (* before the compare-and-exchange *)
| PcDelete (created expected : nat)
| PcReturned (p : nat).

(** Source: src/storage/storage_router.h:53-53, StorageRouter::instance_.
    With the objects that exist and the next number. *)
Record InstanceState := mkInstance { instance_ : option nat; alive : gset nat; next_object : nat; threads : list InstancePc }.

(** Source: src/storage/storage_router.cpp:13-30, StorageRouter::Instance.
    The next access of a thread, with the shared state after it ([None]: it has returned). *)
Definition instance_access (pc : InstancePc) (inst : option nat) (objs : gset nat) (next : nat)
    : option (InstancePc * option nat * gset nat * nat) :=
  match pc with
  | PcLoad => Some (match inst with Some p => PcReturned p | None => PcCreate end, inst, objs, next)
  | PcCreate => Some (PcExchange next, inst, {[next]} ∪ objs, S next)
  | PcExchange created =>
      match inst with
      | None => Some (PcReturned created, Some created, objs, next)
      | Some expected => Some (PcDelete created expected, inst, objs, next)
      end
  | PcDelete created expected => Some (PcReturned expected, inst, objs ∖ {[created]}, next)
  | PcReturned _ => None
  end.

(** Any thread makes its next access. *)
Inductive instance_step : InstanceState -> InstanceState -> Prop :=
| thread_access s i pc pc' inst objs next :
    threads s !! i = Some pc -> instance_access pc (instance_ s) (alive s) (next_object s) = Some (pc', inst, objs, next) ->
    instance_step s (mkInstance inst objs next (<[i := pc']> (threads s))).

Definition instance_init (n : nat) : InstanceState := mkInstance None ∅ 0 (replicate n PcLoad).

(** ** The invariant *)

(** The object a thread owns. *)
Definition owned (pc : InstancePc) : option nat :=
  match pc with PcExchange c | PcDelete c _ => Some c | _ => None end.
(** The instance a thread has seen. *)
Definition seen (pc : InstancePc) : option nat :=
  match pc with PcDelete _ e => Some e | PcReturned p => Some p | _ => None end.

Record instance_inv (s : InstanceState) : Prop := {
  ii_seen : forall i pc p, threads s !! i = Some pc -> seen pc = Some p -> instance_ s = Some p;
  ii_alive : forall x, x ∈ alive s <-> instance_ s = Some x \/ exists i pc, threads s !! i = Some pc /\ owned pc = Some x;
  ii_fresh : forall x, x ∈ alive s -> (x < next_object s)%nat;
  ii_own : forall i pc x, threads s !! i = Some pc -> owned pc = Some x -> instance_ s <> Some x;
  ii_once : forall i j pc pc' x, threads s !! i = Some pc -> threads s !! j = Some pc' -> owned pc = Some x -> owned pc' = Some x -> i = j
}.

Lemma instance_init_inv n : instance_inv (instance_init n).
Proof.
  split; cbn; [intros i pc p H|..].
  - apply lookup_replicate in H as [-> _]. done.
  - intros x. split; [set_solver|]. intros [?|(i & pc & H & Ho)]; [done|]. apply lookup_replicate in H as [-> _]. done.
  - set_solver.
  - done.
  - intros i j pc pc' x H. apply lookup_replicate in H as [-> _]. done.
Qed.

(** What is known of thread [j] after thread [i] moved to [pc']. *)
Lemma moved {A} (l : list A) i j (pc pc' : A) q :
  l !! i = Some pc -> <[i := pc']> l !! j = Some q -> (j = i /\ q = pc') \/ (j <> i /\ l !! j = Some q).
Proof.
  intros Hi Hj. destruct (decide (j = i)) as [->|Hne].
  - rewrite list_lookup_insert_eq in Hj by (by eapply lookup_lt_Some). left. by simplify_eq.
  - rewrite list_lookup_insert_ne in Hj by done. by right.
Qed.

(** Moving a thread changes what the threads own accordingly. *)
Lemma owned_moved (l : list InstancePc) i pc pc' x :
  l !! i = Some pc ->
  (exists j q, <[i := pc']> l !! j = Some q /\ owned q = Some x) <->
  owned pc' = Some x \/ exists j q, j <> i /\ l !! j = Some q /\ owned q = Some x.
Proof.
  intros Hi. pose proof (lookup_lt_Some _ _ _ Hi) as Hlt. split.
  - intros (j & q & Hj & Ho). apply (moved l i j pc) in Hj as [[-> ->]|[Hne Hj]]; [by left|right; by exists j, q|done].
  - intros [Ho|(j & q & Hne & Hj & Ho)]; [exists i, pc'; by rewrite list_lookup_insert_eq|exists j, q; by rewrite list_lookup_insert_ne].
Qed.

(** Another thread owns [x]. *)
Definition others_own (s : InstanceState) (i x : nat) : Prop :=
  exists j q, j <> i /\ threads s !! j = Some q /\ owned q = Some x.

Lemma move_inv s i pc pc' inst objs next :
  instance_inv s -> threads s !! i = Some pc ->
  (forall p, instance_ s = Some p -> inst = Some p) -> (forall p, seen pc' = Some p -> inst = Some p) ->
  (forall x, x ∈ objs <-> inst = Some x \/ owned pc' = Some x \/ others_own s i x) -> (forall x, x ∈ objs -> (x < next)%nat) ->
  (forall x, owned pc' = Some x -> inst <> Some x /\ ~ others_own s i x) -> (forall x, others_own s i x -> inst <> Some x) ->
  instance_inv (mkInstance inst objs next (<[i := pc']> (threads s))).
Proof.
  intros [I1 I2 I3 I4 I5] Hi Hmono Hseen Hobjs Hnext Hown Hoth. split; cbn; [| |done|..].
  - intros j q p Hj Hq. apply (moved _ _ _ _ _ _ Hi) in Hj as [[-> ->]|[Hne Hj]]; [by apply Hseen|by eapply Hmono, I1].
  - intros x. by rewrite Hobjs, (owned_moved _ _ _ _ _ Hi).
  - intros j q x Hj Hq. apply (moved _ _ _ _ _ _ Hi) in Hj as [[-> ->]|[Hne Hj]]; [by apply Hown|]. apply Hoth. by exists j, q.
  - intros j k q q' x Hj Hk Hq Hq'.
    apply (moved _ _ _ _ _ _ Hi) in Hj as [[-> ->]|[Hne Hj]]; apply (moved _ _ _ _ _ _ Hi) in Hk as [[-> ->]|[Hne' Hk]]; [done|..|by eapply I5].
    + exfalso. apply (Hown x Hq). by exists k, q'.
    + exfalso. apply (Hown x Hq'). by exists j, q.
Qed.

(** What exists, from the point of view of thread [i]. *)
Lemma alive_split s i pc x :
  instance_inv s -> threads s !! i = Some pc -> x ∈ alive s <-> instance_ s = Some x \/ owned pc = Some x \/ others_own s i x.
Proof.
  intros [_ I2 _ _ _] Hi. rewrite I2. split; (intros [H|H]; [by left|right]).
  - destruct H as (j & q & Hj & Hq). destruct (decide (j = i)) as [->|]; [left; by simplify_eq|right; by exists j, q].
  - destruct H as [H|(j & q & _ & Hj & Hq)]; eauto.
Qed.

Lemma access_inv s i pc pc' inst objs next :
  instance_inv s -> threads s !! i = Some pc -> instance_access pc (instance_ s) (alive s) (next_object s) = Some (pc', inst, objs, next) ->
  instance_inv (mkInstance inst objs next (<[i := pc']> (threads s))).
Proof.
  intros Hinv Hi Ha. pose proof (fun x => alive_split s i pc x Hinv Hi) as Hal. pose proof Hinv as [I1 I2 I3 I4 I5].
  assert (Hoth : forall x, others_own s i x -> instance_ s <> Some x) by (intros x (j & q & _ & Hj & Hq); by eapply I4).
  assert (Hme : forall x, owned pc = Some x -> instance_ s <> Some x /\ ~ others_own s i x).
  { intros x Hx. split; [by eapply I4|]. intros (j & q & Hne & Hj & Hq). by apply Hne, (I5 j i q pc x). }
  destruct pc as [| |c|c e|p]; cbn in Ha; [..|done].
  - injection Ha as <- <- <- <-. apply (move_inv s i PcLoad); try done; destruct (instance_ s) eqn:Es; cbn in *; try done.
  - injection Ha as <- <- <- <-. apply (move_inv s i PcCreate); try done; cbn in *.
    + intros x. rewrite elem_of_union, elem_of_singleton, Hal. naive_solver.
    + intros x. rewrite elem_of_union, elem_of_singleton. intros [->|Hx]; [lia|]. specialize (I3 x Hx). lia.
    + intros x [= <-]. assert (Hnew : next_object s ∉ alive s) by (intros Hx; specialize (I3 _ Hx); lia). rewrite Hal in Hnew. naive_solver.
  - destruct (instance_ s) as [e|] eqn:Es; injection Ha as <- <- <- <-; apply (move_inv s i (PcExchange c)); try done; cbn in *.
    + rewrite Es. done.
    + rewrite Es. done.
    + intros x. rewrite Hal. naive_solver.
    + intros x Hx [= ->]. by apply (Hme x).
  - injection Ha as <- <- <- <-. apply (move_inv s i (PcDelete c e)); try done; cbn in *.
    + intros p [= <-]. by apply (I1 i _ e Hi).
    + intros x. rewrite elem_of_difference, elem_of_singleton, Hal. destruct (Hme c eq_refl) as [H1 H2]. split; [naive_solver|].
      intros [Hx|[?|Hx]]; [|done|]; (split; [by auto|]); intros ->; naive_solver.
    + intros x. rewrite elem_of_difference. intros [Hx _]. by apply I3.
Qed.

Lemma instance_reachable_inv n s : rtc instance_step (instance_init n) s -> instance_inv s.
Proof.
  intros Hr. eapply rtc_invariant; [|exact Hr|apply instance_init_inv]. intros s1 s2 H Hs. destruct Hs. by eapply access_inv.
Qed.

(** ** Properties *)

(** However many threads race to create the router, and in whatever order their accesses interleave: every thread that
    has returned got the published instance, which exists; and when all have returned no other object is left. *)
Theorem router_created_once (n : nat) (s : InstanceState) :
  rtc instance_step (instance_init n) s ->
  (forall i p, threads s !! i = Some (PcReturned p) -> instance_ s = Some p /\ p ∈ alive s) /\
  ((forall i pc, threads s !! i = Some pc -> exists p, pc = PcReturned p) ->
   forall x, x ∈ alive s <-> instance_ s = Some x).
Proof.
  intros Hr. destruct (instance_reachable_inv n s Hr) as [I1 I2 I3 I4 I5]. split.
  - intros i p Hi. assert (Hp : instance_ s = Some p) by (by eapply I1). split; [done|]. apply I2. by left.
  - intros Hall x. rewrite I2. split; [|by left]. intros [?|(i & pc & Hi & Ho)]; [done|]. destruct (Hall i pc Hi) as [p ->]. done.
Qed.
