(* ===== verification/PubWorker.v ===== *)
(** * The publisher

    [PubWorker] (src/pubsub/pub_worker.cpp) takes events from parser threads
    through one single-producer queue per shard and event type and sends them
    over a ZeroMQ PUB socket from its own thread, with payload buffers from
    [ZmqBufferPool] (src/pubsub/zmq_buffer_pool.cpp).  The queues are any
    implementation of [FifoQueue]; the socket is a parameter: whether it takes a
    frame, and which buffers its I/O thread has released meanwhile.  A payload is
    kept as its type tag and the structure it is the bytes of. *)
From S2P Require Import Prelude Doubles Events SpscQueue Exchange.

(** Source: src/pubsub/pub_message.h:15-19, PubMsgType. *)
Inductive PubMsgType := kTick | kDepth | kBookTicker.

(** Source: src/pubsub/message_serializer.h:22-35, MessageSerializer.
    [tag] then the bytes of the structure. *)
Inductive Payload :=
| TickPayload (t : TickData)
| DepthPayload (e : DepthUpdateEvent)
| BookTickerPayload (e : BookTickerEvent).

Definition payload_tag (p : Payload) : PubMsgType :=
  match p with TickPayload _ => kTick | DepthPayload _ => kDepth | BookTickerPayload _ => kBookTicker end.

(** Source: src/pubsub/pub_message.h:28-28, kMaxTopicLen. *)
Definition kMaxTopicLen : nat := 64.

(** ** The buffer pool *)

(** Source: src/pubsub/zmq_buffer_pool.h:29-29, ZmqBufferPool::kPoolSize. *)
Definition kPoolSize : Z := 64.

(** Source: src/pubsub/zmq_buffer_pool.h:57-58, ZmqBufferPool (data members). *)
Record ZmqBufferPool := mkPool { in_use : list bool; next_ : Z }.

Definition pool0 : ZmqBufferPool := mkPool (replicate (Z.to_nat kPoolSize) false) 0.

Fixpoint acquire_loop (attempts : nat) (p : ZmqBufferPool) : option nat * ZmqBufferPool :=
  match attempts with
  | O => (None, p)
  | S n =>
      let idx := Z.to_nat (next_ p mod kPoolSize) in
      let p := mkPool (in_use p) (u64 (next_ p + 1)) in
      if (in_use p !!! idx : bool) then acquire_loop n p
      else (Some idx, mkPool (<[idx := true]> (in_use p)) (next_ p))
  end.

(** Source: src/pubsub/zmq_buffer_pool.cpp:5-14, ZmqBufferPool::Acquire. *)
Definition Acquire : ZmqBufferPool -> option nat * ZmqBufferPool := acquire_loop (Z.to_nat kPoolSize).

(** Source: src/pubsub/zmq_buffer_pool.cpp:16-20, ZmqBufferPool::Release. *)
Definition Release (slot : nat) (p : ZmqBufferPool) : ZmqBufferPool := mkPool (<[slot := false]> (in_use p)) (next_ p).

(** The positions of [n] consecutive attempts. *)
Lemma acquire_loop_spec n p :
  length (in_use p) = Z.to_nat kPoolSize -> 0 <= next_ p ->
  match acquire_loop n p with
  | (Some i, p') => in_use p !! i = Some false /\ in_use p' = <[i := true]> (in_use p) /\ 0 <= next_ p'
  | (None, p') => in_use p' = in_use p /\
      forall j, 0 <= j < Z.of_nat n -> in_use p !! Z.to_nat ((next_ p + j) mod kPoolSize) = Some true
  end.
Proof.
  revert p. induction n as [|n IH]; intros p Hl Hn; cbn [acquire_loop]; [split; [done|lia]|].
  pose proof (Z.mod_pos_bound (next_ p) kPoolSize ltac:(done)) as Hm.
  destruct (lookup_lt_is_Some_2 (in_use p) (Z.to_nat (next_ p mod kPoolSize))) as [b Hb]; [lia|].
  cbn [in_use next_]. rewrite (list_lookup_total_correct _ _ _ Hb). destruct b.
  - specialize (IH (mkPool (in_use p) (u64 (next_ p + 1)))). cbn [in_use next_] in IH.
    destruct (acquire_loop n _) as [[i|] p']; cbn [in_use next_] in IH.
    + apply IH; [done|]. apply wrap_range; lia.
    + destruct IH as [H1 H2]; [done|apply wrap_range; lia|]. split; [done|].
      intros j Hj. destruct (decide (j = 0)) as [->|Hne]; [by rewrite Z.add_0_r|].
      specialize (H2 (j - 1) ltac:(lia)).
      replace ((u64 (next_ p + 1) + (j - 1)) mod kPoolSize) with ((next_ p + j) mod kPoolSize) in H2; [done|].
      unfold kPoolSize. rewrite <- (Zplus_mod_idemp_l (u64 (next_ p + 1))).
      change (u64 (next_ p + 1) mod 64) with (u64 (next_ p + 1) mod 2 ^ 6).
      rewrite (wrap_mod_pow2 6 64) by lia. change (2 ^ 6) with 64. rewrite Zplus_mod_idemp_l. f_equal. lia.
  - split_and!; try done. apply wrap_range; lia.
Qed.

(** [Acquire] hands out a buffer that was free, and fails only when none is. *)
Lemma Acquire_spec p :
  length (in_use p) = Z.to_nat kPoolSize -> 0 <= next_ p ->
  match Acquire p with
  | (Some i, p') => in_use p !! i = Some false /\ in_use p' = <[i := true]> (in_use p) /\ 0 <= next_ p'
  | (None, p') => in_use p' = in_use p /\ forall i b, in_use p !! i = Some b -> b = true
  end.
Proof.
  intros Hl Hn. unfold Acquire. pose proof (acquire_loop_spec (Z.to_nat kPoolSize) p Hl Hn) as H.
  destruct (acquire_loop _ p) as [[i|] p']; [done|]. destruct H as [H1 H2]. split; [done|].
  intros i b Hi. pose proof (lookup_lt_Some _ _ _ Hi) as Hlt. unfold kPoolSize in *.
  set (j := (Z.of_nat i - next_ p) mod 64).
  pose proof (Z.mod_pos_bound (Z.of_nat i - next_ p) 64 ltac:(lia)).
  specialize (H2 j ltac:(lia)). unfold j in H2. rewrite Zplus_mod_idemp_r in H2.
  replace (next_ p + (Z.of_nat i - next_ p)) with (Z.of_nat i) in H2 by lia.
  rewrite Z.mod_small, Nat2Z.id in H2 by lia. congruence.
Qed.

(** ** The worker *)

(** The socket: sending a frame without blocking, and the buffers released by
    its I/O thread since the last look. *)
Record Zmq := mkZmq {
  Sock : Type;
  z_send_topic : string -> Sock -> bool * Sock;
  z_send_payload : Payload -> Sock -> bool * Sock;
  z_released : Sock -> list nat * Sock
}.

Section worker.
Context {QT QD QB : Type} `{!FifoQueue QT TickData} `{!FifoQueue QD DepthUpdateEvent} `{!FifoQueue QB BookTickerEvent}.
Context (K : Zmq) (reg : ChannelRegistry).

(** Source: src/pubsub/pub_worker.h:20-24, ShardQueues. *)
Record ShardQueues := mkShardQueues { q_tick : QT; q_depth : QD; q_book_ticker : QB }.

(** Source: src/pubsub/pub_worker.h:86-100, PubWorker (data members). *)
Record PubWorker := mkWorker {
  shard_queues_ : list ShardQueues;     (* num_shards_ is its length *)
  buffer_pool_ : ZmqBufferPool;
  dropped_queue_count_ : Z;
  dropped_buffer_count_ : Z;
  dropped_hwm_count_ : Z;
  pub_socket_ : Sock K
}.

Definition num_shards_ (w : PubWorker) : nat := length (shard_queues_ w).

Definition set_queues (qs : list ShardQueues) (w : PubWorker) : PubWorker :=
  mkWorker qs (buffer_pool_ w) (dropped_queue_count_ w) (dropped_buffer_count_ w) (dropped_hwm_count_ w) (pub_socket_ w).
Definition set_pool (p : ZmqBufferPool) (w : PubWorker) : PubWorker :=
  mkWorker (shard_queues_ w) p (dropped_queue_count_ w) (dropped_buffer_count_ w) (dropped_hwm_count_ w) (pub_socket_ w).
Definition set_socket (s : Sock K) (w : PubWorker) : PubWorker :=
  mkWorker (shard_queues_ w) (buffer_pool_ w) (dropped_queue_count_ w) (dropped_buffer_count_ w) (dropped_hwm_count_ w) s.
Definition count_queue_drop (w : PubWorker) : PubWorker :=
  mkWorker (shard_queues_ w) (buffer_pool_ w) (u64 (dropped_queue_count_ w + 1)) (dropped_buffer_count_ w) (dropped_hwm_count_ w) (pub_socket_ w).
Definition count_buffer_drop (w : PubWorker) : PubWorker :=
  mkWorker (shard_queues_ w) (buffer_pool_ w) (dropped_queue_count_ w) (u64 (dropped_buffer_count_ w + 1)) (dropped_hwm_count_ w) (pub_socket_ w).
Definition count_hwm_drop (w : PubWorker) : PubWorker :=
  mkWorker (shard_queues_ w) (buffer_pool_ w) (dropped_queue_count_ w) (dropped_buffer_count_ w) (u64 (dropped_hwm_count_ w + 1)) (pub_socket_ w).

(** Source: src/pubsub/pub_worker.h:59-62, PubWorker::dropped_count. *)
Definition dropped_count (w : PubWorker) : Z :=
  u64 (u64 (dropped_queue_count_ w + dropped_buffer_count_ w) + dropped_hwm_count_ w).

(** Source: src/pubsub/pub_worker.cpp:50-56, PubWorker::PublishTick. *)
Definition PublishTick (t : TickData) (shard : nat) (w : PubWorker) : PubWorker :=
  match shard_queues_ w !! shard with
  | None => w
  | Some q => match fq_push t (q_tick q) with
              | (true, q') => set_queues (<[shard := mkShardQueues q' (q_depth q) (q_book_ticker q)]> (shard_queues_ w)) w
              | (false, _) => count_queue_drop w
              end
  end.

(** Source: src/pubsub/pub_worker.cpp:58-64, PubWorker::PublishDepth. *)
Definition PublishDepth (e : DepthUpdateEvent) (shard : nat) (w : PubWorker) : PubWorker :=
  match shard_queues_ w !! shard with
  | None => w
  | Some q => match fq_push e (q_depth q) with
              | (true, q') => set_queues (<[shard := mkShardQueues (q_tick q) q' (q_book_ticker q)]> (shard_queues_ w)) w
              | (false, _) => count_queue_drop w
              end
  end.

(** Source: src/pubsub/pub_worker.cpp:66-72, PubWorker::PublishBookTicker. *)
Definition PublishBookTicker (e : BookTickerEvent) (shard : nat) (w : PubWorker) : PubWorker :=
  match shard_queues_ w !! shard with
  | None => w
  | Some q => match fq_push e (q_book_ticker q) with
              | (true, q') => set_queues (<[shard := mkShardQueues (q_tick q) (q_depth q) q']> (shard_queues_ w)) w
              | (false, _) => count_queue_drop w
              end
  end.

Definition payload_channel (p : Payload) : Z :=
  match p with TickPayload t => tk_channel_id t | DepthPayload e => dp_channel_id e | BookTickerPayload e => bt_channel_id e end.
Definition event_suffix (p : Payload) : string :=
  match p with TickPayload _ => "tick" | DepthPayload _ => "depth" | BookTickerPayload _ => "book_ticker" end.

(** ["%.*s:%.*s"] when it fits the buffer. *)
Definition topic (p : Payload) : option string :=
  match Lookup (payload_channel p) reg with
  | None => None
  | Some info =>
      if (ci_topic_prefix info =? "")%string then None
      else let t := (ci_topic_prefix info ++ ":" ++ event_suffix p)%string in
           if (kMaxTopicLen <=? String.length t)%nat then None else Some t
  end.

(** Source: src/pubsub/pub_worker.cpp:76-121, PubWorker::SendTyped.
    A message that was not handed over releases its buffer when it is destroyed. *)
Definition SendTyped (p : Payload) (w : PubWorker) : bool * PubWorker :=
  match topic p with
  | None => (false, w)
  | Some t =>
      let '(released, s) := z_released K (pub_socket_ w) in
      let w := set_pool (foldr Release (buffer_pool_ w) released) (set_socket s w) in
      match Acquire (buffer_pool_ w) with
      | (None, pool) => (false, count_buffer_drop (set_pool pool w))
      | (Some slot, pool) =>
          let w := set_pool pool w in
          match z_send_topic K t (pub_socket_ w) with
          | (false, s) => (false, count_hwm_drop (set_pool (Release slot pool) (set_socket s w)))
          | (true, s) =>
              match z_send_payload K p s with
              | (false, s) => (false, count_hwm_drop (set_pool (Release slot pool) (set_socket s w)))
              | (true, s) => (true, set_socket s w)
              end
          end
      end
  end.

(** Source: src/pubsub/pub_worker.cpp:130-150, PubWorker::TrySendOne. *)
Definition TrySendOne (shard queue_type : nat) (w : PubWorker) : bool * PubWorker :=
  match shard_queues_ w !! shard with
  | None => (false, w)
  | Some q =>
      match queue_type with
      | 0%nat => match fq_pop (q_tick q) with
             | None => (false, w)
             | Some (t, q') => SendTyped (TickPayload t)
                 (set_queues (<[shard := mkShardQueues q' (q_depth q) (q_book_ticker q)]> (shard_queues_ w)) w)
             end
      | 1%nat => match fq_pop (q_depth q) with
             | None => (false, w)
             | Some (e, q') => SendTyped (DepthPayload e)
                 (set_queues (<[shard := mkShardQueues (q_tick q) q' (q_book_ticker q)]> (shard_queues_ w)) w)
             end
      | 2%nat => match fq_pop (q_book_ticker q) with
             | None => (false, w)
             | Some (e, q') => SendTyped (BookTickerPayload e)
                 (set_queues (<[shard := mkShardQueues (q_tick q) (q_depth q) q']> (shard_queues_ w)) w)
             end
      | _ => (false, w)
      end
  end.

(** The body of the dispatch loop for the queues [idxs], with [any_work]. *)
Fixpoint dispatch_loop (idxs : list nat) (any_work : bool) (w : PubWorker) : bool * PubWorker :=
  match idxs with
  | [] => (any_work, w)
  | idx :: idxs' =>
      let '(sent, w) := TrySendOne (idx / 3) (idx mod 3) w in
      dispatch_loop idxs' (sent || any_work) w
  end.

(** Source: src/pubsub/pub_worker.cpp:154-165, PubWorker::DispatchCycle.
    [None]: the remainder by zero queues. *)
Definition DispatchCycle (cursor : nat) (any_work : bool) (w : PubWorker) : option (nat * bool * PubWorker) :=
  let total_queues := (num_shards_ w * 3)%nat in
  if (total_queues =? 0)%nat then None
  else
    let idxs := (fun i => (cursor + i) mod total_queues)%nat <$> seq 0 total_queues in
    let '(any, w) := dispatch_loop idxs any_work w in
    Some ((cursor + 1) mod total_queues, any, w)%nat.

(** Cycles until one sends nothing; [None]: still draining after [fuel] cycles. *)
Fixpoint drain_loop (fuel : nat) (cursor : nat) (w : PubWorker) : option PubWorker :=
  match fuel with
  | O => None
  | S fuel' =>
      match DispatchCycle cursor false w with
      | None => None
      | Some (cursor, any, w) => if any : bool then drain_loop fuel' cursor w else Some w
      end
  end.

(** Source: src/pubsub/pub_worker.cpp:169-176, PubWorker::DrainAll. *)
Definition DrainAll (fuel : nat) (w : PubWorker) : option PubWorker := drain_loop fuel 0 w.
End worker.

#[global] Arguments ShardQueues : clear implicits.
#[global] Arguments PubWorker : clear implicits.
#[global] Arguments mkWorker {QT QD QB K}.
#[global] Arguments shard_queues_ {QT QD QB K}.
#[global] Arguments buffer_pool_ {QT QD QB K}.
#[global] Arguments dropped_queue_count_ {QT QD QB K}.
#[global] Arguments dropped_buffer_count_ {QT QD QB K}.
#[global] Arguments dropped_hwm_count_ {QT QD QB K}.
#[global] Arguments pub_socket_ {QT QD QB K}.
#[global] Arguments set_queues {QT QD QB K}.
#[global] Arguments num_shards_ {QT QD QB K}.

(** ** Draining

    A transport that keeps up: it takes every frame, and by the time the next
    buffer is needed it has released the ones it was given. *)
Class KeepsUp (K : Zmq) := {
  z_sent : Sock K -> list Payload;
  topic_taken : forall t s, (z_send_topic K t s).1 = true /\ z_sent (z_send_topic K t s).2 = z_sent s;
  payload_taken : forall p s, (z_send_payload K p s).1 = true /\ z_sent (z_send_payload K p s).2 = z_sent s ++ [p];
  buffers_back : forall s i, (i < Z.to_nat kPoolSize)%nat -> i ∈ (z_released K s).1;
  released_quiet : forall s, z_sent (z_released K s).2 = z_sent s
}.

Section drain.
Context {QT QD QB : Type} `{!FifoQueue QT TickData} `{!FifoQueue QD DepthUpdateEvent} `{!FifoQueue QB BookTickerEvent}.
Context {K : Zmq} `{!KeepsUp K} (reg : ChannelRegistry).
Abbreviation SQ := (ShardQueues QT QD QB).
Abbreviation PW := (PubWorker QT QD QB K).

(** What a queue of a shard holds, oldest first. *)
Definition queue_items (q : SQ) (queue_type : nat) : list Payload :=
  match queue_type with
  | 0%nat => TickPayload <$> fq_contents (q_tick q)
  | 1%nat => DepthPayload <$> fq_contents (q_depth q)
  | 2%nat => BookTickerPayload <$> fq_contents (q_book_ticker q)
  | _ => []
  end.

Definition shard_items (q : SQ) : list Payload := queue_items q 0 ++ queue_items q 1 ++ queue_items q 2.
Definition all_items (w : PW) : list Payload := concat (shard_items <$> shard_queues_ w).

Definition shard_wf (q : SQ) : Prop := fq_wf (q_tick q) /\ fq_wf (q_depth q) /\ fq_wf (q_book_ticker q).
Definition pool_wf (p : ZmqBufferPool) : Prop := length (in_use p) = Z.to_nat kPoolSize /\ 0 <= next_ p.

(** The channel is registered and its topic fits the buffer. *)
Definition routable (p : Payload) : Prop := is_Some (topic reg p).

Record worker_ok (w : PW) : Prop := {
  wk_queues : Forall shard_wf (shard_queues_ w);
  wk_pool : pool_wf (buffer_pool_ w);
  wk_items : Forall routable (all_items w)
}.

Lemma release_all_free (l : list nat) p i :
  pool_wf p -> i ∈ l -> (i < Z.to_nat kPoolSize)%nat -> in_use (foldr Release p l) !! i = Some false.
Proof.
  intros [Hl _] Hi Hlt. assert (Hlen : forall l, length (in_use (foldr Release p l)) = Z.to_nat kPoolSize).
  { intros l'. induction l' as [|j l' IH]; cbn; [done|]. by rewrite length_insert. }
  induction l as [|j l IH]; [by apply elem_of_nil in Hi|]. cbn [foldr Release in_use].
  destruct (decide (j = i)) as [->|Hne].
  - apply list_lookup_insert_eq. by rewrite Hlen.
  - rewrite list_lookup_insert_ne by done. apply IH. apply elem_of_cons in Hi as [?|?]; [congruence|done].
Qed.

Lemma release_all_wf l p : pool_wf p -> pool_wf (foldr Release p l).
Proof.
  intros [Hl Hn]. induction l as [|j l [IH1 IH2]]; cbn; [done|]. split; cbn; [by rewrite length_insert|done].
Qed.

(** A routable event is sent. *)
Lemma SendTyped_sends p (w : PW) :
  pool_wf (buffer_pool_ w) -> routable p ->
  exists w', SendTyped K reg p w = (true, w') /\ shard_queues_ w' = shard_queues_ w /\
    pool_wf (buffer_pool_ w') /\ z_sent (pub_socket_ w') = z_sent (pub_socket_ w) ++ [p].
Proof.
  intros Hp [t Ht]. unfold SendTyped. rewrite Ht.
  pose proof (buffers_back (pub_socket_ w)) as Hback. pose proof (released_quiet (pub_socket_ w)) as Hq.
  destruct (z_released K (pub_socket_ w)) as [released s]. cbn [fst snd] in *.
  set (w1 := set_pool K _ _). pose proof (release_all_wf released _ Hp) as [Hl Hn].
  pose proof (Acquire_spec (buffer_pool_ w1) Hl Hn) as Hacq.
  destruct (Acquire (buffer_pool_ w1)) as [[slot|] pool].
  - destruct Hacq as (_ & Hin & Hn'). cbn [set_pool pub_socket_ set_socket w1].
    destruct (topic_taken t s) as [H1 H2]. destruct (z_send_topic K t s) as [? s1]. cbn [fst snd] in *. subst.
    destruct (payload_taken p s1) as [H3 H4]. destruct (z_send_payload K p s1) as [? s2]. cbn [fst snd] in *. subst.
    eexists. split; [done|]. cbn. split; [done|]. split; [|congruence].
    split; [|done]. rewrite Hin, length_insert. exact Hl.
  - destruct Hacq as [_ Hall]. exfalso.
    assert (H0 : in_use (buffer_pool_ w1) !! 0%nat = Some false).
    { apply release_all_free; [done| |vm_compute; lia]. apply Hback. vm_compute. lia. }
    by specialize (Hall _ _ H0).
Qed.

(** Popping the head of one queue of a shard. *)
Lemma shard_pop (qs : list SQ) shard q qt x l :
  qs !! shard = Some q -> shard_wf q -> queue_items q qt = x :: l -> (qt < 3)%nat ->
  exists q', shard_wf q' /\ queue_items q' qt = l /\ (forall qt', qt' <> qt -> queue_items q' qt' = queue_items q qt') /\
    forall (w : PW), shard_queues_ w = qs ->
      TrySendOne K reg shard qt w = SendTyped K reg x (set_queues (<[shard := q']> qs) w).
Proof.
  intros Hq (W1 & W2 & W3) Hx Hqt. destruct q as [qT qD qB]. cbn in W1, W2, W3.
  destruct qt as [|[|[|?]]]; [..|lia]; cbn in Hx.
  - destruct (fq_contents qT) as [|t lt] eqn:E; [done|]. injection Hx as <- <-.
    destruct (fq_pop_cons qT t lt W1 E) as (q' & Hpop & Hw & Hc).
    exists (mkShardQueues q' qD qB). split; [done|]. split; [cbn; by rewrite Hc|].
    split; [by intros [|[|[|?]]] ?|]. intros w <-. unfold TrySendOne. rewrite Hq. cbn. by rewrite Hpop.
  - destruct (fq_contents qD) as [|t lt] eqn:E; [done|]. injection Hx as <- <-.
    destruct (fq_pop_cons qD t lt W2 E) as (q' & Hpop & Hw & Hc).
    exists (mkShardQueues qT q' qB). split; [done|]. split; [cbn; by rewrite Hc|].
    split; [by intros [|[|[|?]]] ?|]. intros w <-. unfold TrySendOne. rewrite Hq. cbn. by rewrite Hpop.
  - destruct (fq_contents qB) as [|t lt] eqn:E; [done|]. injection Hx as <- <-.
    destruct (fq_pop_cons qB t lt W3 E) as (q' & Hpop & Hw & Hc).
    exists (mkShardQueues qT qD q'). split; [done|]. split; [cbn; by rewrite Hc|].
    split; [by intros [|[|[|?]]] ?|]. intros w <-. unfold TrySendOne. rewrite Hq. cbn. by rewrite Hpop.
Qed.

Lemma shard_empty shard q qt (w : PW) :
  shard_queues_ w !! shard = Some q -> shard_wf q -> queue_items q qt = [] -> TrySendOne K reg shard qt w = (false, w).
Proof.
  intros Hq (W1 & W2 & W3) Hx. unfold TrySendOne. rewrite Hq. destruct q as [qT qD qB]. cbn in *.
  destruct qt as [|[|[|?]]]; cbn in Hx; try done; apply fmap_nil_inv in Hx; by rewrite fq_pop_nil.
Qed.

(** Taking one item out of one queue takes it out of the whole. *)
Lemma shard_items_pop (q q' : SQ) qt x :
  (qt < 3)%nat -> queue_items q qt = x :: queue_items q' qt ->
  (forall qt', qt' <> qt -> queue_items q' qt' = queue_items q qt') -> shard_items q ≡ₚ x :: shard_items q'.
Proof.
  intros Hqt Hx Ho. unfold shard_items.
  destruct qt as [|[|[|?]]]; [..|lia]; rewrite Hx.
  - rewrite (Ho 1%nat), (Ho 2%nat) by done. done.
  - rewrite (Ho 0%nat), (Ho 2%nat) by done. by rewrite Permutation_middle.
  - rewrite (Ho 0%nat), (Ho 1%nat) by done. rewrite Permutation_middle. by rewrite Permutation_middle.
Qed.

Lemma concat_insert_perm {A B} (f : A -> list B) (qs : list A) i q q' x :
  qs !! i = Some q -> f q ≡ₚ x :: f q' -> concat (f <$> qs) ≡ₚ x :: concat (f <$> <[i := q']> qs).
Proof.
  revert i. induction qs as [|a qs IH]; intros [|i] Hi Hf; try done; cbn in *.
  - injection Hi as ->. by rewrite Hf.
  - rewrite (IH i Hi Hf). by rewrite Permutation_middle.
Qed.

(** One visit of a queue. *)
Definition visited (shard qt : nat) (w : PW) (r : bool * PW) : Prop :=
  worker_ok r.2 /\ num_shards_ r.2 = num_shards_ w /\
  z_sent (pub_socket_ r.2) ++ all_items r.2 ≡ₚ z_sent (pub_socket_ w) ++ all_items w /\
  if r.1 then length (all_items w) = S (length (all_items r.2))
  else r.2 = w /\ forall q, shard_queues_ w !! shard = Some q -> queue_items q qt = [].

Lemma TrySendOne_visits shard qt (w : PW) :
  worker_ok w -> (shard < num_shards_ w)%nat -> (qt < 3)%nat -> visited shard qt w (TrySendOne K reg shard qt w).
Proof.
  intros Hok Hs Hqt. destruct (lookup_lt_is_Some_2 (shard_queues_ w) shard Hs) as [q Hq].
  pose proof Hok as [Hwf Hp Hit]. pose proof (Forall_lookup_1 _ _ _ _ Hwf Hq) as Hwq.
  destruct (queue_items q qt) as [|x l] eqn:E.
  - rewrite (shard_empty shard q qt w Hq Hwq E). unfold visited. cbn [fst snd]. split_and!; try done.
    intros q0 Hq0. by simplify_eq.
  - destruct (shard_pop _ shard q qt x l Hq Hwq E Hqt) as (q' & Hw' & Hl & Ho & Htry).
    rewrite (Htry w eq_refl).
    assert (Hperm : all_items w ≡ₚ x :: concat (shard_items <$> <[shard := q']> (shard_queues_ w))).
    { eapply concat_insert_perm; [done|]. eapply shard_items_pop; [done| |done]. by rewrite E, Hl. }
    assert (Hrt : routable x /\ Forall routable (concat (shard_items <$> <[shard := q']> (shard_queues_ w)))).
    { apply Forall_cons. by rewrite <- Hperm. }
    destruct Hrt as [Hx Hrest].
    destruct (SendTyped_sends x (set_queues (<[shard := q']> (shard_queues_ w)) w) Hp Hx) as (w' & -> & Hqs & Hp' & Hsent).
    cbn in Hqs, Hsent. assert (Hai : all_items w' = concat (shard_items <$> <[shard := q']> (shard_queues_ w)))
      by (unfold all_items; by rewrite Hqs).
    split; [|split; [|split]]; cbn [fst snd].
    + split; [rewrite Hqs; by apply Forall_insert|done|by rewrite Hai].
    + unfold num_shards_. by rewrite Hqs, length_insert.
    + rewrite Hsent, Hai, Hperm. by rewrite <- app_assoc.
    + rewrite Hai. by rewrite Hperm.
Qed.

(** A pass over a list of queues. *)
Lemma dispatch_loop_spec idxs any (w : PW) :
  worker_ok w -> Forall (fun idx => (idx < num_shards_ w * 3)%nat) idxs ->
  let r := dispatch_loop K reg idxs any w in
  worker_ok r.2 /\ num_shards_ r.2 = num_shards_ w /\
  z_sent (pub_socket_ r.2) ++ all_items r.2 ≡ₚ z_sent (pub_socket_ w) ++ all_items w /\
  (length (all_items r.2) <= length (all_items w))%nat /\
  (r.1 = true -> any = true \/ (length (all_items r.2) < length (all_items w))%nat) /\
  (r.1 = false -> any = false /\ r.2 = w /\ forall idx q, idx ∈ idxs -> shard_queues_ w !! (idx / 3)%nat = Some q ->
                    queue_items q (idx mod 3) = []).
Proof.
  intros Hok Hidx. revert any w Hok Hidx. induction idxs as [|idx idxs IH]; intros any w Hok Hidx; cbn [dispatch_loop].
  - split_and!; try done; [by left|]. intros Ha. split; [done|]. split; [done|]. intros i q Hi. by apply elem_of_nil in Hi.
  - apply Forall_cons in Hidx as [Hi Hidx].
    destruct (TrySendOne_visits (idx / 3) (idx mod 3) w Hok) as (V1 & V2 & V3 & V4).
    { apply Nat.Div0.div_lt_upper_bound. lia. }
    { apply Nat.mod_upper_bound. lia. }
    destruct (TrySendOne K reg (idx / 3) (idx mod 3) w) as [sent w1]. cbn [fst snd] in *.
    destruct (IH (sent || any) w1 V1) as (I1 & I2 & I3 & I4 & I5 & I6); [by rewrite V2|].
    destruct (dispatch_loop K reg idxs (sent || any) w1) as [any' w2]. cbn [fst snd] in *.
    assert (Hlen : (length (all_items w1) <= length (all_items w))%nat) by (destruct sent; [lia|by destruct V4 as [-> _]]).
    split_and!; [done|by rewrite I2|by rewrite I3|lia| |].
    + intros Ha. destruct (I5 Ha) as [Hor|Hlt]; [|right; lia]. apply orb_true_iff in Hor as [-> | ->]; [right; lia|by left].
    + intros Ha. destruct (I6 Ha) as (Hor & -> & Hempty). apply orb_false_iff in Hor as [-> ->].
      destruct V4 as [-> Hq]. split; [done|]. split; [done|]. intros i q Hin Hlook.
      apply elem_of_cons in Hin as [->|Hin]; [by apply Hq|by eapply Hempty].
Qed.

(** Starting anywhere, a cycle visits every queue. *)
Lemma cycle_covers cursor total idx :
  (idx < total)%nat -> idx ∈ ((fun i => (cursor + i) mod total)%nat <$> seq 0 total).
Proof.
  intros Hi. apply list_elem_of_fmap. pose proof (Nat.mod_upper_bound cursor total ltac:(lia)) as Hc.
  exists ((idx + (total - cursor mod total)) mod total)%nat. split.
  - rewrite Nat.Div0.add_mod_idemp_r. rewrite <- Nat.Div0.add_mod_idemp_l.
    replace (cursor mod total + (idx + (total - cursor mod total)))%nat with (idx + 1 * total)%nat by lia.
    by rewrite Nat.Div0.mod_add, Nat.mod_small.
  - apply elem_of_seq. pose proof (Nat.mod_upper_bound (idx + (total - cursor mod total)) total ltac:(lia)). lia.
Qed.

Lemma all_queues_empty (w : PW) :
  (forall idx q, (idx < num_shards_ w * 3)%nat -> shard_queues_ w !! (idx / 3)%nat = Some q -> queue_items q (idx mod 3) = []) ->
  all_items w = [].
Proof.
  intros H. unfold all_items.
  assert (Hall : Forall (fun q => shard_items q = []) (shard_queues_ w)).
  { apply Forall_lookup_2. intros s q Hq. pose proof (lookup_lt_Some _ _ _ Hq) as Hs.
    assert (Hqt : forall qt, (qt < 3)%nat -> queue_items q qt = []).
    { intros qt Hqt. specialize (H (s * 3 + qt)%nat q). rewrite Nat.div_add_l, Nat.div_small, Nat.add_0_r in H by lia.
      rewrite Nat.add_comm, Nat.Div0.mod_add, Nat.mod_small in H by lia. apply H; [unfold num_shards_; lia|done]. }
    unfold shard_items. by rewrite !Hqt by lia. }
  clear H. induction Hall as [|q qs Hq _ IH]; [done|].
  change (shard_items q ++ concat (shard_items <$> qs) = []). rewrite Hq. exact IH.
Qed.

Lemma drain_loop_sends fuel cursor (w : PW) :
  worker_ok w -> (0 < num_shards_ w)%nat -> (length (all_items w) < fuel)%nat ->
  exists w', drain_loop K reg fuel cursor w = Some w' /\ all_items w' = [] /\
    z_sent (pub_socket_ w') ≡ₚ z_sent (pub_socket_ w) ++ all_items w.
Proof.
  revert cursor w. induction fuel as [|fuel IH]; intros cursor w Hok Hn Hf; [lia|].
  cbn [drain_loop]. unfold DispatchCycle. set (total := (num_shards_ w * 3)%nat).
  rewrite (proj2 (Nat.eqb_neq total 0)) by lia. set (idxs := _ <$> _).
  destruct (dispatch_loop_spec idxs false w Hok) as (D1 & D2 & D3 & D4 & D5 & D6).
  { apply Forall_fmap, Forall_true. intros i. apply Nat.mod_upper_bound. lia. }
  destruct (dispatch_loop K reg idxs false w) as [any w1]. cbn [fst snd] in *. destruct any.
  - destruct (D5 eq_refl) as [?|Hlt]; [done|].
    destruct (IH ((cursor + 1) mod total)%nat w1 D1) as (w' & Hd & He & Hs); [lia|lia|].
    exists w'. split; [done|]. split; [done|]. by rewrite Hs.
  - destruct (D6 eq_refl) as (_ & -> & Hempty).
    assert (Hno : all_items w = []).
    { apply all_queues_empty. intros idx q Hi Hq. eapply Hempty; [|exact Hq]. by apply cycle_covers. }
    exists w. rewrite Hno, app_nil_r. done.
Qed.
End drain.

(** ** Publishing *)

Section publishing.
Context {QT QD QB : Type} `{!FifoQueue QT TickData} `{!FifoQueue QD DepthUpdateEvent} `{!FifoQueue QB BookTickerEvent}.
Context {K : Zmq} (reg : ChannelRegistry).
Abbreviation SQ := (ShardQueues QT QD QB).
Abbreviation PW := (PubWorker QT QD QB K).

(** The event is at the end of its queue, or it is counted as dropped. *)
Definition published_or_counted (p : Payload) (w w' : PW) : Prop :=
  (all_items w' ≡ₚ p :: all_items w /\ dropped_queue_count_ w' = dropped_queue_count_ w) \/
  (all_items w' = all_items w /\ dropped_queue_count_ w' = u64 (dropped_queue_count_ w + 1)).

Lemma replace_shard_ok p shard (q q' : SQ) (w : PW) :
  worker_ok reg w -> routable reg p -> shard_queues_ w !! shard = Some q -> shard_wf q' -> shard_items q' ≡ₚ p :: shard_items q ->
  let w' := set_queues (<[shard := q']> (shard_queues_ w)) w in
  worker_ok reg w' /\ num_shards_ w' = num_shards_ w /\ published_or_counted p w w'.
Proof.
  intros [Hq Hp Hi] Hr Hs Hw' Hperm w'.
  assert (Hall : all_items w' ≡ₚ p :: all_items w).
  { unfold all_items, w'. cbn [set_queues shard_queues_].
    rewrite (concat_insert_perm shard_items (<[shard := q']> (shard_queues_ w)) shard q' q p); [|apply list_lookup_insert_eq; by eapply lookup_lt_Some|done].
    rewrite list_insert_insert_eq, list_insert_id by done. done. }
  split; [split|split].
  - cbn. by apply Forall_insert.
  - done.
  - rewrite Hall. by constructor.
  - unfold num_shards_, w'. cbn. by rewrite length_insert.
  - by left.
Qed.

Lemma count_drop_ok p (w : PW) :
  worker_ok reg w -> worker_ok reg (count_queue_drop K w) /\ num_shards_ (count_queue_drop K w) = num_shards_ w /\
    published_or_counted p w (count_queue_drop K w).
Proof. intros [Hq Hp Hi]. split; [by split|]. split; [done|]. by right. Qed.

(** Pushing to a well-formed queue: appended, or refused because it is full. *)
Lemma push_cases {Q A} `{!FifoQueue Q A} (q : Q) (x : A) :
  fq_wf q -> (exists q', fq_push x q = (true, q') /\ fq_wf q' /\ fq_contents q' = fq_contents q ++ [x]) \/ fq_push x q = (false, q).
Proof.
  intros Hw. pose proof (fq_bounded q Hw). destruct (decide (length (fq_contents q) = fq_cap)) as [He|Hne].
  - right. by apply fq_push_full.
  - left. apply fq_push_room; [done|lia].
Qed.

(** A publish on an existing shard keeps the worker well formed; no event vanishes uncounted. *)
Lemma publish_ok p shard (w : PW) :
  worker_ok reg w -> routable reg p -> (shard < num_shards_ w)%nat ->
  let w' := match p with
            | TickPayload t => PublishTick K t shard w
            | DepthPayload e => PublishDepth K e shard w
            | BookTickerPayload e => PublishBookTicker K e shard w
            end in
  worker_ok reg w' /\ num_shards_ w' = num_shards_ w /\ published_or_counted p w w'.
Proof.
  intros Hok Hr Hs w'. destruct (lookup_lt_is_Some_2 (shard_queues_ w) shard Hs) as [q Hq].
  pose proof (Forall_lookup_1 _ _ _ _ (wk_queues _ _ Hok) Hq) as (W1 & W2 & W3).
  assert (Hmid : forall (a b c : list Payload) x, a ++ (b ++ [x]) ++ c ≡ₚ x :: a ++ b ++ c).
  { intros a b c x. rewrite <- app_assoc, !(app_assoc a). symmetry. apply Permutation_middle. }
  destruct p as [t|e|e]; unfold w', PublishTick, PublishDepth, PublishBookTicker; rewrite Hq.
  - destruct (push_cases (q_tick q) t W1) as [(q' & -> & Hw & Hc)|Hfull]; [|rewrite Hfull; by apply count_drop_ok].
    apply (replace_shard_ok _ shard q); try done. unfold shard_items. cbn [queue_items q_tick q_depth q_book_ticker].
    rewrite Hc, fmap_app. apply (Hmid []).
  - destruct (push_cases (q_depth q) e W2) as [(q' & -> & Hw & Hc)|Hfull]; [|rewrite Hfull; by apply count_drop_ok].
    apply (replace_shard_ok _ shard q); try done. unfold shard_items. cbn [queue_items q_tick q_depth q_book_ticker].
    rewrite Hc, fmap_app. apply Hmid.
  - destruct (push_cases (q_book_ticker q) e W3) as [(q' & -> & Hw & Hc)|Hfull]; [|rewrite Hfull; by apply count_drop_ok].
    apply (replace_shard_ok _ shard q); try done. unfold shard_items. cbn [queue_items q_tick q_depth q_book_ticker].
    rewrite Hc, fmap_app, !app_assoc. symmetry. apply Permutation_cons_append.
Qed.
End publishing.

(** Draining at shutdown sends everything: with a transport that keeps up, [DrainAll] ends (after at most one
    more cycle than there are queued events), all queues of all shards are empty, and every queued event has
    been sent exactly once. The queued events are on channels the registry routes; the queues are any FIFO
    queues of the class. *)
Theorem drain_sends_all {QT QD QB} `{!FifoQueue QT TickData} `{!FifoQueue QD DepthUpdateEvent}
    `{!FifoQueue QB BookTickerEvent} {K : Zmq} `{!KeepsUp K} (reg : ChannelRegistry) (fuel : nat)
    (w : PubWorker QT QD QB K) :
  worker_ok reg w -> (0 < num_shards_ w)%nat -> (length (all_items w) < fuel)%nat ->
  exists w', DrainAll K reg fuel w = Some w' /\ all_items w' = [] /\
    z_sent (pub_socket_ w') ≡ₚ z_sent (pub_socket_ w) ++ all_items w.
Proof. apply drain_loop_sends. Qed.

(** ** One queue, two producers

    Every parser thread publishes to the queue of its own shard
    (src/exchange/crypto/crypto_factory.cpp:74), and the Rithmic forwarder
    thread publishes to shard 0 (src/exchange/rithmic/rithmic_process_manager.cpp:192):
    the queues of shard 0 have two producers. *)

(** Source: src/exchange/rithmic/rithmic_process_manager.cpp:192-192, RithmicProcessManager::Setup (shard of the dispatcher). *)
Definition rithmic_shard_idx : nat := 0.

(** Source: src/exchange/crypto/crypto_factory.cpp:74-74, BuildParserPool (shard of the dispatcher). *)
Definition parser_shard_idx (i : nat) : nat := i.

Section two_producers.
Context {A : Type} `{Inhabited A} (k : Z) (Hk : 0 <= k <= 63).

Record shared_state := mkShared { sh_q : SPSCQueue A; sh_p1 : producer_pc (A := A); sh_p2 : producer_pc (A := A) }.

(** Either producer takes a step of [try_push]; the consumer rests. *)
Inductive shared_step : shared_state -> option (fifo_event A) -> shared_state -> Prop :=
| sh_first q p1 p2 e q' p1' :
    spsc_step k (mkState q p1 CIdle) e (mkState q' p1' CIdle) ->
    shared_step (mkShared q p1 p2) e (mkShared q' p1' p2)
| sh_second q p1 p2 e q' p2' :
    spsc_step k (mkState q p2 CIdle) e (mkState q' p2' CIdle) ->
    shared_step (mkShared q p1 p2) e (mkShared q' p1 p2').

Inductive shared_run : shared_state -> list (fifo_event A) -> shared_state -> Prop :=
| sh_nil s : shared_run s [] s
| sh_silent s s1 tr s2 : shared_step s None s1 -> shared_run s1 tr s2 -> shared_run s tr s2
| sh_event s e s1 tr s2 : shared_step s (Some e) s1 -> shared_run s1 tr s2 -> shared_run s (e :: tr) s2.

Lemma two_producers_race (q : SPSCQueue A) R l x y :
  rep k q R l -> Z.of_nat (length l) < kCapacity k ->
  exists q', shared_run (mkShared q PIdle PIdle) [EvPush x; EvPush y] (mkShared q' PIdle PIdle) /\ rep k q' R (l ++ [y]).
Proof using Hk.
  intros Hr Hl. pose proof (try_push_rep k Hk q R l y Hr) as Hp.
  rewrite (proj2 (Nat.ltb_lt _ _)) in Hp by lia. destruct Hp as (q1 & Hq1 & Hr1).
  unfold try_push in Hq1. destruct q as [s w r]. cbn in Hq1.
  destruct (Z.leb_spec (kCapacity k) (u64 (w - r))) as [Hle|Hlt]; [done|]. injection Hq1 as <-.
  exists (mkSPSC (<[slot_of k w := y]> s) (u64 (w + 1)) r). split; [|exact Hr1].
  eapply sh_silent; [apply sh_first, (st_push_call k _ _ x)|].
  eapply sh_silent; [apply sh_second, (st_push_call k _ _ y)|].
  eapply sh_silent; [apply sh_first, st_push_load; exact Hlt|].
  eapply sh_silent; [apply sh_second, st_push_load; exact Hlt|].
  eapply sh_silent; [apply sh_first, st_push_slot|].
  eapply sh_event; [apply sh_first, st_push_publish|].
  eapply sh_silent; [apply sh_second, st_push_slot|].
  eapply sh_event; [apply sh_second, st_push_publish|].
  cbn [write_pos_]. rewrite list_insert_insert_eq. constructor.
Qed.
End two_producers.

(** Sharing shard 0 breaks the single-producer contract: when a parser thread and the Rithmic forwarder push to
    the same queue at the same time, both pushes can report success while only one event is in the queue, however
    much room it has. *)
Theorem shared_shard_loses_event (q : SPSCQueue TickData) R l x y :
  rep 12 q R l -> Z.of_nat (length l) < kCapacity 12 ->
  rithmic_shard_idx = parser_shard_idx 0 /\
  exists q', shared_run 12 (mkShared q PIdle PIdle) [EvPush x; EvPush y] (mkShared q' PIdle PIdle) /\
    rep 12 q' R (l ++ [y]).
Proof. intros Hr Hl. split; [reflexivity|]. by apply two_producers_race. Qed.

(** *** Witnesses *)

Lemma shared_shard_loses_event_witness :
  rithmic_shard_idx = parser_shard_idx 0 /\
  exists q', shared_run 12 (mkShared (spsc0 12) PIdle PIdle) [EvPush tick0; EvPush tick0] (mkShared q' PIdle PIdle) /\
    rep 12 q' 0 [tick0].
Proof. apply (shared_shard_loses_event (spsc0 12) 0 [] tick0 tick0); [apply spsc0_rep; lia|reflexivity]. Defined.

(** A socket that records what it is given and releases buffers at once. *)
Definition log_socket : Zmq := mkZmq (list Payload) (fun _ s => (true, s)) (fun p s => (true, s ++ [p]))
  (fun s => (seq 0 64, s)).

#[export] Instance log_socket_keeps_up : KeepsUp log_socket.
Proof.
  refine (Build_KeepsUp log_socket id _ _ _ _); try done.
  intros s i Hi. apply elem_of_seq. change (Z.to_nat kPoolSize) with 64%nat in Hi. lia.
Defined.

Lemma one_bit : 0 <= 1 <= 63.
Proof. lia. Qed.

#[local] Instance demo_tick_queue : FifoQueue (SPSCQueue TickData) TickData := spsc_fifo 1 one_bit.
#[local] Instance demo_depth_queue : FifoQueue (SPSCQueue DepthUpdateEvent) DepthUpdateEvent := spsc_fifo 1 one_bit.
#[local] Instance demo_ticker_queue : FifoQueue (SPSCQueue BookTickerEvent) BookTickerEvent := spsc_fifo 1 one_bit.

Definition demo_info : ChannelInfo := mkChannel 5 "binance" Spot "BTCUSDT" 20 "binance:spot:BTCUSDT".
Definition demo_reg : ChannelRegistry := {[ 5 := demo_info ]}.
Definition tick_on (channel id : Z) : TickData := mkTick 1 0 id dzero dzero channel symbol0 false (replicate 3 NUL).

Definition demo_worker : PubWorker (SPSCQueue TickData) (SPSCQueue DepthUpdateEvent) (SPSCQueue BookTickerEvent) log_socket :=
  mkWorker (K := log_socket) [mkShardQueues (spsc0 1) (spsc0 1) (spsc0 1)] pool0 0 0 0 [].

Definition publish_ticks (ts : list TickData) :=
  foldl (fun w t => PublishTick log_socket t 0 w) demo_worker ts.

Lemma demo_queue_ok : fq_wf (spsc0 1 : SPSCQueue TickData) /\ fq_contents (spsc0 1 : SPSCQueue TickData) = [].
Proof. apply (rep_wf 1 one_bit _ 0), spsc0_rep, one_bit. Qed.

Definition demo_ticks : list TickData := [tick_on 5 1; tick_on 5 2].

Lemma demo_worker_ok : worker_ok demo_reg demo_worker.
Proof.
  split; [|by split|].
  - constructor; [|constructor]. split_and!; apply (rep_wf 1 one_bit _ 0 []), spsc0_rep, one_bit.
  - constructor.
Qed.

Lemma publish_ticks_ok ts :
  Forall (fun t => routable demo_reg (TickPayload t)) ts ->
  worker_ok demo_reg (publish_ticks ts) /\ num_shards_ (publish_ticks ts) = 1%nat /\
  (length (all_items (publish_ticks ts)) <= length ts)%nat.
Proof.
  unfold publish_ticks. induction ts as [|t ts IH] using rev_ind; intros Hr; [split; [apply demo_worker_ok|done]|].
  apply Forall_app in Hr as [Hts Ht]. apply Forall_inv in Ht. destruct (IH Hts) as (I1 & I2 & I3).
  rewrite foldl_snoc, length_app. cbn [length].
  destruct (publish_ok demo_reg (TickPayload t) 0 _ I1 Ht) as (P1 & P2 & P3); [rewrite I2; lia|]. cbn beta iota zeta in *.
  split; [exact P1|]. split; [by rewrite P2|]. destruct P3 as [[P3 _]|[P3 _]].
  - apply Permutation_length in P3. cbn [length] in P3. lia.
  - rewrite P3. lia.
Qed.

Lemma drain_sends_all_witness :
  exists w', DrainAll log_socket demo_reg 10 (publish_ticks demo_ticks) = Some w' /\ all_items w' = [] /\
    z_sent (pub_socket_ w') ≡ₚ z_sent (pub_socket_ (publish_ticks demo_ticks)) ++ all_items (publish_ticks demo_ticks).
Proof.
  destruct (publish_ticks_ok demo_ticks) as (H1 & H2 & H3).
  { repeat constructor; eexists; reflexivity. }
  apply (drain_sends_all demo_reg 10 (publish_ticks demo_ticks)); [exact H1|rewrite H2; lia|].
  cbn [length demo_ticks] in H3. lia.
Defined.

(** Without routability the drain can stop early: an event popped but not sent
    counts as an idle queue, and the tick behind it stays queued. *)
Example drain_stops_early :
  (fun w : PubWorker (SPSCQueue TickData) (SPSCQueue DepthUpdateEvent) (SPSCQueue BookTickerEvent) log_socket =>
     (pub_socket_ w : list Payload, (fun q => fq_contents (q_tick q)) <$> shard_queues_ w))
    <$> DrainAll log_socket demo_reg 10 (publish_ticks [tick_on 6 1; tick_on 5 2]) = Some ([], [[tick_on 5 2]]).
Proof. vm_compute. reflexivity. Qed.
