(* ===== verification/BufferPool.v ===== *)
(** * The buffer pool between two threads

    The publisher thread takes a buffer of [ZmqBufferPool] (src/pubsub/zmq_buffer_pool.cpp),
    fills it and hands it to ZeroMQ without a copy; the I/O thread of ZeroMQ reads it when
    it transmits the message and gives it back with [Release].  [PubWorker] looks at what
    was given back only between two sends; here the two threads interleave at every
    atomic access: the counter, the compare-and-exchange of each slot, the copy into the
    buffer, the hand-over, the transmission and the release.  ZeroMQ may transmit a message
    any number of times (once per subscriber) or drop it. *)
From S2P Require Import Prelude Doubles Events SpscQueue Exchange PubWorker.

(** Where the publisher is: between sends; about to count, after a number of attempts; about to exchange the flag of a slot;
    about to fill the slot it got; about to send. *)
Inductive SendPc :=
  | SIdle
  | SCount (attempt : nat) (p : Payload)
  | SExchange (attempt idx : nat) (p : Payload)
  | SFill (idx : nat) (p : Payload)
  | SHandOver (idx : nat) (p : Payload).

(** Source: src/pubsub/zmq_buffer_pool.h:35-38, ZmqBufferPool::Slot. *)
Record Slot := mkSlot { slot_data : option Payload; slot_in_use : bool }.

(** The pool, the threads, the messages ZeroMQ holds with what was sent in them, and what went over the wire.
    [seen]: the slots that this scan found in use. *)
Record PoolState := mkPoolState {
  slots : list Slot;
  counter : Z;
  sender : SendPc;
  held : gmap nat Payload;
  wire : list Payload;
  handed : list Payload;
  seen : list nat
}.

Definition pool_size : nat := Z.to_nat kPoolSize.

Inductive PoolLabel :=
  | LSend (p : Payload)          (* the publisher enters SendTyped *)
  | LPub (accepted : bool)       (* its next access; whether the socket takes the message *)
  | LTransmit (idx : nat)        (* the I/O thread reads a buffer *)
  | LRelease (idx : nat).        (* it is done with a message *)

(** Source: src/pubsub/zmq_buffer_pool.cpp:5-14, ZmqBufferPool::Acquire (steps).
    With the copy and the hand-over of SendTyped; a refused message is destroyed, which releases its slot. *)
Definition exec_send (accepted : bool) (s : PoolState) : option PoolState :=
  match sender s with
  | SIdle => None
  | SCount attempt p =>
      if (attempt <? pool_size)%nat
      then Some (mkPoolState (slots s) (u64 (counter s + 1)) (SExchange (S attempt) (Z.to_nat (counter s mod kPoolSize)) p)
                   (held s) (wire s) (handed s) (seen s))
      else Some (mkPoolState (slots s) (counter s) SIdle (held s) (wire s) (handed s) (seen s))
  | SExchange attempt idx p =>
      match slots s !! idx with
      | Some (mkSlot d true) => Some (mkPoolState (slots s) (counter s) (SCount attempt p) (held s) (wire s) (handed s) (idx :: seen s))
      | Some (mkSlot d false) =>
          Some (mkPoolState (<[idx := mkSlot d true]> (slots s)) (counter s) (SFill idx p) (held s) (wire s) (handed s) (seen s))
      | None => None
      end
  | SFill idx p =>
      Some (mkPoolState (<[idx := mkSlot (Some p) true]> (slots s)) (counter s) (SHandOver idx p) (held s) (wire s) (handed s) (seen s))
  | SHandOver idx p =>
      if accepted
      then Some (mkPoolState (slots s) (counter s) SIdle (<[idx := p]> (held s)) (wire s) (handed s ++ [p]) (seen s))
      else Some (mkPoolState (<[idx := mkSlot (Some p) false]> (slots s)) (counter s) SIdle (held s) (wire s) (handed s) (seen s))
  end.

(** Source: src/pubsub/zmq_buffer_pool.cpp:16-20, ZmqBufferPool::Release (step). *)
Definition exec_release (idx : nat) (s : PoolState) : option PoolState :=
  match held s !! idx, slots s !! idx with
  | Some _, Some sl =>
      Some (mkPoolState (<[idx := mkSlot (slot_data sl) false]> (slots s)) (counter s) (sender s) (delete idx (held s)) (wire s) (handed s) (seen s))
  | _, _ => None
  end.

(** The bytes on the wire are those in the buffer at that moment. *)
Definition exec_transmit (idx : nat) (s : PoolState) : option PoolState :=
  match held s !! idx, slots s !! idx with
  | Some _, Some (mkSlot (Some p) _) => Some (mkPoolState (slots s) (counter s) (sender s) (held s) (wire s ++ [p]) (handed s) (seen s))
  | _, _ => None
  end.

Definition pool_exec (l : PoolLabel) (s : PoolState) : option PoolState :=
  match l with
  | LSend p => match sender s with
               | SIdle => Some (mkPoolState (slots s) (counter s) (SCount 0 p) (held s) (wire s) (handed s) [])
               | _ => None
               end
  | LPub accepted => exec_send accepted s
  | LTransmit idx => exec_transmit idx s
  | LRelease idx => exec_release idx s
  end.

Definition pool_step (s s' : PoolState) : Prop := exists l, pool_exec l s = Some s'.
Definition pool_init : PoolState := mkPoolState (replicate pool_size (mkSlot None false)) 0 SIdle ∅ [] [] [].

(** ** Ownership *)

(** The slot the publisher has taken. *)
Definition owned_slot (pc : SendPc) : option nat := match pc with SFill idx _ | SHandOver idx _ => Some idx | _ => None end.

(** The slots that [n] attempts up to a counter value have tried. *)
Definition tried (next : Z) (n : nat) : list nat := (fun j => Z.to_nat ((next - 1 - Z.of_nat j) mod kPoolSize)) <$> seq 0 n.

Record pool_inv (s : PoolState) : Prop := {
  pi_length : length (slots s) = pool_size;
  pi_counter : 0 <= counter s;
  pi_held : forall i p, held s !! i = Some p -> slots s !! i = Some (mkSlot (Some p) true) /\ owned_slot (sender s) <> Some i;
  pi_owned : forall i, owned_slot (sender s) = Some i -> exists d, slots s !! i = Some (mkSlot d true);
  pi_filled : forall i p, sender s = SHandOver i p -> slots s !! i = Some (mkSlot (Some p) true);
  pi_busy : forall i d, slots s !! i = Some (mkSlot d true) -> owned_slot (sender s) = Some i \/ is_Some (held s !! i);
  pi_wire : forall p, p ∈ wire s -> p ∈ handed s;
  pi_handed : forall i p, held s !! i = Some p -> p ∈ handed s;
  pi_scan : match sender s with
            | SCount n _ => (n <= pool_size)%nat /\ seen s = tried (counter s) n
            | SExchange n idx _ => (0 < n <= pool_size)%nat /\ idx :: seen s = tried (counter s) n
            | _ => True
            end
}.

Lemma tried_S next n : 0 <= next -> tried (u64 (next + 1)) (S n) = Z.to_nat (next mod kPoolSize) :: tried next n.
Proof.
  intros Hn. unfold tried. cbn [seq fmap list_fmap]. f_equal.
  - f_equal. rewrite Z.sub_0_r. unfold kPoolSize. rewrite <- (Zminus_mod_idemp_l (u64 _)). change 64 with (2 ^ 6).
    rewrite (wrap_mod_pow2 6 64) by lia. rewrite Zminus_mod_idemp_l. f_equal. lia.
  - rewrite <- fmap_S_seq, <- list_fmap_compose. apply list_fmap_ext. intros _ j _. cbn. f_equal. unfold kPoolSize.
    rewrite <- Z.sub_add_distr, <- (Zminus_mod_idemp_l (u64 _)). change 64 with (2 ^ 6). rewrite (wrap_mod_pow2 6 64) by lia.
    rewrite Zminus_mod_idemp_l. f_equal. lia.
Qed.

(** A full scan has tried every slot. *)
Lemma tried_all next i : (i < pool_size)%nat -> i ∈ tried next pool_size.
Proof.
  intros Hi. unfold tried, pool_size, kPoolSize in *. apply list_elem_of_fmap.
  exists (Z.to_nat ((next - 1 - Z.of_nat i) mod 64)). pose proof (Z.mod_pos_bound (next - 1 - Z.of_nat i) 64 ltac:(lia)). split.
  - rewrite Z2Nat.id by lia. rewrite Zminus_mod_idemp_r. replace (next - 1 - (next - 1 - Z.of_nat i)) with (Z.of_nat i) by lia.
    rewrite Z.mod_small by lia. lia.
  - apply elem_of_seq. lia.
Qed.

(** A step of the publisher that leaves slots and messages alone. *)
Lemma pool_keep s counter' pc' seen' :
  pool_inv s -> 0 <= counter' -> owned_slot (sender s) = None -> owned_slot pc' = None ->
  match pc' with
  | SCount n _ => (n <= pool_size)%nat /\ seen' = tried counter' n
  | SExchange n idx _ => (0 < n <= pool_size)%nat /\ idx :: seen' = tried counter' n
  | _ => True
  end ->
  pool_inv (mkPoolState (slots s) counter' pc' (held s) (wire s) (handed s) seen').
Proof.
  intros HI Hc Ho Ho' Hs. destruct HI as [H1 H2 H3 H4 H5 H6 H7 H8 H9]. rewrite Ho in *. split; cbn; rewrite ?Ho'; try done.
  intros i p ->. by cbn in Ho'.
Qed.

Lemma exec_send_inv accepted s s' : pool_inv s -> exec_send accepted s = Some s' -> pool_inv s'.
Proof.
  intros HI. pose proof HI as [H1 H2 H3 H4 H5 H6 H7 H8 H9]. unfold exec_send. destruct (sender s) as [|n p|n idx p|idx p|idx p] eqn:Es.
  - done.
  - destruct H9 as [Hn Hs]. destruct (Nat.ltb_spec n pool_size); intros [= <-].
    + apply pool_keep; try done; [apply wrap_range; lia|by rewrite Es|]. split; [lia|]. rewrite tried_S by done. by rewrite Hs.
    + apply pool_keep; try done. by rewrite Es.
  - destruct H9 as [Hn Hs]. destruct (slots s !! idx) as [[d []]|] eqn:Ei; [| |done]; intros [= <-].
    + apply pool_keep; try done; [by rewrite Es|]. split; [lia|done].
    + pose proof (lookup_lt_Some _ _ _ Ei) as Hlt. split; cbn; try done.
      * by rewrite length_insert.
      * intros i q Hq. destruct (H3 i q Hq) as [Hd _].
        assert (i <> idx) by (intros ->; congruence). by rewrite list_lookup_insert_ne; [split; [done|congruence]|congruence].
      * intros i [= <-]. exists d. by apply list_lookup_insert_eq.
      * intros i d'. destruct (decide (i = idx)) as [->|Hne]; [by left|]. rewrite list_lookup_insert_ne by congruence.
        intros [Hx|Hx]%H6; [done|by right].
  - destruct (H4 idx eq_refl) as [d Ei]. pose proof (lookup_lt_Some _ _ _ Ei) as Hlt. intros [= <-]. split; cbn; try done.
    + by rewrite length_insert.
    + intros i q Hq. destruct (H3 i q Hq) as [Hd Hne]. split; [|done]. by rewrite list_lookup_insert_ne by (cbn in Hne; congruence).
    + intros i [= <-]. exists (Some p). by apply list_lookup_insert_eq.
    + intros i q [= <- <-]. by apply list_lookup_insert_eq.
    + intros i d'. destruct (decide (i = idx)) as [->|Hne]; [by left|]. rewrite list_lookup_insert_ne by congruence. apply H6.
  - pose proof (H5 idx p eq_refl) as Ei. pose proof (lookup_lt_Some _ _ _ Ei) as Hlt. destruct accepted; intros [= <-]; split; cbn; try done.
    + intros i q. destruct (decide (i = idx)) as [->|Hne]; [rewrite lookup_insert_eq; by intros [= <-]|].
      rewrite lookup_insert_ne by congruence. intros Hq. by destruct (H3 i q Hq).
    + intros i d' Hi. right. destruct (decide (i = idx)) as [->|Hne]; [rewrite lookup_insert_eq; by eexists|].
      rewrite lookup_insert_ne by congruence. destruct (H6 i d' Hi) as [[= Hx]|Hx]; [congruence|done].
    + intros q Hq. apply elem_of_app. left. by apply H7.
    + intros i q. rewrite elem_of_app, list_elem_of_singleton. destruct (decide (i = idx)) as [->|Hne]; [rewrite lookup_insert_eq; intros [= ->]; by right|].
      rewrite lookup_insert_ne by congruence. intros Hq%H8. by left.
    + by rewrite length_insert.
    + intros i q Hq. destruct (H3 i q Hq) as [Hd Hne]. split; [|done]. by rewrite list_lookup_insert_ne by (cbn in Hne; congruence).
    + intros i d'. destruct (decide (i = idx)) as [->|Hne]; [rewrite list_lookup_insert_eq by done; congruence|].
      rewrite list_lookup_insert_ne by congruence. intros [[= Hx]|Hx]%H6; [congruence|by right].
Qed.

Lemma exec_release_inv idx s s' : pool_inv s -> exec_release idx s = Some s' -> pool_inv s'.
Proof.
  intros [H1 H2 H3 H4 H5 H6 H7 H8 H9]. unfold exec_release. destruct (held s !! idx) as [p|] eqn:Eh; [|done].
  destruct (slots s !! idx) as [sl|] eqn:Ei; [|done]. pose proof (lookup_lt_Some _ _ _ Ei) as Hlt. destruct (H3 idx p Eh) as [_ Hno].
  intros [= <-]. split; cbn; try done.
  - by rewrite length_insert.
  - intros i q. destruct (decide (i = idx)) as [->|Hne]; [by rewrite lookup_delete_eq|]. rewrite lookup_delete_ne by congruence.
    rewrite list_lookup_insert_ne by congruence. apply H3.
  - intros i Hi. rewrite list_lookup_insert_ne by congruence. by apply H4.
  - intros i q Hi. rewrite list_lookup_insert_ne; [by apply H5|]. rewrite Hi in Hno. cbn in Hno. congruence.
  - intros i d'. destruct (decide (i = idx)) as [->|Hne]; [rewrite list_lookup_insert_eq by done; congruence|].
    rewrite list_lookup_insert_ne, lookup_delete_ne by congruence. apply H6.
  - intros i q. destruct (decide (i = idx)) as [->|Hne]; [by rewrite lookup_delete_eq|]. rewrite lookup_delete_ne by congruence. apply H8.
Qed.

Lemma exec_transmit_inv idx s s' : pool_inv s -> exec_transmit idx s = Some s' -> pool_inv s'.
Proof.
  intros [H1 H2 H3 H4 H5 H6 H7 H8 H9]. unfold exec_transmit. destruct (held s !! idx) as [p|] eqn:Eh; [|done].
  destruct (H3 idx p Eh) as [-> _]. intros [= <-]. split; cbn; try done.
  intros q. rewrite elem_of_app, list_elem_of_singleton. intros [Hq| ->]; [by apply H7|by apply (H8 idx)].
Qed.

Lemma pool_reachable_inv s : rtc pool_step pool_init s -> pool_inv s.
Proof.
  intros H. refine (rtc_invariant _ _ _ _ _ H _).
  - intros a b HI [l He]. destruct l as [p|acc|idx|idx]; cbn in He.
    + destruct (sender a) eqn:Es; try done. injection He as <-. apply pool_keep; try done; [apply HI|by rewrite Es|]. split; [lia|done].
    + by eapply exec_send_inv.
    + by eapply exec_transmit_inv.
    + by eapply exec_release_inv.
  - assert (Hf : forall i x, pool_init.(slots) !! i = Some x -> x = mkSlot None false)
      by (intros i x Hx; by apply lookup_replicate_1 in Hx as [-> _]).
    split; cbn [pool_init slots counter sender held wire handed seen]; try done; try (by intros i p ?%lookup_empty_Some).
    intros i d Hi. by apply Hf in Hi.
Qed.

(** The next access of the publisher gives up. *)
Definition exhausted (s : PoolState) : Prop := exists p, sender s = SCount pool_size p.

(** C24: Buffers are never shared.  However the publisher and the I/O thread of ZeroMQ interleave, a message that ZeroMQ holds
    has its own slot, whose data is what was handed over, until it is released; what goes over the wire was handed over; a
    slot is in use only while ZeroMQ holds it or the publisher fills it, so none is ever lost; and [Acquire] gives up only after
    it has found every slot of the pool in use. *)
Theorem buffers_never_shared (s : PoolState) :
  rtc pool_step pool_init s ->
  (forall i p, held s !! i = Some p -> slots s !! i = Some (mkSlot (Some p) true) /\ owned_slot (sender s) <> Some i) /\
  (forall p, p ∈ wire s -> p ∈ handed s) /\
  (forall i d, slots s !! i = Some (mkSlot d true) -> owned_slot (sender s) = Some i \/ is_Some (held s !! i)) /\
  (exhausted s -> forall i, (i < pool_size)%nat -> i ∈ seen s).
Proof.
  intros H%pool_reachable_inv. split; [apply (pi_held _ H)|]. split; [apply (pi_wire _ H)|]. split; [apply (pi_busy _ H)|].
  intros [p Hp] i Hi. pose proof (pi_scan _ H) as Hs. rewrite Hp in Hs. destruct Hs as [_ ->]. by apply tried_all.
Qed.

(** *** Witness *)

Fixpoint pool_run (ls : list PoolLabel) (s : PoolState) : option PoolState :=
  match ls with [] => Some s | l :: ls => match pool_exec l s with Some s => pool_run ls s | None => None end end.
Lemma pool_run_steps ls s s' : pool_run ls s = Some s' -> rtc pool_step s s'.
Proof.
  revert s. induction ls as [|l ls IH]; intros s; cbn [pool_run]; [intros [= <-]; constructor|].
  destruct (pool_exec l s) as [s1|] eqn:E; [|done]. intros H. eapply rtc_l; [by exists l|eauto].
Qed.

Definition send_one : list PoolLabel := LSend (TickPayload tick0) :: replicate 4 (LPub true).
(** 64 messages are in flight and a 65th is tried. *)
Definition full_pool : list PoolLabel := concat (replicate pool_size send_one) ++ LSend (TickPayload tick0) :: replicate 128 (LPub true).
Definition full_and_tried (s : PoolState) : bool :=
  (size (held s) =? pool_size)%nat && match sender s with SCount n _ => (n =? pool_size)%nat | _ => false end.
Lemma full_pool_run : from_option full_and_tried false (pool_run full_pool pool_init) = true.
Proof. vm_compute. reflexivity. Qed.

Lemma buffers_never_shared_witness :
  exists s, rtc pool_step pool_init s /\ size (held s) = pool_size /\ exhausted s /\ forall i, (i < pool_size)%nat -> i ∈ seen s.
Proof.
  pose proof full_pool_run as H. destruct (pool_run full_pool pool_init) as [s|] eqn:E; [|discriminate H]. cbn in H.
  apply andb_prop in H as [H1%Nat.eqb_eq H2].
  assert (Hx : exhausted s) by (unfold exhausted; destruct (sender s) as [|n p| | |]; try discriminate H2; apply Nat.eqb_eq in H2 as ->; eexists; reflexivity).
  assert (Hs : rtc pool_step pool_init s) by (eapply pool_run_steps; exact E).
  exists s. split; [exact Hs|]. split; [exact H1|]. split; [exact Hx|]. destruct (buffers_never_shared s Hs) as (_ & _ & _ & H4). exact (H4 Hx).
Defined.
