(* ===== verification/PubRun.v ===== *)
(** * The life of the publisher

    [PubWorker::Run] (src/pubsub/pub_worker.cpp) dispatches until it is told to stop
    and then drains; meanwhile the parser threads publish.  The theorem accounts for
    every event that was published from the start to the end of a run. *)
From S2P Require Import Prelude Doubles Events Exchange Config SpscQueue PubWorker.

Section run.
Context {QT QD QB : Type} `{!FifoQueue QT TickData} `{!FifoQueue QD DepthUpdateEvent} `{!FifoQueue QB BookTickerEvent}.
Context (K : Zmq) (reg : ChannelRegistry).
Abbreviation PW := (PubWorker QT QD QB K).

(** Source: src/pubsub/pub_worker.cpp:32-43, PubWorker::PubWorker.
    One set of queues per parser core; [qt], [qd], [qb] are empty queues and [s] the new socket. *)
Definition pub_worker_new (c : RootConfig) (qt : QT) (qd : QD) (qb : QB) (s : Sock K) : PW :=
  mkWorker (replicate (length (th_parser_cores (rc_threading c))) (mkShardQueues qt qd qb)) pool0 0 0 0 s.

(** One publication: an event and the shard of the thread that publishes it. *)
Definition publish (x : Payload * nat) (w : PW) : PW :=
  match x.1 with
  | TickPayload t => PublishTick K t x.2 w
  | DepthPayload e => PublishDepth K e x.2 w
  | BookTickerPayload e => PublishBookTicker K e x.2 w
  end.
Definition publish_all (xs : list (Payload * nat)) (w : PW) : PW := foldl (fun w x => publish x w) w xs.

(** The dispatch loop: [running n] is the flag at the [n]-th test, [env n] what the parser threads do before it.
    The pauses of an idle loop are not modelled.  [None]: no queues, or still running after [rounds] rounds. *)
Fixpoint pub_loop (rounds cursor : nat) (running : nat -> bool) (env : nat -> PW -> PW) (w : PW) : option PW :=
  match rounds with
  | O => None
  | S k =>
      let w := env O w in
      if running O then
        match DispatchCycle K reg cursor false w with
        | Some (cursor, _, w) => pub_loop k cursor (fun n => running (S n)) (fun n => env (S n)) w
        | None => None
        end
      else Some w
  end.

(** Source: src/pubsub/pub_worker.cpp:194-237, PubWorker::Run.
    Binding the endpoints and logging are not modelled. *)
Definition PubRun (rounds fuel : nat) (running : nat -> bool) (env : nat -> PW -> PW) (w : PW) : option PW :=
  match pub_loop rounds 0 running env w with
  | Some w => DrainAll K reg fuel w
  | None => None
  end.

(** ** Accounting *)

(** Sending never touches the count of refused publications. *)
Lemma SendTyped_count p (w : PW) : dropped_queue_count_ (SendTyped K reg p w).2 = dropped_queue_count_ w.
Proof. unfold SendTyped. repeat case_match; simplify_eq; done. Qed.

Lemma TrySendOne_count i qt (w : PW) : dropped_queue_count_ (TrySendOne K reg i qt w).2 = dropped_queue_count_ w.
Proof. unfold TrySendOne. repeat (case_match; simplify_eq; try done); rewrite SendTyped_count; done. Qed.

Lemma dispatch_loop_count idxs any (w : PW) : dropped_queue_count_ (dispatch_loop K reg idxs any w).2 = dropped_queue_count_ w.
Proof.
  revert any w. induction idxs as [|idx idxs IH]; intros any w; cbn [dispatch_loop]; [done|].
  pose proof (TrySendOne_count (idx / 3) (idx mod 3) w) as H. destruct (TrySendOne _ _ _ _ w) as [sent w1]. cbn in H. by rewrite IH.
Qed.

Lemma DispatchCycle_count cursor any (w : PW) r :
  DispatchCycle K reg cursor any w = Some r -> dropped_queue_count_ r.2 = dropped_queue_count_ w.
Proof.
  unfold DispatchCycle. case_match; [done|]. set (idxs := _ <$> _). pose proof (dispatch_loop_count idxs any w) as Hcount.
  destruct (dispatch_loop K reg idxs any w) as [a w1]. intros [= <-]. exact Hcount.
Qed.

Lemma drain_loop_count fuel cursor (w w' : PW) :
  drain_loop K reg fuel cursor w = Some w' -> dropped_queue_count_ w' = dropped_queue_count_ w.
Proof.
  revert cursor w. induction fuel as [|fuel IH]; intros cursor w; cbn [drain_loop]; [done|].
  destruct (DispatchCycle K reg cursor false w) as [[[c any] w1]|] eqn:E; [|done]. apply DispatchCycle_count in E. cbn in E.
  destruct any; [intros H; by rewrite (IH _ _ H)|by intros [= <-]].
Qed.

Context `{!KeepsUp K}.

(** [account w pub w']: of the events [pub], the ones in [acc] are in the queues or sent, the others are counted. *)
Definition account (w : PW) (pub : list Payload) (w' : PW) : Prop :=
  worker_ok reg w' /\ num_shards_ w' = num_shards_ w /\
  exists acc refused, pub ≡ₚ acc ++ refused /\
    z_sent (pub_socket_ w') ++ all_items w' ≡ₚ z_sent (pub_socket_ w) ++ all_items w ++ acc /\
    dropped_queue_count_ w' = u64 (dropped_queue_count_ w + Z.of_nat (length refused)) /\
    (length (all_items w') <= length (all_items w) + length acc)%nat.

Lemma account_refl w : worker_ok reg w -> in_range 64 (dropped_queue_count_ w) -> account w [] w.
Proof.
  intros H Hr. split; [done|]. split; [done|]. exists [], []. rewrite (app_nil_r (all_items w)). split_and!; [done|done| |lia].
  cbn [length]. rewrite Z.add_0_r. symmetry. by apply wrap_small.
Qed.

Lemma account_trans w1 w2 w3 p q : account w1 p w2 -> account w2 q w3 -> account w1 (p ++ q) w3.
Proof.
  intros (_ & N1 & a1 & r1 & P1 & S1 & C1 & L1) (O2 & N2 & a2 & r2 & P2 & S2 & C2 & L2). split; [done|]. split; [congruence|].
  exists (a1 ++ a2), (r1 ++ r2). split_and!.
  - rewrite P1, P2. solve_Permutation.
  - rewrite S2, app_assoc, S1. solve_Permutation.
  - rewrite C2, C1, length_app. unfold wrap. rewrite Zplus_mod_idemp_l. f_equal. lia.
  - rewrite length_app. lia.
Qed.

Lemma publish_account x (w : PW) :
  worker_ok reg w -> in_range 64 (dropped_queue_count_ w) -> routable reg x.1 -> (x.2 < num_shards_ w)%nat -> account w [x.1] (publish x w).
Proof.
  intros Hok Hc Hr Hs.
  assert (Hsock : pub_socket_ (publish x w) = pub_socket_ w).
  { destruct x as [[t|e|e] i]; unfold publish, PublishTick, PublishDepth, PublishBookTicker; cbn; repeat case_match; done. }
  destruct (publish_ok reg x.1 x.2 w Hok Hr Hs) as (P1 & P2 & P3). fold (publish x w) in P1, P2, P3.
  split; [done|]. split; [done|]. rewrite Hsock. destruct P3 as [[Pi Pc]|[Pi Pc]].
  - exists [x.1], []. split; [done|]. split; [rewrite Pi; solve_Permutation|].
    split; [rewrite Pc; cbn [length]; rewrite Z.add_0_r; symmetry; by apply wrap_small|]. rewrite Pi. cbn. lia.
  - exists [], [x.1]. split; [done|]. split; [by rewrite Pi, app_nil_r|]. split; [by rewrite Pc|]. rewrite Pi. lia.
Qed.

Lemma publish_all_account xs (w : PW) :
  worker_ok reg w -> in_range 64 (dropped_queue_count_ w) -> Forall (fun x => routable reg x.1 /\ (x.2 < num_shards_ w)%nat) xs ->
  account w xs.*1 (publish_all xs w).
Proof.
  revert w. induction xs as [|x xs IH]; intros w Hok Hc Hf; [by apply account_refl|].
  apply Forall_cons in Hf as [[Hr Hs] Hf]. pose proof (publish_account x w Hok Hc Hr Hs) as Ha. cbn [publish_all foldl].
  rewrite fmap_cons. apply (account_trans _ (publish x w) _ [x.1]); [done|].
  destruct Ha as (O1 & N1 & a & r & _ & _ & C1 & _). apply IH; [done|rewrite C1; apply wrap_range; lia|].
  eapply Forall_impl; [exact Hf|]. intros y [Hy1 Hy2]. by rewrite N1.
Qed.

Lemma cycle_account cursor (w : PW) :
  worker_ok reg w -> in_range 64 (dropped_queue_count_ w) -> (0 < num_shards_ w)%nat ->
  exists c any w', DispatchCycle K reg cursor false w = Some (c, any, w') /\ account w [] w'.
Proof.
  intros Hok Hc Hn. destruct (DispatchCycle K reg cursor false w) as [[[c any] w']|] eqn:E.
  - exists c, any, w'. split; [done|]. pose proof (DispatchCycle_count _ _ _ _ E) as Hq. cbn in Hq. unfold DispatchCycle in E.
    destruct (Nat.eqb_spec (num_shards_ w * 3) 0); [lia|]. set (idxs := _ <$> _) in E.
    destruct (dispatch_loop_spec reg idxs false w Hok) as (D1 & D2 & D3 & D4 & _).
    { apply Forall_fmap, Forall_true. intros i. apply Nat.mod_upper_bound. lia. }
    destruct (dispatch_loop K reg idxs false w) as [a w1]. cbn [fst snd] in *. simplify_eq. split; [done|]. split; [done|].
    exists [], []. rewrite (app_nil_r (all_items w)). split_and!; [done|done| |cbn; lia]. rewrite Hq. cbn [length]. rewrite Z.add_0_r. symmetry. by apply wrap_small.
  - exfalso. unfold DispatchCycle in E. destruct (Nat.eqb_spec (num_shards_ w * 3) 0); [lia|]. by destruct (dispatch_loop _ _ _ _ _).
Qed.

Lemma pub_loop_account n rounds cursor running arrive (w : PW) :
  worker_ok reg w -> in_range 64 (dropped_queue_count_ w) -> (0 < num_shards_ w)%nat -> (n < rounds)%nat ->
  (forall i, (i < n)%nat -> running i = true) -> running n = false ->
  (forall i, Forall (fun x => routable reg x.1 /\ (x.2 < num_shards_ w)%nat) (arrive i)) ->
  exists w', pub_loop rounds cursor running (fun i => publish_all (arrive i)) w = Some w' /\
    account w (concat (arrive <$> seq 0 (S n))).*1 w'.
Proof.
  revert rounds cursor running arrive w. induction n as [|n IH]; intros rounds cursor running arrive w Hok Hc Hn Hr Ht Hf Ha;
    (destruct rounds as [|rounds]; [lia|]); cbn [pub_loop]; pose proof (publish_all_account (arrive 0%nat) w Hok Hc (Ha 0%nat)) as H1.
  - rewrite Hf. eexists. split; [done|]. cbn. by rewrite app_nil_r.
  - rewrite Ht by lia. assert (H1' := H1). destruct H1' as (O1 & N1 & a1 & r1 & _ & _ & C1 & _).
    destruct (cycle_account cursor (publish_all (arrive 0%nat) w)) as (c & any & w2 & Hcy & H2);
      [done|rewrite C1; apply wrap_range; lia|by rewrite N1|]. rewrite Hcy.
    assert (H2' := H2). destruct H2' as (O2 & N2 & a2 & r2 & _ & _ & C2 & _).
    destruct (IH rounds c (fun i => running (S i)) (fun i => arrive (S i)) w2) as (w' & Hl & H3); try done.
    { rewrite C2. apply wrap_range. lia. } { by rewrite N2, N1. } { lia. } { intros i Hi. apply Ht. lia. }
    { intros i. by rewrite N2, N1. }
    exists w'. split; [done|]. change (seq 0 (S (S n))) with (0%nat :: seq 1 (S n)). rewrite fmap_cons. cbn [concat]. rewrite fmap_app.
    assert (Hseq : arrive <$> seq 1 (S n) = (fun i => arrive (S i)) <$> seq 0 (S n)) by (rewrite <- fmap_S_seq, <- list_fmap_compose; done).
    rewrite Hseq. eapply account_trans; [exact H1|]. by apply (account_trans _ w2 _ []).
Qed.
End run.

(** ** Properties *)

(** C4: No event disappears silently in the publisher.  Over a whole run of the publisher thread, with a transport that keeps up: whatever
    the parsers publish between the dispatch cycles (on routable channels and existing shards), when the flag falls the
    loop ends, the final drain ends, every queue is empty, and each published event has been sent exactly once or was refused by
    a full queue and counted in [dropped_queue_count_]. *)
Theorem published_sent_or_counted {QT QD QB} `{!FifoQueue QT TickData} `{!FifoQueue QD DepthUpdateEvent}
    `{!FifoQueue QB BookTickerEvent} {K : Zmq} `{!KeepsUp K} (reg : ChannelRegistry) (n rounds fuel : nat) (running : nat -> bool)
    (arrive : nat -> list (Payload * nat)) (w : PubWorker QT QD QB K) :
  worker_ok reg w -> in_range 64 (dropped_queue_count_ w) -> (0 < num_shards_ w)%nat -> (n < rounds)%nat ->
  (forall i, (i < n)%nat -> running i = true) -> running n = false ->
  (forall i, Forall (fun x => routable reg x.1 /\ (x.2 < num_shards_ w)%nat) (arrive i)) ->
  (length (all_items w) + length (concat (arrive <$> seq 0 (S n))) < fuel)%nat ->
  exists w' acc refused, PubRun K reg rounds fuel running (fun i => publish_all K (arrive i)) w = Some w' /\
    (concat (arrive <$> seq 0 (S n))).*1 ≡ₚ acc ++ refused /\
    all_items w' = [] /\ z_sent (pub_socket_ w') ≡ₚ z_sent (pub_socket_ w) ++ all_items w ++ acc /\
    dropped_queue_count_ w' = u64 (dropped_queue_count_ w + Z.of_nat (length refused)).
Proof.
  intros Hok Hc Hn Hr Ht Hf Ha Hfuel.
  destruct (pub_loop_account K reg n rounds 0 running arrive w Hok Hc Hn Hr Ht Hf Ha) as (w1 & Hl & O1 & N1 & acc & refused & P & Hsent & C & Hlen).
  unfold PubRun. rewrite Hl. destruct (drain_loop_sends reg fuel 0 w1 O1) as (w' & Hd & He & Hs).
  { by rewrite N1. }
  { apply Permutation_length in P. rewrite length_fmap, length_app in P. lia. }
  exists w', acc, refused. split; [exact Hd|]. split; [done|]. split; [done|]. split; [by rewrite Hs, Hsent|].
  by rewrite (drain_loop_count K reg fuel 0 w1 w' Hd).
Qed.

(** A new publisher is well formed and has one shard per parser core. *)
Lemma pub_worker_new_ok {QT QD QB} `{!FifoQueue QT TickData} `{!FifoQueue QD DepthUpdateEvent} `{!FifoQueue QB BookTickerEvent}
    (K : Zmq) (reg : ChannelRegistry) (c : RootConfig) (qt : QT) (qd : QD) (qb : QB) (s : Sock K) :
  fq_wf qt /\ fq_contents qt = [] -> fq_wf qd /\ fq_contents qd = [] -> fq_wf qb /\ fq_contents qb = [] ->
  worker_ok reg (pub_worker_new K c qt qd qb s) /\ num_shards_ (pub_worker_new K c qt qd qb s) = length (th_parser_cores (rc_threading c)) /\
  all_items (pub_worker_new K c qt qd qb s) = [].
Proof.
  intros [W1 C1] [W2 C2] [W3 C3].
  assert (Hi : all_items (pub_worker_new K c qt qd qb s) = []).
  { unfold all_items, pub_worker_new. cbn [shard_queues_]. induction (length _) as [|n IH]; [done|]. cbn [replicate fmap list_fmap concat].
    rewrite IH. unfold shard_items, queue_items. cbn. by rewrite C1, C2, C3. }
  split; [split|split; [|done]].
  - cbn [pub_worker_new shard_queues_]. apply Forall_replicate. by split_and!.
  - split; [cbn; by rewrite length_replicate|done].
  - rewrite Hi. constructor.
  - unfold num_shards_. cbn. by rewrite length_replicate.
Qed.

(** *** Witness *)

#[local] Instance run_tick_queue : FifoQueue (SPSCQueue TickData) TickData := spsc_fifo 1 one_bit.
#[local] Instance run_depth_queue : FifoQueue (SPSCQueue DepthUpdateEvent) DepthUpdateEvent := spsc_fifo 1 one_bit.
#[local] Instance run_ticker_queue : FifoQueue (SPSCQueue BookTickerEvent) BookTickerEvent := spsc_fifo 1 one_bit.

(** Three ticks in the first round, for a queue of two. *)
Definition burst (i : nat) : list (Payload * nat) :=
  match i with O => [(TickPayload (tick_on 5 1), 0); (TickPayload (tick_on 5 2), 0); (TickPayload (tick_on 5 3), 0)]%nat | _ => [] end.

Lemma published_sent_or_counted_witness :
  exists w' acc refused,
    PubRun log_socket demo_reg 3 5 (fun i => (i <? 2)%nat) (fun i => publish_all log_socket (burst i)) demo_worker = Some w' /\
    (concat (burst <$> seq 0 3)).*1 ≡ₚ acc ++ refused /\ all_items w' = [] /\
    z_sent (pub_socket_ w') ≡ₚ acc /\ dropped_queue_count_ w' = u64 (Z.of_nat (length refused)).
Proof.
  destruct (published_sent_or_counted demo_reg 2 3 5 (fun i => (i <? 2)%nat) burst demo_worker)
    as (w' & acc & refused & H1 & H2 & H3 & H4 & H5); [exact demo_worker_ok|unfold in_range; cbn; lia|cbn; lia|lia| |reflexivity| |vm_compute; lia|].
  - intros i Hi. by apply Nat.ltb_lt.
  - intros [|i]; cbn [burst]; repeat constructor; cbn; (lia || (by eexists)).
  - exists w', acc, refused. split; [exact H1|]. split; [exact H2|]. split; [exact H3|]. split; [exact H4|exact H5].
Defined.
