(* ===== verification/Dispatcher.v ===== *)
(** * From a raw message to the sinks

    [DataDispatcher] (src/exchange/data_dispatcher.cpp) hands a parsed event to
    the storage router, the publisher and the telemetry slot of its shard;
    [ShardParserWorker] (src/exchange/crypto/shard_parser_worker.cpp) takes raw
    messages from the queue of a shard, parses them and hands the result to its
    dispatcher.  The JSON library is a parameter ([iterate]); the parse function
    travels with the message. *)
From S2P Require Import Prelude Doubles Events Csv SpscQueue Exchange ShardQueue TelemetrySlot Dolphin Router PubWorker.

(** ** The dispatcher *)

Section dispatcher.
Context {QT QD QB Doc : Type} `{!FifoQueue QT TickData} `{!FifoQueue QD DepthUpdateEvent} `{!FifoQueue QB BookTickerEvent}.
Context (K : Zmq) (reg : ChannelRegistry).

(** The process-wide sinks. *)
Record Sinks := mkSinks { sk_router : StorageRouter; sk_pub : PubWorker QT QD QB K }.

(** Source: src/exchange/data_dispatcher.h:22-25, DataDispatcher.
    The pointers with what they point to; [None] is the null pointer. *)
Record DataDispatcher := mkDispatcher {
  telemetry_slot : option TelemetrySlot;
  shard_queue : option (ShardQueue Doc);
  shard_idx : nat
}.

(** Source: src/exchange/data_dispatcher.h:32-34, DataDispatcher::NowNs. *)
Definition NowNs (k : Clock) : Z := u64 (steady_ns k).

(** Source: src/exchange/data_dispatcher.cpp:41-45, DataDispatcher::WriteTelemetry. *)
Definition WriteTelemetry (latency_ns : Z) (d : DataDispatcher) (h : Sinks) : DataDispatcher :=
  match telemetry_slot d with
  | None => d
  | Some s =>
      let q_depth := match shard_queue d with Some q => sq_size q | None => 0 end in
      mkDispatcher (Some (WriteTelemetrySlot s latency_ns q_depth 0 (dropped_count K (sk_pub h))))
        (shard_queue d) (shard_idx d)
  end.

Definition tick_with_latency (latency : Z) (t : TickData) : TickData :=
  mkTick (tk_exchange_timestamp t) latency (tk_trade_id t) (tk_price t) (tk_quantity t) (tk_channel_id t)
    (tk_symbol t) (tk_is_buyer_maker t) (replicate 3 NUL).
Definition ticker_with_latency (latency : Z) (e : BookTickerEvent) : BookTickerEvent :=
  mkBookTicker (bt_channel_id e) (bt_exchange_timestamp e) latency (bt_symbol e) (bt_best_bid_price e)
    (bt_best_bid_qty e) (bt_best_ask_price e) (bt_best_ask_qty e).

(** Source: src/exchange/data_dispatcher.cpp:11-20, DataDispatcher::OnTick.
    [None]: the storage call ends the process. *)
Definition OnTick (k : Clock) (t : TickData) (s : DataDispatcher * Sinks) : option (DataDispatcher * Sinks) :=
  let '(d, h) := s in
  match Lookup (tk_channel_id t) reg with
  | None => Some s
  | Some info =>
      let t := tick_with_latency (u64 (NowNs k - tk_local_diff t)) t in
      match RouteTick k t (sk_router h) with
      | None => None
      | Some r =>
          let h := mkSinks r (PublishTick K t (shard_idx d) (sk_pub h)) in
          Some (WriteTelemetry (tk_local_diff t) d h, h)
      end
  end.

(** Source: src/exchange/data_dispatcher.cpp:22-29, DataDispatcher::OnDepth. *)
Definition OnDepth (k : Clock) (channel_id : Z) (e : DepthUpdateEvent) (s : DataDispatcher * Sinks)
    : option (DataDispatcher * Sinks) :=
  let '(d, h) := s in
  match Lookup channel_id reg with
  | None => Some s
  | Some info =>
      let latency_ns := u64 (NowNs k - dp_local_diff e) in
      match RouteOrderbook k e latency_ns info (sk_router h) with
      | None => None
      | Some r =>
          let h := mkSinks r (PublishDepth K e (shard_idx d) (sk_pub h)) in
          Some (WriteTelemetry latency_ns d h, h)
      end
  end.

(** Source: src/exchange/data_dispatcher.cpp:31-39, DataDispatcher::OnBookTicker. *)
Definition OnBookTicker (k : Clock) (channel_id : Z) (e : BookTickerEvent) (s : DataDispatcher * Sinks)
    : option (DataDispatcher * Sinks) :=
  let '(d, h) := s in
  match Lookup channel_id reg with
  | None => Some s
  | Some info =>
      let e := ticker_with_latency (u64 (NowNs k - bt_local_diff e)) e in
      match RouteBookTicker k e (sk_router h) with
      | None => None
      | Some r =>
          let h := mkSinks r (PublishBookTicker K e (shard_idx d) (sk_pub h)) in
          Some (WriteTelemetry (bt_local_diff e) d h, h)
      end
  end.

(** *** What one event does *)

(** The three handlers as one, by the event they take. *)
Definition dispatch (k : Clock) (p : Payload) : DataDispatcher * Sinks -> option (DataDispatcher * Sinks) :=
  match p with
  | TickPayload t => OnTick k t
  | DepthPayload e => OnDepth k (dp_channel_id e) e
  | BookTickerPayload e => OnBookTicker k (bt_channel_id e) e
  end.

Definition received_at (p : Payload) : Z :=
  match p with TickPayload t => tk_local_diff t | DepthPayload e => dp_local_diff e | BookTickerPayload e => bt_local_diff e end.

(** The event as it is stored and published: ticks and tickers carry the latency
    in place of the receive time, a book keeps its receive time. *)
Definition outgoing (latency : Z) (p : Payload) : Payload :=
  match p with
  | TickPayload t => TickPayload (tick_with_latency latency t)
  | DepthPayload e => DepthPayload e
  | BookTickerPayload e => BookTickerPayload (ticker_with_latency latency e)
  end.

Definition store (k : Clock) (latency : Z) (p : Payload) (info : ChannelInfo) : StorageRouter -> option StorageRouter :=
  match p with
  | TickPayload t => RouteTick k t
  | DepthPayload e => RouteOrderbook k e latency info
  | BookTickerPayload e => RouteBookTicker k e
  end.

Definition publish (p : Payload) (shard : nat) (w : PubWorker QT QD QB K) : PubWorker QT QD QB K :=
  match p with
  | TickPayload t => PublishTick K t shard w
  | DepthPayload e => PublishDepth K e shard w
  | BookTickerPayload e => PublishBookTicker K e shard w
  end.

(** A slot no writer is busy with. *)
Definition slot_idle (s : TelemetrySlot) : Prop := length (fields s) = 4%nat /\ Z.odd (version s) = false.

(** The handlers do the same three things. *)
Lemma dispatch_unfold k p d h info :
  Lookup (payload_channel p) reg = Some info ->
  let latency := u64 (NowNs k - received_at p) in
  dispatch k p (d, h) =
    match store k latency (outgoing latency p) info (sk_router h) with
    | None => None
    | Some r => let h := mkSinks r (publish (outgoing latency p) (shard_idx d) (sk_pub h)) in
                Some (WriteTelemetry latency d h, h)
    end.
Proof.
  intros Hl latency. destruct p; cbn [payload_channel dispatch outgoing store publish received_at] in *;
    unfold OnTick, OnDepth, OnBookTicker; rewrite Hl; done.
Qed.

Lemma outgoing_channel latency p : payload_channel (outgoing latency p) = payload_channel p.
Proof. by destruct p. Qed.

Lemma outgoing_routable latency p : routable reg p -> routable reg (outgoing latency p).
Proof. by destruct p. Qed.

Lemma WriteTelemetry_read latency d h s :
  telemetry_slot d = Some s -> slot_idle s ->
  exists s', telemetry_slot (WriteTelemetry latency d h) = Some s' /\ slot_idle s' /\
    ReadTelemetrySlot 1 (fun _ => s') =
      Some [latency; default 0 (sq_size <$> shard_queue d); 0; dropped_count K (sk_pub h)].
Proof.
  intros Hs [Hl Ho]. unfold WriteTelemetry. rewrite Hs. eexists. split; [done|]. split.
  - split; [cbn; by rewrite !length_insert|]. cbn. by rewrite odd_u64, Z.odd_add, odd_u64, Z.odd_add, Ho.
  - rewrite read_after_write by done. by destruct (shard_queue d).
Qed.

Lemma WriteTelemetry_queue latency d h :
  shard_queue (WriteTelemetry latency d h) = shard_queue d /\ shard_idx (WriteTelemetry latency d h) = shard_idx d.
Proof. unfold WriteTelemetry. by destruct (telemetry_slot d). Qed.
End dispatcher.

#[global] Arguments DataDispatcher : clear implicits.
#[global] Arguments Sinks : clear implicits.
#[global] Arguments mkSinks {QT QD QB K}.
#[global] Arguments sk_router {QT QD QB K}.
#[global] Arguments sk_pub {QT QD QB K}.

(** What happens to a parsed event: on an unknown channel nothing at all; otherwise the event is given once to the
    storage router, with its latency (now minus receive time), then published on the shard of the dispatcher or counted as
    dropped, and the telemetry slot then reads the latency, the queue depth and the publisher's drop count. When the
    storage call ends the process, so does the handler. *)
Theorem dispatch_reaches_sinks {QT QD QB Doc} `{!FifoQueue QT TickData} `{!FifoQueue QD DepthUpdateEvent}
    `{!FifoQueue QB BookTickerEvent} {K : Zmq} (reg : ChannelRegistry) (k : Clock) (p : Payload)
    (d : DataDispatcher Doc) (h : Sinks QT QD QB K) :
  worker_ok reg (sk_pub h) -> (shard_idx d < num_shards_ (sk_pub h))%nat ->
  0 <= received_at p <= steady_ns k -> steady_ns k < 2 ^ 64 ->
  (Lookup (payload_channel p) reg = None -> dispatch K reg k p (d, h) = Some (d, h)) /\
  (routable reg p -> forall info, Lookup (payload_channel p) reg = Some info ->
     let latency := steady_ns k - received_at p in
     match store k latency (outgoing latency p) info (sk_router h) with
     | None => dispatch K reg k p (d, h) = None
     | Some r => exists d' h', dispatch K reg k p (d, h) = Some (d', h') /\ sk_router h' = r /\
         worker_ok reg (sk_pub h') /\ published_or_counted (outgoing latency p) (sk_pub h) (sk_pub h') /\
         shard_queue d' = shard_queue d /\
         forall s, telemetry_slot d = Some s -> slot_idle s ->
           exists s', telemetry_slot d' = Some s' /\ slot_idle s' /\ ReadTelemetrySlot 1 (fun _ => s') =
             Some [latency; default 0 (sq_size <$> shard_queue d); 0; dropped_count K (sk_pub h')]
     end).
Proof.
  intros Hok Hs Hr Hk. split.
  { intros Hl. destruct p; cbn [payload_channel dispatch] in *; unfold OnTick, OnDepth, OnBookTicker; by rewrite Hl. }
  intros Hroute info Hl latency. rewrite (dispatch_unfold K reg k p d h info Hl). unfold NowNs.
  rewrite (wrap_small 64 (steady_ns k)), wrap_small by (unfold in_range; lia). fold latency.
  destruct (store k latency (outgoing latency p) info (sk_router h)) as [r|]; [|done].
  eexists _, _. split; [reflexivity|]. cbn [sk_router sk_pub]. split; [done|].
  destruct (publish_ok reg (outgoing latency p) (shard_idx d) (sk_pub h) Hok) as (P1 & _ & P2);
    [by apply outgoing_routable|done|].
  split; [exact P1|]. split; [exact P2|]. split; [apply WriteTelemetry_queue|].
  intros s Hslot Hidle. exact (WriteTelemetry_read K latency d _ s Hslot Hidle).
Qed.

(** ** The parser worker *)

Section worker.
Context {QT QD QB Doc : Type} `{!FifoQueue QT TickData} `{!FifoQueue QD DepthUpdateEvent} `{!FifoQueue QB BookTickerEvent}.
Context (K : Zmq) (reg : ChannelRegistry).
(** simdjson: [iterate buffer length allocated]; [None] is an error code. *)
Context (kSimdjsonPadding : Z) (iterate : list ascii -> Z -> Z -> option Doc).
Abbreviation St := (DataDispatcher Doc * Sinks QT QD QB K)%type.

(** The clocks during the handling of one message. *)
Record Now := mkNow { now_clock : Clock; now_wall_us : Z }.

Definition stamp_tick (sym : list ascii) (recv : Z) (t : TickData) : TickData :=
  mkTick (tk_exchange_timestamp t) recv (tk_trade_id t) (tk_price t) (tk_quantity t) (tk_channel_id t)
    (CopySymbol (tk_symbol t) 12 sym).1 (tk_is_buyer_maker t) (tk_padding t).
Definition stamp_depth (sym : list ascii) (recv : Z) (e : DepthUpdateEvent) : DepthUpdateEvent :=
  mkDepth (dp_last_update_id e) (dp_channel_id e) (dp_exchange_timestamp e) recv (CopySymbol (dp_symbol e) 12 sym).1
    (dp_bids e) (dp_asks e) (dp_bid_count e) (dp_ask_count e).
Definition stamp_ticker (sym : list ascii) (recv : Z) (e : BookTickerEvent) : BookTickerEvent :=
  mkBookTicker (bt_channel_id e) (bt_exchange_timestamp e) recv (CopySymbol (bt_symbol e) 12 sym).1
    (bt_best_bid_price e) (bt_best_bid_qty e) (bt_best_ask_price e) (bt_best_ask_qty e).

(** Source: src/exchange/crypto/shard_parser_worker.cpp:39-88, ShardParserWorker::ParseAndDispatch.
    The handlers are those [BuildParserPool] installs; an exception of the parse
    function is caught and logged. *)
Definition ParseAndDispatch (now : Now) (msg : RawMessage Doc) (s : St) : option St :=
  match iterate (buffer msg) (rm_size msg) (u64 (rm_size msg + kSimdjsonPadding)) with
  | None => Some s
  | Some doc =>
      match parse_fn msg with
      | None => Some s
      | Some parse =>
          match parse (now_wall_us now) doc (rm_channel_id msg) (rm_event_type msg) with
          | None => Some s
          | Some result =>
              let sym := c_str (rm_symbol msg) in
              let recv := recv_timestamp msg in
              match pr_type result with
              | PT_TICK => OnTick K reg (now_clock now) (stamp_tick sym recv (pr_tick result)) s
              | PT_DEPTH => OnDepth K reg (now_clock now) (rm_channel_id msg) (stamp_depth sym recv (pr_depth result)) s
              | PT_BOOK_TICKER =>
                  OnBookTicker K reg (now_clock now) (rm_channel_id msg) (stamp_ticker sym recv (pr_book_ticker result)) s
              | PT_NONE => Some s
              end
          end
      end
  end.

(** Whether a message leads to an event that is stored and published: the library accepts the text, the parse function
    returns an event, and the channel is known. *)
Definition dispatches (now : Now) (msg : RawMessage Doc) : bool :=
  match iterate (buffer msg) (rm_size msg) (u64 (rm_size msg + kSimdjsonPadding)), parse_fn msg with
  | Some doc, Some parse =>
      match parse (now_wall_us now) doc (rm_channel_id msg) (rm_event_type msg) with
      | None => false
      | Some result =>
          match pr_type result with
          | PT_TICK => bool_decide (is_Some (Lookup (tk_channel_id (pr_tick result)) reg))
          | PT_DEPTH | PT_BOOK_TICKER => bool_decide (is_Some (Lookup (rm_channel_id msg) reg))
          | PT_NONE => false
          end
      end
  | _, _ => false
  end.

(** A message that leads to no event changes nothing. *)
Lemma undispatched_changes_nothing now msg s : dispatches now msg = false -> ParseAndDispatch now msg s = Some s.
Proof.
  unfold dispatches, ParseAndDispatch. destruct (iterate _ _ _) as [doc|]; [|done]. destruct (parse_fn msg) as [parse|]; [|done].
  destruct (parse _ _ _ _) as [result|]; [|done]. destruct s as [d h].
  destruct (pr_type result); [done|unfold OnTick|unfold OnDepth|unfold OnBookTicker]; cbn [fst snd tk_channel_id stamp_tick];
    intros Hd%bool_decide_eq_false; by destruct (Lookup _ reg); [destruct Hd|].
Qed.

Definition set_queue (q : ShardQueue Doc) (s : St) : St :=
  (mkDispatcher (telemetry_slot s.1) (Some q) (shard_idx s.1), s.2).

(** What the other threads do around one turn of the loop: messages that arrive
    before the pop, and while the consumer spins. *)
Record Turn := mkTurn {
  tn_now : Now;
  tn_arrive : ShardQueue Doc -> ShardQueue Doc;
  tn_spin : nat -> ShardQueue Doc -> ShardQueue Doc
}.

(** Source: src/exchange/crypto/shard_parser_worker.cpp:22-37, ShardParserWorker::Run.
    The input queue is the one the dispatcher reports on.  [None]: the process
    ended, or the loop is still running after [fuel] messages or a wait of [spins]
    rounds. *)
Fixpoint Run (fuel spins : nat) (turns : nat -> Turn) (s : St) : option St :=
  match fuel, shard_queue s.1 with
  | O, _ | _, None => None
  | S fuel, Some q =>
      match PopBlocking spins (tn_spin (turns O)) (tn_arrive (turns O) q) with
      | None => None
      | Some (msg, q) =>
          let s := set_queue q s in
          if rm_size msg =? 0 then Some s
          else match ParseAndDispatch (tn_now (turns O)) msg s with
               | None => None
               | Some s => Run fuel spins (fun n => turns (S n)) s
               end
      end
  end.

(** Reference: handle the messages [ms] in order, then take the pill. *)
Definition pop_front (s : St) : option St :=
  match shard_queue s.1 with
  | None => None
  | Some q => match TryPop q with Some (_, q) => Some (set_queue q s) | None => None end
  end.

Fixpoint handle_all (turns : nat -> Turn) (ms : list (RawMessage Doc)) (s : St) : option St :=
  match ms, pop_front s with
  | _, None => None
  | [], Some s => Some s
  | m :: ms, Some s =>
      match ParseAndDispatch (tn_now (turns O)) m s with
      | None => None
      | Some s => handle_all (fun n => turns (S n)) ms s
      end
  end.

Lemma handlers_keep_queue k (s : St) :
  (forall t s', OnTick K reg k t s = Some s' -> shard_queue s'.1 = shard_queue s.1) /\
  (forall c e s', OnDepth K reg k c e s = Some s' -> shard_queue s'.1 = shard_queue s.1) /\
  (forall c e s', OnBookTicker K reg k c e s = Some s' -> shard_queue s'.1 = shard_queue s.1).
Proof.
  destruct s as [d h]. split_and!; intros; unfold OnTick, OnDepth, OnBookTicker in *; cbn [fst] in *;
    repeat case_match; simplify_eq; cbn [fst]; try done; apply WriteTelemetry_queue.
Qed.

Lemma ParseAndDispatch_queue now m (s s' : St) :
  ParseAndDispatch now m s = Some s' -> shard_queue s'.1 = shard_queue s.1.
Proof.
  destruct (handlers_keep_queue (now_clock now) s) as (H1 & H2 & H3). unfold ParseAndDispatch. intros H.
  repeat case_match; simplify_eq; try done; eauto.
Qed.

Lemma PopBlocking_first spins env (q : ShardQueue Doc) x : TryPop q = Some x -> PopBlocking (S spins) env q = Some x.
Proof. intros H. cbn [PopBlocking]. by rewrite H. Qed.

Lemma run_handles k ms pill rest turns fuel spins (s : St) q R :
  0 <= k <= 63 -> Forall (fun m => rm_size m <> 0) ms -> rm_size pill = 0 ->
  (forall n q, tn_arrive (turns n) q = q) -> shard_queue s.1 = Some q -> sq_rep k q R (ms ++ pill :: rest) ->
  (length ms < fuel)%nat ->
  Run fuel (S spins) turns s = handle_all turns ms s /\
  forall s', handle_all turns ms s = Some s' ->
    exists q', shard_queue s'.1 = Some q' /\ sq_rep k q' (R + Z.of_nat (length ms) + 1) rest.
Proof.
  intros Hk. revert turns fuel s q R.
  induction ms as [|m ms IH]; intros turns fuel s q R Hms Hp Ha Hq Hr Hf; (destruct fuel as [|fuel]; [cbn in Hf; lia|]);
    pose proof (TryPop_rep k q R _ Hk Hr) as (q' & Hpop & Hr'); cbn [Run handle_all]; unfold pop_front;
    rewrite Hq, Ha, (PopBlocking_first _ _ _ _ Hpop), Hpop.
  - rewrite Hp, Z.eqb_refl. split; [done|]. intros s' [= <-]. exists q'. split; [done|].
    replace (R + Z.of_nat (length (@nil (RawMessage Doc))) + 1) with (R + 1) by (cbn; lia). exact Hr'.
  - apply Forall_cons in Hms as [Hm Hms]. rewrite (proj2 (Z.eqb_neq _ _) Hm).
    destruct (ParseAndDispatch (tn_now (turns O)) m (set_queue q' s)) as [s1|] eqn:E; [|by split].
    apply ParseAndDispatch_queue in E. cbn [length] in Hf.
    destruct (IH (fun n => turns (S n)) fuel s1 q' (R + 1) Hms Hp (fun n => Ha (S n)) E Hr') as [I1 I2]; [lia|].
    split; [exact I1|]. intros s' Hs'. destruct (I2 s' Hs') as (q2 & H2 & H3). exists q2. split; [done|].
    replace (R + Z.of_nat (length (m :: ms)) + 1) with (R + 1 + Z.of_nat (length ms) + 1) by (cbn; lia). done.
Qed.
End worker.

(** The parser loop ends: on a queue that holds messages, a poison pill and anything behind it, [Run] handles exactly the
    messages before the pill, each once and in order, takes the pill and returns, leaving what is behind the pill in the
    queue; one round per message and one for the pill are enough. (It ends the process exactly when handling one of the
    messages does.) *)
Theorem worker_stops_at_pill {QT QD QB Doc} `{!FifoQueue QT TickData} `{!FifoQueue QD DepthUpdateEvent}
    `{!FifoQueue QB BookTickerEvent} (K : Zmq) (reg : ChannelRegistry) (pad : Z) (iterate : list ascii -> Z -> Z -> option Doc)
    (k : Z) (ms : list (RawMessage Doc)) (pill : RawMessage Doc) (rest : list (RawMessage Doc)) (turns : nat -> Turn)
    (fuel spins : nat) (s : DataDispatcher Doc * Sinks QT QD QB K) (q : ShardQueue Doc) (R : Z) :
  0 <= k <= 63 -> Forall (fun m => rm_size m <> 0) ms -> rm_size pill = 0 ->
  (forall n q, tn_arrive (turns n) q = q) -> shard_queue s.1 = Some q -> sq_rep k q R (ms ++ pill :: rest) ->
  (length ms < fuel)%nat ->
  Run K reg pad iterate fuel (S spins) turns s = handle_all K reg pad iterate turns ms s /\
  forall s', handle_all K reg pad iterate turns ms s = Some s' ->
    exists q', shard_queue s'.1 = Some q' /\ sq_rep k q' (R + Z.of_nat (length ms) + 1) rest.
Proof. apply run_handles. Qed.

(** *** Witnesses *)

#[local] Instance disp_tick_queue : FifoQueue (SPSCQueue TickData) TickData := spsc_fifo 1 one_bit.
#[local] Instance disp_depth_queue : FifoQueue (SPSCQueue DepthUpdateEvent) DepthUpdateEvent := spsc_fifo 1 one_bit.
#[local] Instance disp_ticker_queue : FifoQueue (SPSCQueue BookTickerEvent) BookTickerEvent := spsc_fifo 1 one_bit.

Definition demo_router : StorageRouter := mkRouter true (existT (CsvBackendI demo_env) (mkCsvBackend "out/" ∅ ∅)).
Definition demo_sinks := mkSinks demo_router demo_worker.
Definition demo_disp (q : ShardQueue unit) : DataDispatcher unit := mkDispatcher (Some slot0) (Some q) 0.
Definition two_messages : ShardQueue unit := mkShard 2 2 1 [demo_msg 1; demo_msg 0] 0.

Lemma two_messages_rep : sq_rep 1 two_messages 0 [demo_msg 1; demo_msg 0].
Proof.
  split; [|done..]. split; try done. intros [|[|i]] x Hx; [..|done]; exact Hx.
Qed.

Lemma dispatch_reaches_sinks_witness :
  exists d' h', dispatch log_socket demo_reg demo_clock (TickPayload (tick_on 5 1)) (demo_disp two_messages, demo_sinks) = Some (d', h') /\
    published_or_counted (outgoing 50000000 (TickPayload (tick_on 5 1))) (sk_pub demo_sinks) (sk_pub h').
Proof.
  destruct (dispatch_reaches_sinks demo_reg demo_clock (TickPayload (tick_on 5 1)) (demo_disp two_messages) demo_sinks)
    as [_ H]; [exact demo_worker_ok|cbn; lia|cbn; lia|cbn; lia|].
  specialize (H ltac:(by eexists) demo_info eq_refl).
  assert (exists r, store demo_clock 50000000 (outgoing 50000000 (TickPayload (tick_on 5 1))) demo_info demo_router = Some r)
    as [r Hr] by (eexists; reflexivity).
  change (steady_ns demo_clock - received_at (TickPayload (tick_on 5 1))) with 50000000 in H. cbv zeta in H.
  change (sk_router demo_sinks) with demo_router in H. rewrite Hr in H.
  destruct H as (d' & h' & H1 & _ & _ & H2 & _). exists d', h'. split; [exact H1|exact H2].
Defined.

Definition quiet_turn : Turn (Doc := unit) := mkTurn (mkNow demo_clock 0) (fun q => q) (fun _ q => q).

Lemma worker_stops_at_pill_witness :
  Run log_socket demo_reg 64 (fun _ _ _ => None) 2 1 (fun _ => quiet_turn) (demo_disp two_messages, demo_sinks) =
    handle_all log_socket demo_reg 64 (fun _ _ _ => None) (fun _ => quiet_turn) [demo_msg 1] (demo_disp two_messages, demo_sinks) /\
  forall s', handle_all log_socket demo_reg 64 (fun _ _ _ => None) (fun _ => quiet_turn) [demo_msg 1] (demo_disp two_messages, demo_sinks) = Some s' ->
    exists q', shard_queue s'.1 = Some q' /\ sq_rep 1 q' 2 [].
Proof.
  apply (worker_stops_at_pill log_socket demo_reg 64 (fun _ _ _ => None) 1 [demo_msg 1] (demo_msg 0) [] (fun _ => quiet_turn)
    2 0 (demo_disp two_messages, demo_sinks) two_messages 0); try done; [repeat constructor; done|apply two_messages_rep|cbn; lia].
Defined.
