(* ===== verification/Receiver.v ===== *)
(** * The collector's end of the Rithmic pipeline

    The shared-memory region with its header and three queues
    (src/exchange/rithmic/rithmic_shm.h) and the thread that empties the queues
    into the dispatcher (src/exchange/rithmic/rithmic_receiver.cpp).  The
    operating system's answers are inputs; the name space of shared-memory
    objects is a map. *)
From S2P Require Import Prelude Doubles Events Bytes SpscQueue Exchange ShardQueue Engine Dolphin Router PubWorker Dispatcher MpscQueue.

(** ** Layout *)

(** Offset of a member of alignment [align] that is placed after [off] bytes. *)
Definition align_up (off align : Z) : Z := (off + align - 1) / align * align.

(** [(size, alignment)] of the members, in order: the end of the last one and the
    alignment of the structure. *)
Fixpoint layout_end (off al : Z) (ms : list (Z * Z)) : Z * Z :=
  match ms with
  | [] => (off, al)
  | (size, align) :: ms' => layout_end (align_up off align + size) (Z.max al align) ms'
  end.

Definition struct_of (ms : list (Z * Z)) : Z * Z :=
  let '(off, al) := layout_end 0 1 ms in (align_up off al, al).

Definition sizeof (t : Z * Z) : Z := t.1.
Definition alignof (t : Z * Z) : Z := t.2.

Definition t_u64 : Z * Z := (8, 8).
Definition t_u32 : Z * Z := (4, 4).
Definition t_char (n : Z) : Z * Z := (n, 1).
Definition array_of (n : Z) (t : Z * Z) : Z * Z := (n * sizeof t, alignof t).
Definition alignas (a : Z) (t : Z * Z) : Z * Z := (t.1, Z.max a t.2).

(** Source: src/common/tick_data.h:8-21, TickData (layout). *)
Definition t_TickData : Z * Z :=
  let '(size, _) := struct_of [t_u64; t_u64; t_u64; t_u64; t_u64; t_u32; t_char 12; t_char 1; t_char 3] in
  (align_up size 64, 64).

(** Source: src/orderbook/orderbook_event.h:21-32, DepthUpdateEvent (layout). *)
Definition t_DepthUpdateEvent : Z * Z :=
  struct_of [t_u64; t_u32; t_u64; t_u64; t_char 12; array_of 100 (16, 8); array_of 100 (16, 8); t_u32; t_u32].

(** Source: src/orderbook/orderbook_event.h:34-43, BookTickerEvent (layout). *)
Definition t_BookTickerEvent : Z * Z :=
  struct_of [t_u32; t_u64; t_u64; t_char 12; t_u64; t_u64; t_u64; t_u64].

(** Source: src/exchange/rithmic/rithmic_queue.h:75-90, MpscRithmicQueue (layout). *)
Definition t_MpscQueue (capacity : Z) (t : Z * Z) : Z * Z :=
  struct_of [alignas 64 t_u64; alignas 64 t_u64; array_of capacity (struct_of [t_u64; t]); alignas 64 t_u64].

(** Source: src/exchange/rithmic/rithmic_shm.h:32-36, ShmHeader (layout). *)
Definition t_ShmHeader : Z * Z := struct_of [t_u64; t_u64; t_u64; t_u32; t_u32].

(** Source: src/exchange/rithmic/rithmic_shm.h:50-50, kTickQueueCapacity. *)
Definition kTickQueueCapacity : Z := 16384.
(** Source: src/exchange/rithmic/rithmic_shm.h:51-51, kDepthQueueCapacity. *)
Definition kDepthQueueCapacity : Z := 256.
(** Source: src/exchange/rithmic/rithmic_shm.h:52-52, kBookTickerQueueCapacity. *)
Definition kBookTickerQueueCapacity : Z := 1024.

Definition t_TickQueue : Z * Z := t_MpscQueue kTickQueueCapacity t_TickData.
Definition t_DepthQueue : Z * Z := t_MpscQueue kDepthQueueCapacity t_DepthUpdateEvent.
Definition t_BookTickerQueue : Z * Z := t_MpscQueue kBookTickerQueueCapacity t_BookTickerEvent.

(** Source: src/exchange/rithmic/rithmic_shm.h:58-58, kTickQueueOffset. *)
Definition kTickQueueOffset : Z := sizeof t_ShmHeader.
(** Source: src/exchange/rithmic/rithmic_shm.h:59-59, kDepthQueueOffset. *)
Definition kDepthQueueOffset : Z := kTickQueueOffset + sizeof t_TickQueue.
(** Source: src/exchange/rithmic/rithmic_shm.h:60-60, kBookTickerQueueOffset. *)
Definition kBookTickerQueueOffset : Z := kDepthQueueOffset + sizeof t_DepthQueue.
(** Source: src/exchange/rithmic/rithmic_shm.h:61-61, kTotalShmSize. *)
Definition kTotalShmSize : Z := kBookTickerQueueOffset + sizeof t_BookTickerQueue.

Definition disjoint_spans (a b : Z * Z) : Prop := a.1 + a.2 <= b.1 \/ b.1 + b.2 <= a.1.

(** The spans [(offset, size)] of the region's four objects. *)
Definition shm_objects : list (Z * Z) :=
  [(0, sizeof t_ShmHeader); (kTickQueueOffset, sizeof t_TickQueue); (kDepthQueueOffset, sizeof t_DepthQueue);
   (kBookTickerQueueOffset, sizeof t_BookTickerQueue)].

(** The four objects fill the region without overlapping. *)
Lemma shm_layout_disjoint :
  (forall i j a b, i <> j -> shm_objects !! i = Some a -> shm_objects !! j = Some b -> disjoint_spans a b) /\
  Forall (fun o => 0 <= o.1 /\ o.1 + o.2 <= kTotalShmSize) shm_objects.
Proof.
  split.
  - intros [|[|[|[|i]]]] [|[|[|[|j]]]] a b Hne Ha Hb; try done; injection Ha as <-; injection Hb as <-;
      unfold disjoint_spans, fst, snd; vm_compute; intuition congruence.
  - repeat constructor; vm_compute; congruence.
Qed.

(** Each queue begins at 32 modulo 64, although its members (and ticks) are declared
    with 64-byte alignment: the mapping starts on a page, so no queue is aligned. *)
Lemma queues_misaligned :
  alignof t_TickQueue = 64 /\ alignof t_DepthQueue = 64 /\ alignof t_BookTickerQueue = 64 /\
  kTickQueueOffset mod 64 = 32 /\ kDepthQueueOffset mod 64 = 32 /\ kBookTickerQueueOffset mod 64 = 32.
Proof. vm_compute. done. Qed.

(** ** The region *)

(** A shared-memory object: its size and the header at its start; a fresh object is all zero. *)
Record Region := mkRegion { rg_size : Z; rg_header : ShmHeader }.
Definition zero_header : ShmHeader := mkHeader 0 0 0 0 0.
Abbreviation ShmNames := (gmap string Region).

(** Source: src/exchange/rithmic/rithmic_shm.h:97-103, ShmSetup (data members). *)
Record ShmSetup := mkShm { shm_name_ : string; shm_size_ : Z; shm_created_ : bool }.

(** What the system calls answer. *)
Record ShmOS := mkShmOS { open_ok : bool; trunc_ok : bool; stat_ok : bool; map_ok : bool }.

(** Source: src/exchange/rithmic/rithmic_shm.h:109-155, ShmSetup::ShmSetup.
    [None]: the constructor throws; the name space is as it leaves it. *)
Definition shm_setup (os : ShmOS) (name : string) (total_size : Z) (create : bool) (ns : ShmNames)
    : option ShmSetup * ShmNames :=
  if create then
    let ns := delete name ns in
    if negb (open_ok os) then (None, ns)
    else if negb (trunc_ok os) then (None, ns)
    else if negb (map_ok os) then (None, ns)
    else (Some (mkShm name total_size true), <[name := mkRegion total_size header0]> ns)
  else
    match ns !! name with
    | None => (None, ns)
    | Some r =>
        if negb (open_ok os) || negb (stat_ok os) || negb (map_ok os) then (None, ns)
        else if negb (hd_magic (rg_header r) =? kMagic) then (None, ns)
        else (Some (mkShm name (rg_size r) false), ns)
    end.

(** Source: src/exchange/rithmic/rithmic_shm.h:157-159, ShmSetup::ShmSetup (open). *)
Definition shm_open_existing (os : ShmOS) (name : string) (ns : ShmNames) : option ShmSetup * ShmNames :=
  shm_setup os name 0 false ns.

(** Source: src/exchange/rithmic/rithmic_shm.h:161-171, ShmSetup::~ShmSetup. *)
Definition shm_destroy (s : ShmSetup) (ns : ShmNames) : ShmNames :=
  if shm_created_ s then delete (shm_name_ s) ns else ns.

(** The child opens exactly the region its parent created, whatever a previous run left
    behind under the name; after the parent is gone there is nothing to open. *)
Lemma shm_create_open os name size ns s ns1 :
  shm_setup os name size true ns = (Some s, ns1) ->
  ns1 !! name = Some (mkRegion size header0) /\
  (forall os', open_ok os' = true -> stat_ok os' = true -> map_ok os' = true ->
     shm_open_existing os' name ns1 = (Some (mkShm name size false), ns1)) /\
  (forall os', (shm_open_existing os' name (shm_destroy s ns1)).1 = None).
Proof.
  unfold shm_setup, shm_open_existing, shm_destroy. intros H. repeat case_match; simplify_eq. split_and!.
  - apply lookup_insert_eq.
  - intros os' Ho Ht Hm. unfold shm_setup. by rewrite lookup_insert_eq, Ho, Ht, Hm.
  - intros os'. unfold shm_setup. cbn [shm_created_ shm_name_]. by rewrite lookup_delete_eq.
Qed.

(** A failed creation leaves no object of that name. *)
Lemma shm_create_fails os name size ns ns1 :
  shm_setup os name size true ns = (None, ns1) -> ns1 !! name = None.
Proof. unfold shm_setup. intros H. repeat case_match; simplify_eq; apply lookup_delete_eq. Qed.

(** ** A queue at rest

    Between the steps of the producers a queue holds a sequence of published events. *)

Section rest.
Context {A : Type} `{Inhabited A} (k : Z) (Hk : 1 <= k <= 62).

Record mq_holds (q : MpscRithmicQueue A) (l : list A) : Prop := {
  mh_len : length (mq_slots q) = Z.to_nat (Capacity k);
  mh_pos : 0 <= mq_read_pos q;
  mh_bound : mq_read_pos q + Z.of_nat (length l) + Capacity k < 2 ^ 64;
  mh_cap : Z.of_nat (length l) <= Capacity k;
  mh_slots i x : l !! i = Some x ->
    slot_at k q (mq_read_pos q + Z.of_nat i) = mkMSlot (mq_read_pos q + Z.of_nat i + 1) x;
  mh_end : sequence (slot_at k q (mq_read_pos q + Z.of_nat (length l))) <> mq_read_pos q + Z.of_nat (length l) + 1
}.

Lemma mq_holds_empty q : mq_holds q [] -> MpscQueue.TryPop k q = None.
Proof using Hk.
  intros [Hl Hp Hb Hc Hs He]. unfold MpscQueue.TryPop. cbn [length] in *. rewrite Z.add_0_r in *.
  pose proof (Capacity_pos k Hk). rewrite wrap_small by (unfold in_range; lia). by rewrite (proj2 (Z.eqb_neq _ _) He).
Qed.

Lemma mq_holds_pop q x l :
  mq_holds q (x :: l) -> exists q', MpscQueue.TryPop k q = Some (x, q') /\ mq_holds q' l.
Proof using Hk.
  intros [Hl Hp Hb Hc Hs He]. pose proof (Capacity_pos k Hk) as HC. cbn [length] in *.
  pose proof (Hs 0%nat x eq_refl) as H0. rewrite Z.add_0_r in H0. unfold MpscQueue.TryPop. rewrite H0. cbn [sequence data].
  rewrite !(wrap_small 64) by (unfold in_range; lia). rewrite Z.eqb_refl. cbn [negb]. eexists. split; [done|].
  set (q1 := mkMpsc _ _ _ _). assert (Hsl : length (mq_slots q1) = Z.to_nat (Capacity k)) by done.
  assert (Hlen : forall i y, l !! i = Some y -> (i < length l)%nat) by (intros i y Hi; by eapply lookup_lt_Some).
  split.
  - unfold set_slot. cbn. by rewrite length_insert.
  - unfold set_slot. cbn. lia.
  - unfold set_slot. cbn. lia.
  - lia.
  - intros i y Hi. pose proof (Hlen i y Hi). unfold set_slot at 2 3. cbn [mq_read_pos q1].
    rewrite (slot_at_set_ne k q1) by (intros He'; apply (mslot_inj k Hk) in He'; lia).
    pose proof (Hs (S i) y Hi) as Hsi. replace (mq_read_pos q + 1 + Z.of_nat i) with (mq_read_pos q + Z.of_nat (S i)) by lia.
    unfold slot_at in *. cbn [mq_slots q1]. exact Hsi.
  - unfold set_slot at 2 3. cbn [mq_read_pos q1].
    destruct (decide (Z.of_nat (length l) + 1 = Capacity k)) as [Hfull|Hne].
    + replace (mq_read_pos q + 1 + Z.of_nat (length l)) with (mq_read_pos q + Capacity k) by lia.
      rewrite (slot_at_set_same k Hk q1); [cbn; lia|done|by rewrite (mslot_add_cap k Hk)].
    + rewrite (slot_at_set_ne k q1) by (intros He'; apply (mslot_inj k Hk) in He'; lia).
      replace (mq_read_pos q + 1 + Z.of_nat (length l)) with (mq_read_pos q + Z.of_nat (S (length l))) by lia.
      unfold slot_at in *. cbn [mq_slots q1]. lia.
Qed.
End rest.

(** ** The receiver *)

(** Source: src/exchange/rithmic/rithmic_receiver.h:42-49, RithmicReceiver (data members).
    The queues as the receiver finds them in the region. *)
Record RithmicReceiver := mkReceiver {
  tick_queue_ : MpscRithmicQueue TickData;
  depth_queue_ : MpscRithmicQueue DepthUpdateEvent;
  book_ticker_queue_ : MpscRithmicQueue BookTickerEvent;
  rr_running_ : bool
}.

Definition tick_bits : Z := 14.         (* log2 kTickQueueCapacity *)
Definition depth_bits : Z := 8.
Definition ticker_bits : Z := 10.

(** What a round of the loop finds: the highest-priority queue that is not empty. *)
Definition poll (r : RithmicReceiver) : option Payload * RithmicReceiver :=
  match MpscQueue.TryPop tick_bits (tick_queue_ r) with
  | Some (t, q) => (Some (TickPayload t), mkReceiver q (depth_queue_ r) (book_ticker_queue_ r) (rr_running_ r))
  | None =>
      match MpscQueue.TryPop ticker_bits (book_ticker_queue_ r) with
      | Some (e, q) => (Some (BookTickerPayload e), mkReceiver (tick_queue_ r) (depth_queue_ r) q (rr_running_ r))
      | None =>
          match MpscQueue.TryPop depth_bits (depth_queue_ r) with
          | Some (e, q) => (Some (DepthPayload e), mkReceiver (tick_queue_ r) q (book_ticker_queue_ r) (rr_running_ r))
          | None => (None, r)
          end
      end
  end.

Section receiver.
Context {QT QD QB Doc : Type} `{!FifoQueue QT TickData} `{!FifoQueue QD DepthUpdateEvent} `{!FifoQueue QB BookTickerEvent}.
Context (K : Zmq) (reg : ChannelRegistry).
Abbreviation St := (DataDispatcher Doc * Sinks QT QD QB K)%type.

(** What the other threads and the child process do before a round, and the clock in it. *)
Record Round := mkRound { rd_clock : Clock; rd_env : RithmicReceiver -> RithmicReceiver }.

(** The loop, with [running_] as the environment leaves it. *)
Fixpoint receive_loop (fuel : nat) (rounds : nat -> Round) (r : RithmicReceiver) (s : St) : option (RithmicReceiver * St) :=
  match fuel with
  | O => Some (r, s)
  | S fuel =>
      let r := rd_env (rounds O) r in
      if negb (rr_running_ r) then Some (r, s)
      else match poll r with
           | (None, r) => receive_loop fuel (fun n => rounds (S n)) r s
           | (Some p, r) =>
               match dispatch K reg (rd_clock (rounds O)) p s with
               | None => None
               | Some s => receive_loop fuel (fun n => rounds (S n)) r s
               end
           end
  end.

(** Source: src/exchange/rithmic/rithmic_receiver.cpp:24-60, RithmicReceiver::Run.
    The handlers are those of [RithmicProcessManager::Setup], which pass the event
    to a dispatcher.  The state after [fuel] rounds, or when the loop has ended. *)
Definition ReceiverRun (fuel : nat) (rounds : nat -> Round) (r : RithmicReceiver) (s : St) : option (RithmicReceiver * St) :=
  receive_loop fuel rounds (mkReceiver (tick_queue_ r) (depth_queue_ r) (book_ticker_queue_ r) true) s.

(** Source: src/exchange/rithmic/rithmic_receiver.cpp:62-62, RithmicReceiver::Stop. *)
Definition ReceiverStop (r : RithmicReceiver) : RithmicReceiver :=
  mkReceiver (tick_queue_ r) (depth_queue_ r) (book_ticker_queue_ r) false.

(** The events of the three queues in the order in which they are handled. *)
Record holds (r : RithmicReceiver) (ts : list TickData) (bs : list BookTickerEvent) (ds : list DepthUpdateEvent) : Prop := {
  ho_tick : mq_holds tick_bits (tick_queue_ r) ts;
  ho_ticker : mq_holds ticker_bits (book_ticker_queue_ r) bs;
  ho_depth : mq_holds depth_bits (depth_queue_ r) ds
}.

Definition in_order (ts : list TickData) (bs : list BookTickerEvent) (ds : list DepthUpdateEvent) : list Payload :=
  (TickPayload <$> ts) ++ (BookTickerPayload <$> bs) ++ (DepthPayload <$> ds).

Lemma poll_holds r ts bs ds :
  holds r ts bs ds ->
  match in_order ts bs ds with
  | [] => poll r = (None, r)
  | p :: ps => exists r' ts' bs' ds', poll r = (Some p, r') /\ holds r' ts' bs' ds' /\ in_order ts' bs' ds' = ps /\
      rr_running_ r' = rr_running_ r
  end.
Proof.
  intros [Ht Hb Hd]. unfold poll, in_order. destruct ts as [|t ts].
  - rewrite (mq_holds_empty tick_bits ltac:(unfold tick_bits; lia) _ Ht). destruct bs as [|b bs].
    + rewrite (mq_holds_empty ticker_bits ltac:(unfold ticker_bits; lia) _ Hb). destruct ds as [|d ds].
      * by rewrite (mq_holds_empty depth_bits ltac:(unfold depth_bits; lia) _ Hd).
      * destruct (mq_holds_pop depth_bits ltac:(unfold depth_bits; lia) _ _ _ Hd) as (q & -> & Hq).
        exists (mkReceiver (tick_queue_ r) q (book_ticker_queue_ r) (rr_running_ r)), [], [], ds. by split_and!.
    + destruct (mq_holds_pop ticker_bits ltac:(unfold ticker_bits; lia) _ _ _ Hb) as (q & -> & Hq).
      exists (mkReceiver (tick_queue_ r) (depth_queue_ r) q (rr_running_ r)), [], bs, ds. by split_and!.
  - destruct (mq_holds_pop tick_bits ltac:(unfold tick_bits; lia) _ _ _ Ht) as (q & -> & Hq).
    exists (mkReceiver q (depth_queue_ r) (book_ticker_queue_ r) (rr_running_ r)), ts, bs, ds. by split_and!.
Qed.

(** Reference: the events handled one after the other. *)
Fixpoint dispatch_all (rounds : nat -> Round) (ps : list Payload) (s : St) : option St :=
  match ps with
  | [] => Some s
  | p :: ps => match dispatch K reg (rd_clock (rounds O)) p s with
               | None => None
               | Some s => dispatch_all (fun n => rounds (S n)) ps s
               end
  end.

Lemma receive_all rounds fuel r s ts bs ds :
  holds r ts bs ds -> (forall n r, rd_env (rounds n) r = r) -> rr_running_ r = true ->
  (length (in_order ts bs ds) <= fuel)%nat ->
  match dispatch_all rounds (in_order ts bs ds) s with
  | None => receive_loop fuel rounds r s = None
  | Some s' => exists r', receive_loop fuel rounds r s = Some (r', s') /\ holds r' [] [] []
  end.
Proof.
  revert rounds r s ts bs ds. induction fuel as [|fuel IH]; intros rounds r s ts bs ds Hh He Hr Hf;
    pose proof (poll_holds r ts bs ds Hh) as Hp; destruct (in_order ts bs ds) as [|p ps] eqn:E; cbn [length] in Hf; try lia.
  - exists r. split; [done|]. apply app_nil in E as [E1 E2]. apply app_nil in E2 as [E2 E3].
    by rewrite (fmap_nil_inv _ _ E1), (fmap_nil_inv _ _ E2), (fmap_nil_inv _ _ E3) in Hh.
  - cbn [receive_loop dispatch_all]. rewrite He, Hr. cbn [negb]. rewrite Hp.
    specialize (IH (fun n => rounds (S n)) r s ts bs ds Hh (fun n => He (S n)) Hr). rewrite E in IH. apply IH. cbn. lia.
  - destruct Hp as (r' & ts' & bs' & ds' & Hp & Hh' & Hps & Hr').
    cbn [receive_loop dispatch_all]. rewrite He, Hr. cbn [negb]. rewrite Hp.
    destruct (dispatch K reg (rd_clock (rounds O)) p s) as [s1|]; [|done].
    rewrite <- Hps. apply IH; [done|intros n; apply He|congruence|rewrite Hps; lia].
Qed.
End receiver.

(** The receiver empties the queues: when the child is quiet, [Run] hands every event of the three queues to the
    dispatcher exactly once (all ticks first, then the tickers, then the books, each queue in its own order) and leaves the
    queues empty; a round per event is enough. (It ends the process exactly when handling an event does.) *)
Theorem receiver_empties_queues {QT QD QB Doc} `{!FifoQueue QT TickData} `{!FifoQueue QD DepthUpdateEvent}
    `{!FifoQueue QB BookTickerEvent} (K : Zmq) (reg : ChannelRegistry) (rounds : nat -> Round) (fuel : nat)
    (r : RithmicReceiver) (s : DataDispatcher Doc * Sinks QT QD QB K) ts bs ds :
  holds r ts bs ds -> (forall n r, rd_env (rounds n) r = r) -> (length (in_order ts bs ds) <= fuel)%nat ->
  match dispatch_all K reg rounds (in_order ts bs ds) s with
  | None => ReceiverRun K reg fuel rounds r s = None
  | Some s' => exists r', ReceiverRun K reg fuel rounds r s = Some (r', s') /\ holds r' [] [] []
  end.
Proof. intros Hh He Hf. by apply receive_all; [destruct Hh; split| |..]. Qed.

(** Ticks have strict priority: as long as a tick is waiting at every round, no book and no ticker is taken. *)
Lemma ticks_starve_others {QT QD QB Doc} `{!FifoQueue QT TickData} `{!FifoQueue QD DepthUpdateEvent}
    `{!FifoQueue QB BookTickerEvent} (K : Zmq) (reg : ChannelRegistry) (rounds : nat -> Round) fuel r
    (s : DataDispatcher Doc * Sinks QT QD QB K) r' s' :
  (forall n r, is_Some (MpscQueue.TryPop tick_bits (tick_queue_ (rd_env (rounds n) r))) /\
     depth_queue_ (rd_env (rounds n) r) = depth_queue_ r /\ book_ticker_queue_ (rd_env (rounds n) r) = book_ticker_queue_ r) ->
  receive_loop K reg fuel rounds r s = Some (r', s') ->
  depth_queue_ r' = depth_queue_ r /\ book_ticker_queue_ r' = book_ticker_queue_ r.
Proof.
  revert rounds r s. induction fuel as [|fuel IH]; intros rounds r s He; cbn [receive_loop]; [by intros [= <- _]|].
  destruct (He O r) as ([[t q] Hpop] & H2 & H3).
  destruct (negb _); [intros [= <- _]; by rewrite H2, H3|]. unfold poll. rewrite Hpop.
  destruct (dispatch _ _ _ _ _) as [s1|]; [|done]. intros H. apply IH in H; [|intros n; apply He].
  destruct H as [H4 H5]. cbn in H4, H5. by rewrite H4, H5.
Qed.

(** *** Witnesses *)

#[local] Instance recv_tick_queue : FifoQueue (SPSCQueue TickData) TickData := spsc_fifo 1 one_bit.
#[local] Instance recv_depth_queue : FifoQueue (SPSCQueue DepthUpdateEvent) DepthUpdateEvent := spsc_fifo 1 one_bit.
#[local] Instance recv_ticker_queue : FifoQueue (SPSCQueue BookTickerEvent) BookTickerEvent := spsc_fifo 1 one_bit.

Definition one_event {A} `{Inhabited A} (k : Z) (x : A) : MpscRithmicQueue A :=
  set_slot k 0 (mkMSlot 1 x) (mkMpsc 1 0 (mq_slots (mpsc_new k)) 0).

Lemma new_slot_at {A} `{Inhabited A} k p :
  1 <= k <= 62 -> 0 <= p < Capacity k -> slot_at k (mpsc_new (A := A) k) p = mkMSlot p inhabitant.
Proof.
  intros Hk Hp. unfold slot_at, mpsc_new. cbn [mq_slots]. rewrite (mslot_mod k Hk), Z.mod_small by lia.
  erewrite list_lookup_total_correct; [|by rewrite list_lookup_fmap, lookup_seq_lt by lia]. cbn. f_equal. lia.
Qed.

Lemma new_holds {A} `{Inhabited A} k : 1 <= k <= 62 -> mq_holds (A := A) k (mpsc_new k) [].
Proof.
  intros Hk. pose proof (Capacity_pos k Hk). split; cbn; try lia; try done.
  - by rewrite length_fmap, length_seq.
  - change (sequence (slot_at k (mpsc_new (A := A) k) 0) <> 1). rewrite (new_slot_at k) by lia. done.
Qed.

Lemma one_event_holds {A} `{Inhabited A} k (x : A) : 1 <= k <= 62 -> mq_holds k (one_event k x) [x].
Proof.
  intros Hk. pose proof (Capacity_pos k Hk). pose proof (Capacity_ge_2 k Hk).
  assert (Hl : length (mq_slots (mpsc_new (A := A) k)) = Z.to_nat (Capacity k)) by (cbn; by rewrite length_fmap, length_seq).
  split; cbn [length]; try (cbn; lia).
  - unfold one_event, set_slot. cbn [mq_slots]. by rewrite length_insert.
  - intros [|i] y Hy; [|done]. injection Hy as <-. cbn -[slot_at one_event]. unfold one_event.
    by rewrite (slot_at_set_same k Hk).
  - change (mq_read_pos (one_event k x)) with 0. cbn [Z.of_nat Pos.of_succ_nat Z.add]. unfold one_event.
    rewrite (slot_at_set_ne k) by (intros He; apply (mslot_inj k Hk) in He; lia).
    change (sequence (slot_at k (mpsc_new (A := A) k) 1) <> 2). rewrite (new_slot_at k) by lia. done.
Qed.

Definition demo_receiver : RithmicReceiver :=
  mkReceiver (one_event tick_bits (tick_on 5 1)) (mpsc_new depth_bits) (mpsc_new ticker_bits) false.

Lemma receiver_empties_queues_witness :
  match dispatch_all log_socket demo_reg (fun _ => mkRound demo_clock id) [TickPayload (tick_on 5 1)] (demo_disp two_messages, demo_sinks) with
  | None => ReceiverRun log_socket demo_reg 3 (fun _ => mkRound demo_clock id) demo_receiver (demo_disp two_messages, demo_sinks) = None
  | Some s' => exists r', ReceiverRun log_socket demo_reg 3 (fun _ => mkRound demo_clock id) demo_receiver
                            (demo_disp two_messages, demo_sinks) = Some (r', s') /\ holds r' [] [] []
  end.
Proof.
  apply (receiver_empties_queues log_socket demo_reg (fun _ => mkRound demo_clock id) 3 demo_receiver
    (demo_disp two_messages, demo_sinks) [tick_on 5 1] [] []); [|done|cbn; lia].
  split; [apply one_event_holds|apply new_holds|apply new_holds]; unfold tick_bits, depth_bits, ticker_bits; lia.
Defined.
