(* ===== verification/FromChars.v ===== *)
(** * Decimal text to [double]

    [SvToDouble] (src/common/string_utils.h) is [std::from_chars] in its general
    format: an optional minus sign, then [inf], [nan] or a decimal number with an
    optional fraction and exponent, read up to the first character that does not
    belong to it, and rounded to the nearest [double]. *)
From Stdlib Require Import SpecFloat.
From S2P Require Import Prelude Doubles Paths.

Definition is_digit (c : ascii) : bool := (48 <=? nat_of_ascii c)%nat && (nat_of_ascii c <=? 57)%nat.

(** ASCII letters without their case. *)
Definition lower_char (c : ascii) : ascii :=
  if (65 <=? nat_of_ascii c)%nat && (nat_of_ascii c <=? 90)%nat then ascii_of_nat (nat_of_ascii c + 32) else c.

Fixpoint span_digits (l : list ascii) : list ascii * list ascii :=
  match l with
  | c :: l' => if is_digit c then let '(ds, rest) := span_digits l' in (c :: ds, rest) else ([], l)
  | [] => ([], [])
  end.

(** [m * 10^e], rounded to nearest, ties to even. *)
Definition dec_double (neg : bool) (m e : Z) : double :=
  if m =? 0 then S754_zero neg
  else if 0 <=? e then binary_normalize prec64 emax64 ((if neg then -1 else 1) * (m * 10 ^ e)) 0 neg
  else let '(q, e', l) := SFdiv_core_binary prec64 emax64 m 0 (10 ^ (- e)) 0 in
       binary_round_aux prec64 emax64 neg q e' l.

Definition is_infinite (x : double) : bool := match x with S754_infinity _ => true | _ => false end.
Definition is_zero (x : double) : bool := match x with S754_zero _ => true | _ => false end.

(** The exponent, if a complete one follows. *)
Definition exponent (l : list ascii) : Z :=
  match l with
  | c :: l' =>
      if Ascii.eqb (lower_char c) "e" then
        let '(neg, l') := match l' with
                          | "-"%char :: l'' => (true, l'')
                          | "+"%char :: l'' => (false, l'')
                          | _ => (false, l')
                          end in
        let v := decimal_value (span_digits l').1 in if neg : bool then - v else v
      else 0
  | [] => 0
  end.

Definition from_decimal (neg : bool) (l : list ascii) : option double :=
  let '(ip, l) := span_digits l in
  let '(fp, l) := match l with "."%char :: l' => span_digits l' | _ => ([], l) end in
  match ip ++ fp with
  | [] => None
  | ds =>
      let m := decimal_value ds in
      let v := dec_double neg m (exponent l - Z.of_nat (length fp)) in
      if is_infinite v || (negb (m =? 0) && is_zero v) then None else Some v
  end.

(** [None]: [invalid_argument] or [result_out_of_range]. *)
Definition from_chars (l : list ascii) : option double :=
  let '(neg, l) := match l with "-"%char :: l' => (true, l') | _ => (false, l) end in
  match lower_char <$> take 3 l with
  | ["i"; "n"; "f"]%char => Some (S754_infinity neg)
  | ["n"; "a"; "n"]%char => Some S754_nan
  | _ => from_decimal neg l
  end.

(** Source: src/common/string_utils.h:11-14, SvToDouble.
    The flag and what [out] then holds. *)
Definition SvToDouble (sv : list ascii) (out : double) : bool * double :=
  match from_chars sv with Some v => (true, v) | None => (false, out) end.

(** ** Facts *)

Lemma digit_is_digit n : 0 <= n < 10 -> is_digit (digit n) = true.
Proof.
  intros H. unfold is_digit, digit. rewrite nat_ascii_embedding by lia.
  apply andb_true_intro. split; apply Nat.leb_le; lia.
Qed.

Lemma decimal_digits fuel n : 0 <= n < 10 ^ Z.of_nat fuel -> Forall (fun c => is_digit c = true) (decimal fuel n).
Proof.
  revert n. induction fuel as [|fuel IH]; intros n Hn; cbn [decimal].
  { constructor. }
  destruct (Z.ltb_spec n 10); [repeat constructor; apply digit_is_digit; lia|].
  apply Forall_app. split; [|repeat constructor; apply digit_is_digit; apply Z.mod_pos_bound; lia].
  apply IH. rewrite Nat2Z.inj_succ, Z.pow_succ_r in Hn by lia.
  split; [apply Z.div_pos; lia|]. apply Z.div_lt_upper_bound; lia.
Qed.

Lemma span_all_digits ds rest :
  Forall (fun c => is_digit c = true) ds -> match rest with c :: _ => is_digit c = false | [] => True end ->
  span_digits (ds ++ rest) = (ds, rest).
Proof.
  intros H Hr. induction H as [|c ds Hc _ IH]; cbn [app span_digits].
  - destruct rest as [|c r]; [done|]. cbn. by rewrite Hr.
  - by rewrite Hc, IH.
Qed.

Lemma decimal_nonempty fuel n : decimal (S fuel) n <> [].
Proof.
  cbn [decimal]. destruct (n <? 10); [done|]. intros H. by apply app_nil in H as [_ ?].
Qed.

(** What [from_chars] does with text that starts with a digit. *)
Lemma from_chars_digit c l : is_digit c = true -> from_chars (c :: l) = from_decimal false (c :: l).
Proof.
  intros Hc. unfold from_chars.
  assert (Hl : lower_char c = c).
  { unfold lower_char, is_digit in *. apply andb_prop in Hc as [H1 H2]. apply Nat.leb_le in H1, H2.
    destruct (Nat.leb_spec 65 (nat_of_ascii c)); [lia|done]. }
  destruct c as [[] [] [] [] [] [] [] []]; try discriminate Hc; reflexivity.
Qed.

Lemma decimal_head fuel n :
  0 <= n < 10 ^ Z.of_nat (S fuel) -> exists c l, decimal (S fuel) n = c :: l /\ is_digit c = true.
Proof.
  intros Hn. pose proof (decimal_digits (S fuel) n Hn) as Hd. pose proof (decimal_nonempty fuel n) as Hne.
  destruct (decimal (S fuel) n) as [|c l]; [done|]. apply Forall_cons in Hd as [Hc _]. by exists c, l.
Qed.

(** Decimal integers are read as the nearest [double]. *)
Lemma from_chars_integer fuel n :
  0 <= n < 10 ^ Z.of_nat (S fuel) ->
  from_chars (decimal (S fuel) n) = if is_infinite (d_of_Z n) then None else Some (d_of_Z n).
Proof.
  intros Hn. destruct (decimal_head fuel n Hn) as (c & l & Hcl & Hc). rewrite Hcl, from_chars_digit by done.
  rewrite <- Hcl. unfold from_decimal. rewrite <- (app_nil_r (decimal (S fuel) n)) at 1.
  rewrite span_all_digits by (done || by apply decimal_digits). cbv iota. rewrite app_nil_r.
  destruct (decimal (S fuel) n) as [|c' l'] eqn:E; [done|]. rewrite <- E, decimal_value_decimal by done.
  cbn [exponent length]. change (0 - Z.of_nat 0) with 0. unfold dec_double.
  destruct (Z.eqb_spec n 0) as [->|Hne]; [done|]. change (0 <=? 0) with true. cbv iota.
  replace (1 * (n * 10 ^ 0)) with n by lia. change (binary_normalize prec64 emax64 n 0 false) with (d_of_Z n).
  assert (Hz : is_zero (d_of_Z n) = false).
  { pose proof (d_of_Z_pos n ltac:(lia)) as Hp. by destruct (d_of_Z n). }
  rewrite Hz, andb_false_r, orb_false_r. done.
Qed.

(** Text of an integer and a fraction is read as the nearest [double] to the
    decimal fraction. *)
Lemma from_chars_fraction ip fp :
  Forall (fun c => is_digit c = true) ip -> Forall (fun c => is_digit c = true) fp -> ip <> [] ->
  from_chars (ip ++ "."%char :: fp) =
    let m := decimal_value (ip ++ fp) in
    let v := dec_double false m (- Z.of_nat (length fp)) in
    if is_infinite v || (negb (m =? 0) && is_zero v) then None else Some v.
Proof.
  intros Hi Hf Hne. destruct ip as [|c ip]; [done|]. pose proof Hi as Hi'. apply Forall_cons in Hi' as [Hc _].
  cbn [app]. rewrite from_chars_digit by done. unfold from_decimal.
  change (c :: ip ++ "."%char :: fp) with ((c :: ip) ++ "."%char :: fp). rewrite span_all_digits by done. cbv iota.
  rewrite <- (app_nil_r fp) at 1. rewrite span_all_digits by done. cbn [app exponent]. reflexivity.
Qed.

Example from_chars_price : from_chars (list_ascii_of_string "27350.10") = Some (SFdiv prec64 emax64 (d_of_Z 2735010) (d_of_Z 100)).
Proof. vm_compute. reflexivity. Qed.

(** Trailing text is ignored; no digits, signs and blanks in front are errors. *)
Example from_chars_examples :
  from_chars (list_ascii_of_string "12abc") = Some (d_of_Z 12) /\ from_chars (list_ascii_of_string "") = None /\
  from_chars (list_ascii_of_string "+1") = None /\ from_chars (list_ascii_of_string " 1") = None /\
  from_chars (list_ascii_of_string "-2e3") = Some (d_of_Z (-2000)) /\ from_chars (list_ascii_of_string "1e400") = None /\
  from_chars (list_ascii_of_string "1e-400") = None.
Proof. vm_compute. done. Qed.
