(* ===== verification/Json.v ===== *)
(** * Reading JSON

    The exchange parsers walk a document with simdjson's On-Demand interface,
    which is not part of this repository: [Simdjson] lists the operations they
    call, with the document (text and cursor) passed from call to call.  A handle
    is a [simdjson_result]: it may carry an error, which an accessor reports.
    [OnDemand] states the documented behaviour of these operations on a document
    that denotes a JSON value, as a stack of the containers that are being walked;
    [Dom] is an implementation that satisfies it.  The file ends with the helpers of
    src/exchange/crypto/json_parse_helpers.h. *)
From S2P Require Import Prelude Doubles Events Exchange FromChars.

(** ** The library *)

Record Simdjson := mkSimdjson {
  JDoc : Type;    (* a document with its cursor *)
  JVal : Type;    (* simdjson_result<value> or simdjson_result<array> *)
  JIter : Type;   (* simdjson_result<array_iterator> *)
  sj_doc_field : string -> JDoc -> JVal * JDoc;          (* doc[key] *)
  sj_find_field : string -> JDoc -> JVal * JDoc;         (* doc.find_field(key) *)
  sj_rewind : JDoc -> JDoc;
  sj_error : JVal -> bool;
  sj_field : JVal -> string -> JDoc -> JVal * JDoc;      (* value[key] *)
  sj_get_string : JVal -> JDoc -> option (list ascii) * JDoc;
  sj_get_int64 : JVal -> JDoc -> option Z * JDoc;
  sj_get_uint64 : JVal -> JDoc -> option Z * JDoc;
  sj_get_bool : JVal -> JDoc -> option bool * JDoc;
  sj_get_array : JVal -> JDoc -> JVal * JDoc;
  sj_begin : JVal -> JDoc -> JIter * JDoc;
  sj_at_end : JIter -> JDoc -> bool;                     (* it == end() *)
  sj_deref : JIter -> JDoc -> JVal * JDoc;
  sj_next : JIter -> JDoc -> JIter * JDoc
}.

(** ** Parsers

    A parser reads a document and fills an event; it goes on with a value, returns,
    or throws.  [Stuck]: a loop is not finished after the rounds it was given. *)

Inductive outcome (A : Type) := Val (a : A) | Return (b : bool) | Throw | Stuck.
Arguments Val {A}. Arguments Return {A}. Arguments Throw {A}. Arguments Stuck {A}.

Declare Scope json_scope.
Delimit Scope json_scope with json.

Section parsers.
Context {L : Simdjson} {Out : Type}.

Definition PM (A : Type) : Type := JDoc L * Out -> outcome A * (JDoc L * Out).

Definition pret {A} (a : A) : PM A := fun s => (Val a, s).
Definition pbind {A B} (m : PM A) (f : A -> PM B) : PM B := fun s =>
  match m s with
  | (Val a, s) => f a s
  | (Return b, s) => (Return b, s)
  | (Throw, s) => (Throw, s)
  | (Stuck, s) => (Stuck, s)
  end.
Definition preturn {A} (b : bool) : PM A := fun s => (Return b, s).
Definition pthrow {A} : PM A := fun s => (Throw, s).
Definition pstuck {A} : PM A := fun s => (Stuck, s).
Definition pput (f : Out -> Out) : PM unit := fun s => (Val tt, (s.1, f s.2)).
Definition pget : PM Out := fun s => (Val s.2, s).

(** An operation of the library. *)
Definition call {A} (f : JDoc L -> A * JDoc L) : PM A := fun s => let '(a, d) := f s.1 in (Val a, (d, s.2)).
(** An accessor whose result is converted to its value: an error is thrown. *)
Definition value {A} (f : JDoc L -> option A * JDoc L) : PM A := fun s =>
  let '(a, d) := f s.1 in (match a with Some x => Val x | None => Throw end, (d, s.2)).
(** An accessor whose error code is looked at. *)
Definition checked {A} (f : JDoc L -> option A * JDoc L) : PM (option A) := call f.

Definition at_end (it : JIter L) : PM bool := fun s => (Val (sj_at_end L it s.1), s).

(** [for(auto v : array) body], with an accumulator; [body] also says whether it breaks. *)
Fixpoint range_for {A} (fuel : nat) (body : JVal L -> A -> PM (A * bool)) (it : JIter L) (acc : A) : PM A :=
  match fuel with
  | O => pstuck
  | S fuel =>
      pbind (at_end it) (fun stop =>
      if stop : bool then pret acc
      else pbind (call (sj_deref L it)) (fun v =>
           pbind (body v acc) (fun r =>
           if r.2 : bool then pret r.1
           else pbind (call (sj_next L it)) (fun it => range_for fuel body it r.1))))
  end.

(** The try block of a parser: what it returns and the event it leaves; [None]: not finished. *)
Definition run_parser (p : PM unit) (d : JDoc L) (o : Out) : option (bool * Out) :=
  match p (d, o) with
  | (Val _, s) => Some (true, s.2)
  | (Return b, s) => Some (b, s.2)
  | (Throw, s) => Some (false, s.2)
  | (Stuck, _) => None
  end.
End parsers.
Arguments PM : clear implicits.

Notation "'let!' x := m 'in' k" := (pbind m (fun x => k)) (at level 10, x name, m at level 100, k at level 200) : json_scope.
Notation "m ';;;' k" := (pbind m (fun _ => k)) (at level 199, k at level 200, right associativity) : json_scope.
Open Scope json_scope.

Section accessors.
Context {L : Simdjson} {Out : Type}.
Abbreviation PM := (PM L Out).

Definition doc_field (key : string) : PM (JVal L) := call (sj_doc_field L key).
Definition field (v : JVal L) (key : string) : PM (JVal L) := call (sj_field L v key).
Definition get_string (v : JVal L) : PM (list ascii) := value (sj_get_string L v).
(** The result types are [int64_t] and [uint64_t]. *)
Definition get_int64 (v : JVal L) : PM Z := let! x := value (sj_get_int64 L v) in pret (swrap 64 x).
Definition get_uint64 (v : JVal L) : PM Z := let! x := value (sj_get_uint64 L v) in pret (u64 x).
Definition get_bool (v : JVal L) : PM bool := value (sj_get_bool L v).
(** [(void)v.get_uint64()]: the result is not converted, nothing is thrown. *)
Definition skip_uint64 (v : JVal L) : PM unit := let! _ := call (sj_get_uint64 L v) in pret tt.
(** Conversion of a result to an array or a value. *)
Definition get_array (v : JVal L) : PM (JVal L) :=
  let! a := call (sj_get_array L v) in if sj_error L a then pthrow else pret a.
Definition as_value (v : JVal L) : PM (JVal L) := if sj_error L v then pthrow else pret v.

(** [if(!SvToDouble(v.get_string(), out.f)) return false;] *)
Definition double_or_return (v : JVal L) (set : double -> Out -> Out) : PM unit :=
  let! s := get_string v in
  match from_chars s with Some x => pput (set x) | None => preturn false end.
End accessors.

(** ** Shared helpers *)

(** Source: src/exchange/crypto/json_parse_helpers.h:25-25, MsToUs. *)
Definition MsToUs (ms : Z) : Z := u64 (ms * 1000).

(** Source: src/exchange/crypto/json_parse_helpers.h:30-30, kDepthSubscribeDelayMs. *)
Definition kDepthSubscribeDelayMs : Z := 500.
(** Source: src/exchange/crypto/json_parse_helpers.h:31-31, kBookTickerSubscribeDelayMs. *)
Definition kBookTickerSubscribeDelayMs : Z := 700.

Section helpers.
Context {L : Simdjson} {Out : Type}.

(** The body for one level: the new count, and whether the loop ends. *)
Definition positional_level (write : nat -> PriceLevel -> Out -> Out) (max_levels : nat) (level : JVal L) (count : nat)
    : PM L Out (nat * bool) :=
  if (max_levels <=? count)%nat then pret (count, true)
  else
    let! it := call (sj_begin L level) in
    let! e := at_end it in
    if e : bool then pret (count, false)
    else
      let! v := call (sj_deref L it) in
      let! s := get_string v in
      match from_chars s with
      | None => pret (count, false)
      | Some p =>
          let! it := call (sj_next L it) in
          let! e := at_end it in
          if e : bool then pret (count, false)
          else
            let! v := call (sj_deref L it) in
            let! s := get_string v in
            match from_chars s with
            | None => pret (count, false)
            | Some q => pput (write count (mkLevel p q)) ;;; pret (S count, false)
            end
      end.

(** Source: src/exchange/crypto/json_parse_helpers.h:55-69, ParsePositionalLevelArray.
    [write i l] is [out[i] = l]. *)
Definition ParsePositionalLevelArray (fuel : nat) (arr : JVal L) (write : nat -> PriceLevel -> Out -> Out) (max_levels : nat)
    : PM L Out nat :=
  let! it := call (sj_begin L arr) in
  range_for fuel (positional_level write max_levels) it 0%nat.
End helpers.

(** [ParseResult result;] *)
Definition parse_result0 : ParseResult := mkParse PT_NONE tick0 depth0 book_ticker0.

(** Source: src/exchange/crypto/json_parse_helpers.h:76-80, DispatchParse.
    [set] stores the event the parser has filled. *)
Definition DispatchParse {Out} (type : ParsedType) (r : option (bool * Out)) (set : Out -> ParseResult -> ParseResult)
    (result : ParseResult) : option ParseResult :=
  match r with
  | None => None
  | Some (ok, o) =>
      let result := set o result in
      Some (mkParse (if ok : bool then type else PT_NONE) (pr_tick result) (pr_depth result) (pr_book_ticker result))
  end.

Definition set_tick (t : TickData) (r : ParseResult) : ParseResult := mkParse (pr_type r) t (pr_depth r) (pr_book_ticker r).
Definition set_depth (e : DepthUpdateEvent) (r : ParseResult) : ParseResult := mkParse (pr_type r) (pr_tick r) e (pr_book_ticker r).
Definition set_book_ticker (e : BookTickerEvent) (r : ParseResult) : ParseResult := mkParse (pr_type r) (pr_tick r) (pr_depth r) e.

(** ** Assignments to the members of an event *)

Definition put_tick_ts (x : Z) (r : TickData) : TickData := mkTick x (tk_local_diff r) (tk_trade_id r) (tk_price r) (tk_quantity r) (tk_channel_id r) (tk_symbol r) (tk_is_buyer_maker r) (tk_padding r).
Definition put_tick_id (x : Z) (r : TickData) : TickData := mkTick (tk_exchange_timestamp r) (tk_local_diff r) x (tk_price r) (tk_quantity r) (tk_channel_id r) (tk_symbol r) (tk_is_buyer_maker r) (tk_padding r).
Definition put_tick_price (x : double) (r : TickData) : TickData := mkTick (tk_exchange_timestamp r) (tk_local_diff r) (tk_trade_id r) x (tk_quantity r) (tk_channel_id r) (tk_symbol r) (tk_is_buyer_maker r) (tk_padding r).
Definition put_tick_qty (x : double) (r : TickData) : TickData := mkTick (tk_exchange_timestamp r) (tk_local_diff r) (tk_trade_id r) (tk_price r) x (tk_channel_id r) (tk_symbol r) (tk_is_buyer_maker r) (tk_padding r).
Definition put_tick_channel (x : Z) (r : TickData) : TickData := mkTick (tk_exchange_timestamp r) (tk_local_diff r) (tk_trade_id r) (tk_price r) (tk_quantity r) x (tk_symbol r) (tk_is_buyer_maker r) (tk_padding r).
Definition put_tick_maker (x : bool) (r : TickData) : TickData := mkTick (tk_exchange_timestamp r) (tk_local_diff r) (tk_trade_id r) (tk_price r) (tk_quantity r) (tk_channel_id r) (tk_symbol r) x (tk_padding r).
Definition put_depth_id (x : Z) (r : DepthUpdateEvent) : DepthUpdateEvent := mkDepth x (dp_channel_id r) (dp_exchange_timestamp r) (dp_local_diff r) (dp_symbol r) (dp_bids r) (dp_asks r) (dp_bid_count r) (dp_ask_count r).
Definition put_depth_channel (x : Z) (r : DepthUpdateEvent) : DepthUpdateEvent := mkDepth (dp_last_update_id r) x (dp_exchange_timestamp r) (dp_local_diff r) (dp_symbol r) (dp_bids r) (dp_asks r) (dp_bid_count r) (dp_ask_count r).
Definition put_depth_ts (x : Z) (r : DepthUpdateEvent) : DepthUpdateEvent := mkDepth (dp_last_update_id r) (dp_channel_id r) x (dp_local_diff r) (dp_symbol r) (dp_bids r) (dp_asks r) (dp_bid_count r) (dp_ask_count r).
Definition put_bids (x : list PriceLevel) (r : DepthUpdateEvent) : DepthUpdateEvent := mkDepth (dp_last_update_id r) (dp_channel_id r) (dp_exchange_timestamp r) (dp_local_diff r) (dp_symbol r) x (dp_asks r) (dp_bid_count r) (dp_ask_count r).
Definition put_asks (x : list PriceLevel) (r : DepthUpdateEvent) : DepthUpdateEvent := mkDepth (dp_last_update_id r) (dp_channel_id r) (dp_exchange_timestamp r) (dp_local_diff r) (dp_symbol r) (dp_bids r) x (dp_bid_count r) (dp_ask_count r).
Definition put_bid_count (x : nat) (r : DepthUpdateEvent) : DepthUpdateEvent := mkDepth (dp_last_update_id r) (dp_channel_id r) (dp_exchange_timestamp r) (dp_local_diff r) (dp_symbol r) (dp_bids r) (dp_asks r) x (dp_ask_count r).
Definition put_ask_count (x : nat) (r : DepthUpdateEvent) : DepthUpdateEvent := mkDepth (dp_last_update_id r) (dp_channel_id r) (dp_exchange_timestamp r) (dp_local_diff r) (dp_symbol r) (dp_bids r) (dp_asks r) (dp_bid_count r) x.
Definition put_ticker_channel (x : Z) (r : BookTickerEvent) : BookTickerEvent := mkBookTicker x (bt_exchange_timestamp r) (bt_local_diff r) (bt_symbol r) (bt_best_bid_price r) (bt_best_bid_qty r) (bt_best_ask_price r) (bt_best_ask_qty r).
Definition put_ticker_ts (x : Z) (r : BookTickerEvent) : BookTickerEvent := mkBookTicker (bt_channel_id r) x (bt_local_diff r) (bt_symbol r) (bt_best_bid_price r) (bt_best_bid_qty r) (bt_best_ask_price r) (bt_best_ask_qty r).
Definition put_bid_price (x : double) (r : BookTickerEvent) : BookTickerEvent := mkBookTicker (bt_channel_id r) (bt_exchange_timestamp r) (bt_local_diff r) (bt_symbol r) x (bt_best_bid_qty r) (bt_best_ask_price r) (bt_best_ask_qty r).
Definition put_bid_qty (x : double) (r : BookTickerEvent) : BookTickerEvent := mkBookTicker (bt_channel_id r) (bt_exchange_timestamp r) (bt_local_diff r) (bt_symbol r) (bt_best_bid_price r) x (bt_best_ask_price r) (bt_best_ask_qty r).
Definition put_ask_price (x : double) (r : BookTickerEvent) : BookTickerEvent := mkBookTicker (bt_channel_id r) (bt_exchange_timestamp r) (bt_local_diff r) (bt_symbol r) (bt_best_bid_price r) (bt_best_bid_qty r) x (bt_best_ask_qty r).
Definition put_ask_qty (x : double) (r : BookTickerEvent) : BookTickerEvent := mkBookTicker (bt_channel_id r) (bt_exchange_timestamp r) (bt_local_diff r) (bt_symbol r) (bt_best_bid_price r) (bt_best_bid_qty r) (bt_best_ask_price r) x.
Definition put_bid (i : nat) (l : PriceLevel) (r : DepthUpdateEvent) : DepthUpdateEvent := put_bids (<[i := l]> (dp_bids r)) r.
Definition put_ask (i : nat) (l : PriceLevel) (r : DepthUpdateEvent) : DepthUpdateEvent := put_asks (<[i := l]> (dp_asks r)) r.

(** Source: src/exchange/exchange_adapter.h:75-94, ExchangeAdapter.
    [build_subscribes] may read the wall clock (seconds), [parse] too (microseconds). *)
Record ExchangeAdapter (L : Simdjson) := mkAdapter {
  ad_name : string;
  ad_channel_type : ChannelType;
  ad_rest_host : string;
  ad_build_subscribes : Z -> string -> Z -> list SubscriptionGroup;
  ad_peek_event_type : JDoc L -> EventType;
  ad_parse : Z -> JDoc L -> Z -> EventType -> option ParseResult;
  ad_ws_headers : list (string * string)
}.
Arguments mkAdapter {L}. Arguments ad_name {L}. Arguments ad_channel_type {L}. Arguments ad_rest_host {L}.
Arguments ad_build_subscribes {L}. Arguments ad_peek_event_type {L}. Arguments ad_parse {L}. Arguments ad_ws_headers {L}.

(** ** Reasoning about parsers

    [wp m Q R s]: started in [s], [m] goes on with a value and a state in [Q], or
    returns with a flag and a state in [R]; nothing is said of a throw. *)

Section wp.
Context {L : Simdjson} {Out : Type}.
Abbreviation PM := (PM L Out).
Abbreviation state := (JDoc L * Out)%type.

Definition wp {A} (m : PM A) (Q : A -> state -> Prop) (R : bool -> state -> Prop) (s : state) : Prop :=
  match m s with
  | (Val a, s') => Q a s'
  | (Return b, s') => R b s'
  | (Throw, _) | (Stuck, _) => True
  end.

Lemma wp_bind {A B} (m : PM A) (f : A -> PM B) Q R s : wp m (fun a s' => wp (f a) Q R s') R s -> wp (pbind m f) Q R s.
Proof. unfold wp, pbind. by destruct (m s) as [[] ]. Qed.

Lemma wp_pret {A} (a : A) Q R s : Q a s -> wp (pret a) Q R s.
Proof. done. Qed.
Lemma wp_preturn {A} b (Q : A -> state -> Prop) R s : R b s -> wp (preturn b) Q R s.
Proof. done. Qed.
Lemma wp_pthrow {A} (Q : A -> state -> Prop) R s : wp pthrow Q R s.
Proof. done. Qed.
Lemma wp_pput f Q R s : Q tt (s.1, f s.2) -> wp (pput f) Q R s.
Proof. done. Qed.
Lemma wp_pget (Q : Out -> state -> Prop) R s : Q s.2 s -> wp pget Q R s.
Proof. done. Qed.
Lemma wp_at_end it Q R s : (forall b, Q b s) -> wp (at_end it) Q R s.
Proof. intros H. apply H. Qed.

Lemma wp_call {A} (f : JDoc L -> A * JDoc L) Q R s : (forall a d, Q a (d, s.2)) -> wp (call f) Q R s.
Proof. intros H. unfold wp, call. destruct (f s.1). apply H. Qed.

Lemma wp_value {A} (f : JDoc L -> option A * JDoc L) Q R s : (forall a d, Q a (d, s.2)) -> wp (value f) Q R s.
Proof. intros H. unfold wp, value. destruct (f s.1) as [[a|] d]; [apply H|done]. Qed.

Lemma wp_weaken {A} (m : PM A) (Q Q' : A -> state -> Prop) R s :
  wp m Q R s -> (forall a s', Q a s' -> Q' a s') -> wp m Q' R s.
Proof. unfold wp. intros H HQ. destruct (m s) as [[] ]; auto. Qed.

(** A loop keeps what its body keeps. *)
Lemma wp_range_for {A} fuel (body : JVal L -> A -> PM (A * bool)) it acc (I : A -> Out -> Prop) R s :
  (forall v a s, I a s.2 -> wp (body v a) (fun r s' => I r.1 s'.2) R s) ->
  I acc s.2 -> wp (range_for fuel body it acc) (fun a s' => I a s'.2) R s.
Proof.
  intros Hb. revert it acc s. induction fuel as [|fuel IH]; intros it acc s Hi; [done|]. cbn [range_for].
  apply wp_bind, wp_at_end. intros stop. destruct stop; [by apply wp_pret|].
  apply wp_bind, wp_call. intros v d. apply wp_bind. eapply wp_weaken; [by apply Hb|].
  intros [a brk] [d' o'] Ha. cbn [fst snd] in *. destruct brk; [by apply wp_pret|].
  apply wp_bind, wp_call. intros it' d''. by apply IH.
Qed.
End wp.

(** One step of a symbolic execution with an unknown library. *)
Ltac wp_step :=
  lazymatch goal with
  | |- wp (pbind _ _) _ _ _ => apply wp_bind
  | |- wp (pret _) _ _ _ => apply wp_pret
  | |- wp (preturn _) _ _ _ => apply wp_preturn
  | |- wp pthrow _ _ _ => apply wp_pthrow
  | |- wp (pput _) _ _ _ => apply wp_pput
  | |- wp pget _ _ _ => apply wp_pget
  | |- wp (at_end _) _ _ _ => apply wp_at_end; intros ?
  | |- wp (call _) _ _ _ => apply wp_call; intros ? ?
  | |- wp (checked _) _ _ _ => apply wp_call; intros ? ?
  | |- wp (value _) _ _ _ => apply wp_value; intros ? ?
  | |- wp (doc_field _) _ _ _ => unfold doc_field at 1
  | |- wp (field _ _) _ _ _ => unfold field at 1
  | |- wp (get_string _) _ _ _ => unfold get_string at 1
  | |- wp (get_int64 _) _ _ _ => unfold get_int64 at 1
  | |- wp (get_uint64 _) _ _ _ => unfold get_uint64 at 1
  | |- wp (get_bool _) _ _ _ => unfold get_bool at 1
  | |- wp (skip_uint64 _) _ _ _ => unfold skip_uint64 at 1
  | |- wp (get_array _) _ _ _ => unfold get_array at 1
  | |- wp (as_value _) _ _ _ => unfold as_value at 1
  | |- wp (double_or_return _ _) _ _ _ => unfold double_or_return at 1
  | |- wp (match from_chars ?s with _ => _ end) _ _ _ => destruct (from_chars s)
  | |- wp (match ?x with Some _ => _ | None => _ end) _ _ _ => destruct x
  | |- wp (if ?b then _ else _) _ _ _ => destruct b eqn:?
  end.
Ltac wp_run := repeat (wp_step; cbn [fst snd]).

(** At most [max] levels are counted, each written below the count. *)
Lemma wp_levels {L Out} fuel (arr : JVal L) (write : nat -> PriceLevel -> Out -> Out) max (I : Out -> Prop) R s :
  (forall i l o, (i < max)%nat -> I o -> I (write i l o)) -> I s.2 ->
  wp (ParsePositionalLevelArray fuel arr write max) (fun n s' => (n <= max)%nat /\ I s'.2) R s.
Proof.
  intros Hw Hs. unfold ParsePositionalLevelArray. wp_step. wp_step.
  apply (wp_range_for fuel _ _ _ (fun n o => (n <= max)%nat /\ I o)); [|cbn; split; [lia|done]].
  intros v n s' [Hn Hi]. unfold positional_level. destruct (Nat.leb_spec max n); [by apply wp_pret|].
  wp_run; try done. split; [lia|]. by apply Hw.
Qed.

(** What a parser that returned [true] has established. *)
Lemma run_parser_wp {L Out} (p : PM L Out unit) d o (P : Out -> Prop) o' :
  wp p (fun _ s => P s.2) (fun b s => b = true -> P s.2) (d, o) -> run_parser p d o = Some (true, o') -> P o'.
Proof. unfold wp, run_parser. destruct (p (d, o)) as [[|[]| |] s]; intros H [= <-]; auto. Qed.
