(* ===== verification/OnDemand.v ===== *)
(** * The documented behaviour of the JSON library

    A document denotes a JSON value; walking it opens containers and values, which
    are kept as a stack of frames.  [OnDemand] says what the operations of
    [Simdjson] do to the top of the stack: fields are found in any order, a value
    that is not read or only partly read is skipped, a scalar may be tried as
    another type after a type error, and array elements come in order.  The relation
    [at_] is meant for documents whose objects have no duplicate keys.  Nothing is
    said about an iterator over a value that is not an array. *)
From S2P Require Import Prelude Doubles Events Exchange FromChars Json.

Inductive json :=
| JNull
| JBool (b : bool)
| JInt (z : Z)
| JNum (text : list ascii)                       (* a number that is not an integer *)
| JStr (s : list ascii)
| JArr (js : list json)
| JObj (fs : list (string * json)).

Fixpoint assoc (k : string) (fs : list (string * json)) : option json :=
  match fs with
  | [] => None
  | (k', j) :: fs' => if (k =? k')%string then Some j else assoc k fs'
  end.

(** The member [k] of a value. *)
Definition jfield (k : string) (j : json) : option json := match j with JObj fs => assoc k fs | _ => None end.
Definition jstring (j : json) : option (list ascii) := match j with JStr s => Some s | _ => None end.
Definition jdouble (j : json) : option double := match jstring j with Some s => from_chars s | None => None end.
Definition jbool (j : json) : option bool := match j with JBool b => Some b | _ => None end.
Definition jint64 (j : json) : option Z :=
  match j with JInt z => if (- 2 ^ 63 <=? z) && (z <? 2 ^ 63) then Some z else None | _ => None end.
Definition juint64 (j : json) : option Z :=
  match j with JInt z => if (0 <=? z) && (z <? 2 ^ 64) then Some z else None | _ => None end.

Inductive frame (L : Simdjson) :=
| FStart (fs : list (string * json))             (* a document just opened *)
| FDoc (fs : list (string * json))
| FVal (v : JVal L) (j : json)
| FIter (it : JIter L) (js : list json)          (* an iterator before [js] *)
| FCur (it : JIter L) (js : list json).          (* its element was taken, [js] are left *)
Arguments FStart {L}. Arguments FDoc {L}. Arguments FVal {L}. Arguments FIter {L}. Arguments FCur {L}.

(** What an accessor of result type [A] does at a value: [get] or an error. *)
Definition reads {L A} (at_ : JDoc L -> list (frame L) -> Prop) (f : JVal L -> JDoc L -> option A * JDoc L)
    (get : json -> option A) : Prop :=
  (forall d v j K x, at_ d (FVal v j :: K) -> K <> [] -> get j = Some x -> (f v d).1 = Some x /\ at_ (f v d).2 K) /\
  (forall d v j K, at_ d (FVal v j :: K) -> get j = None -> (f v d).1 = None /\ at_ (f v d).2 (FVal v j :: K)) /\
  (forall d v K, sj_error L v = true -> at_ d K -> (f v d).1 = None /\ at_ (f v d).2 K).

Class OnDemand (L : Simdjson) := {
  at_ : JDoc L -> list (frame L) -> Prop;
  od_skip : forall d f K, at_ d (f :: K) -> K <> [] -> at_ d K;
  od_start : forall d fs, at_ d [FStart fs] -> at_ d [FDoc fs];
  od_rewind_start : forall d fs, at_ d [FStart fs] -> at_ (sj_rewind L d) [FStart fs];
  od_rewind : forall d fs K, at_ d (K ++ [FDoc fs]) -> at_ (sj_rewind L d) [FStart fs];
  od_find_hit : forall d fs k j, at_ d [FStart fs] -> assoc k fs = Some j ->
    sj_error L (sj_find_field L k d).1 = false /\ at_ (sj_find_field L k d).2 [FVal (sj_find_field L k d).1 j; FDoc fs];
  od_find_miss : forall d fs k, at_ d [FStart fs] -> assoc k fs = None ->
    sj_error L (sj_find_field L k d).1 = true /\ at_ (sj_find_field L k d).2 [FDoc fs];
  od_doc_hit : forall d fs k j, at_ d [FDoc fs] -> assoc k fs = Some j ->
    sj_error L (sj_doc_field L k d).1 = false /\ at_ (sj_doc_field L k d).2 [FVal (sj_doc_field L k d).1 j; FDoc fs];
  od_doc_miss : forall d fs k, at_ d [FDoc fs] -> assoc k fs = None ->
    sj_error L (sj_doc_field L k d).1 = true /\ at_ (sj_doc_field L k d).2 [FDoc fs];
  od_field_hit : forall d v j0 K k j, at_ d (FVal v j0 :: K) -> jfield k j0 = Some j ->
    sj_error L (sj_field L v k d).1 = false /\ at_ (sj_field L v k d).2 (FVal (sj_field L v k d).1 j :: FVal v j0 :: K);
  od_field_miss : forall d v j0 K k, at_ d (FVal v j0 :: K) -> jfield k j0 = None ->
    sj_error L (sj_field L v k d).1 = true /\ at_ (sj_field L v k d).2 (FVal v j0 :: K);
  od_field_error : forall d v K k, sj_error L v = true -> at_ d K ->
    sj_error L (sj_field L v k d).1 = true /\ at_ (sj_field L v k d).2 K;
  od_string : reads at_ (sj_get_string L) jstring;
  od_int64 : reads at_ (sj_get_int64 L) jint64;
  od_uint64 : reads at_ (sj_get_uint64 L) juint64;
  od_bool : reads at_ (sj_get_bool L) jbool;
  od_array : forall d v js K, at_ d (FVal v (JArr js) :: K) ->
    sj_error L (sj_get_array L v d).1 = false /\ at_ (sj_get_array L v d).2 (FVal (sj_get_array L v d).1 (JArr js) :: K);
  od_array_error : forall d v j K, at_ d (FVal v j :: K) -> (forall js, j <> JArr js) -> sj_error L (sj_get_array L v d).1 = true;
  od_error_array : forall d v, sj_error L v = true -> sj_error L (sj_get_array L v d).1 = true;
  od_begin : forall d v js K, at_ d (FVal v (JArr js) :: K) -> at_ (sj_begin L v d).2 (FIter (sj_begin L v d).1 js :: K);
  od_end : forall d it js K, at_ d (FIter it js :: K) -> sj_at_end L it d = match js with [] => true | _ => false end;
  od_deref : forall d it j js K, at_ d (FIter it (j :: js) :: K) ->
    sj_error L (sj_deref L it d).1 = false /\ at_ (sj_deref L it d).2 (FVal (sj_deref L it d).1 j :: FCur it js :: K);
  od_next : forall d it js K, at_ d (FCur it js :: K) -> at_ (sj_next L it d).2 (FIter (sj_next L it d).1 js :: K)
}.

(** ** An implementation: the parsed tree *)

Definition dom_read {A} (get : json -> option A) (v : option json) (d : json) : option A * json :=
  (match v with Some j => get j | None => None end, d).

Definition Dom : Simdjson := mkSimdjson json (option json) (list json)
  (fun k d => (jfield k d, d)) (fun k d => (jfield k d, d)) (fun d => d)
  (fun v => match v with Some _ => false | None => true end)
  (fun v k d => (match v with Some j => jfield k j | None => None end, d))
  (dom_read jstring) (dom_read jint64) (dom_read juint64) (dom_read jbool)
  (fun v d => (match v with Some (JArr js) => v | _ => None end, d))
  (fun v d => (match v with Some (JArr js) => js | _ => [] end, d))
  (fun it _ => match it with [] => true | _ => false end)
  (fun it d => (head it, d)) (fun it d => (tail it, d)).

Definition dom_frame (d : json) (f : frame Dom) : Prop :=
  match f with
  | FStart fs | FDoc fs => d = JObj fs
  | FVal v j => v = Some j
  | FIter it js => it = js
  | FCur it js => tail it = js
  end.

Lemma dom_reads {A} (get : json -> option A) : reads (L := Dom) (fun d K => Forall (dom_frame d) K) (dom_read get) get.
Proof.
  split_and!.
  - intros d v j K x H _ Hg. apply Forall_cons in H as [-> H]. by split.
  - intros d v j K H Hg. split; [|done]. apply Forall_cons in H as [-> _]. done.
  - intros d [v|] K He H; [done|]. by split.
Qed.

#[export] Instance dom_on_demand : OnDemand Dom.
Proof.
  refine (Build_OnDemand Dom (fun d K => Forall (dom_frame d) K) _ _ _ _ _ _ _ _ _ _ _
    (dom_reads jstring) (dom_reads jint64) (dom_reads juint64) (dom_reads jbool) _ _ _ _ _ _ _); cbn.
  - intros d f K H _. by apply Forall_cons in H as [_ ?].
  - intros d fs H. apply Forall_inv in H. by repeat constructor.
  - done.
  - intros d fs K H. apply Forall_app in H as [_ H]. apply Forall_inv in H. by repeat constructor.
  - intros d fs k j H Ha. apply Forall_cons in H as [-> _]. cbn. rewrite Ha. split; [done|]. by repeat constructor.
  - intros d fs k H Ha. apply Forall_cons in H as [-> _]. cbn. rewrite Ha. split; [done|]. by repeat constructor.
  - intros d fs k j H Ha. apply Forall_cons in H as [-> _]. cbn. rewrite Ha. split; [done|]. by repeat constructor.
  - intros d fs k H Ha. apply Forall_cons in H as [-> _]. cbn. rewrite Ha. split; [done|]. by repeat constructor.
  - intros d v j0 K k j H Ha. pose proof H as H'. apply Forall_cons in H' as [-> _]. rewrite Ha. split; [done|]. constructor; [reflexivity|exact H].
  - intros d v j0 K k H Ha. pose proof H as H'. apply Forall_cons in H' as [-> _]. by rewrite Ha.
  - intros d [v|] K k He H; [done|]. by split.
  - intros d v js K H. pose proof (Forall_inv H) as Hv. change (v = Some (JArr js)) in Hv. subst v. split; [reflexivity|exact H].
  - intros d v j K H Hn. pose proof (Forall_inv H) as Hv. change (v = Some j) in Hv. subst v. destruct j; try done. by destruct (Hn js).
  - intros d [v|] He; [done|]. done.
  - intros d v js K H. pose proof (Forall_inv H) as Hv. change (v = Some (JArr js)) in Hv. subst v.
    constructor; [reflexivity|]. by apply Forall_cons in H as [_ H].
  - intros d it js K H. pose proof (Forall_inv H) as Hv. change (it = js) in Hv. by subst it.
  - intros d it j js K H. pose proof (Forall_inv H) as Hv. change (it = j :: js) in Hv. subst it.
    apply Forall_cons in H as [_ H]. split; [done|]. by repeat constructor.
  - intros d it js K H. apply Forall_cons in H as [H1 H]. by constructor.
Defined.

(** ** Reading members

    [handle d v oj I]: in [d], [v] is a handle to the value [oj] (an error if there
    is none), and leaving it leads to a document in [I].  [scope look get I]: in
    documents of [I], [look k] opens a handle to [get k]. *)

Section scopes.
Context {L : Simdjson} `{!OnDemand L} {Out : Type}.

Definition handle (d : JDoc L) (v : JVal L) (oj : option json) (I : JDoc L -> Prop) : Prop :=
  exists K, K <> [] /\ (forall d', at_ d' K -> I d') /\
    match oj with
    | Some j => sj_error L v = false /\ at_ d (FVal v j :: K)
    | None => sj_error L v = true /\ at_ d K
    end.

Definition scope (look : string -> JDoc L -> JVal L * JDoc L) (get : string -> option json) (I : JDoc L -> Prop) : Prop :=
  forall d k, I d -> handle (look k d).2 (look k d).1 (get k) I.

Lemma doc_scope fs : scope (sj_doc_field L) (fun k => assoc k fs) (fun d => at_ d [FDoc fs]).
Proof.
  intros d k Hd. exists [FDoc fs]. split; [done|]. split; [done|].
  destruct (assoc k fs) as [j|] eqn:E; [by apply od_doc_hit|by apply od_doc_miss].
Qed.

(** A value that was opened is a scope of its own. *)
Lemma value_scope d v oj I :
  handle d v oj I -> exists I', I' d /\ scope (sj_field L v) (fun k => oj ≫= jfield k) I' /\ (forall d', I' d' -> I d').
Proof.
  intros (K & HK & HI & H). destruct oj as [j|]; cbn [mbind option_bind].
  - exists (fun d => at_ d (FVal v j :: K)). split; [apply H|]. split; [|intros d' Hd'; apply HI; by eapply od_skip].
    intros d' k Hd'. exists (FVal v j :: K). split; [done|]. split; [done|].
    destruct (jfield k j) as [j'|] eqn:E; [by apply od_field_hit|by apply od_field_miss].
  - exists (fun d => at_ d K). split; [apply H|]. split; [|done].
    intros d' k Hd'. exists K. split; [done|]. split; [done|]. apply od_field_error; [apply H|done].
Qed.

Lemma pbind_call {A B} (f : JDoc L -> A * JDoc L) (g : A -> PM L Out B) d o :
  pbind (call f) g (d, o) = g (f d).1 ((f d).2, o).
Proof. unfold pbind, call. cbn. by destruct (f d). Qed.

Lemma pbind_assoc {A B C} (m : PM L Out A) (f : A -> PM L Out B) (g : B -> PM L Out C) s :
  pbind (pbind m f) g s = pbind m (fun x => pbind (f x) g) s.
Proof. unfold pbind. by destruct (m s) as [[] ]. Qed.

Lemma reads_value {A B} (f : JVal L -> JDoc L -> option A * JDoc L) (get : json -> option A) d v oj I :
  reads at_ f get -> handle d v oj I ->
  exists d', I d' /\ forall o (g : A -> PM L Out B),
    pbind (value (f v)) g (d, o) = match oj ≫= get with Some x => g x (d', o) | None => (Throw, (d', o)) end.
Proof.
  intros (R1 & R2 & R3) (K & HK & HI & H). exists (f v d).2. unfold pbind, value. cbn [fst].
  destruct oj as [j|]; cbn [mbind option_bind].
  - destruct H as [_ H]. destruct (get j) as [x|] eqn:E.
    + destruct (R1 d v j K x H HK E) as [H1 H2]. split; [by apply HI|]. intros o g. destruct (f v d). cbn in *. by subst.
    + destruct (R2 d v j K H E) as [H1 H2]. split; [apply HI; by eapply od_skip|]. intros o g. destruct (f v d). cbn in *. by subst.
  - destruct H as [He H]. destruct (R3 d v K He H) as [H1 H2]. split; [by apply HI|]. intros o g. destruct (f v d). cbn in *. by subst.
Qed.

Lemma reads_get {A} (f : JVal L -> JDoc L -> option A * JDoc L) (get : json -> option A) d v oj I :
  reads at_ f get -> handle d v oj I -> (f v d).1 = oj ≫= get.
Proof.
  intros (R1 & R2 & R3) (K & HK & HI & H). destruct oj as [j|]; cbn [mbind option_bind]; [|by eapply R3; apply H].
  destruct H as [_ H]. destruct (get j) eqn:E; [by eapply R1|by eapply R2].
Qed.

(** Reading a member as a value of type [A]. *)
Lemma member {A B} look get I (f : JVal L -> JDoc L -> option A * JDoc L) (conv : json -> option A) d k :
  scope look get I -> reads at_ f conv -> I d ->
  exists d', I d' /\ forall o (g : A -> PM L Out B),
    pbind (call (look k)) (fun v => pbind (value (f v)) g) (d, o) =
      match get k ≫= conv with Some x => g x (d', o) | None => (Throw, (d', o)) end.
Proof.
  intros Hs Hr Hd. destruct (reads_value (B := B) f conv _ _ _ _ Hr (Hs d k Hd)) as (d' & Hd' & H).
  exists d'. split; [done|]. intros o g. by rewrite pbind_call, H.
Qed.

(** Skipping a member. *)
Lemma skipped {B} look get I d k :
  scope look get I -> I d -> exists d', I d' /\ forall o (g : unit -> PM L Out B),
    pbind (call (look k)) (fun v => pbind (skip_uint64 v) g) (d, o) = g tt (d', o).
Proof.
  intros Hs Hd. destruct (Hs d k Hd) as (K & HK & HI & H). set (v := (look k d).1) in *. set (d1 := (look k d).2) in *.
  exists (sj_get_uint64 L v d1).2. split.
  - apply HI. destruct od_uint64 as (R1 & R2 & R3). destruct (get k) as [j|]; [destruct H as [_ H]|destruct H as [He H]; by apply R3].
    destruct (juint64 j) eqn:E; [by eapply R1|]. eapply od_skip; [|exact HK]. by eapply R2.
  - intros o g. rewrite pbind_call. unfold skip_uint64. by rewrite pbind_assoc, pbind_call.
Qed.

(** A parser that throws or returns [false]. *)
Definition fails {A} (r : outcome A * (JDoc L * Out)) : Prop :=
  match r.1 with Throw | Return false => True | _ => False end.

Lemma fails_run (p : PM L Out unit) d o : fails (p (d, o)) -> exists o', run_parser p d o = Some (false, o').
Proof. unfold fails, run_parser. destruct (p (d, o)) as [[|[]| |] s]; intros H; try done; by exists s.2. Qed.

(** [yields lhs d I r k]: the step leads to a document of [I] and goes on with the value [r], or fails. *)
Definition yields {A B C} (m : C -> PM L Out B) (d : JDoc L) (I : JDoc L -> Prop) (r : option A)
    (next : C -> A -> JDoc L * Out -> outcome B * (JDoc L * Out)) (upd : A -> Out -> Out) : Prop :=
  exists d', I d' /\ forall o (c : C),
    match r with Some x => m c (d, o) = next c x (d', upd x o) | None => fails (m c (d, o)) end.

Lemma member_yields {A B} look get I f (conv : json -> option A) d k :
  scope look get I -> reads at_ f conv -> I d ->
  yields (B := B) (fun g => pbind (call (look k)) (fun v => pbind (value (f v)) g)) d I (get k ≫= conv) (fun g x => g x) (fun _ o => o).
Proof.
  intros Hs Hr Hd. destruct (member (B := B) look get I f conv d k Hs Hr Hd) as (d' & Hd' & H). exists d'. split; [done|].
  intros o g. pose proof (H o g) as E. destruct (get k ≫= conv); [done|]. by rewrite E.
Qed.

Lemma int64_exact j x : jint64 j = Some x -> swrap 64 x = x.
Proof.
  unfold jint64, swrap. destruct j; try done. destruct (Z.leb_spec (- 2 ^ 63) z); cbn [andb]; [|done].
  destruct (Z.ltb_spec z (2 ^ 63)); [|done]. intros [= <-]. change (64 - 1) with 63. rewrite Z.mod_small; lia.
Qed.

Lemma uint64_exact j x : juint64 j = Some x -> u64 x = x.
Proof.
  unfold juint64. destruct j; try done. destruct (Z.leb_spec 0 z); cbn [andb]; [|done].
  destruct (Z.ltb_spec z (2 ^ 64)); [|done]. intros [= <-]. apply wrap_small. by split.
Qed.

Section in_scope.
Context {B : Type} (look : string -> JDoc L -> JVal L * JDoc L) (get : string -> option json) (I : JDoc L -> Prop).
Context (Hs : scope look get I) (d : JDoc L) (Hd : I d) (k : string).

Lemma string_yields :
  yields (B := B) (fun g => pbind (call (look k)) (fun v => pbind (get_string v) g)) d I (get k ≫= jstring) (fun g x => g x) (fun _ o => o).
Proof using Hs Hd. by apply (member_yields look get I (sj_get_string L)); [|apply od_string|]. Qed.

Lemma bool_yields :
  yields (B := B) (fun g => pbind (call (look k)) (fun v => pbind (get_bool v) g)) d I (get k ≫= jbool) (fun g x => g x) (fun _ o => o).
Proof using Hs Hd. by apply (member_yields look get I (sj_get_bool L)); [|apply od_bool|]. Qed.

Lemma int64_yields :
  yields (B := B) (fun g => pbind (call (look k)) (fun v => pbind (get_int64 v) g)) d I (get k ≫= jint64) (fun g x => g x) (fun _ o => o).
Proof using Hs Hd.
  destruct (member_yields (B := B) look get I (sj_get_int64 L) jint64 d k Hs od_int64 Hd) as (d' & Hd' & H).
  exists d'. split; [done|]. intros o g. specialize (H o (fun x => g (swrap 64 x))). cbn beta in H.
  rewrite pbind_call in *. unfold get_int64. rewrite pbind_assoc. destruct (get k) as [j|]; cbn [mbind option_bind] in *; [|done].
  destruct (jint64 j) as [x|] eqn:E; [|done]. by rewrite (int64_exact _ _ E) in H.
Qed.

Lemma uint64_yields :
  yields (B := B) (fun g => pbind (call (look k)) (fun v => pbind (get_uint64 v) g)) d I (get k ≫= juint64) (fun g x => g x) (fun _ o => o).
Proof using Hs Hd.
  destruct (member_yields (B := B) look get I (sj_get_uint64 L) juint64 d k Hs od_uint64 Hd) as (d' & Hd' & H).
  exists d'. split; [done|]. intros o g. specialize (H o (fun x => g (u64 x))). cbn beta in H.
  rewrite pbind_call in *. unfold get_uint64. rewrite pbind_assoc. destruct (get k) as [j|]; cbn [mbind option_bind] in *; [|done].
  destruct (juint64 j) as [x|] eqn:E; [|done]. by rewrite (uint64_exact _ _ E) in H.
Qed.

Lemma double_yields (set : double -> Out -> Out) :
  yields (B := B) (fun g => pbind (call (look k)) (fun v => pbind (double_or_return v set) g)) d I
    (get k ≫= jdouble) (fun g _ => g tt) set.
Proof using Hs Hd.
  destruct string_yields as (d' & Hd' & H). exists d'. split; [done|]. intros o g.
  specialize (H o (fun s => pbind (match from_chars s with Some x => pput (set x) | None => preturn false end) g)).
  rewrite pbind_call in *. unfold double_or_return. rewrite pbind_assoc. cbn beta in H.
  destruct (get k) as [j|]; cbn [mbind option_bind] in *; [|done]. unfold jdouble.
  destruct (jstring j) as [s|]; [|done]. rewrite H. by destruct (from_chars s).
Qed.
End in_scope.
End scopes.

(** ** Level arrays *)

(** One positional level: [None] if reading it throws, [Some None] if it is skipped. *)
Definition plevel (j : json) : option (option PriceLevel) :=
  match j with
  | JArr (j1 :: rest) =>
      match jstring j1 with
      | None => None
      | Some s1 =>
          match from_chars s1, rest with
          | None, _ | _, [] => Some None
          | Some p, j2 :: _ => match jstring j2 with
                               | None => None
                               | Some s2 => Some (match from_chars s2 with Some q => Some (mkLevel p q) | None => None end)
                               end
          end
      end
  | _ => Some None
  end.

(** The first [n] levels that can be read. *)
Fixpoint read_levels (level : json -> option (option PriceLevel)) (n : nat) (js : list json) : option (list PriceLevel) :=
  match js, n with
  | [], _ | _, O => Some []
  | j :: js', S n' =>
      match level j with
      | None => None
      | Some None => read_levels level n js'
      | Some (Some l) => match read_levels level n' js' with Some ls => Some (l :: ls) | None => None end
      end
  end.

Definition is_array (j : json) : Prop := match j with JArr _ => True | _ => False end.

Fixpoint write_levels {Out} (write : nat -> PriceLevel -> Out -> Out) (i : nat) (ls : list PriceLevel) (o : Out) : Out :=
  match ls with
  | [] => o
  | l :: ls' => write_levels write (S i) ls' (write i l o)
  end.

Section levels.
Context {L : Simdjson} `{!OnDemand L} {Out : Type} (write : nat -> PriceLevel -> Out -> Out).

Lemma pbind_at_end {B} it (g : bool -> PM L Out B) d o : pbind (at_end it) g (d, o) = g (sj_at_end L it d) (d, o).
Proof. done. Qed.

(** Reading the string of an element. *)
Lemma element_string {B} d it j js K :
  at_ d (FIter it (j :: js) :: K) ->
  exists d', at_ d' (FCur it js :: K) /\ forall o (g : list ascii -> PM L Out B),
    pbind (call (sj_deref L it)) (fun v => pbind (get_string v) g) (d, o) =
      match jstring j with Some s => g s (d', o) | None => (Throw, (d', o)) end.
Proof.
  intros H. destruct (od_deref _ _ _ _ _ H) as [He Hv].
  destruct (reads_value (Out := Out) (B := B) (sj_get_string L) jstring (sj_deref L it d).2 (sj_deref L it d).1 (Some j)
    (fun d' => at_ d' (FCur it js :: K)) od_string) as (d' & Hd' & Hg).
  - exists (FCur it js :: K). split; [done|]. split; [done|]. by split.
  - exists d'. split; [done|]. intros o g. rewrite pbind_call. unfold get_string. apply Hg.
Qed.

Lemma positional_level_step max v j K n d :
  at_ d (FVal v j :: K) -> K <> [] -> is_array j -> (n < max)%nat ->
  exists d', at_ d' K /\ forall o,
    match plevel j with
    | None => exists s, positional_level write max v n (d, o) = (Throw, s)
    | Some None => positional_level write max v n (d, o) = (Val (n, false), (d', o))
    | Some (Some l) => positional_level write max v n (d, o) = (Val (S n, false), (d', write n l o))
    end.
Proof.
  intros H HK Hj Hn. destruct j as [| | | | |js|]; try done. unfold positional_level.
  rewrite (proj2 (Nat.leb_gt max n)) by done. pose proof (od_begin _ _ _ _ H) as Hb.
  set (d1 := (sj_begin L v d).2) in *. set (it := (sj_begin L v d).1) in *. cbn [plevel].
  destruct js as [|j1 rest].
  { exists d1. split; [by eapply od_skip|]. intros o. rewrite pbind_call. fold d1 it. by rewrite pbind_at_end, (od_end _ _ _ _ Hb). }
  destruct (element_string (B := nat * bool) d1 it j1 rest K Hb) as (d2 & H2 & E2).
  assert (Hstart : forall o g, pbind (call (sj_begin L v)) (fun it => pbind (at_end it) (fun e => if e : bool then pret (n, false) else g it)) (d, o)
    = g it (d1, o)) by (intros o g; rewrite pbind_call; fold d1 it; by rewrite pbind_at_end, (od_end _ _ _ _ Hb)).
  pose proof (od_next _ _ _ _ H2) as Hn2. set (d3 := (sj_next L it d2).2) in *. set (it' := (sj_next L it d2).1) in *.
  destruct (jstring j1) as [s1|] eqn:Es1.
  2:{ exists d2. split; [by eapply od_skip|]. intros o. rewrite Hstart, E2. by eexists. }
  destruct (from_chars s1) as [p|] eqn:Ep.
  2:{ exists d2. split; [by eapply od_skip|]. intros o. rewrite Hstart, E2, Ep. done. }
  destruct rest as [|j2 rest].
  { exists d3. split; [by eapply od_skip|]. intros o. rewrite Hstart, E2, Ep, pbind_call. fold d3 it'.
    by rewrite pbind_at_end, (od_end _ _ _ _ Hn2). }
  destruct (element_string (B := nat * bool) d3 it' j2 rest K Hn2) as (d4 & H4 & E4).
  exists d4. split; [by eapply od_skip|]. intros o.
  destruct (jstring j2) as [s2|] eqn:Es2.
  - destruct (from_chars s2) as [q|] eqn:Eq; rewrite Hstart, E2, Ep, pbind_call; fold d3 it';
      rewrite pbind_at_end, (od_end _ _ _ _ Hn2), E4, Eq; done.
  - rewrite Hstart, E2, Ep, pbind_call. fold d3 it'. rewrite pbind_at_end, (od_end _ _ _ _ Hn2), E4. by eexists.
Qed.

(** The loop over the array. *)
Lemma levels_loop max js K fuel n it d :
  at_ d (FIter it js :: K) -> K <> [] -> Forall is_array js -> (length js < fuel)%nat -> (n <= max)%nat ->
  exists d', at_ d' K /\ forall o,
    match read_levels plevel (max - n) js with
    | Some ls => range_for fuel (positional_level write max) it n (d, o) = (Val (n + length ls)%nat, (d', write_levels write n ls o))
    | None => exists s, range_for fuel (positional_level write max) it n (d, o) = (Throw, s)
    end.
Proof.
  revert js n it d. induction fuel as [|fuel IH]; intros js n it d H HK Hjs Hf Hn; [lia|].
  destruct js as [|j js].
  { exists d. split; [by eapply od_skip|]. intros o. cbn [read_levels range_for]. rewrite pbind_at_end, (od_end _ _ _ _ H).
    cbn. by rewrite Nat.add_0_r. }
  apply Forall_cons in Hjs as [Hj Hjs]. cbn [length] in Hf. destruct (od_deref _ _ _ _ _ H) as [_ Hv].
  set (v := (sj_deref L it d).1) in *. set (d1 := (sj_deref L it d).2) in *.
  assert (Hstep : forall o, range_for (S fuel) (positional_level write max) it n (d, o) =
    pbind (positional_level write max v n) (fun r => if r.2 : bool then pret r.1
      else pbind (call (sj_next L it)) (fun it => range_for fuel (positional_level write max) it r.1)) (d1, o)).
  { intros o. cbn [range_for]. rewrite pbind_at_end, (od_end _ _ _ _ H), pbind_call. done. }
  destruct (decide (n = max)) as [->|Hne].
  { exists d1. split; [eapply od_skip; [by eapply od_skip|done]|]. intros o. rewrite Nat.sub_diag. cbn [read_levels].
    rewrite Hstep. unfold pbind, positional_level. rewrite Nat.leb_refl. cbn. by rewrite Nat.add_0_r. }
  destruct (positional_level_step max v j (FCur it js :: K) n d1 Hv ltac:(done) Hj ltac:(lia)) as (d2 & H2 & E2).
  pose proof (od_next _ _ _ _ H2) as H3. set (d3 := (sj_next L it d2).2) in *. set (it' := (sj_next L it d2).1) in *.
  destruct (max - n)%nat as [|m] eqn:Em; [lia|]. cbn [read_levels]. destruct (plevel j) as [[l|]|] eqn:Ej.
  - destruct (IH js (S n) it' d3 H3 HK Hjs ltac:(lia) ltac:(lia)) as (d' & Hd' & E).
    exists d'. split; [done|]. intros o. specialize (E (write n l o)). replace (max - S n)%nat with m in E by lia.
    assert (Hgo : range_for (S fuel) (positional_level write max) it n (d, o) =
      range_for fuel (positional_level write max) it' (S n) (d3, write n l o)).
    { rewrite Hstep. unfold pbind at 1. rewrite E2. cbn [snd fst]. by rewrite pbind_call. }
    rewrite Hgo. destruct (read_levels plevel m js) as [ls|]; [|done]. rewrite E. cbn [length write_levels].
    by rewrite Nat.add_succ_r.
  - destruct (IH js n it' d3 H3 HK Hjs ltac:(lia) ltac:(lia)) as (d' & Hd' & E). rewrite Em in E.
    exists d'. split; [done|]. intros o. specialize (E o).
    assert (Hgo : range_for (S fuel) (positional_level write max) it n (d, o) = range_for fuel (positional_level write max) it' n (d3, o)).
    { rewrite Hstep. unfold pbind at 1. rewrite E2. cbn [snd fst]. by rewrite pbind_call. }
    by rewrite Hgo.
  - exists d2. split; [by eapply od_skip|]. intros o. rewrite Hstep. unfold pbind at 1. destruct (E2 o) as [s ->]. by exists s.
Qed.
End levels.
