(* ===== verification/Binance.v ===== *)
(** * Binance

    The spot and perpetual adapters (src/exchange/crypto/binance): event
    classification, the parsers of trades, books and tickers, and the subscription
    messages. *)
From S2P Require Import Prelude Doubles Events Exchange Paths FromChars Json.

Definition is_text (s : list ascii) (t : string) : bool := bool_decide (s = bytes t).

Section binance.
Context {L : Simdjson} (fuel : nat).

(** ** Common (binance_common.cpp) *)

(** Source: src/exchange/crypto/binance/binance_common.cpp:14-36, PeekEventType. *)
Definition BinancePeekEventType (d : JDoc L) : EventType :=
  let '(e_field, d) := sj_find_field L "e" d in
  if sj_error L e_field then
    let '(lu, _) := sj_find_field L "lastUpdateId" (sj_rewind L d) in
    if negb (sj_error L lu) then ET_DEPTH else ET_BOOK_TICKER
  else
    match (sj_get_string L e_field d).1 with
    | None => ET_UNKNOWN
    | Some ev =>
        if is_text ev "trade" || is_text ev "aggTrade" then ET_TICK
        else if is_text ev "depthUpdate" then ET_DEPTH
        else if is_text ev "bookTicker" then ET_BOOK_TICKER
        else ET_UNKNOWN
    end.

(** Source: src/exchange/crypto/binance/binance_common.cpp:38-54, ParseTradeEvent. *)
Definition BinanceParseTradeEvent (channel_id : Z) : PM L TickData unit :=
  let! v := doc_field "E" in let! x := get_int64 v in pput (put_tick_ts (u64 x)) ;;;
  let! v := doc_field "a" in let! x := get_int64 v in pput (put_tick_id (u64 x)) ;;;
  let! v := doc_field "p" in double_or_return v put_tick_price ;;;
  let! v := doc_field "q" in double_or_return v put_tick_qty ;;;
  let! v := doc_field "m" in let! b := get_bool v in pput (put_tick_maker b) ;;;
  pput (put_tick_channel channel_id) ;;;
  preturn true.

(** The four prices and quantities of a ticker, then [rest]. *)
Definition ticker_quotes (rest : PM L BookTickerEvent unit) : PM L BookTickerEvent unit :=
  let! v := doc_field "b" in double_or_return v put_bid_price ;;;
  let! v := doc_field "B" in double_or_return v put_bid_qty ;;;
  let! v := doc_field "a" in double_or_return v put_ask_price ;;;
  let! v := doc_field "A" in double_or_return v put_ask_qty ;;;
  rest.

(** Source: src/exchange/crypto/binance/binance_common.cpp:56-72, ParseBookTickerEvent. *)
Definition BinanceParseBookTickerEvent (channel_id : Z) : PM L BookTickerEvent unit :=
  ticker_quotes (
  let! v := doc_field "E" in let! x := get_int64 v in pput (put_ticker_ts (MsToUs (u64 x))) ;;;
  pput (put_ticker_channel channel_id) ;;;
  preturn true).

(** Source: src/exchange/crypto/binance/binance_common.cpp:74-97, ParseSpotBookTickerEvent. *)
Definition ParseSpotBookTickerEvent (now_us channel_id : Z) : PM L BookTickerEvent unit :=
  ticker_quotes (
  pput (put_ticker_ts (u64 now_us)) ;;;
  pput (put_ticker_channel channel_id) ;;;
  preturn true).

(** ** Books *)

(** Both sides, from the arrays of the two keys; the parser then returns. *)
Definition positional_book (bids_key asks_key : string) : PM L DepthUpdateEvent unit :=
  let! v := doc_field bids_key in let! a := get_array v in
  let! n := ParsePositionalLevelArray fuel a put_bid kMaxOrderbookLevels in pput (put_bid_count n) ;;;
  let! v := doc_field asks_key in let! a := get_array v in
  let! n := ParsePositionalLevelArray fuel a put_ask kMaxOrderbookLevels in pput (put_ask_count n) ;;;
  preturn true.

(** Source: src/exchange/crypto/binance/binance_spot.cpp:45-62, ParsePartialDepth. *)
Definition ParsePartialDepth (now_us channel_id : Z) : PM L DepthUpdateEvent unit :=
  let! v := doc_field "lastUpdateId" in let! x := get_uint64 v in pput (put_depth_id x) ;;;
  pput (put_depth_ts (u64 now_us)) ;;;
  pput (put_depth_channel channel_id) ;;;
  positional_book "bids" "asks".

(** Source: src/exchange/crypto/binance/binance_perpetual.cpp:44-60, ParseDepthEvent. *)
Definition BinanceParseDepthEvent (channel_id : Z) : PM L DepthUpdateEvent unit :=
  let! v := doc_field "E" in let! x := get_int64 v in pput (put_depth_ts (MsToUs (u64 x))) ;;;
  let! v := doc_field "u" in let! x := get_int64 v in pput (put_depth_id (u64 x)) ;;;
  pput (put_depth_channel channel_id) ;;;
  positional_book "b" "a".

(** ** Adapters *)

(** Source: src/exchange/crypto/binance/binance_spot.cpp:16-41, Parse. *)
Definition BinanceSpotParse (now_us : Z) (doc : JDoc L) (channel_id : Z) (event_type : EventType) : option ParseResult :=
  let result := parse_result0 in
  match event_type with
  | ET_TICK => DispatchParse PT_TICK (run_parser (BinanceParseTradeEvent channel_id) doc (pr_tick result)) set_tick result
  | ET_DEPTH => DispatchParse PT_DEPTH (run_parser (ParsePartialDepth now_us channel_id) doc (pr_depth result)) set_depth result
  | ET_BOOK_TICKER =>
      DispatchParse PT_BOOK_TICKER
        (run_parser (ParseSpotBookTickerEvent now_us channel_id) (sj_rewind L doc) (pr_book_ticker result)) set_book_ticker result
  | ET_UNKNOWN => Some result
  end.

(** Source: src/exchange/crypto/binance/binance_perpetual.cpp:15-42, Parse. *)
Definition BinancePerpetualParse (now_us : Z) (doc : JDoc L) (channel_id : Z) (event_type : EventType) : option ParseResult :=
  let result := parse_result0 in
  match event_type with
  | ET_TICK =>
      match run_parser (BinanceParseTradeEvent channel_id) doc (pr_tick result) with
      | None => None
      | Some (false, t) => Some (mkParse PT_NONE t (pr_depth result) (pr_book_ticker result))
      | Some (true, t) =>
          Some (mkParse PT_TICK (put_tick_ts (MsToUs (tk_exchange_timestamp t)) t) (pr_depth result) (pr_book_ticker result))
      end
  | ET_DEPTH => DispatchParse PT_DEPTH (run_parser (BinanceParseDepthEvent channel_id) doc (pr_depth result)) set_depth result
  | ET_BOOK_TICKER =>
      DispatchParse PT_BOOK_TICKER (run_parser (BinanceParseBookTickerEvent channel_id) doc (pr_book_ticker result))
        set_book_ticker result
  | ET_UNKNOWN => Some result
  end.

(** [std::tolower] in the C locale, and [std::to_string] of a [uint32_t]. *)
Definition lowercase (s : string) : string := string_of_list_ascii (lower_char <$> list_ascii_of_string s).
Definition to_string (n : Z) : string := string_of_list_ascii (decimal 20 n).

Definition quoted (s : string) : string := (dquote ++ s ++ dquote)%string.

Definition subscribe_text (stream : string) (id : Z) : string :=
  ("{" ++ quoted "method" ++ ":" ++ quoted "SUBSCRIBE" ++ "," ++ quoted "params" ++ ":[" ++ quoted stream ++ "]," ++
   quoted "id" ++ ":" ++ to_string id ++ "}")%string.

(** Source: src/exchange/crypto/binance/binance_spot.cpp:67-77, BinanceSpotBuildSubscribes. *)
Definition BinanceSpotBuildSubscribes (now_sec : Z) (symbol : string) (depth_level : Z) : list SubscriptionGroup :=
  let name := lowercase symbol in
  [mkSubGroup "wss://stream.binance.com/ws?timeUnit=MICROSECOND"
     [mkSubMsg (subscribe_text (name ++ "@aggTrade") 1) 0 ET_TICK;
      mkSubMsg (subscribe_text (name ++ "@depth" ++ to_string depth_level ++ "@100ms") 2) kDepthSubscribeDelayMs ET_DEPTH;
      mkSubMsg (subscribe_text (name ++ "@bookTicker") 3) kBookTickerSubscribeDelayMs ET_BOOK_TICKER]].

(** Source: src/exchange/crypto/binance/binance_perpetual.cpp:65-82, BinancePerpetualBuildSubscribes. *)
Definition BinancePerpetualBuildSubscribes (now_sec : Z) (symbol : string) (depth_level : Z) : list SubscriptionGroup :=
  let name := lowercase symbol in
  [mkSubGroup "wss://fstream.binance.com/market/ws" [mkSubMsg (subscribe_text (name ++ "@aggTrade") 1) 0 ET_TICK];
   mkSubGroup "wss://fstream.binance.com/public/ws"
     [mkSubMsg (subscribe_text (name ++ "@bookTicker") 3) kBookTickerSubscribeDelayMs ET_BOOK_TICKER;
      mkSubMsg (subscribe_text (name ++ "@depth" ++ to_string depth_level ++ "@100ms") 2) kDepthSubscribeDelayMs ET_DEPTH]].

(** Source: src/exchange/crypto/binance/binance_spot.cpp:80-87, kBinanceSpotAdapter. *)
Definition kBinanceSpotAdapter : ExchangeAdapter L :=
  mkAdapter "binance" Spot "api.binance.com" BinanceSpotBuildSubscribes BinancePeekEventType BinanceSpotParse [].

(** Source: src/exchange/crypto/binance/binance_perpetual.cpp:85-92, kBinancePerpetualAdapter. *)
Definition kBinancePerpetualAdapter : ExchangeAdapter L :=
  mkAdapter "binance" Perpetual "fapi.binance.com" BinancePerpetualBuildSubscribes BinancePeekEventType BinancePerpetualParse [].
End binance.
