(* ===== verification/Gateio.v ===== *)
(** * Gate.io

    The spot and perpetual adapters (src/exchange/crypto/gateio).  What the
    hardware makes of a conversion of a [double] outside the range of [uint64_t],
    which the language leaves undefined, is a parameter. *)
From Stdlib Require Import SpecFloat.
From S2P Require Import Prelude Doubles Events Exchange Paths FromChars Json Binance.

(** [x * 1000.0] *)
Definition times_1000 (x : double) : double := SFmul prec64 emax64 x (d_of_Z 1000).

(** Truncation towards zero of a finite value. *)
Definition d_trunc (x : double) : option Z :=
  match x with
  | S754_zero _ => Some 0
  | S754_finite s m e =>
      let a := if 0 <=? e then Zpos m * 2 ^ e else Z.shiftr (Zpos m) (- e) in Some (if s then - a else a)
  | _ => None
  end.

Section gateio.
Context {L : Simdjson} (fuel : nat) (undefined_cast : double -> Z).

(** [static_cast<uint64_t>(x)] *)
Definition d_to_u64 (x : double) : Z :=
  match d_trunc x with
  | Some z => if (0 <=? z) && (z <? 2 ^ 64) then z else u64 (undefined_cast x)
  | None => u64 (undefined_cast x)
  end.

(** ** Common *)

(** Source: src/exchange/crypto/gateio/gateio_common.h:16-19, kGateioWsHeaders. *)
Definition kGateioWsHeaders : list (string * string) := [("X-Gate-Aggregation", "0"); ("X-Gate-Size-Decimal", "1")]%string.

(** Source: src/exchange/crypto/gateio/gateio_common.cpp:11-25, PeekEventType. *)
Definition GateioPeekEventType (prefix : string) (d : JDoc L) : EventType :=
  let '(v, d) := sj_doc_field L "channel" d in
  match (sj_get_string L v d).1 with
  | None => ET_UNKNOWN
  | Some channel =>
      let n := String.length prefix in
      if (length channel <=? n + 1)%nat then ET_UNKNOWN
      else if negb (is_text (take n channel) prefix) then ET_UNKNOWN
      else
        let suffix := drop (n + 1) channel in
        if is_text suffix "trades" then ET_TICK
        else if is_text suffix "order_book" then ET_DEPTH
        else if is_text suffix "book_ticker" then ET_BOOK_TICKER
        else ET_UNKNOWN
  end.

(** Source: src/exchange/crypto/gateio/gateio_common.h:33-39, SkipTimeEnvelope. *)
Definition SkipTimeEnvelope {Out} : PM L Out unit :=
  let! v := doc_field "time" in skip_uint64 v ;;;
  let! v := doc_field "time_ms" in skip_uint64 v.

(** Source: src/exchange/crypto/gateio/gateio_common.h:44-52, ParseQuantity. *)
Definition ParseQuantity {Out} (r : JVal L) : PM L Out double :=
  let! v := as_value r in
  let! s := checked (sj_get_string L v) in
  match s with
  | Some sv => pret (SvToDouble sv dzero).2
  | None => let! x := get_int64 v in pret (d_of_Z x)
  end.

(** Source: src/exchange/crypto/gateio/gateio_common.cpp:27-47, ParseBookTickerEvent. *)
Definition GateioParseBookTickerEvent (channel_id : Z) : PM L BookTickerEvent unit :=
  SkipTimeEnvelope ;;;
  let! v := doc_field "event" in let! ev := get_string v in
  if negb (is_text ev "update") then preturn false
  else
    let! result := doc_field "result" in
    let! v := field result "t" in let! x := get_uint64 v in pput (put_ticker_ts (MsToUs x)) ;;;
    let! v := field result "b" in double_or_return v put_bid_price ;;;
    let! v := field result "B" in let! q := ParseQuantity v in pput (put_bid_qty q) ;;;
    let! v := field result "a" in double_or_return v put_ask_price ;;;
    let! v := field result "A" in let! q := ParseQuantity v in pput (put_ask_qty q) ;;;
    pput (put_ticker_channel channel_id) ;;;
    preturn true.

(** ** Trades *)

(** [x < 0 ? -x : x] *)
Definition magnitude (x : double) : double := if d_lt x dzero then SFopp x else x.

(** Source: src/exchange/crypto/gateio/gateio_spot.cpp:41-67, ParseTradeEvent. *)
Definition GateioSpotParseTradeEvent (channel_id : Z) : PM L TickData unit :=
  SkipTimeEnvelope ;;;
  let! v := doc_field "event" in let! ev := get_string v in
  if is_text ev "subscribe" then preturn false
  else
    let! result := doc_field "result" in
    let! v := field result "id" in let! x := get_uint64 v in pput (put_tick_id x) ;;;
    let! v := field result "create_time" in skip_uint64 v ;;;
    let! v := field result "create_time_ms" in let! s := get_string v in
    match from_chars s with
    | None => preturn false
    | Some ms =>
        pput (put_tick_ts (d_to_u64 (times_1000 ms))) ;;;
        let! v := field result "price" in double_or_return v put_tick_price ;;;
        let! v := field result "side" in let! side := get_string v in
        let! v := field result "amount" in let! s := get_string v in
        match from_chars s with
        | None => preturn false
        | Some qty =>
            pput (put_tick_qty (magnitude qty)) ;;;
            pput (put_tick_maker (is_text side "sell")) ;;;
            pput (put_tick_channel channel_id) ;;;
            preturn true
        end
    end.

(** Source: src/exchange/crypto/gateio/gateio_perpetual.cpp:41-66, ParseTradeEvent. *)
Definition GateioPerpetualParseTradeEvent (channel_id : Z) : PM L TickData unit :=
  SkipTimeEnvelope ;;;
  let! v := doc_field "event" in let! ev := get_string v in
  if is_text ev "subscribe" then preturn false
  else
    let! v := doc_field "result" in let! arr := call (sj_get_array L v) in
    let! it := call (sj_begin L arr) in
    let! e := at_end it in
    if e : bool then preturn false
    else
      let! item := call (sj_deref L it) in
      let! v := field item "id" in let! x := get_uint64 v in pput (put_tick_id x) ;;;
      let! v := field item "create_time" in skip_uint64 v ;;;
      let! v := field item "create_time_ms" in let! x := get_uint64 v in pput (put_tick_ts (MsToUs x)) ;;;
      let! v := field item "price" in double_or_return v put_tick_price ;;;
      let! v := field item "size" in let! size_val := ParseQuantity v in
      pput (put_tick_qty (magnitude size_val)) ;;;
      pput (put_tick_maker (d_lt size_val dzero)) ;;;
      pput (put_tick_channel channel_id) ;;;
      preturn true.

(** ** Books *)

Definition is_book_event (ev : list ascii) : bool := is_text ev "update" || is_text ev "all".

(** Source: src/exchange/crypto/gateio/gateio_spot.cpp:71-90, ParseDepthEvent. *)
Definition GateioSpotParseDepthEvent (channel_id : Z) : PM L DepthUpdateEvent unit :=
  SkipTimeEnvelope ;;;
  let! v := doc_field "event" in let! ev := get_string v in
  if negb (is_book_event ev) then preturn false
  else
    let! result := doc_field "result" in
    let! v := field result "t" in let! x := get_uint64 v in pput (put_depth_ts (MsToUs x)) ;;;
    let! v := field result "lastUpdateId" in let! x := get_uint64 v in pput (put_depth_id x) ;;;
    pput (put_depth_channel channel_id) ;;;
    let! v := field result "bids" in let! a := get_array v in
    let! n := ParsePositionalLevelArray fuel a put_bid kMaxOrderbookLevels in pput (put_bid_count n) ;;;
    let! v := field result "asks" in let! a := get_array v in
    let! n := ParsePositionalLevelArray fuel a put_ask kMaxOrderbookLevels in pput (put_ask_count n) ;;;
    preturn true.

(** One level [{p, s}]; the count is a member of the event. *)
Definition named_level (count : DepthUpdateEvent -> nat) (push : PriceLevel -> DepthUpdateEvent -> DepthUpdateEvent)
    (lv : JVal L) (_ : unit) : PM L DepthUpdateEvent (unit * bool) :=
  let! o := pget in
  if (kMaxOrderbookLevels <=? count o)%nat then pret (tt, true)
  else
    let! v := field lv "p" in let! s := get_string v in
    match from_chars s with
    | None => pret (tt, false)
    | Some p =>
        let! v := field lv "s" in let! q := ParseQuantity v in
        pput (push (mkLevel p q)) ;;; pret (tt, false)
    end.

Definition push_bid (l : PriceLevel) (e : DepthUpdateEvent) : DepthUpdateEvent := put_bid_count (S (dp_bid_count e)) (put_bid (dp_bid_count e) l e).
Definition push_ask (l : PriceLevel) (e : DepthUpdateEvent) : DepthUpdateEvent := put_ask_count (S (dp_ask_count e)) (put_ask (dp_ask_count e) l e).

(** Source: src/exchange/crypto/gateio/gateio_perpetual.cpp:70-101, ParseDepthEvent. *)
Definition GateioPerpetualParseDepthEvent (channel_id : Z) : PM L DepthUpdateEvent unit :=
  SkipTimeEnvelope ;;;
  let! v := doc_field "event" in let! ev := get_string v in
  if negb (is_book_event ev) then preturn false
  else
    let! result := doc_field "result" in
    let! v := field result "t" in let! x := get_uint64 v in pput (put_depth_ts (MsToUs x)) ;;;
    let! v := field result "id" in let! x := get_uint64 v in pput (put_depth_id x) ;;;
    pput (put_depth_channel channel_id) ;;;
    pput (put_bid_count 0) ;;;
    let! v := field result "bids" in let! it := call (sj_begin L v) in
    range_for fuel (named_level dp_bid_count push_bid) it tt ;;;
    pput (put_ask_count 0) ;;;
    let! v := field result "asks" in let! it := call (sj_begin L v) in
    range_for fuel (named_level dp_ask_count push_ask) it tt ;;;
    preturn true.

(** ** Adapters *)

Definition gateio_parse (trade : Z -> PM L TickData unit) (depth : Z -> PM L DepthUpdateEvent unit)
    (doc : JDoc L) (channel_id : Z) (event_type : EventType) : option ParseResult :=
  let result := parse_result0 in
  match event_type with
  | ET_TICK => DispatchParse PT_TICK (run_parser (trade channel_id) doc (pr_tick result)) set_tick result
  | ET_DEPTH => DispatchParse PT_DEPTH (run_parser (depth channel_id) doc (pr_depth result)) set_depth result
  | ET_BOOK_TICKER =>
      DispatchParse PT_BOOK_TICKER (run_parser (GateioParseBookTickerEvent channel_id) doc (pr_book_ticker result))
        set_book_ticker result
  | ET_UNKNOWN => Some result
  end.

(** Source: src/exchange/crypto/gateio/gateio_spot.cpp:16-37, Parse. *)
Definition GateioSpotParse (now_us : Z) : JDoc L -> Z -> EventType -> option ParseResult :=
  gateio_parse GateioSpotParseTradeEvent GateioSpotParseDepthEvent.

(** Source: src/exchange/crypto/gateio/gateio_perpetual.cpp:16-37, Parse. *)
Definition GateioPerpetualParse (now_us : Z) : JDoc L -> Z -> EventType -> option ParseResult :=
  gateio_parse GateioPerpetualParseTradeEvent GateioPerpetualParseDepthEvent.

Definition gateio_text (now_sec : Z) (channel : string) (payload : string) : string :=
  ("{" ++ quoted "time" ++ ":" ++ to_string now_sec ++ "," ++ quoted "channel" ++ ":" ++ quoted channel ++ "," ++
   quoted "event" ++ ":" ++ quoted "subscribe" ++ "," ++ quoted "payload" ++ ":[" ++ payload ++ "]}")%string.

(** Source: src/exchange/crypto/gateio/gateio_spot.cpp:101-115, GateioSpotBuildSubscribes. *)
Definition GateioSpotBuildSubscribes (now_sec : Z) (symbol : string) (depth_level : Z) : list SubscriptionGroup :=
  [mkSubGroup "wss://api.gateio.ws/ws/v4/"
     [mkSubMsg (gateio_text now_sec "spot.trades" (quoted symbol)) 0 ET_TICK;
      mkSubMsg (gateio_text now_sec "spot.order_book" (quoted symbol ++ "," ++ quoted (to_string depth_level) ++ "," ++ quoted "100ms"))
        kDepthSubscribeDelayMs ET_DEPTH;
      mkSubMsg (gateio_text now_sec "spot.book_ticker" (quoted symbol)) kBookTickerSubscribeDelayMs ET_BOOK_TICKER]].

(** Source: src/exchange/crypto/gateio/gateio_perpetual.cpp:112-126, GateioPerpetualBuildSubscribes. *)
Definition GateioPerpetualBuildSubscribes (now_sec : Z) (symbol : string) (depth_level : Z) : list SubscriptionGroup :=
  [mkSubGroup "wss://fx-ws.gateio.ws/v4/ws/usdt"
     [mkSubMsg (gateio_text now_sec "futures.trades" (quoted symbol)) 0 ET_TICK;
      mkSubMsg (gateio_text now_sec "futures.order_book" (quoted symbol ++ "," ++ quoted (to_string depth_level) ++ "," ++ quoted "0"))
        kDepthSubscribeDelayMs ET_DEPTH;
      mkSubMsg (gateio_text now_sec "futures.book_ticker" (quoted symbol)) kBookTickerSubscribeDelayMs ET_BOOK_TICKER]].

(** Source: src/exchange/crypto/gateio/gateio_spot.cpp:118-126, kGateioSpotAdapter. *)
Definition kGateioSpotAdapter : ExchangeAdapter L :=
  mkAdapter "gateio" Spot "api.gateio.ws" GateioSpotBuildSubscribes (GateioPeekEventType "spot") GateioSpotParse kGateioWsHeaders.

(** Source: src/exchange/crypto/gateio/gateio_perpetual.cpp:129-137, kGateioPerpetualAdapter. *)
Definition kGateioPerpetualAdapter : ExchangeAdapter L :=
  mkAdapter "gateio" Perpetual "api.gateio.ws" GateioPerpetualBuildSubscribes (GateioPeekEventType "futures")
    GateioPerpetualParse kGateioWsHeaders.
End gateio.
