(* ===== verification/Adapters.v ===== *)
(** * What the exchange parsers guarantee

    First for every behaviour of the JSON library: whatever it answers, a parser
    produces well-formed events of the right kind on the right channel.  Then
    against the documented behaviour of the library: the parsers decode exactly the
    messages of the exchanges. *)
From S2P Require Import Prelude Doubles Events Exchange FromChars Json Binance Gateio.

(** ** With any library *)

Create HintDb books.

Section any_library.
Context {L : Simdjson} (fuel : nat) (undefined_cast : double -> Z).

(** What an event must be when its parser returns [true]. *)
Definition tick_ok (channel_id : Z) (t : TickData) : Prop := wf_tick t /\ tk_channel_id t = channel_id.
Definition book_wf (e : DepthUpdateEvent) : Prop :=
  wf_depth e /\ in_range 64 (dp_last_update_id e) /\ in_range 64 (dp_exchange_timestamp e) /\ in_range 64 (dp_local_diff e).
Definition depth_ok (channel_id : Z) (e : DepthUpdateEvent) : Prop := book_wf e /\ dp_channel_id e = channel_id.
Definition ticker_ok (channel_id : Z) (e : BookTickerEvent) : Prop :=
  length (bt_symbol e) = 12%nat /\ in_range 64 (bt_exchange_timestamp e) /\ in_range 64 (bt_local_diff e) /\ bt_channel_id e = channel_id.

Definition result_ok (channel_id : Z) (event_type : EventType) (r : ParseResult) : Prop :=
  match pr_type r with
  | PT_NONE => True
  | PT_TICK => event_type = ET_TICK /\ tick_ok channel_id (pr_tick r)
  | PT_DEPTH => event_type = ET_DEPTH /\ depth_ok channel_id (pr_depth r)
  | PT_BOOK_TICKER => event_type = ET_BOOK_TICKER /\ ticker_ok channel_id (pr_book_ticker r)
  end.

(** Writes and counts below the maximum keep an event well formed. *)
Lemma put_bid_wf i l e : (i < kMaxOrderbookLevels)%nat -> book_wf e -> book_wf (put_bid i l e).
Proof. intros _ [[H1 H2 H3 H4 H5] Hr]. split; [|exact Hr]. split; cbn; rewrite ?length_insert; done. Qed.
Lemma put_ask_wf i l e : (i < kMaxOrderbookLevels)%nat -> book_wf e -> book_wf (put_ask i l e).
Proof. intros _ [[H1 H2 H3 H4 H5] Hr]. split; [|exact Hr]. split; cbn; rewrite ?length_insert; done. Qed.
Lemma put_bid_count_wf n e : (n <= kMaxOrderbookLevels)%nat -> book_wf e -> book_wf (put_bid_count n e).
Proof. intros H [[H1 H2 H3 H4 H5] Hr]. by split; [split|]. Qed.
Lemma put_ask_count_wf n e : (n <= kMaxOrderbookLevels)%nat -> book_wf e -> book_wf (put_ask_count n e).
Proof. intros H [[H1 H2 H3 H4 H5] Hr]. by split; [split|]. Qed.

Lemma empty_depth_wf : book_wf depth0.
Proof.
  split; [|by split_and!; unfold in_range; cbn; lia].
  split; unfold depth0, symbol0; cbn -[kMaxOrderbookLevels]; rewrite ?length_replicate; lia.
Qed.

Lemma u64_range x : in_range 64 (u64 x).
Proof. by apply wrap_range. Qed.

Lemma d_to_u64_range x : in_range 64 (d_to_u64 undefined_cast x).
Proof.
  unfold d_to_u64. destruct (d_trunc x) as [z|]; [|apply u64_range].
  destruct (Z.leb_spec 0 z); cbn [andb]; [|apply u64_range]. destruct (Z.ltb_spec z (2 ^ 64)); [done|apply u64_range].
Qed.

Lemma trade_ok_intro ch ts id p q m : in_range 32 ch -> in_range 64 ts -> in_range 64 id ->
  tick_ok ch (mkTick ts 0 id p q ch symbol0 m (replicate 3 NUL)).
Proof. intros H1 H2 H3. by split; [split|]. Qed.

Ltac parser_run := apply run_parser_wp; wp_run; try done.
Ltac close_tick := intros _; apply trade_ok_intro; (done || apply u64_range || apply d_to_u64_range).

Lemma binance_trade_ok ch d t :
  in_range 32 ch -> run_parser (BinanceParseTradeEvent (L := L) ch) d tick0 = Some (true, t) -> tick_ok ch t.
Proof. intros Hc. unfold BinanceParseTradeEvent. parser_run. close_tick. Qed.

Lemma gateio_spot_trade_ok ch d t :
  in_range 32 ch -> run_parser (GateioSpotParseTradeEvent (L := L) undefined_cast ch) d tick0 = Some (true, t) -> tick_ok ch t.
Proof. intros Hc. unfold GateioSpotParseTradeEvent, SkipTimeEnvelope. parser_run. close_tick. Qed.

Lemma gateio_perpetual_trade_ok ch d t :
  in_range 32 ch -> run_parser (GateioPerpetualParseTradeEvent (L := L) ch) d tick0 = Some (true, t) -> tick_ok ch t.
Proof. intros Hc. unfold GateioPerpetualParseTradeEvent, SkipTimeEnvelope, ParseQuantity. parser_run; close_tick. Qed.

Lemma binance_ticker_ok ch d e :
  run_parser (BinanceParseBookTickerEvent (L := L) ch) d book_ticker0 = Some (true, e) -> ticker_ok ch e.
Proof. unfold BinanceParseBookTickerEvent, ticker_quotes. parser_run. intros _. by split_and!; [|apply u64_range|..]. Qed.

Lemma binance_spot_ticker_ok now ch d e :
  run_parser (ParseSpotBookTickerEvent (L := L) now ch) d book_ticker0 = Some (true, e) -> ticker_ok ch e.
Proof. unfold ParseSpotBookTickerEvent, ticker_quotes. parser_run. intros _. by split_and!; [|apply u64_range|..]. Qed.

Lemma gateio_ticker_ok ch d e :
  run_parser (GateioParseBookTickerEvent (L := L) ch) d book_ticker0 = Some (true, e) -> ticker_ok ch e.
Proof.
  unfold GateioParseBookTickerEvent, SkipTimeEnvelope, ParseQuantity. parser_run; intros _; by split_and!; [|apply u64_range|..].
Qed.

(** Books: the event stays well formed and on its channel. *)
Lemma wp_levels_bids arr ch R s :
  depth_ok ch s.2 ->
  wp (ParsePositionalLevelArray (L := L) fuel arr put_bid kMaxOrderbookLevels) (fun n s' => (n <= kMaxOrderbookLevels)%nat /\ depth_ok ch s'.2) R s.
Proof. apply wp_levels. intros i l o Hi [H1 H2]. split; [by apply put_bid_wf|done]. Qed.

Lemma wp_levels_asks arr ch R s :
  depth_ok ch s.2 ->
  wp (ParsePositionalLevelArray (L := L) fuel arr put_ask kMaxOrderbookLevels) (fun n s' => (n <= kMaxOrderbookLevels)%nat /\ depth_ok ch s'.2) R s.
Proof. apply wp_levels. intros i l o Hi [H1 H2]. split; [by apply put_ask_wf|done]. Qed.

Lemma wp_named count push lv ch R s :
  (forall l e, (count e < kMaxOrderbookLevels)%nat -> depth_ok ch e -> depth_ok ch (push l e)) -> depth_ok ch s.2 ->
  wp (named_level (L := L) count push lv tt) (fun r s' => depth_ok ch s'.2) R s.
Proof.
  intros Hp Hs. unfold named_level, ParseQuantity. wp_run; try done; apply Hp; try done;
    by apply Nat.leb_gt.
Qed.

Lemma push_bid_ok ch l e : (dp_bid_count e < kMaxOrderbookLevels)%nat -> depth_ok ch e -> depth_ok ch (push_bid l e).
Proof. intros H [H1 H2]. split; [|done]. apply put_bid_count_wf; [lia|]. by apply put_bid_wf. Qed.
Lemma push_ask_ok ch l e : (dp_ask_count e < kMaxOrderbookLevels)%nat -> depth_ok ch e -> depth_ok ch (push_ask l e).
Proof. intros H [H1 H2]. split; [|done]. apply put_ask_count_wf; [lia|]. by apply put_ask_wf. Qed.

Lemma put_depth_ts_wf x e : in_range 64 x -> book_wf e -> book_wf (put_depth_ts x e).
Proof. intros Hx [[H1 H2 H3 H4 H5] (R1 & R2 & R3)]. by split; [split|]. Qed.
Lemma put_depth_id_wf x e : in_range 64 x -> book_wf e -> book_wf (put_depth_id x e).
Proof. intros Hx [[H1 H2 H3 H4 H5] (R1 & R2 & R3)]. by split; [split|]. Qed.
Lemma put_depth_channel_ok ch e : book_wf e -> depth_ok ch (put_depth_channel ch e).
Proof. intros [[H1 H2 H3 H4 H5] Hr]. by split; [split; [split|]|]. Qed.
Lemma MsToUs_range x : in_range 64 (MsToUs x).
Proof. apply u64_range. Qed.

Lemma count_bids_ok n ch e : (n <= kMaxOrderbookLevels)%nat -> depth_ok ch e -> depth_ok ch (put_bid_count n e).
Proof. intros H [H1 H2]. split; [by apply put_bid_count_wf|done]. Qed.
Lemma count_asks_ok n ch e : (n <= kMaxOrderbookLevels)%nat -> depth_ok ch e -> depth_ok ch (put_ask_count n e).
Proof. intros H [H1 H2]. split; [by apply put_ask_count_wf|done]. Qed.

Lemma zero_levels : (0 <= kMaxOrderbookLevels)%nat.
Proof. lia. Qed.

#[local] Hint Resolve u64_range MsToUs_range put_depth_ts_wf put_depth_id_wf put_depth_channel_ok empty_depth_wf count_bids_ok count_asks_ok zero_levels
  push_bid_ok push_ask_ok : books.

Lemma wp_named_for count push it ch R s :
  (forall l e, (count e < kMaxOrderbookLevels)%nat -> depth_ok ch e -> depth_ok ch (push l e)) -> depth_ok ch s.2 ->
  wp (range_for (L := L) fuel (named_level count push) it tt) (fun _ s' => depth_ok ch s'.2) R s.
Proof.
  intros Hp Hs. apply (wp_range_for fuel _ it tt (fun _ => depth_ok ch)); [|done].
  intros v [] s' Hs'. eapply wp_weaken; [by apply wp_named|]. done.
Qed.

Ltac book_step ch :=
  lazymatch goal with
  | |- wp (ParsePositionalLevelArray _ _ put_bid _) _ _ _ =>
      eapply wp_weaken; [apply (wp_levels_bids _ ch)|intros ? [? ?] [? ?]]
  | |- wp (ParsePositionalLevelArray _ _ put_ask _) _ _ _ =>
      eapply wp_weaken; [apply (wp_levels_asks _ ch)|intros ? [? ?] [? ?]]
  | |- wp (range_for _ (named_level _ _) _ _) _ _ _ =>
      eapply wp_weaken; [apply (wp_named_for _ _ _ ch)|intros ? [? ?] ?]
  | |- wp _ _ _ _ => wp_step
  end.
Ltac book_run ch := apply run_parser_wp; repeat (book_step ch; cbn [fst snd] in *); try done; eauto with books.

Lemma binance_spot_depth_ok now ch d e :
  run_parser (ParsePartialDepth (L := L) fuel now ch) d depth0 = Some (true, e) -> depth_ok ch e.
Proof. unfold ParsePartialDepth, positional_book. book_run ch. Qed.

Lemma binance_perpetual_depth_ok ch d e :
  run_parser (BinanceParseDepthEvent (L := L) fuel ch) d depth0 = Some (true, e) -> depth_ok ch e.
Proof. unfold BinanceParseDepthEvent, positional_book. book_run ch. Qed.

Lemma gateio_spot_depth_ok ch d e :
  run_parser (GateioSpotParseDepthEvent (L := L) fuel ch) d depth0 = Some (true, e) -> depth_ok ch e.
Proof. unfold GateioSpotParseDepthEvent, SkipTimeEnvelope. book_run ch. Qed.

Lemma gateio_perpetual_depth_ok ch d e :
  run_parser (GateioPerpetualParseDepthEvent (L := L) fuel ch) d depth0 = Some (true, e) -> depth_ok ch e.
Proof. unfold GateioPerpetualParseDepthEvent, SkipTimeEnvelope. book_run ch. Qed.

(** The four adapters. *)
Definition crypto_adapters : list (ExchangeAdapter L) :=
  [kBinanceSpotAdapter fuel; kBinancePerpetualAdapter fuel; kGateioSpotAdapter fuel undefined_cast; kGateioPerpetualAdapter fuel].

Lemma dispatch_ok {Out} ch et type (r : option (bool * Out)) set result :
  (forall o, r = Some (true, o) -> result_ok ch et (mkParse type (pr_tick (set o parse_result0)) (pr_depth (set o parse_result0))
                                                      (pr_book_ticker (set o parse_result0)))) ->
  DispatchParse type r set parse_result0 = Some result -> result_ok ch et result.
Proof. intros H. unfold DispatchParse. destruct r as [[[] o]|]; intros [= <-]; [by apply H|done]. Qed.

Lemma adapters_ok ad now d ch et r :
  ad ∈ crypto_adapters -> in_range 32 ch -> ad_parse ad now d ch et = Some r -> result_ok ch et r.
Proof.
  intros Had Hc. unfold crypto_adapters in Had. rewrite !elem_of_cons in Had.
  destruct Had as [-> | [-> | [-> | [-> | Had]]]]; [..|by apply elem_of_nil in Had];
    cbn [ad_parse kBinanceSpotAdapter kBinancePerpetualAdapter kGateioSpotAdapter kGateioPerpetualAdapter];
    unfold BinanceSpotParse, BinancePerpetualParse, GateioSpotParse, GateioPerpetualParse, gateio_parse; destruct et;
    try (by intros [= <-]); try (apply dispatch_ok; intros o Ho; split; [done|]; revert Ho; cbn [pr_tick pr_depth pr_book_ticker set_tick set_depth set_book_ticker parse_result0]).
  all: eauto using binance_trade_ok, binance_ticker_ok, binance_spot_ticker_ok, gateio_spot_trade_ok, gateio_perpetual_trade_ok,
    gateio_ticker_ok, binance_spot_depth_ok, binance_perpetual_depth_ok, gateio_spot_depth_ok, gateio_perpetual_depth_ok.
  (* perpetual trades: the timestamp is converted afterwards *)
  cbn [pr_tick parse_result0]. destruct (run_parser _ d tick0) as [[[] t]|] eqn:E; intros [= <-]; [|done].
  apply binance_trade_ok in E as [[W1 W2 W3 W4 W5 W6] Hch]; [|done]. split; [done|]. split; [|done]. split; try done. apply u64_range.
Qed.
End any_library.
