(* ===== verification/Decode.v ===== *)
(** * The exchange parsers decode their messages

    Each parser is compared with a reference decoder, a function of the JSON value
    that the document denotes, under the documented behaviour of the library
    ([OnDemand]). *)
From Stdlib Require Import SpecFloat.
From S2P Require Import Prelude Doubles Events Exchange FromChars Json OnDemand Binance Gateio Adapters PubWorker.

(** ** Stepping through a parser *)

Lemma read_levels_length level n js ls : read_levels level n js = Some ls -> (length ls <= n)%nat.
Proof.
  revert n ls. induction js as [|j js IH]; intros n ls; cbn [read_levels]; [by intros [= <-]; cbn; lia|].
  destruct n as [|n]; [by intros [= <-]; cbn; lia|]. destruct (level j) as [[l|]|]; [|by apply IH|done].
  destruct (read_levels level n js) as [ls'|] eqn:E; [|done]. intros [= <-]. apply IH in E. cbn. lia.
Qed.

Section steps.
Context {L : Simdjson} `{!OnDemand L} {Out : Type}.

(** The parser returns [true] with the event [r], or fails when there is none. *)
Definition decodes (p : PM L Out unit) (d : JDoc L) (o : Out) (r : option Out) : Prop :=
  match r with
  | Some o' => exists d', p (d, o) = (Return true, (d', o'))
  | None => fails (p (d, o))
  end.

Lemma decodes_run p d o r :
  decodes p d o r -> match r with
                     | Some o' => run_parser p d o = Some (true, o')
                     | None => exists o', run_parser p d o = Some (false, o')
                     end.
Proof. destruct r as [o'|]; [intros [d' H]; unfold run_parser; by rewrite H|apply fails_run]. Qed.

Lemma decodes_yields {A C} (m : C -> PM L Out unit) d I (r : option A) next upd (K : A -> option Out) c o :
  yields m d I r next upd -> (forall x d', I d' -> decodes (next c x) d' (upd x o) (K x)) -> decodes (m c) d o (r ≫= K).
Proof.
  intros (d' & Hd' & H) HK. specialize (H o c). destruct r as [x|]; cbn [mbind option_bind]; [|exact H].
  specialize (HK x d' Hd'). unfold decodes in *. by rewrite H.
Qed.

Lemma decodes_put f (g : unit -> PM L Out unit) d o r : decodes (g tt) d (f o) r -> decodes (pbind (pput f) g) d o r.
Proof. done. Qed.
Lemma decodes_true d o r : r = Some o -> decodes (preturn true) d o r.
Proof. intros ->. by exists d. Qed.
Lemma decodes_false d o : decodes (preturn false) d o None.
Proof. done. Qed.
Lemma decodes_assoc {A B} (m : PM L Out A) (f : A -> PM L Out B) g d o r :
  decodes (pbind m (fun x => pbind (f x) g)) d o r -> decodes (pbind (pbind m f) g) d o r.
Proof. unfold decodes. by rewrite pbind_assoc. Qed.

Context (look : string -> JDoc L -> JVal L * JDoc L) (get : string -> option json) (I : JDoc L -> Prop).
Context (Hs : scope look get I).

Lemma decodes_string k g d o K :
  I d -> (forall x d', I d' -> decodes (g x) d' o (K x)) ->
  decodes (pbind (call (look k)) (fun v => pbind (get_string v) g)) d o ((get k ≫= jstring) ≫= K).
Proof using Hs. intros Hd H. exact (decodes_yields _ _ _ _ _ _ K g o (string_yields look get I Hs d Hd k) H). Qed.
Lemma decodes_bool k g d o K :
  I d -> (forall x d', I d' -> decodes (g x) d' o (K x)) ->
  decodes (pbind (call (look k)) (fun v => pbind (get_bool v) g)) d o ((get k ≫= jbool) ≫= K).
Proof using Hs. intros Hd H. exact (decodes_yields _ _ _ _ _ _ K g o (bool_yields look get I Hs d Hd k) H). Qed.
Lemma decodes_int64 k g d o K :
  I d -> (forall x d', I d' -> decodes (g x) d' o (K x)) ->
  decodes (pbind (call (look k)) (fun v => pbind (get_int64 v) g)) d o ((get k ≫= jint64) ≫= K).
Proof using Hs. intros Hd H. exact (decodes_yields _ _ _ _ _ _ K g o (int64_yields look get I Hs d Hd k) H). Qed.
Lemma decodes_uint64 k g d o K :
  I d -> (forall x d', I d' -> decodes (g x) d' o (K x)) ->
  decodes (pbind (call (look k)) (fun v => pbind (get_uint64 v) g)) d o ((get k ≫= juint64) ≫= K).
Proof using Hs. intros Hd H. exact (decodes_yields _ _ _ _ _ _ K g o (uint64_yields look get I Hs d Hd k) H). Qed.
Lemma decodes_double k set g d o K :
  I d -> (forall x d', I d' -> decodes (g tt) d' (set x o) (K x)) ->
  decodes (pbind (call (look k)) (fun v => pbind (double_or_return v set) g)) d o ((get k ≫= jdouble) ≫= K).
Proof using Hs. intros Hd H. exact (decodes_yields _ _ _ _ _ _ K g o (double_yields look get I Hs d Hd k set) H). Qed.

Lemma decodes_skip k g d o r :
  I d -> (forall d', I d' -> decodes (g tt) d' o r) -> decodes (pbind (call (look k)) (fun v => pbind (skip_uint64 v) g)) d o r.
Proof using Hs.
  intros Hd H. destruct (skipped (Out := Out) (B := unit) look get I d k Hs Hd) as (d' & Hd' & E).
  unfold decodes. rewrite E. by apply H.
Qed.

(** A quantity is a string or an integer. *)
Definition jquantity (j : json) : option double :=
  match j with JStr s => Some (SvToDouble s dzero).2 | _ => d_of_Z <$> jint64 j end.

Lemma quantity_handle {B} d v oj (I' : JDoc L -> Prop) :
  handle d v oj I' ->
  yields (Out := Out) (B := B) (fun g => pbind (ParseQuantity v) g) d I' (oj ≫= jquantity) (fun g x => g x) (fun _ o => o).
Proof.
  intros Hh. pose proof Hh as (K & HK & HI & H).
  destruct oj as [j|]; cbn [mbind option_bind].
  2:{ destruct H as [He H]. exists d. split; [by apply HI|]. intros o g. unfold ParseQuantity, as_value. by rewrite He. }
  destruct H as [He H]. pose proof od_string as (R1 & R2 & _).
  assert (Hg : forall o (g : double -> PM L Out B), pbind (ParseQuantity v) g (d, o) =
    pbind (match (sj_get_string L v d).1 with
           | Some sv => pret (SvToDouble sv dzero).2
           | None => pbind (get_int64 v) (fun x => pret (d_of_Z x))
           end) g ((sj_get_string L v d).2, o)).
  { intros o g. unfold ParseQuantity, as_value, checked. rewrite He. rewrite pbind_assoc.
    change (pbind (pret v) ?f (d, o)) with (f v (d, o)). cbn beta. rewrite pbind_assoc, pbind_call. done. }
  destruct (jstring j) as [s|] eqn:Es.
  - destruct (R1 d v j K s H HK Es) as [H1 H2]. destruct j; try done. injection Es as ->.
    exists (sj_get_string L v d).2. split; [by apply HI|]. intros o g. by rewrite Hg, H1.
  - destruct (R2 d v j K H Es) as [H1 H2].
    destruct (reads_value (Out := Out) (B := B) (sj_get_int64 L) jint64 (sj_get_string L v d).2 v (Some j) I' od_int64) as (d' & Hd' & E).
    { exists K. by split_and!. }
    exists d'. split; [done|]. intros o g. rewrite Hg, H1. unfold get_int64. rewrite !pbind_assoc, E. cbn [mbind option_bind].
    replace (jquantity j) with (d_of_Z <$> jint64 j) by (by destruct j).
    destruct (jint64 j) as [x|] eqn:Ex; cbn; [|done]. by rewrite (int64_exact _ _ Ex).
Qed.

Lemma decodes_quantity k g d o K :
  I d -> (forall x d', I d' -> decodes (g x) d' o (K x)) ->
  decodes (pbind (call (look k)) (fun v => pbind (ParseQuantity v) g)) d o ((get k ≫= jquantity) ≫= K).
Proof using Hs.
  intros Hd H. pose proof (quantity_handle (B := unit) _ _ _ _ (Hs d k Hd)) as Hy.
  pose proof (decodes_yields _ _ _ _ _ _ K g o Hy H) as Hdec. unfold decodes in *. by rewrite pbind_call.
Qed.

(** A side of the book, from an array of positional levels. *)
Definition jlevels (max : nat) (j : json) : option (list PriceLevel) :=
  match j with JArr js => read_levels plevel max js | _ => None end.

(** Levels are arrays, fewer than [fuel]. *)
Definition side_ok (fuel : nat) (oj : option json) : Prop :=
  forall js, oj = Some (JArr js) -> Forall is_array js /\ (length js < fuel)%nat.

Lemma decodes_levels fuel write max k g d o K :
  side_ok fuel (get k) -> I d -> (forall ls d', (length ls <= max)%nat -> I d' -> decodes (g (length ls)) d' (write_levels write 0 ls o) (K ls)) ->
  decodes (pbind (call (look k)) (fun v => pbind (get_array v) (fun a => pbind (ParsePositionalLevelArray fuel a write max) g))) d o
    ((get k ≫= jlevels max) ≫= K).
Proof using Hs.
  intros Hok Hd H. destruct (Hs d k Hd) as (K0 & HK & HI & Hh). unfold decodes at 1. rewrite pbind_call.
  set (v := (look k d).1) in *. set (d1 := (look k d).2) in *. unfold get_array. rewrite pbind_assoc, pbind_call.
  destruct (get k) as [j|]; cbn [mbind option_bind].
  2:{ destruct Hh as [He _]. by rewrite (od_error_array _ _ He). }
  destruct Hh as [_ Hv]. destruct j as [| | | | |js|]; try (rewrite (od_array_error _ _ _ _ Hv) by done; done).
  cbn [jlevels]. destruct (Hok js eq_refl) as [Hjs Hf]. destruct (od_array _ _ _ _ Hv) as [-> Ha].
  set (a := (sj_get_array L v d1).1) in *. set (d2 := (sj_get_array L v d1).2) in *.
  pose proof (od_begin _ _ _ _ Ha) as Hb.
  change (pbind (pret a) ?f (d2, o)) with (f a (d2, o)). cbn beta. unfold ParsePositionalLevelArray. rewrite pbind_assoc, pbind_call.
  destruct (levels_loop write max js K0 fuel 0 _ _ Hb HK Hjs Hf ltac:(lia)) as (d' & Hd' & E). specialize (E o).
  rewrite Nat.sub_0_r in E. unfold pbind. destruct (read_levels plevel max js) as [ls|] eqn:Er; cbn [mbind option_bind].
  - rewrite E. exact (H ls d' (read_levels_length _ _ _ _ Er) (HI _ Hd')).
  - destruct E as [s ->]. done.
Qed.

(** *** The members of a value *)

Lemma decodes_value k (g : JVal L -> PM L Out unit) d o r :
  I d -> (forall v d' I', scope (sj_field L v) (fun k' => get k ≫= jfield k') I' -> I' d' -> decodes (g v) d' o r) ->
  decodes (pbind (call (look k)) g) d o r.
Proof using Hs.
  intros Hd H. destruct (value_scope _ _ _ _ (Hs d k Hd)) as (I' & HI' & Hsc & _). unfold decodes. rewrite pbind_call.
  exact (H _ _ I' Hsc HI').
Qed.
End steps.

(** ** Levels with named members (Gate.io perpetual) *)

Definition nlevel (j : json) : option (option PriceLevel) :=
  match jfield "p" j ≫= jstring with
  | None => None
  | Some s => match from_chars s with
              | None => Some None
              | Some p => match jfield "s" j ≫= jquantity with None => None | Some q => Some (Some (mkLevel p q)) end
              end
  end.

Section named.
Context {L : Simdjson} `{!OnDemand L}.
Context (count : DepthUpdateEvent -> nat) (push : PriceLevel -> DepthUpdateEvent -> DepthUpdateEvent).
Context (Hpush : forall l e, count (push l e) = S (count e)).

Lemma named_level_step d v j (I : JDoc L -> Prop) o :
  handle d v (Some j) I -> (count o < kMaxOrderbookLevels)%nat ->
  match nlevel j with
  | None => fails (named_level count push v tt (d, o))
  | Some r => exists d', I d' /\
      named_level count push v tt (d, o) = (Val (tt, false), (d', match r with Some l => push l o | None => o end))
  end.
Proof using.
  intros Hh Hc. destruct (value_scope _ _ _ _ Hh) as (I' & HI' & Hsc & Hout).
  unfold named_level, nlevel, field. change (pbind pget ?f (d, o)) with (f o (d, o)). cbn beta.
  rewrite (proj2 (Nat.leb_gt _ _) Hc).
  destruct (string_yields (Out := DepthUpdateEvent) (B := unit * bool) _ _ _ Hsc d HI' "p") as (d1 & H1 & E1).
  cbn [mbind option_bind] in E1. specialize (E1 o). destruct (jfield "p" j ≫= jstring) as [s|]; [|by apply E1].
  rewrite E1. destruct (from_chars s) as [p|]; [|exists d1; by split; [apply Hout|]].
  rewrite pbind_call.
  destruct (quantity_handle (Out := DepthUpdateEvent) (B := unit * bool) _ _ _ _ (Hsc d1 "s"%string H1)) as (d2 & H2 & E2).
  cbn [mbind option_bind] in E2. specialize (E2 o).
  destruct (jfield "s" j ≫= jquantity) as [q|]; [|by apply E2]. rewrite E2. exists d2. by split; [apply Hout|].
Qed.

Lemma named_loop js K fuel it d o :
  at_ d (FIter it js :: K) -> K <> [] -> (length js < fuel)%nat -> (count o <= kMaxOrderbookLevels)%nat ->
  match read_levels nlevel (kMaxOrderbookLevels - count o) js with
  | None => fails (range_for fuel (named_level count push) it tt (d, o))
  | Some ls => exists d', at_ d' K /\
      range_for fuel (named_level count push) it tt (d, o) = (Val tt, (d', foldl (fun e l => push l e) o ls))
  end.
Proof using Hpush.
  revert js it d o. induction fuel as [|fuel IH]; intros js it d o H HK Hf Hc; [lia|].
  destruct js as [|j js].
  { exists d. split; [by eapply od_skip|]. cbn [range_for]. by rewrite pbind_at_end, (od_end _ _ _ _ H). }
  cbn [length] in Hf. destruct (od_deref _ _ _ _ _ H) as [He Hv].
  set (v := (sj_deref L it d).1) in *. set (d1 := (sj_deref L it d).2) in *.
  assert (Hstep : range_for (S fuel) (named_level count push) it tt (d, o) =
    pbind (named_level count push v tt) (fun r => if r.2 : bool then pret r.1
      else pbind (call (sj_next L it)) (fun it => range_for fuel (named_level count push) it r.1)) (d1, o)).
  { cbn [range_for]. by rewrite pbind_at_end, (od_end _ _ _ _ H), pbind_call. }
  rewrite Hstep. destruct (decide (count o = kMaxOrderbookLevels)) as [Heq|Hne].
  { rewrite Heq, Nat.sub_diag. cbn [read_levels]. exists d1. split; [eapply od_skip; [by eapply od_skip|done]|].
    unfold pbind, named_level. cbn -[kMaxOrderbookLevels]. by rewrite Heq, Nat.leb_refl. }
  assert (Hh : handle d1 v (Some j) (fun d => at_ d (FCur it js :: K))) by (exists (FCur it js :: K); by split_and!).
  pose proof (named_level_step d1 v j _ o Hh ltac:(lia)) as Hs.
  destruct (kMaxOrderbookLevels - count o)%nat as [|m] eqn:Em; [lia|]. cbn [read_levels].
  destruct (nlevel j) as [r|].
  2:{ unfold pbind at 1. unfold fails in *. by destruct (named_level count push v tt (d1, o)) as [[] ]. }
  destruct Hs as (d2 & H2 & E2). pose proof (od_next _ _ _ _ H2) as H3.
  assert (Hgo : pbind (named_level count push v tt) (fun r => if r.2 : bool then pret r.1
      else pbind (call (sj_next L it)) (fun it => range_for fuel (named_level count push) it r.1)) (d1, o) =
    range_for fuel (named_level count push) (sj_next L it d2).1 tt ((sj_next L it d2).2, match r with Some l => push l o | None => o end)).
  { unfold pbind at 1. rewrite E2. cbn [snd fst]. by rewrite pbind_call. }
  rewrite Hgo. destruct r as [l|].
  - specialize (IH js _ _ (push l o) H3 HK ltac:(lia)). rewrite Hpush in IH. specialize (IH ltac:(lia)).
    replace (kMaxOrderbookLevels - S (count o))%nat with m in IH by lia.
    destruct (read_levels nlevel m js) as [ls|]; exact IH.
  - specialize (IH js _ _ o H3 HK ltac:(lia) Hc). rewrite Em in IH. exact IH.
Qed.

(** A side of the book, from an array of levels with named members. *)
Definition jnamed (j : json) : option (list PriceLevel) :=
  match j with JArr js => read_levels nlevel kMaxOrderbookLevels js | _ => None end.

Definition named_ok (fuel : nat) (oj : option json) : Prop := exists js, oj = Some (JArr js) /\ (length js < fuel)%nat.

Lemma decodes_named look get (I : JDoc L -> Prop) fuel k g d o K :
  scope look get I -> named_ok fuel (get k) -> count o = 0%nat -> I d ->
  (forall ls d', (length ls <= kMaxOrderbookLevels)%nat -> I d' -> decodes (g tt) d' (foldl (fun e l => push l e) o ls) (K ls)) ->
  decodes (pbind (call (look k)) (fun v => pbind (call (sj_begin L v)) (fun it =>
     pbind (range_for fuel (named_level count push) it tt) g))) d o ((get k ≫= jnamed) ≫= K).
Proof using Hpush.
  intros Hs (js & Hk & Hf) Hc Hd H. destruct (Hs d k Hd) as (K0 & HK & HI & Hh). rewrite Hk in Hh |- *. destruct Hh as [_ Hv].
  unfold decodes at 1. rewrite !pbind_call. pose proof (od_begin _ _ _ _ Hv) as Hb.
  pose proof (named_loop js K0 fuel _ _ o Hb HK Hf ltac:(lia)) as Hl. rewrite Hc, Nat.sub_0_r in Hl.
  cbn [mbind option_bind jnamed]. unfold pbind. destruct (read_levels nlevel kMaxOrderbookLevels js) as [ls|] eqn:Er; cbn [mbind option_bind].
  - destruct Hl as (d' & Hd' & ->). exact (H ls d' (read_levels_length _ _ _ _ Er) (HI _ Hd')).
  - unfold fails in *. by destruct (range_for _ _ _ _ _) as [[] ].
Qed.
End named.

(** ** Reference decoders *)

Definition tick_of (ts id : Z) (price qty : double) (ch : Z) (maker : bool) : TickData :=
  mkTick ts 0 id price qty ch symbol0 maker (replicate 3 NUL).
Definition ticker_of (ch ts : Z) (bp bq ap aq : double) : BookTickerEvent := mkBookTicker ch ts 0 symbol0 bp bq ap aq.
(** A book: the levels read, then zeros. *)
Definition book_side (ls : list PriceLevel) : list PriceLevel := ls ++ replicate (kMaxOrderbookLevels - length ls) level0.
Definition book_of (id ch ts : Z) (bids asks : list PriceLevel) : DepthUpdateEvent :=
  mkDepth id ch ts 0 symbol0 (book_side bids) (book_side asks) (length bids) (length asks).

Section references.
Context (undefined_cast : double -> Z) (ch : Z) (get : string -> option json).

Definition ref_binance_trade : option TickData :=
  E ← get "E" ≫= jint64; a ← get "a" ≫= jint64; p ← get "p" ≫= jdouble; q ← get "q" ≫= jdouble; m ← get "m" ≫= jbool;
  Some (tick_of (u64 E) (u64 a) p q ch m).

Definition ref_binance_ticker : option BookTickerEvent :=
  bp ← get "b" ≫= jdouble; bq ← get "B" ≫= jdouble; ap ← get "a" ≫= jdouble; aq ← get "A" ≫= jdouble; E ← get "E" ≫= jint64;
  Some (ticker_of ch (MsToUs (u64 E)) bp bq ap aq).

Definition ref_binance_spot_ticker (now_us : Z) : option BookTickerEvent :=
  bp ← get "b" ≫= jdouble; bq ← get "B" ≫= jdouble; ap ← get "a" ≫= jdouble; aq ← get "A" ≫= jdouble;
  Some (ticker_of ch (u64 now_us) bp bq ap aq).

Definition ref_binance_spot_depth (now_us : Z) : option DepthUpdateEvent :=
  id ← get "lastUpdateId" ≫= juint64; bs ← get "bids" ≫= jlevels kMaxOrderbookLevels; az ← get "asks" ≫= jlevels kMaxOrderbookLevels;
  Some (book_of id ch (u64 now_us) bs az).

Definition ref_binance_depth : option DepthUpdateEvent :=
  E ← get "E" ≫= jint64; u ← get "u" ≫= jint64; bs ← get "b" ≫= jlevels kMaxOrderbookLevels; az ← get "a" ≫= jlevels kMaxOrderbookLevels;
  Some (book_of (u64 u) ch (MsToUs (u64 E)) bs az).

Let result (k : string) : option json := get "result" ≫= jfield k.

Definition ref_gateio_ticker : option BookTickerEvent :=
  ev ← get "event" ≫= jstring;
  if is_text ev "update" then
    t ← result "t" ≫= juint64; bp ← result "b" ≫= jdouble; bq ← result "B" ≫= jquantity; ap ← result "a" ≫= jdouble;
    aq ← result "A" ≫= jquantity; Some (ticker_of ch (MsToUs t) bp bq ap aq)
  else None.

Definition ref_gateio_spot_trade : option TickData :=
  ev ← get "event" ≫= jstring;
  if is_text ev "subscribe" then None
  else
    id ← result "id" ≫= juint64; s ← result "create_time_ms" ≫= jstring; ms ← from_chars s; p ← result "price" ≫= jdouble;
    side ← result "side" ≫= jstring; s ← result "amount" ≫= jstring; q ← from_chars s;
    Some (tick_of (d_to_u64 undefined_cast (times_1000 ms)) id p (magnitude q) ch (is_text side "sell")).

(** The first trade of the array. *)
Definition ref_gateio_perpetual_trade : option TickData :=
  ev ← get "event" ≫= jstring;
  if is_text ev "subscribe" then None
  else
    match get "result" with
    | Some (JArr (item :: _)) =>
        id ← jfield "id" item ≫= juint64; ms ← jfield "create_time_ms" item ≫= juint64; p ← jfield "price" item ≫= jdouble;
        q ← jfield "size" item ≫= jquantity; Some (tick_of (MsToUs ms) id p (magnitude q) ch (d_lt q dzero))
    | _ => None
    end.

Definition ref_gateio_spot_depth : option DepthUpdateEvent :=
  ev ← get "event" ≫= jstring;
  if is_book_event ev then
    t ← result "t" ≫= juint64; id ← result "lastUpdateId" ≫= juint64; bs ← result "bids" ≫= jlevels kMaxOrderbookLevels;
    az ← result "asks" ≫= jlevels kMaxOrderbookLevels; Some (book_of id ch (MsToUs t) bs az)
  else None.

Definition ref_gateio_perpetual_depth : option DepthUpdateEvent :=
  ev ← get "event" ≫= jstring;
  if is_book_event ev then
    t ← result "t" ≫= juint64; id ← result "id" ≫= juint64; bs ← result "bids" ≫= jnamed; az ← result "asks" ≫= jnamed;
    Some (book_of id ch (MsToUs t) bs az)
  else None.
End references.

(** *** The book a parser leaves *)

Fixpoint fill_from (i : nat) (ls : list PriceLevel) (l : list PriceLevel) : list PriceLevel :=
  match ls with [] => l | x :: ls' => fill_from (S i) ls' (<[i := x]> l) end.

Lemma fill_from_zeros pre ls m :
  (length ls <= m)%nat -> fill_from (length pre) ls (pre ++ replicate m level0) = pre ++ ls ++ replicate (m - length ls) level0.
Proof.
  revert pre m. induction ls as [|x ls IH]; intros pre m Hm; cbn [fill_from length app]; [by rewrite Nat.sub_0_r|].
  destruct m as [|m]; [cbn in Hm; lia|]. rewrite insert_app_r_alt by lia. rewrite Nat.sub_diag. cbn [replicate insert list_insert].
  replace (S (length pre)) with (length (pre ++ [x])) by (rewrite length_app; cbn; lia).
  change (pre ++ x :: replicate m level0) with (pre ++ [x] ++ replicate m level0). rewrite (app_assoc pre [x]).
  rewrite IH by (cbn in Hm; lia). by rewrite <- app_assoc.
Qed.

Lemma fill_side ls : (length ls <= kMaxOrderbookLevels)%nat -> fill_from 0 ls (replicate kMaxOrderbookLevels level0) = book_side ls.
Proof. apply (fill_from_zeros []). Qed.

Lemma write_bids i ls e : write_levels put_bid i ls e = put_bids (fill_from i ls (dp_bids e)) e.
Proof. revert i e. induction ls as [|x ls IH]; intros i e; cbn [write_levels fill_from]; [by destruct e|]. by rewrite IH. Qed.
Lemma write_asks i ls e : write_levels put_ask i ls e = put_asks (fill_from i ls (dp_asks e)) e.
Proof. revert i e. induction ls as [|x ls IH]; intros i e; cbn [write_levels fill_from]; [by destruct e|]. by rewrite IH. Qed.

Lemma push_bids ls e :
  foldl (fun e l => push_bid l e) e ls = put_bid_count (dp_bid_count e + length ls) (put_bids (fill_from (dp_bid_count e) ls (dp_bids e)) e).
Proof.
  revert e. induction ls as [|x ls IH]; intros e; cbn [foldl fill_from length]; [rewrite Nat.add_0_r; by destruct e|].
  rewrite IH. cbn. by rewrite Nat.add_succ_r.
Qed.
Lemma push_asks ls e :
  foldl (fun e l => push_ask l e) e ls = put_ask_count (dp_ask_count e + length ls) (put_asks (fill_from (dp_ask_count e) ls (dp_asks e)) e).
Proof.
  revert e. induction ls as [|x ls IH]; intros e; cbn [foldl fill_from length]; [rewrite Nat.add_0_r; by destruct e|].
  rewrite IH. cbn. by rewrite Nat.add_succ_r.
Qed.

(** ** The parsers against the references *)

(** One step of a parser in the scope [Hs]. *)
Ltac dec_step Hs :=
  first
    [ apply decodes_put
    | apply decodes_assoc
    | apply (decodes_string _ _ _ Hs); [assumption|intros ? ? ?]
    | apply (decodes_int64 _ _ _ Hs); [assumption|intros ? ? ?]
    | apply (decodes_uint64 _ _ _ Hs); [assumption|intros ? ? ?]
    | apply (decodes_bool _ _ _ Hs); [assumption|intros ? ? ?]
    | apply (decodes_double _ _ _ Hs); [assumption|intros ? ? ?]
    | apply (decodes_quantity _ _ _ Hs); [assumption|intros ? ? ?]
    | apply (decodes_skip _ _ _ Hs); [assumption|intros ? ?] ].
Ltac dec_run Hs := repeat dec_step Hs.
Ltac dec_done := apply decodes_true; reflexivity.
(** A side of the book. *)
Ltac dec_side Hs :=
  apply (decodes_levels _ _ _ Hs); [assumption|assumption|intros ? ? ? ?]; dec_run Hs.
Ltac book_done :=
  apply decodes_true; rewrite ?write_asks, ?push_asks; cbn [dp_asks dp_ask_count put_bid_count]; rewrite ?write_bids, ?push_bids;
  cbn -[kMaxOrderbookLevels fill_from book_of]; rewrite !fill_side by done; reflexivity.

Section decoding.
Context {L : Simdjson} `{!OnDemand L} (fuel : nat) (undefined_cast : double -> Z) (ch : Z) (fs : list (string * json)).
Let get (k : string) : option json := assoc k fs.
Let Hs : scope (L := L) (sj_doc_field L) get (fun d => at_ d [FDoc fs]) := doc_scope fs.

Lemma decodes_binance_trade d : at_ d [FDoc fs] -> decodes (L := L) (BinanceParseTradeEvent ch) d tick0 (ref_binance_trade ch get).
Proof. intros Hd. unfold BinanceParseTradeEvent, doc_field, ref_binance_trade. dec_run Hs. dec_done. Qed.

Lemma decodes_binance_ticker d :
  at_ d [FDoc fs] -> decodes (L := L) (BinanceParseBookTickerEvent ch) d book_ticker0 (ref_binance_ticker ch get).
Proof. intros Hd. unfold BinanceParseBookTickerEvent, ticker_quotes, doc_field, ref_binance_ticker. dec_run Hs. dec_done. Qed.

Lemma decodes_binance_spot_ticker now d :
  at_ d [FDoc fs] -> decodes (L := L) (ParseSpotBookTickerEvent now ch) d book_ticker0 (ref_binance_spot_ticker ch get now).
Proof. intros Hd. unfold ParseSpotBookTickerEvent, ticker_quotes, doc_field, ref_binance_spot_ticker. dec_run Hs. dec_done. Qed.

Lemma decodes_binance_spot_depth now d :
  side_ok fuel (get "bids") -> side_ok fuel (get "asks") -> at_ d [FDoc fs] ->
  decodes (L := L) (ParsePartialDepth fuel now ch) d depth0 (ref_binance_spot_depth ch get now).
Proof.
  intros H1 H2 Hd. unfold ParsePartialDepth, positional_book, doc_field, ref_binance_spot_depth. dec_run Hs.
  dec_side Hs. dec_side Hs. book_done.
Qed.

Lemma decodes_binance_depth d :
  side_ok fuel (get "b") -> side_ok fuel (get "a") -> at_ d [FDoc fs] ->
  decodes (L := L) (BinanceParseDepthEvent fuel ch) d depth0 (ref_binance_depth ch get).
Proof.
  intros H1 H2 Hd. unfold BinanceParseDepthEvent, positional_book, doc_field, ref_binance_depth. dec_run Hs.
  dec_side Hs. dec_side Hs. book_done.
Qed.

Lemma decodes_envelope {Out} (g : unit -> PM L Out unit) d o r :
  at_ d [FDoc fs] -> (forall d', at_ d' [FDoc fs] -> decodes (g tt) d' o r) -> decodes (pbind SkipTimeEnvelope g) d o r.
Proof.
  intros Hd H. destruct (skipped (Out := Out) (B := unit) _ _ _ d "time" Hs Hd) as (d1 & H1 & E1).
  destruct (skipped (Out := Out) (B := unit) _ _ _ d1 "time_ms" Hs H1) as (d2 & H2 & E2).
  assert (E : pbind SkipTimeEnvelope g (d, o) = g tt (d2, o)).
  { rewrite <- (E2 o g), <- (E1 o (fun _ => pbind (call (sj_doc_field L "time_ms")) (fun v => pbind (skip_uint64 v) g))).
    unfold SkipTimeEnvelope, doc_field. rewrite pbind_assoc, !pbind_call, pbind_assoc. unfold skip_uint64 at 1 3.
    rewrite !pbind_assoc, !pbind_call. change (pbind (pret tt) ?f ?s) with (f tt s). cbn beta. by rewrite pbind_assoc. }
  unfold decodes.
  rewrite E. by apply H.
Qed.

Ltac dec_envelope := apply decodes_envelope; [assumption|intros ? ?].

Lemma decodes_gateio_ticker d :
  at_ d [FDoc fs] -> decodes (L := L) (GateioParseBookTickerEvent ch) d book_ticker0 (ref_gateio_ticker ch get).
Proof.
  intros Hd. unfold GateioParseBookTickerEvent, doc_field, field, ref_gateio_ticker. dec_envelope. dec_run Hs.
  destruct (is_text _ _); cbn [negb]; [|apply decodes_false].
  apply (decodes_value _ _ _ Hs); [assumption|]. intros v d2 I' Hv Hd2. dec_run Hv. dec_done.
Qed.

Lemma decodes_gateio_spot_trade d :
  at_ d [FDoc fs] -> decodes (L := L) (GateioSpotParseTradeEvent undefined_cast ch) d tick0 (ref_gateio_spot_trade undefined_cast ch get).
Proof.
  intros Hd. unfold GateioSpotParseTradeEvent, doc_field, field, ref_gateio_spot_trade. dec_envelope. dec_run Hs.
  destruct (is_text _ _); [apply decodes_false|].
  apply (decodes_value _ _ _ Hs); [assumption|]. intros v d2 I' Hv Hd2. dec_run Hv.
  destruct (from_chars _) as [ms|]; cbn [mbind option_bind]; [|apply decodes_false]. dec_run Hv.
  destruct (from_chars _) as [q|]; cbn [mbind option_bind]; [|apply decodes_false]. dec_run Hv. dec_done.
Qed.

Lemma decodes_gateio_spot_depth d :
  side_ok fuel (get "result" ≫= jfield "bids") -> side_ok fuel (get "result" ≫= jfield "asks") -> at_ d [FDoc fs] ->
  decodes (L := L) (GateioSpotParseDepthEvent fuel ch) d depth0 (ref_gateio_spot_depth ch get).
Proof.
  intros H1 H2 Hd. unfold GateioSpotParseDepthEvent, doc_field, field, ref_gateio_spot_depth. dec_envelope. dec_run Hs.
  destruct (is_book_event _); cbn [negb]; [|apply decodes_false].
  apply (decodes_value _ _ _ Hs); [assumption|]. intros v d2 I' Hv Hd2. dec_run Hv. dec_side Hv. dec_side Hv. book_done.
Qed.

Lemma decodes_gateio_perpetual_depth d :
  named_ok fuel (get "result" ≫= jfield "bids") -> named_ok fuel (get "result" ≫= jfield "asks") -> at_ d [FDoc fs] ->
  decodes (L := L) (GateioPerpetualParseDepthEvent fuel ch) d depth0 (ref_gateio_perpetual_depth ch get).
Proof.
  intros H1 H2 Hd. unfold GateioPerpetualParseDepthEvent, doc_field, field, ref_gateio_perpetual_depth. dec_envelope. dec_run Hs.
  destruct (is_book_event _); cbn [negb]; [|apply decodes_false].
  apply (decodes_value _ _ _ Hs); [assumption|]. intros v d2 I' Hv Hd2. dec_run Hv.
  apply (decodes_named dp_bid_count push_bid (fun l e => eq_refl) _ _ _ _ _ _ _ _ _ Hv); [assumption|done|assumption|intros bs d3 Hbs Hd3]. dec_run Hv.
  apply (decodes_named dp_ask_count push_ask (fun l e => eq_refl) _ _ _ _ _ _ _ _ _ Hv); [assumption|done|assumption|intros az d4 Haz Hd4]. dec_run Hv.
  apply decodes_true. rewrite push_asks. cbn [dp_asks dp_ask_count put_ask_count]. rewrite push_bids.
  cbn -[kMaxOrderbookLevels fill_from book_of]. by rewrite !fill_side.
Qed.

(** The trades of a perpetual come in an array; the first one is read. *)
Lemma decodes_gateio_perpetual_trade d js :
  get "result" = Some (JArr js) -> at_ d [FDoc fs] ->
  decodes (L := L) (GateioPerpetualParseTradeEvent ch) d tick0 (ref_gateio_perpetual_trade ch get).
Proof.
  intros Hr Hd. unfold GateioPerpetualParseTradeEvent, doc_field, field, ref_gateio_perpetual_trade. dec_envelope. dec_run Hs.
  destruct (is_text _ _); [apply decodes_false|]. rewrite Hr.
  match goal with H : at_ ?d0 [FDoc fs] |- decodes _ ?d0 _ _ => destruct (Hs d0 "result"%string H) as (K & HK & HI & Hh) end.
  rewrite Hr in Hh. destruct Hh as [_ Hv]. destruct (od_array _ _ _ _ Hv) as [_ Ha]. pose proof (od_begin _ _ _ _ Ha) as Hb.
  unfold decodes. rewrite !pbind_call, pbind_at_end, (od_end _ _ _ _ Hb).
  destruct js as [|item js]; [done|]. rewrite pbind_call. destruct (od_deref _ _ _ _ _ Hb) as [He Hi].
  match goal with |- context [pbind (call (sj_field L ?v "id"))] => destruct (value_scope (L := L) _ v (Some item) (fun _ => True)
    (ex_intro _ _ (conj (ltac:(done) : FCur _ js :: K <> []) (conj (fun _ _ => Logic.I) (conj He Hi))))) as (I' & HI' & Hv' & _) end.
  match goal with |- match ?r with Some o' => exists d', ?p (?d, ?o) = _ | None => _ end => change (decodes p d o r) end.
  dec_run Hv'. dec_done.
Qed.
End decoding.

(** ** The four venues *)

Inductive Venue := BinanceSpot | BinancePerpetual | GateioSpot | GateioPerpetual.

Definition adapter_of {L} (fuel : nat) (undefined_cast : double -> Z) (v : Venue) : ExchangeAdapter L :=
  match v with
  | BinanceSpot => kBinanceSpotAdapter fuel
  | BinancePerpetual => kBinancePerpetualAdapter fuel
  | GateioSpot => kGateioSpotAdapter fuel undefined_cast
  | GateioPerpetual => kGateioPerpetualAdapter fuel
  end.

(** The event of a result. *)
Definition decoded (r : ParseResult) : option Payload :=
  match pr_type r with
  | PT_NONE => None
  | PT_TICK => Some (TickPayload (pr_tick r))
  | PT_DEPTH => Some (DepthPayload (pr_depth r))
  | PT_BOOK_TICKER => Some (BookTickerPayload (pr_book_ticker r))
  end.

(** What the message [fs] means, by venue and kind. *)
Definition reference (undefined_cast : double -> Z) (v : Venue) (now_us ch : Z) (fs : list (string * json)) (et : EventType) : option Payload :=
  let get k := assoc k fs in
  match v, et with
  | _, ET_UNKNOWN => None
  | BinanceSpot, ET_TICK => TickPayload <$> ref_binance_trade ch get
  | BinanceSpot, ET_DEPTH => DepthPayload <$> ref_binance_spot_depth ch get now_us
  | BinanceSpot, ET_BOOK_TICKER => BookTickerPayload <$> ref_binance_spot_ticker ch get now_us
  | BinancePerpetual, ET_TICK => (fun t => TickPayload (put_tick_ts (MsToUs (tk_exchange_timestamp t)) t)) <$> ref_binance_trade ch get
  | BinancePerpetual, ET_DEPTH => DepthPayload <$> ref_binance_depth ch get
  | BinancePerpetual, ET_BOOK_TICKER => BookTickerPayload <$> ref_binance_ticker ch get
  | GateioSpot, ET_TICK => TickPayload <$> ref_gateio_spot_trade undefined_cast ch get
  | GateioSpot, ET_DEPTH => DepthPayload <$> ref_gateio_spot_depth ch get
  | GateioPerpetual, ET_TICK => TickPayload <$> ref_gateio_perpetual_trade ch get
  | GateioPerpetual, ET_DEPTH => DepthPayload <$> ref_gateio_perpetual_depth ch get
  | (GateioSpot | GateioPerpetual), ET_BOOK_TICKER => BookTickerPayload <$> ref_gateio_ticker ch get
  end.

(** The containers have the documented shape: a side of a book holds fewer than
    [fuel] levels, which are arrays where they are read by position. *)
Definition message_ok (fuel : nat) (v : Venue) (et : EventType) (fs : list (string * json)) : Prop :=
  let get k := assoc k fs in
  let result k := assoc "result" fs ≫= jfield k in
  match v, et with
  | BinanceSpot, ET_DEPTH => side_ok fuel (get "bids") /\ side_ok fuel (get "asks")
  | BinancePerpetual, ET_DEPTH => side_ok fuel (get "b") /\ side_ok fuel (get "a")
  | GateioSpot, ET_DEPTH => side_ok fuel (result "bids") /\ side_ok fuel (result "asks")
  | GateioPerpetual, ET_DEPTH => named_ok fuel (result "bids") /\ named_ok fuel (result "asks")
  | GateioPerpetual, ET_TICK => exists js, get "result" = Some (JArr js)
  | _, _ => True
  end.

(** The kind of a message. *)
Definition binance_kind (fs : list (string * json)) : EventType :=
  match assoc "e" fs with
  | None => match assoc "lastUpdateId" fs with Some _ => ET_DEPTH | None => ET_BOOK_TICKER end
  | Some j => match jstring j with
              | None => ET_UNKNOWN
              | Some ev => if is_text ev "trade" || is_text ev "aggTrade" then ET_TICK
                           else if is_text ev "depthUpdate" then ET_DEPTH
                           else if is_text ev "bookTicker" then ET_BOOK_TICKER else ET_UNKNOWN
              end
  end.

Definition gateio_kind (prefix : string) (fs : list (string * json)) : EventType :=
  match assoc "channel" fs ≫= jstring with
  | None => ET_UNKNOWN
  | Some c =>
      let n := String.length prefix in
      if ((n + 1 <? length c)%nat && is_text (take n c) prefix) then
        let suffix := drop (n + 1) c in
        if is_text suffix "trades" then ET_TICK else if is_text suffix "order_book" then ET_DEPTH
        else if is_text suffix "book_ticker" then ET_BOOK_TICKER else ET_UNKNOWN
      else ET_UNKNOWN
  end.

Definition kind_of (v : Venue) : list (string * json) -> EventType :=
  match v with
  | BinanceSpot | BinancePerpetual => binance_kind
  | GateioSpot => gateio_kind "spot"
  | GateioPerpetual => gateio_kind "futures"
  end.

Section venues.
Context {L : Simdjson} `{!OnDemand L}.

Lemma binance_peek d fs : at_ d [FStart fs] -> BinancePeekEventType (L := L) d = binance_kind fs.
Proof.
  intros Hd. unfold BinancePeekEventType, binance_kind.
  destruct (assoc "e" fs) as [j|] eqn:E.
  - destruct (od_find_hit _ _ _ _ Hd E) as [He Hv]. destruct (sj_find_field L "e" d) as [v d1]. cbn [fst snd] in *. rewrite He.
    destruct od_string as (R1 & R2 & _). destruct (jstring j) as [s|] eqn:Es.
    + destruct (R1 d1 v j _ s Hv ltac:(done) Es) as [-> _]. done.
    + destruct (R2 d1 v j _ Hv Es) as [-> _]. done.
  - destruct (od_find_miss _ _ _ Hd E) as [He Hv]. destruct (sj_find_field L "e" d) as [v d1]. cbn [fst snd] in *. rewrite He.
    pose proof (od_rewind d1 fs [] Hv) as Hr. destruct (assoc "lastUpdateId" fs) as [j|] eqn:E2.
    + destruct (od_find_hit _ _ _ _ Hr E2) as [He2 _]. destruct (sj_find_field L "lastUpdateId" _). cbn [fst] in He2. by rewrite He2.
    + destruct (od_find_miss _ _ _ Hr E2) as [He2 _]. destruct (sj_find_field L "lastUpdateId" _). cbn [fst] in He2. by rewrite He2.
Qed.

Lemma gateio_peek prefix d fs : at_ d [FDoc fs] -> GateioPeekEventType (L := L) prefix d = gateio_kind prefix fs.
Proof.
  intros Hd. unfold GateioPeekEventType, gateio_kind.
  pose proof (reads_get (sj_get_string L) jstring _ _ _ _ od_string (doc_scope fs d "channel" Hd)) as Hs.
  destruct (sj_doc_field L "channel" d) as [v d1]. cbn [fst snd] in Hs.
  rewrite Hs. destruct (assoc "channel" fs ≫= jstring) as [c|]; [|done].
  rewrite Nat.ltb_antisym. destruct (length c <=? String.length prefix + 1)%nat; cbn [negb andb]; [done|].
  by destruct (is_text (take _ c) prefix).
Qed.
End venues.

(** A result is decided by what its parser did. *)
Lemma dispatch_decoded {L} `{!OnDemand L} {Out} (p : PM L Out unit) d o type set (inj : Out -> Payload) r :
  decodes p d o r ->
  (forall o', decoded (mkParse type (pr_tick (set o' parse_result0)) (pr_depth (set o' parse_result0))
                         (pr_book_ticker (set o' parse_result0))) = Some (inj o')) ->
  exists res, DispatchParse type (run_parser p d o) set parse_result0 = Some res /\ decoded res = inj <$> r.
Proof.
  intros Hd Hi. apply decodes_run in Hd. unfold DispatchParse. destruct r as [o'|].
  - rewrite Hd. eexists. split; [done|]. apply Hi.
  - destruct Hd as [o' ->]. by eexists.
Qed.

Lemma venue_peek {L : Simdjson} `{!OnDemand L} (fuel : nat) (undefined_cast : double -> Z) (v : Venue) (fs : list (string * json)) (d : JDoc L) :
  at_ d [FStart fs] -> ad_peek_event_type (adapter_of fuel undefined_cast v) d = kind_of v fs.
Proof.
  intros Hstart. pose proof (od_start _ _ Hstart) as Hd.
  destruct v; cbn [adapter_of ad_peek_event_type]; [by apply binance_peek|by apply binance_peek|by apply gateio_peek|by apply gateio_peek].
Qed.

Lemma venue_parse {L : Simdjson} `{!OnDemand L} (fuel : nat) (undefined_cast : double -> Z) (v : Venue) (now_us ch : Z)
    (fs : list (string * json)) (et : EventType) (d : JDoc L) :
  at_ d [FStart fs] -> message_ok fuel v et fs ->
  exists r, ad_parse (adapter_of fuel undefined_cast v) now_us d ch et = Some r /\
    decoded r = reference undefined_cast v now_us ch fs et.
Proof.
  intros Hstart. pose proof (od_start _ _ Hstart) as Hd. pose proof (od_start _ _ (od_rewind_start _ _ Hstart)) as Hrw.
  intros Hm. destruct et; [by destruct v; eexists|..].
  - destruct v; cbn in Hm.
    + by apply (dispatch_decoded _ _ _ _ set_tick TickPayload _ (decodes_binance_trade ch fs d Hd)).
    + pose proof (decodes_run _ _ _ _ (decodes_binance_trade ch fs d Hd)) as Hr.
      cbn [adapter_of ad_parse kBinancePerpetualAdapter BinancePerpetualParse reference pr_tick parse_result0].
      destruct (ref_binance_trade ch (fun k => assoc k fs)) as [t|]; [rewrite Hr; by eexists|].
      destruct Hr as [o' ->]. by eexists.
    + by apply (dispatch_decoded _ _ _ _ set_tick TickPayload _ (decodes_gateio_spot_trade undefined_cast ch fs d Hd)).
    + destruct Hm as [js Hjs].
      by apply (dispatch_decoded _ _ _ _ set_tick TickPayload _ (decodes_gateio_perpetual_trade ch fs d js Hjs Hd)).
  - destruct v; destruct Hm as [H1 H2];
      [by apply (dispatch_decoded _ _ _ _ set_depth DepthPayload _ (decodes_binance_spot_depth fuel ch fs now_us d H1 H2 Hd))
      |by apply (dispatch_decoded _ _ _ _ set_depth DepthPayload _ (decodes_binance_depth fuel ch fs d H1 H2 Hd))
      |by apply (dispatch_decoded _ _ _ _ set_depth DepthPayload _ (decodes_gateio_spot_depth fuel ch fs d H1 H2 Hd))
      |by apply (dispatch_decoded _ _ _ _ set_depth DepthPayload _ (decodes_gateio_perpetual_depth fuel ch fs d H1 H2 Hd))].
  - destruct v;
      [by apply (dispatch_decoded _ _ _ _ set_book_ticker BookTickerPayload _ (decodes_binance_spot_ticker ch fs now_us _ Hrw))
      |by apply (dispatch_decoded _ _ _ _ set_book_ticker BookTickerPayload _ (decodes_binance_ticker ch fs d Hd))
      |by apply (dispatch_decoded _ _ _ _ set_book_ticker BookTickerPayload _ (decodes_gateio_ticker ch fs d Hd))
      |by apply (dispatch_decoded _ _ _ _ set_book_ticker BookTickerPayload _ (decodes_gateio_ticker ch fs d Hd))].
Qed.

(** C15: Nothing the JSON library does can make a parser produce a malformed event: for every library behaviour whatsoever, a
    result is of the kind that was asked for, on the given channel, with in-range integers, full level arrays and counts of at
    most 100 levels a side. *)
Theorem parse_results_well_formed {L : Simdjson} (fuel : nat) (undefined_cast : double -> Z) (v : Venue) (now_us ch : Z)
    (et : EventType) (d : JDoc L) (r : ParseResult) :
  in_range 32 ch -> ad_parse (adapter_of fuel undefined_cast v) now_us d ch et = Some r -> result_ok ch et r.
Proof.
  intros Hc. apply (adapters_ok fuel undefined_cast); [|done]. unfold crypto_adapters. destruct v; cbn [adapter_of]; set_solver.
Qed.

(** *** Witnesses *)

Definition jtext (s : string) : json := JStr (list_ascii_of_string s).

Definition demo_trade : list (string * json) :=
  [("e", jtext "aggTrade"); ("E", JInt 1672515782136); ("s", jtext "BNBBTC"); ("a", JInt 12345); ("p", jtext "0.5");
   ("q", jtext "100"); ("m", JBool true)]%string.

Definition demo_depth : list (string * json) :=
  [("lastUpdateId", JInt 160); ("bids", JArr [JArr [jtext "2.5"; jtext "431"]; JArr [jtext "x"; jtext "1"]; JArr [jtext "2"]]);
   ("asks", JArr [JArr [jtext "4"; jtext "12"; JArr []]])]%string.

Lemma parse_results_well_formed_witness :
  exists r, BinanceSpotParse (L := Dom) 5 7 (JObj demo_depth) 9 ET_DEPTH = Some r /\ result_ok 9 ET_DEPTH r.
Proof.
  destruct (BinanceSpotParse (L := Dom) 5 7 (JObj demo_depth) 9 ET_DEPTH) as [r|] eqn:E; [|exfalso; vm_compute in E; discriminate E].
  exists r. split; [reflexivity|]. apply (parse_results_well_formed (L := Dom) 5 (fun _ => 0) BinanceSpot 7 9 ET_DEPTH (JObj demo_depth)); [|exact E].
  unfold in_range. lia.
Defined.
