(* ===== verification/Messages.v ===== *)
(** * The messages of the venues

    The messages as the venues describe them: what each kind says ([Message]), the
    JSON object it is sent as ([encode]) and the event it stands for ([meaning]),
    written without reference to the parsers.  The parsers decode every such
    message to its event.  What they do with anything else is the reference decoder
    of [Decode], which keeps two habits of the code: an unreadable quantity of
    Gate.io counts as zero, and of a batch of perpetual trades only the first is read. *)
From Stdlib Require Import SpecFloat.
From S2P Require Import Prelude Doubles Events Exchange FromChars Json OnDemand Binance Gateio Adapters PubWorker Decode.

(** Prices are decimal texts; a quantity of Gate.io is a text or an integer. *)
Inductive Quantity := QText (s : list ascii) | QInt (z : Z).

(** A level of a book: by position, with members the parser ignores, or with named members. *)
Record PositionalLevel := mkPositional { pl_price : list ascii; pl_qty : list ascii; pl_rest : list json }.
Record NamedLevel := mkNamed { nl_price : list ascii; nl_size : Quantity }.

Inductive Message :=
| BinanceTrade (E a : Z) (p q : list ascii) (m : bool)
| BinanceTicker (E : Z) (b B a A : list ascii)
| BinancePartialDepth (lastUpdateId : Z) (bids asks : list PositionalLevel)
| BinanceDepthUpdate (E u : Z) (b a : list PositionalLevel)
| GateioTicker (t : Z) (b : list ascii) (B : Quantity) (a : list ascii) (A : Quantity)
| GateioSpotTrade (id : Z) (create_time_ms price : list ascii) (sell : bool) (amount : list ascii)
| GateioPerpetualTrade (id create_time_ms : Z) (price : list ascii) (size : Quantity)
| GateioSpotBook (t lastUpdateId : Z) (bids asks : list PositionalLevel)
| GateioPerpetualBook (t id : Z) (bids asks : list NamedLevel).

(** ** How a venue sends it *)

Definition quantity_json (q : Quantity) : json := match q with QText s => JStr s | QInt z => JInt z end.
Definition positional_json (l : PositionalLevel) : json := JArr (JStr (pl_price l) :: JStr (pl_qty l) :: pl_rest l).
Definition named_json (l : NamedLevel) : json := JObj [("p", JStr (nl_price l)); ("s", quantity_json (nl_size l))]%string.

Definition gateio_envelope (v : Venue) (channel : string) (result : json) : list (string * json) :=
  [("time", JInt 1606292218); ("channel", jtext ((match v with GateioSpot => "spot" | _ => "futures" end) ++ channel));
   ("event", jtext "update"); ("result", result)]%string.

Definition encode (v : Venue) (m : Message) : list (string * json) :=
  match m with
  | BinanceTrade E a p q m =>
      [("e", jtext "aggTrade"); ("E", JInt E); ("a", JInt a); ("p", JStr p); ("q", JStr q); ("m", JBool m)]
  | BinanceTicker E b B a A =>
      app (match v with BinanceSpot => [] | _ => [("e", jtext "bookTicker"); ("E", JInt E)] end)
        [("b", JStr b); ("B", JStr B); ("a", JStr a); ("A", JStr A)]
  | BinancePartialDepth id bids asks =>
      [("lastUpdateId", JInt id); ("bids", JArr (positional_json <$> bids)); ("asks", JArr (positional_json <$> asks))]
  | BinanceDepthUpdate E u b a =>
      [("e", jtext "depthUpdate"); ("E", JInt E); ("u", JInt u); ("b", JArr (positional_json <$> b)); ("a", JArr (positional_json <$> a))]
  | GateioTicker t b B a A =>
      gateio_envelope v ".book_ticker" (JObj [("t", JInt t); ("b", JStr b); ("B", quantity_json B); ("a", JStr a); ("A", quantity_json A)])
  | GateioSpotTrade id ms price sell amount =>
      gateio_envelope v ".trades" (JObj [("id", JInt id); ("create_time_ms", JStr ms); ("side", jtext (if sell then "sell" else "buy"));
                                         ("amount", JStr amount); ("price", JStr price)])
  | GateioPerpetualTrade id ms price size =>
      gateio_envelope v ".trades" (JArr [JObj [("size", quantity_json size); ("id", JInt id); ("create_time_ms", JInt ms); ("price", JStr price)]])
  | GateioSpotBook t id bids asks =>
      gateio_envelope v ".order_book" (JObj [("t", JInt t); ("lastUpdateId", JInt id); ("bids", JArr (positional_json <$> bids));
                                             ("asks", JArr (positional_json <$> asks))])
  | GateioPerpetualBook t id bids asks =>
      gateio_envelope v ".order_book" (JObj [("t", JInt t); ("id", JInt id); ("asks", JArr (named_json <$> asks)); ("bids", JArr (named_json <$> bids))])
  end%string.

(** Which venue sends what. *)
Definition speaks (v : Venue) (m : Message) : bool :=
  match v, m with
  | BinanceSpot, (BinanceTrade _ _ _ _ _ | BinanceTicker _ _ _ _ _ | BinancePartialDepth _ _ _) => true
  | BinancePerpetual, (BinanceTrade _ _ _ _ _ | BinanceTicker _ _ _ _ _ | BinanceDepthUpdate _ _ _ _) => true
  | GateioSpot, (GateioTicker _ _ _ _ _ | GateioSpotTrade _ _ _ _ _ | GateioSpotBook _ _ _ _) => true
  | GateioPerpetual, (GateioTicker _ _ _ _ _ | GateioPerpetualTrade _ _ _ _ | GateioPerpetualBook _ _ _ _) => true
  | _, _ => false
  end.

Definition kind_of_message (m : Message) : EventType :=
  match m with
  | BinanceTrade _ _ _ _ _ | GateioSpotTrade _ _ _ _ _ | GateioPerpetualTrade _ _ _ _ => ET_TICK
  | BinanceTicker _ _ _ _ _ | GateioTicker _ _ _ _ _ => ET_BOOK_TICKER
  | BinancePartialDepth _ _ _ | BinanceDepthUpdate _ _ _ _ | GateioSpotBook _ _ _ _ | GateioPerpetualBook _ _ _ _ => ET_DEPTH
  end.

(** ** What it stands for; [None]: a text that is no number, or a number out of range *)

Definition natural (z : Z) : option Z := if (0 <=? z) && (z <? 2 ^ 63) then Some z else None.
Definition microseconds (ms : Z) : option Z := if (0 <=? ms) && (ms * 1000 <? 2 ^ 63) then Some (ms * 1000) else None.
Definition quantity (q : Quantity) : option double :=
  match q with QText s => from_chars s | QInt z => if (- 2 ^ 63 <=? z) && (z <? 2 ^ 63) then Some (d_of_Z z) else None end.
Definition positional_level_of (l : PositionalLevel) : option PriceLevel :=
  p ← from_chars (pl_price l); q ← from_chars (pl_qty l); Some (mkLevel p q).
Definition named_level_of (l : NamedLevel) : option PriceLevel :=
  p ← from_chars (nl_price l); q ← quantity (nl_size l); Some (mkLevel p q).
(** The first 100 levels of a side. *)
Definition side_of {A} (level : A -> option PriceLevel) (ls : list A) : option (list PriceLevel) :=
  take kMaxOrderbookLevels <$> mapM level ls.

Definition meaning (v : Venue) (now_us ch : Z) (m : Message) : option Payload :=
  match m with
  | BinanceTrade E a p q m =>
      ts ← match v with BinanceSpot => natural E | _ => microseconds E end;
      id ← natural a; p ← from_chars p; q ← from_chars q; Some (TickPayload (tick_of ts id p q ch m))
  | BinanceTicker E b B a A =>
      ts ← match v with BinanceSpot => natural now_us | _ => microseconds E end;
      bp ← from_chars b; bq ← from_chars B; ap ← from_chars a; aq ← from_chars A;
      Some (BookTickerPayload (ticker_of ch ts bp bq ap aq))
  | BinancePartialDepth id bids asks =>
      ts ← natural now_us; id ← natural id; bs ← side_of positional_level_of bids; az ← side_of positional_level_of asks;
      Some (DepthPayload (book_of id ch ts bs az))
  | BinanceDepthUpdate E u b a =>
      ts ← microseconds E; id ← natural u; bs ← side_of positional_level_of b; az ← side_of positional_level_of a;
      Some (DepthPayload (book_of id ch ts bs az))
  | GateioTicker t b B a A =>
      ts ← microseconds t; bp ← from_chars b; bq ← quantity B; ap ← from_chars a; aq ← quantity A;
      Some (BookTickerPayload (ticker_of ch ts bp bq ap aq))
  | GateioSpotTrade id ms price sell amount =>
      id ← natural id; ms ← from_chars ms; ts ← d_trunc (times_1000 ms) ≫= natural; p ← from_chars price; q ← from_chars amount;
      Some (TickPayload (tick_of ts id p (magnitude q) ch sell))
  | GateioPerpetualTrade id ms price size =>
      id ← natural id; ts ← microseconds ms; p ← from_chars price; q ← quantity size;
      Some (TickPayload (tick_of ts id p (magnitude q) ch (d_lt q dzero)))
  | GateioSpotBook t id bids asks =>
      ts ← microseconds t; id ← natural id; bs ← side_of positional_level_of bids; az ← side_of positional_level_of asks;
      Some (DepthPayload (book_of id ch ts bs az))
  | GateioPerpetualBook t id bids asks =>
      ts ← microseconds t; id ← natural id; bs ← side_of named_level_of bids; az ← side_of named_level_of asks;
      Some (DepthPayload (book_of id ch ts bs az))
  end.

(** The levels of a side. *)
Definition longest_side (m : Message) : nat :=
  match m with
  | BinancePartialDepth _ b a | BinanceDepthUpdate _ _ b a | GateioSpotBook _ _ b a => length b `max` length a
  | GateioPerpetualBook _ _ b a => length b `max` length a
  | _ => 0
  end.

(** ** The reference decoder reads what was meant *)

Lemma read_levels_all {A} (enc : A -> json) level (means : A -> option PriceLevel) ls n xs :
  (forall a x, means a = Some x -> level (enc a) = Some (Some x)) -> mapM means ls = Some xs ->
  read_levels level n (enc <$> ls) = Some (take n xs).
Proof.
  intros Hl. revert n xs. induction ls as [|a ls IH]; intros n xs H; [injection H as <-; by destruct n|].
  apply mapM_Some in H. apply Forall2_cons_inv_l in H as (x & xs' & Hx & Hxs & ->). apply mapM_Some in Hxs.
  rewrite fmap_cons. cbn [read_levels]. destruct n as [|n]; [done|]. by rewrite (Hl a x Hx), (IH n xs' Hxs).
Qed.

Lemma positional_read a x : positional_level_of a = Some x -> plevel (positional_json a) = Some (Some x).
Proof.
  unfold positional_level_of, positional_json. cbn [plevel jstring]. destruct (from_chars (pl_price a)) as [p|]; [|done].
  cbn [mbind option_bind]. destruct (from_chars (pl_qty a)); [|done]. cbn. by intros [= <-].
Qed.

Lemma quantity_read q x : quantity q = Some x -> jquantity (quantity_json q) = Some x.
Proof.
  destruct q as [s|z]; cbn [quantity quantity_json jquantity jint64].
  - unfold SvToDouble. intros H. by rewrite H.
  - by case_match; intros [= <-].
Qed.

Lemma named_read a x : named_level_of a = Some x -> nlevel (named_json a) = Some (Some x).
Proof.
  unfold named_level_of, nlevel. cbn [named_json jfield assoc String.eqb Ascii.eqb Bool.eqb mbind option_bind jstring].
  destruct (from_chars (nl_price a)) as [p|]; [|done]. cbn [mbind option_bind].
  destruct (quantity (nl_size a)) as [q|] eqn:Eq; [|done]. cbn [mbind option_bind]. intros [= <-]. by rewrite (quantity_read _ _ Eq).
Qed.

Lemma side_read_positional ls xs : side_of positional_level_of ls = Some xs -> jlevels kMaxOrderbookLevels (JArr (positional_json <$> ls)) = Some xs.
Proof. unfold side_of. intros (ys & H & ->)%fmap_Some. exact (read_levels_all _ _ _ _ _ _ positional_read H). Qed.
Lemma side_read_named ls xs : side_of named_level_of ls = Some xs -> jnamed (JArr (named_json <$> ls)) = Some xs.
Proof. unfold side_of. intros (ys & H & ->)%fmap_Some. exact (read_levels_all _ _ _ _ _ _ named_read H). Qed.

Lemma natural_read z x : natural z = Some x -> x = z /\ 0 <= z < 2 ^ 63 /\ jint64 (JInt z) = Some z /\ juint64 (JInt z) = Some z /\ u64 z = z.
Proof.
  unfold natural. destruct (_ && _) eqn:E; [|done]. intros [= <-]. apply andb_true_iff in E as [H1%Z.leb_le H2%Z.ltb_lt].
  unfold jint64, juint64. rewrite !(proj2 (Z.leb_le _ _)), !(proj2 (Z.ltb_lt _ _)) by lia. split_and!; [done|lia|lia|done|done|].
  apply wrap_small. unfold in_range. lia.
Qed.

Lemma microseconds_read ms x : microseconds ms = Some x -> jint64 (JInt ms) = Some ms /\ juint64 (JInt ms) = Some ms /\ MsToUs (u64 ms) = x /\ MsToUs ms = x.
Proof.
  unfold microseconds. destruct (_ && _) eqn:E; [|done]. intros [= <-]. apply andb_true_iff in E as [H1%Z.leb_le H2%Z.ltb_lt].
  destruct (natural_read ms ms) as (_ & _ & R1 & R2 & R3).
  { unfold natural. by rewrite (proj2 (Z.leb_le _ _)), (proj2 (Z.ltb_lt _ _)) by lia. }
  rewrite R3. split_and!; try done; unfold MsToUs; apply wrap_small; unfold in_range; lia.
Qed.

(** Read a message apart into its members. *)
Ltac readable :=
  repeat match goal with
  | H : (_ ≫= _) = Some _ |- _ => apply bind_Some in H as (? & ? & H)
  | H : natural _ = Some _ |- _ => apply natural_read in H as (-> & ? & ? & ? & ?)
  | H : microseconds _ = Some _ |- _ => apply microseconds_read in H as (? & ? & ? & ?)
  | H : quantity _ = Some _ |- _ => apply quantity_read in H
  | H : side_of positional_level_of _ = Some _ |- _ => apply side_read_positional in H
  | H : side_of named_level_of _ = Some _ |- _ => apply side_read_named in H
  | H : Some _ = Some _ |- _ => injection H as <-
  end.

Lemma message_kind v m : speaks v m = true -> kind_of v (encode v m) = kind_of_message m.
Proof. by destruct v, m. Qed.

Ltac decode_members :=
  unfold reference, ref_binance_trade, ref_binance_ticker, ref_binance_spot_ticker, ref_binance_spot_depth, ref_binance_depth,
    ref_gateio_ticker, ref_gateio_spot_trade, ref_gateio_perpetual_trade, ref_gateio_spot_depth, ref_gateio_perpetual_depth,
    encode, gateio_envelope, jtext, jdouble;
  repeat first
    [ progress cbn [kind_of_message assoc jfield String.eqb Ascii.eqb Bool.eqb mbind option_bind jstring jbool app fmap option_fmap option_map]
    | match goal with H : ?a = Some _ |- context [?a] => rewrite H end
    | progress change (is_text (list_ascii_of_string ?a) ?b) with (String.eqb a b)
    | progress change (is_book_event (list_ascii_of_string "update")) with true ].

Lemma d_to_u64_trunc undefined_cast x z : d_trunc x = Some z -> 0 <= z < 2 ^ 63 -> d_to_u64 undefined_cast x = z.
Proof. intros H Hz. unfold d_to_u64. by rewrite H, (proj2 (Z.leb_le _ _)), (proj2 (Z.ltb_lt _ _)) by lia. Qed.

Lemma reference_meaning undefined_cast v now_us ch m p :
  speaks v m = true -> meaning v now_us ch m = Some p ->
  reference undefined_cast v now_us ch (encode v m) (kind_of_message m) = Some p.
Proof.
  intros Hs Hm. destruct v, m; try discriminate Hs; unfold meaning in Hm; readable; decode_members; try congruence.
  - unfold put_tick_ts, tick_of. cbn. congruence.
  - change (is_text (list_ascii_of_string "update") "subscribe") with false. rewrite (d_to_u64_trunc _ _ _ ltac:(eassumption)) by done.
    by destruct sell.
Qed.

Lemma positional_side_ok fuel ls : (length ls < fuel)%nat -> side_ok fuel (Some (JArr (positional_json <$> ls))).
Proof.
  intros Hl js [= <-]. rewrite length_fmap. split; [|done]. apply Forall_fmap, Forall_true. done.
Qed.

Lemma encode_ok fuel v m : speaks v m = true -> (longest_side m < fuel)%nat -> message_ok fuel v (kind_of_message m) (encode v m).
Proof.
  intros Hs Hl. destruct v, m; try discriminate Hs; cbn in Hl |- *; try done;
    try (split; apply positional_side_ok; lia).
  - by eexists.
  - by split; eexists; (split; [done|]); rewrite length_fmap; lia.
Qed.

(** C5: The parsers of the four venues decode their messages, with a JSON library that behaves as documented.  (1) Round trip:
    a message that the venue sends and whose texts are numbers in range is recognised as its kind, and [parse] returns
    exactly the event it stands for (prices and quantities as the nearest doubles, times in microseconds, the first 100 levels
    of each side), with more rounds than levels.  (2) On any other object [fs] the event type is the one it names; and when the
    containers have the expected shape (the sides of a book are arrays of fewer levels than rounds, of arrays where levels are
    read by position, and the result of a perpetual trade is an array), [parse] returns what the reference decoder reads:
    no event when a member is missing, has the wrong type or, quantities of Gate.io apart, is not a number; levels whose price (or,
    read by position, quantity) is not a number are left out.  A Gate.io quantity that is a text but not a number
    counts as zero, and only the first trade of a perpetual batch is read. *)
Theorem parsers_decode {L : Simdjson} `{!OnDemand L} (fuel : nat) (undefined_cast : double -> Z) (v : Venue) (now_us ch : Z) (d : JDoc L) :
  let adapter := adapter_of fuel undefined_cast v in
  (forall m p, speaks v m = true -> meaning v now_us ch m = Some p -> (longest_side m < fuel)%nat -> at_ d [FStart (encode v m)] ->
     ad_peek_event_type adapter d = kind_of_message m /\
     exists r, ad_parse adapter now_us d ch (kind_of_message m) = Some r /\ decoded r = Some p) /\
  (forall fs et, at_ d [FStart fs] ->
     ad_peek_event_type adapter d = kind_of v fs /\
     (message_ok fuel v et fs -> exists r, ad_parse adapter now_us d ch et = Some r /\ decoded r = reference undefined_cast v now_us ch fs et)).
Proof.
  split.
  - intros m p Hs Hm Hl Hd. split; [by rewrite <- (message_kind v m Hs); apply venue_peek|].
    destruct (venue_parse fuel undefined_cast v now_us ch (encode v m) (kind_of_message m) d Hd (encode_ok fuel v m Hs Hl)) as (r & Hr & Hdec).
    exists r. split; [done|]. rewrite Hdec. by apply reference_meaning.
  - intros fs et Hd. split; [by apply venue_peek|by apply venue_parse].
Qed.

(** *** Witnesses *)

Definition text (s : string) : list ascii := list_ascii_of_string s.
Definition demo_messages : list (Venue * Message) :=
  [(BinanceSpot, BinanceTrade 1672515782136 12345 (text "0.5") (text "100") true);
   (BinanceSpot, BinancePartialDepth 160 [mkPositional (text "2.5") (text "431") [JArr []]] [mkPositional (text "4") (text "12") []]);
   (GateioSpot, GateioSpotTrade 309143071 (text "1606292218213.5") (text "0.4705") true (text "16.47"));
   (GateioPerpetual, GateioPerpetualBook 1615366379123 93973511 [mkNamed (text "97.1") (QInt 2245)] [mkNamed (text "98.5") (QText (text "2.5"))])].

Lemma parsers_decode_witness :
  Forall (fun vm => exists p r, meaning vm.1 7 9 vm.2 = Some p /\
    ad_parse (adapter_of (L := Dom) 5 (fun _ => 0) vm.1) 7 (JObj (encode vm.1 vm.2)) 9 (kind_of_message vm.2) = Some r /\ decoded r = Some p) demo_messages /\
  exists r, BinanceSpotParse (L := Dom) 5 7 (JObj demo_depth) 9 ET_DEPTH = Some r /\
    decoded r = reference (fun _ => 0) BinanceSpot 7 9 demo_depth ET_DEPTH.
Proof.
  split.
  - repeat constructor; cbn [fst snd]; match goal with |- exists p r, meaning ?v 7 9 ?m = Some p /\ _ =>
      destruct (meaning v 7 9 m) as [p|] eqn:E; [|vm_compute in E; discriminate E];
      destruct (proj1 (parsers_decode (L := Dom) 5 (fun _ => 0) v 7 9 (JObj (encode v m))) m p) as (_ & r & H1 & H2);
      [reflexivity|exact E|cbn; lia|by repeat constructor|exists p, r; split; [reflexivity|split; [exact H1|exact H2]]] end.
  - destruct (proj2 (parsers_decode (L := Dom) 5 (fun _ => 0) BinanceSpot 7 9 (JObj demo_depth)) demo_depth ET_DEPTH) as [_ H];
      [by repeat constructor|]. apply H. split; intros js [= <-]; (split; [by repeat constructor|cbn; lia]).
Defined.

(** A quantity that is no number: the event is built all the same, with quantity zero. *)
Lemma unreadable_quantity_is_zero :
  let ticker := GateioTicker 1615366379123 (text "97.1") (QText (text "junk")) (text "98.5") (QInt 3) in
  let book := GateioPerpetualBook 1615366379123 1 [mkNamed (text "97.1") (QText (text "junk"))] [] in
  (exists r, GateioPerpetualParse (L := Dom) 5 7 (JObj (encode GateioPerpetual ticker)) 9 ET_BOOK_TICKER = Some r /\
     pr_type r = PT_BOOK_TICKER /\ bt_best_bid_qty (pr_book_ticker r) = dzero) /\
  (exists r, GateioPerpetualParse (L := Dom) 5 7 (JObj (encode GateioPerpetual book)) 9 ET_DEPTH = Some r /\
     pr_type r = PT_DEPTH /\ dp_bid_count (pr_depth r) = 1%nat /\ lv_quantity (default level0 (dp_bids (pr_depth r) !! 0%nat)) = dzero).
Proof. split; eexists; (split; [vm_compute; reflexivity|]); vm_compute; repeat split. Qed.

(** Of two trades in a message the second is never seen. *)
Lemma second_trade_ignored :
  let trade id := JObj [("size", JInt 5); ("id", JInt id); ("create_time_ms", JInt 1615366379123); ("price", JStr (text "97.1"))]%string in
  let message ids := JObj (gateio_envelope GateioPerpetual ".trades" (JArr (trade <$> ids))) in
  (exists r, GateioPerpetualParse (L := Dom) 5 7 (message [1; 2]) 9 ET_TICK = Some r /\ pr_type r = PT_TICK /\ tk_trade_id (pr_tick r) = 1) /\
  GateioPerpetualParse (L := Dom) 5 7 (message [1; 2]) 9 ET_TICK = GateioPerpetualParse (L := Dom) 5 7 (message [1]) 9 ET_TICK.
Proof. split; [eexists; split; [vm_compute; reflexivity|by vm_compute]|vm_compute; reflexivity]. Qed.
