(* ===== verification/Channel.v ===== *)
(** * Symbol channels

    [SymbolChannel] (src/exchange/crypto/symbol_channel.cpp) keeps the WebSocket
    connections of one symbol, subscribes on them, reconnects with back-off and
    turns every message into a [RawMessage] for the parser of its shard.
    [WsClient] (src/network/ws_client.cpp) is the connection.  Both run as callbacks
    of one event loop: the asynchronous operations that are under way are a list of
    handlers, and a step of the loop completes one of them with a result that the
    outside world chooses.  A client that has been destroyed is gone from the map of
    clients; a handler that still refers to it makes the state undefined. *)
From S2P Require Import Prelude Doubles Events Exchange SpscQueue ShardQueue Json.

(** ** Addresses *)

(** Source: src/exchange/crypto/symbol_channel.cpp:15-19, ParsedUrl. *)
Record ParsedUrl := mkUrl { pu_host : list ascii; pu_port : list ascii; pu_path : list ascii }.

(** [s.find(c)] *)
Fixpoint find_char (c : ascii) (s : list ascii) : option nat :=
  match s with
  | [] => None
  | x :: s' => if Ascii.eqb x c then Some 0%nat else match find_char c s' with Some n => Some (S n) | None => None end
  end.

(** [s.starts_with(p)] *)
Fixpoint starts_with (p s : list ascii) : bool :=
  match p, s with
  | [], _ => true
  | _, [] => false
  | x :: p', y :: s' => Ascii.eqb x y && starts_with p' s'
  end.

(** Source: src/exchange/crypto/symbol_channel.cpp:21-37, ParseWsUrl.
    [s.substr(i, n)] is [take n (drop i s)]; without a slash the difference wraps to a
    length past the end. *)
Definition ParseWsUrl (ws_url : list ascii) : ParsedUrl :=
  let url := if starts_with (bytes "wss://") ws_url then drop 6 ws_url else ws_url in
  let colon := find_char ":" url in
  let slash := find_char "/" url in
  let path := match slash with Some i => drop i url | None => bytes "/" end in
  match colon, slash with
  | Some c, None => mkUrl (take c url) (drop (c + 1) url) path
  | Some c, Some i =>
      if (c <? i)%nat then mkUrl (take c url) (take (i - c - 1) (drop (c + 1) url)) path
      else mkUrl (take i url) (bytes "443") path
  | None, Some i => mkUrl (take i url) (bytes "443") path
  | None, None => mkUrl url (bytes "443") path
  end.

Lemma find_char_app c a b :
  c ∉ a -> find_char c (a ++ b) = match find_char c b with Some n => Some (length a + n)%nat | None => None end.
Proof.
  induction a as [|x a IH]; cbn [app find_char length]; [by destruct (find_char c b)|].
  intros Hn. apply not_elem_of_cons in Hn as [Hx Ha]. destruct (Ascii.eqb_spec x c); [by subst|]. rewrite IH by done.
  by destruct (find_char c b).
Qed.

(** A secure address without a port: the default port, the path with its slash. *)
Lemma ParseWsUrl_plain host path :
  (":"%char ∉ host) -> ("/"%char ∉ host) ->
  ParseWsUrl (bytes "wss://" ++ host ++ "/"%char :: path) = mkUrl host (bytes "443") ("/"%char :: path).
Proof.
  intros Hc Hs. unfold ParseWsUrl. change (starts_with (bytes "wss://") (bytes "wss://" ++ host ++ "/"%char :: path)) with true.
  cbv iota. change (drop 6 (bytes "wss://" ++ host ++ "/"%char :: path)) with (host ++ "/"%char :: path).
  rewrite !find_char_app by done. cbn [find_char Ascii.eqb Bool.eqb]. rewrite Nat.add_0_r.
  rewrite take_app_length, drop_app_length. destruct (find_char ":" path) as [n|]; [|done].
  destruct (Nat.ltb_spec (length host + S n) (length host)); [lia|done].
Qed.

(** ** Connections and handlers *)

(** Source: src/network/ws_client.h:68-74, WsClient (data members).
    [ws_on_disconnect]: a disconnect handler is installed; [ws_sent]: what was written
    to the connection. *)
Record WsClient := mkWs {
  ws_url : ParsedUrl;
  ws_headers_ : list (string * string);
  ws_open : bool;
  ws_on_disconnect : bool;
  ws_sent : list string
}.

(** The stages of [WsClient::Connect]. *)
Inductive Stage := Resolving | TcpConnecting | SslHandshaking | WsHandshaking.

(** An asynchronous operation that is under way. *)
Inductive Handler :=
| HConnect (c g : nat) (st : Stage)      (* connecting client [c] of group [g] *)
| HRead (c : nat)
| HWrite (c : nat) (msg : string)
| HClose (c : nat)
| HSubscribe (t g i : nat)               (* delayed subscription [i] of group [g], timer [t] *)
| HReconnect (delay : Z).

(** Source: src/exchange/crypto/symbol_channel.h:51-61, SymbolChannel (data members).
    A client is named by its number; timers too. *)
Record SymbolChannel := mkChan {
  groups_ : list SubscriptionGroup;
  ws_clients_ : list (option nat);
  reconnect_attempts_ : Z;
  is_reconnecting_ : bool;
  pending_timers_ : list nat
}.

(** The channel with the event loop it runs on. *)
Record World := mkWorld {
  w_chan : SymbolChannel;
  w_clients : gmap nat WsClient;      (* the clients that exist *)
  w_pending : list Handler;
  w_cancelled : list nat;             (* timers that were cancelled *)
  w_fresh : nat;
  w_shutdown : bool;                  (* SignalHandler::IsShutdownRequested() *)
  w_bad_destroy : nat;                (* clients destroyed while the loop runs *)
  w_undefined : bool;
  w_messages : list (list ascii)      (* what was handed to OnMessage *)
}.

Definition chan0 : SymbolChannel := mkChan [] [] 0 false [].
Definition world0 : World := mkWorld chan0 ∅ [] [] 0 false 0 false [].

Definition with_chan (f : SymbolChannel -> SymbolChannel) (w : World) : World :=
  mkWorld (f (w_chan w)) (w_clients w) (w_pending w) (w_cancelled w) (w_fresh w) (w_shutdown w) (w_bad_destroy w) (w_undefined w) (w_messages w).
Definition with_clients (f : gmap nat WsClient -> gmap nat WsClient) (w : World) : World :=
  mkWorld (w_chan w) (f (w_clients w)) (w_pending w) (w_cancelled w) (w_fresh w) (w_shutdown w) (w_bad_destroy w) (w_undefined w) (w_messages w).
Definition with_pending (f : list Handler -> list Handler) (w : World) : World :=
  mkWorld (w_chan w) (w_clients w) (f (w_pending w)) (w_cancelled w) (w_fresh w) (w_shutdown w) (w_bad_destroy w) (w_undefined w) (w_messages w).
Definition set_undefined (w : World) : World :=
  mkWorld (w_chan w) (w_clients w) (w_pending w) (w_cancelled w) (w_fresh w) (w_shutdown w) (w_bad_destroy w) true (w_messages w).
(** A shutdown signal arrives. *)
Definition signal (w : World) : World :=
  mkWorld (w_chan w) (w_clients w) (w_pending w) (w_cancelled w) (w_fresh w) true (w_bad_destroy w) (w_undefined w) (w_messages w).
Definition deliver (data : list ascii) (w : World) : World :=
  mkWorld (w_chan w) (w_clients w) (w_pending w) (w_cancelled w) (w_fresh w) (w_shutdown w) (w_bad_destroy w) (w_undefined w)
    (w_messages w ++ [data]).
Definition post (h : Handler) : World -> World := with_pending (fun l => l ++ [h]).

Definition set_groups (gs : list SubscriptionGroup) (s : SymbolChannel) : SymbolChannel :=
  mkChan gs (ws_clients_ s) (reconnect_attempts_ s) (is_reconnecting_ s) (pending_timers_ s).
Definition set_ws_clients (cs : list (option nat)) (s : SymbolChannel) : SymbolChannel :=
  mkChan (groups_ s) cs (reconnect_attempts_ s) (is_reconnecting_ s) (pending_timers_ s).
Definition set_attempts (n : Z) (s : SymbolChannel) : SymbolChannel :=
  mkChan (groups_ s) (ws_clients_ s) n (is_reconnecting_ s) (pending_timers_ s).
Definition set_reconnecting (b : bool) (s : SymbolChannel) : SymbolChannel :=
  mkChan (groups_ s) (ws_clients_ s) (reconnect_attempts_ s) b (pending_timers_ s).
Definition set_timers (l : list nat) (s : SymbolChannel) : SymbolChannel :=
  mkChan (groups_ s) (ws_clients_ s) (reconnect_attempts_ s) (is_reconnecting_ s) l.

Definition set_open (b : bool) (c : WsClient) : WsClient := mkWs (ws_url c) (ws_headers_ c) b (ws_on_disconnect c) (ws_sent c).
(** Source: src/network/ws_client.cpp:95-95, WsClient::SetDisconnectHandler. *)
Definition set_handler (b : bool) (c : WsClient) : WsClient := mkWs (ws_url c) (ws_headers_ c) (ws_open c) b (ws_sent c).
Definition add_sent (m : string) (c : WsClient) : WsClient :=
  mkWs (ws_url c) (ws_headers_ c) (ws_open c) (ws_on_disconnect c) (ws_sent c ++ [m]).

(** *** WsClient *)

(** Source: src/network/ws_client.cpp:11-11, WsClient::WsClient. *)
Definition ws_new : WsClient := mkWs (mkUrl [] [] []) [] false false [].

(** Source: src/network/ws_client.cpp:30-30, WsClient::AddHeader. *)
Definition AddHeader (name value : string) (c : WsClient) : WsClient :=
  mkWs (ws_url c) (ws_headers_ c ++ [(name, value)]) (ws_open c) (ws_on_disconnect c) (ws_sent c).

(** Source: src/network/ws_client.cpp:32-40, WsClient::Connect. *)
Definition Connect (c g : nat) (url : ParsedUrl) (w : World) : World :=
  post (HConnect c g Resolving)
    (with_clients (alter (fun x => mkWs url (ws_headers_ x) (ws_open x) false (ws_sent x)) c) w).

(** Source: src/network/ws_client.cpp:13-28, WsClient::~WsClient.
    The loop is running whenever the channel destroys a client; the synchronous close of an open connection leaves
    nothing behind in the model, where the client is gone. *)
Definition ws_destroy (c : nat) (w : World) : World :=
  mkWorld (w_chan w) (delete c (w_clients w)) (w_pending w) (w_cancelled w) (w_fresh w) (w_shutdown w)
    (S (w_bad_destroy w)) (w_undefined w) (w_messages w).

(** Source: src/network/ws_client.cpp:115-126, WsClient::Write. *)
Definition ws_write (c : nat) (msg : string) : World -> World := post (HWrite c msg).

(** Source: src/network/ws_client.cpp:128-137, WsClient::Close. *)
Definition ws_close (c : nat) (w : World) : World :=
  match w_clients w !! c with
  | Some x => if ws_open x then post (HClose c) (with_clients (<[c := set_open false x]>) w) else w
  | None => set_undefined w
  end.

(** *** SymbolChannel *)

Section channel.
Context {L : Simdjson} (adapter_ : ExchangeAdapter L) (symbol_ : string) (depth_level_ : Z).

(** The destructor of a [unique_ptr] to a client. *)
Definition destroy_client (c : option nat) (w : World) : World := match c with Some c => ws_destroy c w | None => w end.

(** A new client for group [g], replacing the old one. *)
Definition open_group (g : nat) (group : SubscriptionGroup) (w : World) : World :=
  let c := w_fresh w in
  let w := mkWorld (w_chan w) (<[c := ws_new]> (w_clients w)) (w_pending w) (w_cancelled w) (S c) (w_shutdown w)
             (w_bad_destroy w) (w_undefined w) (w_messages w) in
  let old := ws_clients_ (w_chan w) !! g in
  let w := with_chan (fun s => set_ws_clients (<[g := Some c]> (ws_clients_ s)) s) w in
  let w := match old with Some o => destroy_client o w | None => w end in
  let w := with_clients (alter (fun x => foldl (fun x h => AddHeader h.1 h.2 x) x (ad_ws_headers adapter_)) c) w in
  Connect c g (ParseWsUrl (bytes (sg_ws_url group))) w.

Fixpoint open_groups (g : nat) (gs : list SubscriptionGroup) (w : World) : World :=
  match gs with
  | [] => w
  | group :: gs' => open_groups (S g) gs' (open_group g group w)
  end.

(** [ws_clients_.resize(n)]: clients past the new end are destroyed. *)
Definition resize_clients (n : nat) (w : World) : World :=
  let l := ws_clients_ (w_chan w) in
  let w := with_chan (set_ws_clients (take n l ++ replicate (n - length l) None)) w in
  foldl (fun w c => destroy_client c w) w (drop n l).

(** Source: src/exchange/crypto/symbol_channel.cpp:53-87, SymbolChannel::Start.
    [now_sec] is the clock that building the subscriptions reads. *)
Definition Start (now_sec : Z) (w : World) : World :=
  let gs := ad_build_subscribes adapter_ now_sec symbol_ depth_level_ in
  let w := with_chan (set_groups gs) w in
  match gs with
  | [] => w
  | _ => open_groups 0 gs (resize_clients (length gs) w)
  end.

(** Source: src/exchange/crypto/symbol_channel.h:57-57, kMaxReconnectDelaySec. *)
Definition kMaxReconnectDelaySec : Z := 60.

(** The delay before attempt number [attempts]. *)
Definition reconnect_delay (attempts : Z) : Z := Z.min (Z.shiftl 1 (Z.min attempts 6)) kMaxReconnectDelaySec.

(** Source: src/exchange/crypto/symbol_channel.cpp:115-131, SymbolChannel::ScheduleReconnect. *)
Definition ScheduleReconnect (w : World) : World :=
  let n := reconnect_attempts_ (w_chan w) in
  post (HReconnect (reconnect_delay n)) (with_chan (fun s => set_attempts (u32 (n + 1)) (set_reconnecting true s)) w).

(** [for(auto& t : pending_timers_) t->cancel(); pending_timers_.clear();] and closing every client. *)
Definition cancel_timers (w : World) : World :=
  mkWorld (set_timers [] (w_chan w)) (w_clients w) (w_pending w) (w_cancelled w ++ pending_timers_ (w_chan w)) (w_fresh w)
    (w_shutdown w) (w_bad_destroy w) (w_undefined w) (w_messages w).
Definition close_clients (w : World) : World :=
  foldl (fun w c => match c with Some c => ws_close c w | None => w end) w (ws_clients_ (w_chan w)).

(** Source: src/exchange/crypto/symbol_channel.cpp:89-97, SymbolChannel::Stop. *)
Definition Stop (w : World) : World := close_clients (cancel_timers w).

(** Source: src/exchange/crypto/symbol_channel.cpp:99-113, SymbolChannel::OnDisconnect. *)
Definition OnDisconnect (w : World) : World :=
  if is_reconnecting_ (w_chan w) then w
  else if w_shutdown w then w
  else ScheduleReconnect (close_clients (cancel_timers w)).

(** One subscription message: written now, or by a timer. *)
Definition send_subscription (g i : nat) (msg : SubscriptionMessage) (w : World) : World :=
  if sm_delay_ms msg =? 0 then
    match ws_clients_ (w_chan w) !! g with
    | Some (Some c) => ws_write c (sm_payload msg) w
    | _ => set_undefined w
    end
  else
    let t := w_fresh w in
    let w := mkWorld (set_timers (pending_timers_ (w_chan w) ++ [t]) (w_chan w)) (w_clients w) (w_pending w) (w_cancelled w) (S t)
               (w_shutdown w) (w_bad_destroy w) (w_undefined w) (w_messages w) in
    post (HSubscribe t g i) w.

Fixpoint send_subscriptions (g i : nat) (msgs : list SubscriptionMessage) (w : World) : World :=
  match msgs with
  | [] => w
  | m :: msgs' => send_subscriptions g (S i) msgs' (send_subscription g i m w)
  end.

(** Source: src/exchange/crypto/symbol_channel.cpp:133-152, SymbolChannel::SendGroupSubscriptions. *)
Definition SendGroupSubscriptions (g : nat) (w : World) : World :=
  match groups_ (w_chan w) !! g with
  | None => w
  | Some group => send_subscriptions g 0 (sg_messages group) w
  end.

(** The connect handler that [Start] installs. *)
Definition on_connect (g : nat) (success : bool) (w : World) : World :=
  if success then
    let w := with_chan (set_attempts 0) w in
    match ws_clients_ (w_chan w) !! g with
    | Some (Some c) =>
        let w := with_clients (alter (set_handler true) c) w in
        post (HRead c) (SendGroupSubscriptions g w)
    | _ => set_undefined w
    end
  else if is_reconnecting_ (w_chan w) then w else ScheduleReconnect w.

(** Source: src/network/ws_client.cpp:42-93, WsClient::OnResolve.
    One completed stage (also [OnSslHandshake] and [OnHandshake]): an error ends the attempt, success starts
    the next stage. *)
Definition on_stage (c g : nat) (st : Stage) (ok : bool) (w : World) : World :=
  if negb ok then on_connect g false w
  else match st with
       | Resolving => post (HConnect c g TcpConnecting) w
       | TcpConnecting => post (HConnect c g SslHandshaking) w
       | SslHandshaking => post (HConnect c g WsHandshaking) w
       | WsHandshaking => on_connect g true (with_clients (alter (set_open true) c) w)
       end.

(** Source: src/network/ws_client.cpp:97-113, WsClient::StartRead.
    One completed read; the data of a good one goes to [OnMessage]. *)
Definition on_read (c : nat) (data : option (list ascii)) (w : World) : World :=
  match w_clients w !! c with
  | None => set_undefined w
  | Some x =>
      match data with
      | None =>
          let w := with_clients (<[c := set_open false x]>) w in
          if ws_on_disconnect x then OnDisconnect w else w
      | Some data => let w := deliver data w in if ws_open x then post (HRead c) w else w
      end
  end.

(** The outcome of a handler: an error code, or success with the data read. *)
Inductive Completion := Failed | Done (data : list ascii).

Definition succeeded (r : Completion) : bool := match r with Failed => false | Done _ => true end.

(** A handler runs; [now_sec] is the clock a restart reads.  A handler whose client was destroyed uses a dangling [this], which is
    undefined behaviour in C++: the model raises the flag [w_undefined], which stays up, and goes on with no other effect.  A
    statement about a run with the flag up is one about this continuation only. *)
Definition run_handler (now_sec : Z) (h : Handler) (r : Completion) (w : World) : World :=
  match h with
  | HConnect c g st =>
      match w_clients w !! c with None => set_undefined w | Some _ => on_stage c g st (succeeded r) w end
  | HRead c => on_read c (match r with Done data => Some data | Failed => None end) w
  | HWrite c msg =>
      match w_clients w !! c with
      | None => set_undefined w
      | Some x => if succeeded r then with_clients (<[c := add_sent msg x]>) w else w
      end
  | HClose c => match w_clients w !! c with None => set_undefined w | Some _ => w end
  | HSubscribe t g i =>
      if negb (succeeded r) || w_shutdown w then w
      else match groups_ (w_chan w) !! g ≫= (fun gr => sg_messages gr !! i), ws_clients_ (w_chan w) !! g with
           | Some m, Some (Some c) => ws_write c (sm_payload m) w
           | _, _ => set_undefined w
           end
  | HReconnect _ =>
      if w_shutdown w then w else Start now_sec (with_chan (set_reconnecting false) w)
  end.

(** What may happen to a handler: a delayed subscription is only aborted when its timer was cancelled (and a
    cancelled timer that had already expired still succeeds); everything else may fail or succeed. *)
Definition may_complete (w : World) (h : Handler) (r : Completion) : bool :=
  match h with
  | HSubscribe t _ _ => succeeded r || bool_decide (t ∈ w_cancelled w)
  | _ => true
  end.

(** The loop completes any handler that is under way; a signal may arrive, and the main thread, once its
    wait for the signal succeeded, stops the channel. *)
Inductive step : World -> World -> Prop :=
| step_handler w pre h post now_sec r :
    w_pending w = pre ++ h :: post -> may_complete w h r = true ->
    step w (run_handler now_sec h r (with_pending (fun _ => pre ++ post) w))
| step_signal w :
    step w (signal w)
| step_stop w : w_shutdown w = true -> step w (Stop w).
End channel.
