(* ===== verification/Reconnect.v ===== *)
(** * The channel state machine under every interleaving

    The steps of Channel in any order: connections fail at any stage, reads end, the
    shutdown signal arrives at any time.  The invariant says that a channel never
    stalls: until shutdown it either has exactly one reconnect timer, or every one
    of its groups has a connection attempt or a read under way. *)
From S2P Require Import Prelude Doubles Events Exchange SpscQueue ShardQueue Json OnDemand Binance Channel.

#[export] Instance Stage_eq_dec : EqDecision Stage.
Proof. solve_decision. Defined.
#[export] Instance Handler_eq_dec : EqDecision Handler.
Proof. solve_decision. Defined.

(** ** The invariant *)

(** The handlers that matter to it. *)
Definition active (h : Handler) : bool := match h with HConnect _ _ _ | HRead _ | HReconnect _ => true | _ => false end.
Definition is_reconnect (h : Handler) : bool := match h with HReconnect _ => true | _ => false end.

Definition keep (p : Handler -> bool) (l : list Handler) : list Handler := filter (fun h => p h = true) l.
Definition live (w : World) : list Handler := keep active (w_pending w).
Definition reconnects (w : World) : nat := length (keep is_reconnect (w_pending w)).

Definition reconnecting (w : World) : bool := is_reconnecting_ (w_chan w).
Definition current (w : World) (g : nat) : option (option nat) := ws_clients_ (w_chan w) !! g.

(** Group [g] has a client with a connection attempt under way, or an open one with a read under way whose
    failure is reported to the channel. *)
Definition listening (w : World) (g : nat) : Prop :=
  exists c x, current w g = Some (Some c) /\ w_clients w !! c = Some x /\
    ((exists st, HConnect c g st ∈ w_pending w) \/
     (HRead c ∈ w_pending w /\ ws_open x = true /\ ws_on_disconnect x = true)).

(** One reconnect timer, exactly while the channel says it is reconnecting. *)
Record timers_ok (w : World) : Prop := {
  to_count : (reconnects w <= 1)%nat;
  to_flag : reconnects w = 1%nat -> reconnecting w = true;
  to_armed : w_shutdown w = false -> reconnecting w = true -> reconnects w = 1%nat;
  to_delay : forall d, HReconnect d ∈ w_pending w -> 1 <= d <= kMaxReconnectDelaySec;
  to_attempts : in_range 32 (reconnect_attempts_ (w_chan w))
}.

(** Clients are numbered, and a connection attempt of a live client belongs to the current client of its group. *)
Record ids_ok (w : World) : Prop := {
  io_fresh : forall g c, current w g = Some (Some c) -> (c < w_fresh w)%nat;
  io_handlers : forall c g st, HConnect c g st ∈ w_pending w -> (c < w_fresh w)%nat;
  io_current : forall c g st, HConnect c g st ∈ w_pending w -> is_Some (w_clients w !! c) -> current w g = Some (Some c)
}.

Definition listen_ok (w : World) : Prop :=
  w_shutdown w = false -> reconnecting w = false -> forall g, (g < length (groups_ (w_chan w)))%nat -> listening w g.

Record channel_inv (w : World) : Prop := { ci_timers : timers_ok w; ci_ids : ids_ok w; ci_listen : listen_ok w }.

(** ** Frames: what the quiet operations leave alone *)

Record frame (w w' : World) : Prop := {
  fr_clients : ws_clients_ (w_chan w') = ws_clients_ (w_chan w);
  fr_groups : groups_ (w_chan w') = groups_ (w_chan w);
  fr_flag : reconnecting w' = reconnecting w;
  fr_attempts : reconnect_attempts_ (w_chan w') = reconnect_attempts_ (w_chan w);
  fr_shutdown : w_shutdown w' = w_shutdown w;
  fr_fresh : (w_fresh w <= w_fresh w')%nat;
  fr_live : live w' = live w;
  fr_dom : forall c, is_Some (w_clients w' !! c) <-> is_Some (w_clients w !! c)
}.

(** ... and the flags of the clients too. *)
Definition flags_kept (w w' : World) : Prop :=
  forall c x, w_clients w !! c = Some x ->
  exists x', w_clients w' !! c = Some x' /\ ws_open x' = ws_open x /\ ws_on_disconnect x' = ws_on_disconnect x.

#[export] Instance frame_preorder : PreOrder frame.
Proof.
  split; [by split|]. intros w1 w2 w3 [] []. split; try congruence; [lia|]. intros c. by rewrite fr_dom1.
Qed.
#[export] Instance flags_kept_preorder : PreOrder flags_kept.
Proof.
  split; [intros w c x H; by exists x|]. intros w1 w2 w3 H12 H23 c x H.
  destruct (H12 _ _ H) as (x2 & H2 & Ha & Hb). destruct (H23 _ _ H2) as (x3 & H3 & Hc & Hd). exists x3. split; [done|]. by rewrite Hc, Hd.
Qed.

Lemma elem_of_keep p h l : p h = true -> h ∈ keep p l <-> h ∈ l.
Proof. intros Hp. unfold keep. rewrite list_elem_of_filter. split; [by intros []|done]. Qed.

Lemma keep_app p l1 l2 : keep p (l1 ++ l2) = keep p l1 ++ keep p l2.
Proof. apply filter_app. Qed.

Lemma reconnects_live w : reconnects w = length (keep is_reconnect (live w)).
Proof.
  unfold reconnects, live, keep. f_equal. induction (w_pending w) as [|h l IH]; [done|].
  rewrite !filter_cons. destruct h; cbn [active is_reconnect]; repeat (case_decide; try done); rewrite ?filter_cons; cbn; by rewrite ?IH.
Qed.

Lemma live_eq w w' h : live w' = live w -> active h = true -> h ∈ w_pending w' <-> h ∈ w_pending w.
Proof.
  intros He Ha. rewrite <- (elem_of_keep active h (w_pending w') Ha), <- (elem_of_keep active h (w_pending w) Ha).
  fold (live w') (live w). by rewrite He.
Qed.

Lemma frame_timers w w' : frame w w' -> timers_ok w -> timers_ok w'.
Proof.
  intros [] [T1 T2 T3 T4 T5].
  assert (Hn : reconnects w' = reconnects w) by (by rewrite !reconnects_live, fr_live0).
  split; rewrite ?Hn, ?fr_shutdown0, ?fr_flag0, ?fr_attempts0; try done. intros d Hd. apply T4. by rewrite <- (live_eq w w').
Qed.

Lemma frame_ids w w' : frame w w' -> ids_ok w -> ids_ok w'.
Proof.
  intros [] [I1 I2 I3]. unfold current in *. split; unfold current; rewrite ?fr_clients0.
  - intros g c Hc. specialize (I1 _ _ Hc). lia.
  - intros c g st Hin. rewrite (live_eq w w') in Hin by done. specialize (I2 _ _ _ Hin). lia.
  - intros c g st Hin. rewrite (live_eq w w') in Hin by done. rewrite fr_dom0. by apply (I3 _ _ st).
Qed.

Lemma frame_listening w w' g : frame w w' -> flags_kept w w' -> listening w g -> listening w' g.
Proof.
  intros [] Hf (c & x & Hc & Hx & Hl). destruct (Hf _ _ Hx) as (x' & Hx' & Ho & Hd). exists c, x'. unfold current in *.
  rewrite fr_clients0. split; [done|]. split; [done|]. destruct Hl as [[st Hin]|(Hin & Hop & Hdi)]; [left; exists st|right; rewrite Ho, Hd; split; [|done]];
    by rewrite (live_eq w w').
Qed.

Lemma frame_inv w w' : frame w w' -> flags_kept w w' -> channel_inv w -> channel_inv w'.
Proof.
  intros Hf Hk [Ht Hi Hl]. split; [by eapply frame_timers|by eapply frame_ids|].
  destruct Hf. unfold listen_ok. rewrite fr_shutdown0, fr_flag0, fr_groups0. intros Hs Hr g Hg. eapply frame_listening; [by split|done|auto].
Qed.

(** The listening part is not needed once the channel is reconnecting or shutting down. *)
Lemma frame_inv_idle w w' :
  frame w w' -> timers_ok w -> ids_ok w -> (w_shutdown w = true \/ reconnecting w = true) -> channel_inv w'.
Proof.
  intros Hf Ht Hi Hor. split; [by eapply frame_timers|by eapply frame_ids|].
  destruct Hf. unfold listen_ok. rewrite fr_shutdown0, fr_flag0. destruct Hor; congruence.
Qed.

(** ** The quiet operations *)

Lemma frame_pending w f : keep active (f (w_pending w)) = live w -> frame w (with_pending f w).
Proof. intros H. by split. Qed.

Lemma frame_post w h : active h = false -> frame w (post h w).
Proof.
  intros Ha. apply frame_pending. unfold keep. rewrite filter_app, filter_cons, Ha. case_decide; [done|]. by rewrite filter_nil, app_nil_r.
Qed.
Lemma flags_post w h : flags_kept w (post h w).
Proof. intros c x H. by exists x. Qed.

Lemma frame_clients w f :
  (forall c, is_Some (f (w_clients w) !! c) <-> is_Some (w_clients w !! c)) -> frame w (with_clients f w).
Proof. intros H. by split. Qed.

Lemma alter_dom (f : WsClient -> WsClient) (m : gmap nat WsClient) c k : is_Some (alter f c m !! k) <-> is_Some (m !! k).
Proof. destruct (decide (c = k)) as [->|]; [rewrite lookup_alter_eq; apply fmap_is_Some|by rewrite lookup_alter_ne]. Qed.

Lemma insert_dom (x : WsClient) (m : gmap nat WsClient) c k : is_Some (m !! c) -> is_Some (<[c := x]> m !! k) <-> is_Some (m !! k).
Proof. intros H. destruct (decide (c = k)) as [->|]; [by rewrite lookup_insert_eq|by rewrite lookup_insert_ne]. Qed.

(** Writing to a client changes neither of its flags. *)
Lemma flags_insert w c x x' :
  w_clients w !! c = Some x -> ws_open x' = ws_open x -> ws_on_disconnect x' = ws_on_disconnect x ->
  flags_kept w (with_clients (<[c := x']>) w).
Proof.
  intros H Ho Hd k y Hk. cbn. destruct (decide (c = k)) as [->|]; [|exists y; by rewrite lookup_insert_ne].
  exists x'. rewrite lookup_insert_eq. by simplify_eq.
Qed.

Lemma frame_write w c m : frame w (ws_write c m w) /\ flags_kept w (ws_write c m w).
Proof. split; [by apply frame_post|apply flags_post]. Qed.

Lemma frame_undefined w : frame w (set_undefined w) /\ flags_kept w (set_undefined w).
Proof. split; [by split|]. intros c x H. by exists x. Qed.

Lemma frame_close w c : frame w (ws_close c w).
Proof.
  unfold ws_close. destruct (w_clients w !! c) as [x|] eqn:E; [|apply frame_undefined]. destruct (ws_open x); [|done].
  etrans; [|by apply frame_post]. apply frame_clients. intros k. by apply insert_dom.
Qed.

Lemma frame_close_all l w : frame w (foldl (fun w c => match c with Some c => ws_close c w | None => w end) w l).
Proof.
  revert w. induction l as [|[c|] l IH]; intros w; cbn [foldl]; [done| |apply IH]. etrans; [apply frame_close|apply IH].
Qed.

Lemma frame_cancel w : frame w (cancel_timers w).
Proof. by split. Qed.

Lemma frame_close_clients w : frame w (close_clients w).
Proof. apply frame_close_all. Qed.

Lemma frame_send_one g i m w : frame w (send_subscription g i m w) /\ flags_kept w (send_subscription g i m w).
Proof.
  unfold send_subscription. destruct (sm_delay_ms m =? 0).
  - destruct (ws_clients_ (w_chan w) !! g) as [[c|]|]; [apply frame_write|apply frame_undefined..].
  - split; [|intros c x H; by exists x]. etrans; [|by apply frame_post]. split; try done. cbn. lia.
Qed.

Lemma frame_send_all g i ms w : frame w (send_subscriptions g i ms w) /\ flags_kept w (send_subscriptions g i ms w).
Proof.
  revert i w. induction ms as [|m ms IH]; intros i w; cbn [send_subscriptions]; [done|].
  destruct (frame_send_one g i m w) as [H1 H2]. destruct (IH (S i) (send_subscription g i m w)) as [H3 H4].
  split; (etrans; [|eassumption]); done.
Qed.

Lemma frame_subscriptions g w : frame w (SendGroupSubscriptions g w) /\ flags_kept w (SendGroupSubscriptions g w).
Proof. unfold SendGroupSubscriptions. destruct (groups_ (w_chan w) !! g); [apply frame_send_all|done]. Qed.

(** ** Reconnecting *)

Lemma reconnect_delay_bounds n : 0 <= n -> 1 <= reconnect_delay n <= kMaxReconnectDelaySec.
Proof.
  intros Hn. unfold reconnect_delay, kMaxReconnectDelaySec. rewrite Z.shiftl_1_l.
  assert (1 <= 2 ^ Z.min n 6) by (change 1 with (2 ^ 0); apply Z.pow_le_mono_r; lia). lia.
Qed.

(** The delays: 1, 2, 4, 8, 16, 32 seconds, then 60. *)
Lemma reconnect_delay_doubles n : 0 <= n < 5 -> reconnect_delay (n + 1) = 2 * reconnect_delay n.
Proof. intros Hn. assert (n = 0 \/ n = 1 \/ n = 2 \/ n = 3 \/ n = 4) as [->|[->|[->|[->| ->]]]] by lia; done. Qed.
Lemma reconnect_delay_capped n : 6 <= n -> reconnect_delay n = kMaxReconnectDelaySec.
Proof. intros Hn. unfold reconnect_delay. by rewrite (Z.min_r n 6) by lia. Qed.

Lemma schedule_inv w : timers_ok w -> ids_ok w -> reconnecting w = false -> channel_inv (ScheduleReconnect w).
Proof.
  intros [T1 T2 T3 T4 T5] [I1 I2 I3] Hr.
  assert (H0 : reconnects w = 0%nat). { destruct (reconnects w) as [|[|n]] eqn:E; [done| |lia]. by rewrite T2 in Hr. }
  assert (H1 : reconnects (ScheduleReconnect w) = 1%nat).
  { unfold reconnects, ScheduleReconnect, post, with_pending. cbn [w_pending]. rewrite keep_app, length_app.
    change (length (keep is_reconnect (w_pending (with_chan _ w)))) with (reconnects w). by rewrite H0. }
  split; [split|split|].
  - lia.
  - done.
  - done.
  - intros d Hd. cbn in Hd. apply elem_of_app in Hd as [Hd|Hd]; [auto|]. apply list_elem_of_singleton in Hd as [= ->].
    apply reconnect_delay_bounds. apply T5.
  - cbn. apply wrap_range. lia.
  - done.
  - intros c g st Hin. apply (I2 c g st). cbn in Hin. apply elem_of_app in Hin as [Hin|Hin]; [done|]. by apply list_elem_of_singleton in Hin.
  - intros c g st Hin. apply (I3 c g st). cbn in Hin. apply elem_of_app in Hin as [Hin|Hin]; [done|]. by apply list_elem_of_singleton in Hin.
  - done.
Qed.

Lemma OnDisconnect_inv w : timers_ok w -> ids_ok w -> channel_inv (OnDisconnect w).
Proof.
  intros Ht Hi. unfold OnDisconnect. fold (reconnecting w). destruct (reconnecting w) eqn:Er; [apply (frame_inv_idle w); auto; reflexivity|].
  destruct (w_shutdown w) eqn:Es; [apply (frame_inv_idle w); auto; reflexivity|].
  assert (Hf : frame w (close_clients (cancel_timers w))) by (etrans; [apply frame_cancel|apply frame_close_clients]).
  apply schedule_inv; [by eapply frame_timers|by eapply frame_ids|]. by rewrite (fr_flag _ _ Hf).
Qed.

(** ** Starting *)

Section start.
Context {L : Simdjson} (adapter_ : ExchangeAdapter L) (symbol_ : string) (depth_level_ : Z).

(** What starting does not touch. *)
Record start_frame (w w' : World) : Prop := {
  sf_groups : groups_ (w_chan w') = groups_ (w_chan w);
  sf_flag : reconnecting w' = reconnecting w;
  sf_attempts : reconnect_attempts_ (w_chan w') = reconnect_attempts_ (w_chan w);
  sf_shutdown : w_shutdown w' = w_shutdown w;
  sf_fresh : (w_fresh w <= w_fresh w')%nat;
  sf_reconnects : keep is_reconnect (w_pending w') = keep is_reconnect (w_pending w);
  sf_bad : (w_bad_destroy w <= w_bad_destroy w')%nat
}.
#[local] Instance start_frame_preorder : PreOrder start_frame.
Proof. split; [by split|]. intros w1 w2 w3 [] []. split; (congruence || lia). Qed.

Lemma start_frame_timers w w' : start_frame w w' -> timers_ok w -> timers_ok w'.
Proof.
  intros [] [T1 T2 T3 T4 T5]. assert (Hn : reconnects w' = reconnects w) by (unfold reconnects; by rewrite sf_reconnects0).
  split; rewrite ?Hn, ?sf_shutdown0, ?sf_flag0, ?sf_attempts0; try done. intros d Hd. apply T4.
  rewrite <- (elem_of_keep is_reconnect) in Hd |- * by done. by rewrite <- sf_reconnects0.
Qed.

(** Destroying clients that are no longer current keeps the numbering right. *)
Lemma destroy_ids c w : ids_ok w -> ids_ok (destroy_client c w).
Proof.
  intros [I1 I2 I3]. destruct c as [c|]; [|done]. split; [done|done|]. intros c' g st Hin Hs. apply (I3 c' g st Hin).
  cbn in Hs. destruct (decide (c = c')) as [->|]; [rewrite lookup_delete_eq in Hs; by destruct Hs|by rewrite lookup_delete_ne in Hs].
Qed.
Lemma destroy_frame c w : start_frame w (destroy_client c w).
Proof. destruct c; split; cbn; (done || lia). Qed.

Lemma destroy_all_frame l w : start_frame w (foldl (fun w c => destroy_client c w) w l).
Proof. revert w. induction l as [|c l IH]; intros w; [done|]. cbn. etrans; [apply destroy_frame|apply IH]. Qed.

Lemma destroy_all_clients l w :
  ws_clients_ (w_chan (foldl (fun w c => destroy_client c w) w l)) = ws_clients_ (w_chan w) /\
  w_pending (foldl (fun w c => destroy_client c w) w l) = w_pending w /\
  w_fresh (foldl (fun w c => destroy_client c w) w l) = w_fresh w.
Proof. revert w. induction l as [|[c|] l IH]; intros w; cbn [foldl destroy_client]; [done|apply (IH (ws_destroy c w))|apply IH]. Qed.

Lemma destroy_all_gone l w k :
  is_Some (w_clients (foldl (fun w c => destroy_client c w) w l) !! k) -> is_Some (w_clients w !! k) /\ Some k ∉ l.
Proof.
  revert w. induction l as [|[c|] l IH]; intros w; cbn [foldl destroy_client]; [by rewrite elem_of_nil; auto|..]; intros H; apply IH in H as [H1 H2].
  - cbn in H1. destruct (decide (c = k)) as [->|]; [rewrite lookup_delete_eq in H1; by destruct H1|].
    rewrite lookup_delete_ne in H1 by done. split; [done|]. apply not_elem_of_cons. split; [congruence|done].
  - split; [done|]. by apply not_elem_of_cons.
Qed.

Lemma lookup_resized {A} (l : list (option A)) n k c :
  (take n l ++ replicate (n - length l) None) !! k = Some (Some c) -> l !! k = Some (Some c).
Proof.
  intros H. apply lookup_app_Some in H as [H|[_ H]]; [|by apply lookup_replicate in H as [H _]].
  by apply lookup_take_Some in H as [H _].
Qed.

Lemma resize_ids n w : ids_ok w -> ids_ok (resize_clients n w) /\ start_frame w (resize_clients n w).
Proof.
  intros [I1 I2 I3]. unfold resize_clients. cbv zeta.
  set (l := ws_clients_ (w_chan w)). set (w1 := with_chan _ w).
  destruct (destroy_all_clients (drop n l) w1) as (E1 & E2 & E3).
  split; [|etrans; [|apply destroy_all_frame]; by split].
  split; unfold current; rewrite ?E1, ?E2, ?E3.
  - intros g c Hc. cbn in Hc. apply lookup_resized in Hc. by apply (I1 g).
  - apply I2.
  - intros c g st Hin Hs. apply destroy_all_gone in Hs as [Hs Hn]. specialize (I3 _ _ _ Hin Hs). unfold current in I3. fold l in I3. cbn.
    destruct (decide (g < n)%nat) as [Hlt|Hge].
    + rewrite lookup_app_l; [by rewrite lookup_take_lt|]. apply lookup_lt_Some in I3. rewrite length_take. lia.
    + exfalso. apply Hn. apply list_elem_of_lookup. exists (g - n)%nat. rewrite lookup_drop. by replace (n + (g - n))%nat with g by lia.
Qed.

Lemma resize_length n w : length (ws_clients_ (w_chan (resize_clients n w))) = n.
Proof.
  unfold resize_clients. cbv zeta. destruct (destroy_all_clients (drop n (ws_clients_ (w_chan w)))
    (with_chan (set_ws_clients (take n (ws_clients_ (w_chan w)) ++ replicate (n - length (ws_clients_ (w_chan w))) None)) w)) as (-> & _).
  cbn. rewrite length_app, length_take, length_replicate. lia.
Qed.

(** Group [g] is being connected by a client numbered [f] or more. *)
Definition connecting (f : nat) (w : World) (g : nat) : Prop :=
  exists c, current w g = Some (Some c) /\ is_Some (w_clients w !! c) /\ (f <= c)%nat /\ exists st, HConnect c g st ∈ w_pending w.

(** What one round of the loop of [Start] does to the channel. *)
Lemma open_group_effect g group w old :
  current w g = Some old ->
  let w' := open_group adapter_ g group w in
  w_pending w' = w_pending w ++ [HConnect (w_fresh w) g Resolving] /\
  ws_clients_ (w_chan w') = <[g := Some (w_fresh w)]> (ws_clients_ (w_chan w)) /\
  w_fresh w' = S (w_fresh w) /\ start_frame w w' /\
  (old <> None -> (w_bad_destroy w < w_bad_destroy w')%nat) /\
  (forall k, is_Some (w_clients w' !! k) <-> old <> Some k /\ (k = w_fresh w \/ is_Some (w_clients w !! k))).
Proof.
  unfold current. intros Hold. cbv zeta. unfold open_group. cbv zeta. cbn [w_chan]. rewrite Hold.
  destruct old as [o|]; (split_and!; [done|done|done| | |]).
  1,4: split; cbn -[keep]; try (done || lia); rewrite keep_app; apply app_nil_r.
  1,3: intros; cbn; (done || lia).
  all: intros k; unfold Connect, post, with_pending; cbn [w_clients with_clients]; rewrite !alter_dom; cbn.
  - destruct (decide (o = k)) as [->|Hne]; [rewrite lookup_delete_eq; split; [by intros []|by intros [[]]]|].
    rewrite lookup_delete_ne by done. destruct (decide (w_fresh w = k)) as [->|]; [rewrite lookup_insert_eq; naive_solver|].
    rewrite lookup_insert_ne by done. naive_solver.
  - destruct (decide (w_fresh w = k)) as [->|]; [rewrite lookup_insert_eq; naive_solver|]. rewrite lookup_insert_ne by done. naive_solver.
Qed.

(** The loop is at group [g]: clients at [g] and beyond are older than [f], those before are being connected. *)
Record start_inv (f g : nat) (w : World) : Prop := {
  si_ids : ids_ok w;
  si_fresh : (f <= w_fresh w)%nat;
  si_old : forall k c, (g <= k)%nat -> current w k = Some (Some c) -> (c < f)%nat;
  si_new : forall k, (k < g)%nat -> connecting f w k
}.

Lemma open_group_inv f g group w :
  start_inv f g w -> (g < length (ws_clients_ (w_chan w)))%nat -> start_inv f (S g) (open_group adapter_ g group w).
Proof.
  intros [[I1 I2 I3] Hf Hold Hnew] Hg. destruct (lookup_lt_is_Some_2 _ _ Hg) as [old Eold].
  destruct (open_group_effect g group w old Eold) as (Hp & Hw & Hfr & _ & _ & Hm). unfold current in *.
  assert (Hother : forall k, k <> g -> current (open_group adapter_ g group w) k = current w k)
    by (intros k Hk; unfold current; by rewrite Hw, list_lookup_insert_ne).
  assert (Hself : current (open_group adapter_ g group w) g = Some (Some (w_fresh w)))
    by (unfold current; by rewrite Hw, list_lookup_insert_eq).
  assert (Hlt : old <> Some (w_fresh w)) by (intros ->; specialize (I1 _ _ Eold); lia).
  split; [split|rewrite Hfr; lia|..].
  - intros k c Hk. rewrite Hfr. destruct (decide (k = g)) as [->|]; [rewrite Hself in Hk; simplify_eq; lia|].
    rewrite Hother in Hk by done. specialize (I1 _ _ Hk). lia.
  - intros c k st Hin. rewrite Hp in Hin. rewrite Hfr. apply elem_of_app in Hin as [Hin|Hin]; [specialize (I2 _ _ _ Hin); lia|].
    apply list_elem_of_singleton in Hin. simplify_eq. lia.
  - intros c k st Hin Hs. rewrite Hp in Hin. apply Hm in Hs as [Hs1 Hs2]. apply elem_of_app in Hin as [Hin|Hin].
    + pose proof (I2 _ _ _ Hin). destruct Hs2 as [->|Hs2]; [lia|]. specialize (I3 _ _ _ Hin Hs2).
      destruct (decide (k = g)) as [->|]; [congruence|by rewrite Hother].
    + apply list_elem_of_singleton in Hin. by simplify_eq.
  - intros k c Hk Hc. rewrite Hother in Hc by lia. apply (Hold k); [lia|done].
  - intros k Hk. destruct (decide (k = g)) as [->|].
    + exists (w_fresh w). split; [done|]. split; [apply Hm; auto|]. split; [done|]. exists Resolving. rewrite Hp. set_solver.
    + destruct (Hnew k) as (c & Hc & Hs & Hle & st & Hin); [lia|]. exists c. split; [by rewrite Hother|]. split.
      * apply Hm. split; [|auto]. intros ->. specialize (Hold g c). rewrite Eold in Hold. specialize (Hold (Nat.le_refl _) eq_refl). lia.
      * split; [done|]. exists st. rewrite Hp. set_solver.
Qed.

Lemma open_groups_inv f g gs w :
  start_inv f g w -> (g + length gs <= length (ws_clients_ (w_chan w)))%nat ->
  start_inv f (g + length gs) (open_groups adapter_ g gs w) /\ start_frame w (open_groups adapter_ g gs w).
Proof.
  revert g w. induction gs as [|group gs IH]; intros g w Hi Hl; cbn [open_groups length] in *; [by rewrite Nat.add_0_r|].
  assert (Hg : (g < length (ws_clients_ (w_chan w)))%nat) by lia.
  destruct (lookup_lt_is_Some_2 _ _ Hg) as [old Eold].
  destruct (open_group_effect g group w old Eold) as (_ & Hw & _ & Hfr & _).
  destruct (IH (S g) (open_group adapter_ g group w)) as [H1 H2]; [by apply open_group_inv|rewrite Hw, length_insert; lia|].
  rewrite <- Nat.add_succ_comm. split; [done|]. by etrans.
Qed.

Lemma Start_inv now w : timers_ok w -> ids_ok w -> channel_inv (Start adapter_ symbol_ depth_level_ now w).
Proof.
  intros Ht Hi. unfold Start. set (gs := ad_build_subscribes adapter_ now symbol_ depth_level_).
  set (w1 := with_chan (set_groups gs) w).
  assert (Hi1 : ids_ok w1) by (by destruct Hi). assert (Ht1 : timers_ok w1) by (by destruct Ht).
  destruct gs as [|group gs'] eqn:E; [by split; [| |intros _ _ g Hg; cbn in Hg; lia]|]. cbv zeta. rewrite <- E in *.
  destruct (resize_ids (length gs) w1 Hi1) as [Hi2 Hf2]. set (w2 := resize_clients (length gs) w1) in *.
  assert (Hl2 : length (ws_clients_ (w_chan w2)) = length gs) by apply resize_length.
  destruct (open_groups_inv (w_fresh w2) 0 gs w2) as [[Hi3 _ _ Hc] Hf3]; [|by rewrite Hl2|].
  { split; [done|done|intros k c _; apply (io_fresh _ Hi2)|lia]. }
  assert (Hf : start_frame w1 (open_groups adapter_ 0 gs w2)) by (by etrans).
  split; [by eapply start_frame_timers|done|]. intros _ _ g Hg. rewrite (sf_groups _ _ Hf) in Hg.
  destruct (Hc g) as (c & H1 & [x Hx] & _ & H2); [by rewrite E|]. exists c, x. split; [done|]. split; [done|]. by left.
Qed.
End start.

(** ** Steps *)

(** The handler [h] has been taken from the pending ones. *)
Definition removed (w w1 : World) (h : Handler) : Prop :=
  exists pre suf, w_pending w = pre ++ h :: suf /\ w1 = with_pending (fun _ => pre ++ suf) w.

Lemma removed_subset w w1 h k : removed w w1 h -> k ∈ w_pending w1 -> k ∈ w_pending w.
Proof. intros (pre & suf & Hp & ->) Hk. rewrite Hp. cbn in Hk. set_solver. Qed.

Lemma removed_other w w1 h k : removed w w1 h -> k <> h -> k ∈ w_pending w -> k ∈ w_pending w1.
Proof. intros (pre & suf & Hp & ->) Hk. rewrite Hp. cbn. set_solver. Qed.

Lemma removed_ids w w1 h : removed w w1 h -> ids_ok w -> ids_ok w1.
Proof.
  intros Hr [I1 I2 I3]. pose proof (removed_subset w w1 h) as Hs. destruct Hr as (pre & suf & Hp & Hw).
  assert (Hr : removed w w1 h) by (by exists pre, suf). split.
  - subst. apply I1.
  - intros c g st Hin. specialize (I2 c g st (Hs _ Hr Hin)). by subst.
  - intros c g st Hin Hc. subst. apply (I3 c g st); [by apply Hs|done].
Qed.

Lemma removed_reconnects w w1 h :
  removed w w1 h -> reconnects w = (reconnects w1 + if is_reconnect h then 1 else 0)%nat.
Proof.
  intros (pre & suf & Hp & ->). unfold reconnects. cbn [w_pending with_pending]. rewrite Hp, !keep_app, !length_app.
  unfold keep. rewrite filter_cons. destruct (is_reconnect h); case_decide; try done; cbn [length]; lia.
Qed.

Lemma removed_timers w w1 h : removed w w1 h -> is_reconnect h = false -> timers_ok w -> timers_ok w1.
Proof.
  intros Hr Hh [T1 T2 T3 T4 T5]. pose proof (removed_reconnects _ _ _ Hr) as Hn. rewrite Hh, Nat.add_0_r in Hn.
  pose proof (removed_subset w w1 h) as Hs. assert (Hr' := Hr). destruct Hr as (pre & suf & Hp & ->).
  rewrite Hn in *. split; try done. intros d Hd. apply T4. by apply Hs.
Qed.

Lemma removed_listening w w1 h g :
  removed w w1 h -> listening w g ->
  listening w1 g \/
  exists c x, current w1 g = Some (Some c) /\ w_clients w1 !! c = Some x /\
    ((exists st, h = HConnect c g st) \/ (h = HRead c /\ ws_open x = true /\ ws_on_disconnect x = true)).
Proof.
  intros Hr (c & x & Hc & Hx & Hl). pose proof (fun k => removed_other w w1 h k Hr) as Ho.
  destruct Hr as (pre & suf & Hp & ->). destruct Hl as [[st Hin]|(Hin & H1 & H2)].
  - destruct (decide (HConnect c g st = h)) as [<-|Hne]; [right; exists c, x; split_and!; [done|done|left; by exists st]|].
    left. exists c, x. split; [done|]. split; [done|]. left. exists st. by apply Ho.
  - destruct (decide (HRead c = h)) as [<-|Hne]; [right; exists c, x; split_and!; [done|done|by right]|].
    left. exists c, x. split; [done|]. split; [done|]. right. split; [by apply Ho|done].
Qed.

(** Everything but the group that [h] served is still listening. *)
Lemma removed_inv w w1 h :
  removed w w1 h -> is_reconnect h = false -> channel_inv w ->
  (forall c x g, current w1 g = Some (Some c) -> w_clients w1 !! c = Some x ->
     (exists st, h = HConnect c g st) \/ (h = HRead c /\ ws_open x = true /\ ws_on_disconnect x = true) -> listening w1 g) ->
  channel_inv w1.
Proof.
  intros Hr Hh [Ht Hi Hl] Hn. split; [by eapply removed_timers|by eapply removed_ids|].
  intros Hs Hf g Hg. destruct (removed_listening w w1 h g) as [H|(c & x & Hc & Hx & H)]; [done| |done|by eapply Hn].
  destruct Hr as (pre & suf & Hp & ->). by apply Hl.
Qed.

Lemma removed_neutral w w1 h : removed w w1 h -> active h = false -> channel_inv w -> channel_inv w1.
Proof.
  intros Hr Ha Hi. apply (removed_inv w w1 h); [done|by destruct h|done|]. intros c x g _ _ [[st ->]|[-> _]]; done.
Qed.

(** A posted connect or read handler makes its group listen; the others keep listening. *)
Lemma post_active_inv w h :
  timers_ok w -> ids_ok w ->
  match h with
  | HConnect c g st => current w g = Some (Some c) /\ is_Some (w_clients w !! c)
  | HRead c => True
  | _ => False
  end ->
  (w_shutdown w = false -> reconnecting w = false -> forall g, (g < length (groups_ (w_chan w)))%nat -> listening (post h w) g) ->
  channel_inv (post h w).
Proof.
  intros [T1 T2 T3 T4 T5] [I1 I2 I3] Hh Hl.
  assert (Hn : reconnects (post h w) = reconnects w).
  { unfold reconnects, post, with_pending. cbn [w_pending]. rewrite keep_app, length_app. destruct h; try done; cbn; lia. }
  split; [split; rewrite ?Hn; try done|split; [done|..]|done].
  - intros d Hd. apply elem_of_app in Hd as [Hd|Hd]; [auto|]. apply list_elem_of_singleton in Hd. by subst.
  - intros c g st Hin. apply elem_of_app in Hin as [Hin|Hin]; [by apply (I2 c g st)|]. apply list_elem_of_singleton in Hin. subst.
    destruct Hh as [Hh _]. by apply (I1 g).
  - intros c g st Hin. apply elem_of_app in Hin as [Hin|Hin]; [by apply (I3 c g st)|]. apply list_elem_of_singleton in Hin. subst.
    by destruct Hh.
Qed.

Lemma listening_post w h g : listening w g -> listening (post h w) g.
Proof.
  intros (c & x & Hc & Hx & Hl). exists c, x. split; [done|]. split; [done|]. cbn.
  destruct Hl as [[st Hin]|(Hin & Hf)]; [left; exists st|right; split; [|done]]; apply elem_of_app; by left.
Qed.

Section steps.
Context {L : Simdjson} (adapter_ : ExchangeAdapter L) (symbol_ : string) (depth_level_ : Z).

(** The outcome of a connection attempt. *)
Lemma connect_failed_inv g w : timers_ok w -> ids_ok w -> channel_inv (on_connect g false w).
Proof.
  intros Ht Hi. cbn. fold (reconnecting w). destruct (reconnecting w) eqn:E; [|by apply schedule_inv].
  apply (frame_inv_idle w); auto; reflexivity.
Qed.

Lemma connected_inv c g x w :
  timers_ok w -> ids_ok w -> current w g = Some (Some c) -> w_clients w !! c = Some x -> ws_open x = true ->
  (w_shutdown w = false -> reconnecting w = false -> forall k, k <> g -> (k < length (groups_ (w_chan w)))%nat -> listening w k) ->
  channel_inv (on_connect g true w).
Proof.
  intros Ht Hi Hc Hx Ho Hl. unfold on_connect. cbv zeta iota.
  set (w1 := with_chan (set_attempts 0) w). change (ws_clients_ (w_chan w1) !! g) with (current w g). rewrite Hc.
  set (w2 := with_clients (alter (set_handler true) c) w1).
  assert (Ht2 : timers_ok w2) by (by destruct Ht; split).
  assert (Hi2 : ids_ok w2) by (destruct Hi as [I1 I2 I3]; split; [done|done|]; intros c' k st Hin; cbn; rewrite alter_dom; by apply (I3 c' k st)).
  destruct (frame_subscriptions g w2) as [Hf Hk].
  assert (Hx2 : w_clients w2 !! c = Some (set_handler true x)) by (cbn; by rewrite lookup_alter_eq, Hx).
  apply post_active_inv; [by eapply frame_timers|by eapply frame_ids|done|].
  rewrite (fr_shutdown _ _ Hf), (fr_flag _ _ Hf), (fr_groups _ _ Hf). intros Hs Hr k Hk'.
  destruct (decide (k = g)) as [->|Hne].
  - destruct (Hk _ _ Hx2) as (x3 & Hx3 & Ho3 & Hd3). exists c, x3. unfold current. cbn [w_chan post with_pending w_clients w_pending].
    rewrite (fr_clients _ _ Hf). split; [done|]. split; [done|]. right. split; [apply elem_of_app; right; by apply list_elem_of_singleton|].
    by rewrite Ho3, Hd3.
  - apply listening_post. eapply frame_listening; [done|done|]. destruct (Hl Hs Hr k Hne Hk') as (c' & x' & Hc' & Hx' & Hor).
    destruct (decide (c' = c)) as [->|Hcc].
    + exists c, (set_handler true x). split; [done|]. split; [done|]. destruct Hor as [Hor|(H1 & H2 & _)]; [by left|right].
      simplify_eq. done.
    + exists c', x'. split; [done|]. split; [cbn; by rewrite lookup_alter_ne|done].
Qed.

(** One completed stage of a connection attempt. *)
Lemma stage_inv w w1 c g st r :
  removed w w1 (HConnect c g st) -> channel_inv w -> is_Some (w_clients w1 !! c) -> channel_inv (on_stage c g st r w1).
Proof.
  intros Hr Hi [x Hx]. assert (Hi0 := Hi). destruct Hi0 as [Ht Hids Hl].
  assert (Ht1 : timers_ok w1) by (by eapply removed_timers). assert (Hi1 : ids_ok w1) by (by eapply removed_ids).
  assert (Hcur : current w1 g = Some (Some c)).
  { assert (Hr' := Hr). destruct Hr' as (pre & suf & Hp & ->). apply (io_current _ Hids c g st); [rewrite Hp; set_solver|by exists x]. }
  assert (Hlist : w_shutdown w1 = false -> reconnecting w1 = false -> forall k, k <> g -> (k < length (groups_ (w_chan w1)))%nat -> listening w1 k).
  { intros Hs Hf k Hne Hk. destruct (removed_listening w w1 _ k Hr) as [H|(c' & x' & _ & _ & [[st' H]|[H _]])]; [|done| |done].
    - assert (Hr' := Hr). destruct Hr' as (pre & suf & Hp & ->). by apply Hl.
    - by simplify_eq. }
  unfold on_stage. destruct r; cbn [negb]; [|by apply connect_failed_inv].
  assert (Hnext : forall st', channel_inv (post (HConnect c g st') w1)).
  { intros st'. apply post_active_inv; [done|done|by split; [|exists x]|]. intros Hs Hf k Hk.
    destruct (decide (k = g)) as [->|]; [|by apply listening_post, Hlist].
    exists c, x. split; [done|]. split; [done|]. left. exists st'. apply elem_of_app. right. by apply list_elem_of_singleton. }
  destruct st; [apply Hnext..|]. set (w2 := with_clients (alter (set_open true) c) w1).
  assert (Hf : frame w1 w2) by (apply frame_clients; intros k; apply alter_dom).
  apply (connected_inv c g (set_open true x)); [by eapply frame_timers|by eapply frame_ids|done|cbn; by rewrite lookup_alter_eq, Hx|done|].
  intros Hs Hfl k Hne Hk. destruct (Hlist Hs Hfl k Hne Hk) as (c' & x' & Hc' & Hx' & Hor).
  destruct (decide (c' = c)) as [->|]; [|exists c', x'; split; [done|]; split; [cbn; by rewrite lookup_alter_ne|done]].
  exists c, (set_open true x'). split; [done|]. split; [cbn; by rewrite lookup_alter_eq, Hx'|].
  destruct Hor as [Hor|(H1 & _ & H2)]; [by left|by right].
Qed.

(** One completed read. *)
Lemma read_inv w w1 c data : removed w w1 (HRead c) -> channel_inv w -> channel_inv (on_read c data w1).
Proof.
  intros Hr Hi. assert (Hi0 := Hi). destruct Hi0 as [Ht Hids _].
  assert (Ht1 : timers_ok w1) by (by eapply removed_timers). assert (Hi1 : ids_ok w1) by (by eapply removed_ids).
  assert (Hgone : forall x, w_clients w1 !! c = Some x -> ws_open x && ws_on_disconnect x = false -> channel_inv w1).
  { intros x Hx Hf. apply (removed_inv w w1 (HRead c)); [done|done|done|]. intros c' x' g _ Hx' [[st H]|(H & H1 & H2)]; [done|].
    simplify_eq. by rewrite H1, H2 in Hf. }
  unfold on_read. destruct (w_clients w1 !! c) as [x|] eqn:Ex.
  - destruct data as [data|].
    + cbn [deliver]. destruct (ws_open x) eqn:Eo.
      * apply post_active_inv; [by destruct Ht1|by destruct Hi1|done|]. intros Hs Hf g Hg.
        destruct (removed_listening w w1 (HRead c) g Hr) as [H|(c' & x' & Hc' & Hx' & H)].
        -- assert (Hr' := Hr). destruct Hr' as (pre & suf & Hp & ->). by apply (ci_listen _ Hi).
        -- by apply (listening_post (deliver data w1)).
        -- destruct H as [[st H]|(H & H1 & H2)]; [done|]. injection H as <-. exists c, x'. split; [done|]. split; [done|]. right. split; [|done].
           apply elem_of_app. right. by apply list_elem_of_singleton.
      * apply (frame_inv w1); [by split|intros k y Hk; by exists y|]. apply (Hgone x); [done|by rewrite Eo].
    + set (w2 := with_clients (<[c := set_open false x]>) w1).
      assert (Hf : frame w1 w2) by (apply frame_clients; intros k; by apply insert_dom).
      destruct (ws_on_disconnect x) eqn:Ed; [apply OnDisconnect_inv; [by eapply frame_timers|by eapply frame_ids]|].
      (* without a disconnect handler the client was still connecting *)
      apply (removed_inv w w1 (HRead c)) in Hi as Hi1'; [|done|done|].
      2: { intros c' x' g _ Hx' [[st H]|(H & _ & H2)]; congruence. }
      split; [by eapply frame_timers|by eapply frame_ids|]. intros Hs Hfl g Hg.
      destruct (ci_listen _ Hi1' Hs Hfl g Hg) as (c' & x' & Hc' & Hx' & Hor).
      destruct (decide (c = c')) as [<-|]; [|exists c', x'; split; [done|]; split; [cbn; by rewrite lookup_insert_ne|done]].
      exists c, (set_open false x). split; [done|]. split; [cbn; by rewrite lookup_insert_eq|].
      destruct Hor as [Hor|(_ & _ & Hd)]; [by left|]. congruence.
  - destruct (frame_undefined w1) as [Hf Hk]. apply (frame_inv w1); [done|done|].
    apply (removed_inv w w1 (HRead c)); [done|done|done|]. intros c' x' g _ Hx' [[st H]|(H & _)]; [done|]. simplify_eq.
Qed.

Lemma run_handler_inv now h r w w1 :
  removed w w1 h -> channel_inv w -> channel_inv (run_handler adapter_ symbol_ depth_level_ now h r w1).
Proof.
  intros Hr Hi. assert (Hq : active h = false -> channel_inv w1) by (intros Ha; by eapply removed_neutral).
  assert (Hund : channel_inv w1 -> channel_inv (set_undefined w1)) by (intros H; destruct (frame_undefined w1); by eapply frame_inv).
  destruct h as [c g st|c|c msg|c|t g i|d]; cbn [run_handler active] in *.
  - destruct (w_clients w1 !! c) as [x|] eqn:Ex; [by eapply stage_inv; [done|done|exists x]|].
    apply Hund. apply (removed_inv w w1 (HConnect c g st)); [done|done|done|]. intros c' x' k _ Hx' [[st' H]|[H _]]; [|done]. simplify_eq.
  - by eapply read_inv.
  - specialize (Hq eq_refl). destruct (w_clients w1 !! c) as [x|] eqn:Ex; [|by apply Hund]. destruct (succeeded r); [|done].
    eapply frame_inv; [apply frame_clients|by eapply flags_insert|done]. intros k. apply insert_dom. by exists x.
  - specialize (Hq eq_refl). destruct (w_clients w1 !! c); [done|by apply Hund].
  - specialize (Hq eq_refl). destruct (negb (succeeded r) || w_shutdown w1); [done|].
    destruct (groups_ (w_chan w1) !! g ≫= _) as [m|]; [|by apply Hund]. destruct (ws_clients_ (w_chan w1) !! g) as [[c|]|]; [|by apply Hund..].
    destruct (frame_write w1 c (sm_payload m)). by eapply frame_inv.
  - pose proof (removed_reconnects _ _ _ Hr) as Hn. cbn in Hn. destruct Hi as [[T1 T2 T3 T4 T5] Hids Hl].
    assert (H0 : reconnects w1 = 0%nat) by lia. pose proof (removed_ids _ _ _ Hr Hids) as Hi1.
    assert (Hd : forall d', HReconnect d' ∈ w_pending w1 -> 1 <= d' <= kMaxReconnectDelaySec) by (intros d' Hd; by eapply T4, removed_subset).
    assert (Hr' := Hr). destruct Hr' as (pre & suf & Hp & Hw). destruct (w_shutdown w1) eqn:Es.
    + split; [split; rewrite ?H0; try done; [lia|congruence|by subst]|done|]. intros Hs. congruence.
    + apply Start_inv; [|by destruct Hi1]. split; cbn.
      * change (reconnects w1 <= 1)%nat. lia.
      * change (reconnects w1 = 1%nat -> false = true). lia.
      * done.
      * done.
      * by subst.
Qed.

Lemma step_inv w w' : step adapter_ symbol_ depth_level_ w w' -> channel_inv w -> channel_inv w'.
Proof.
  intros Hs Hi. destruct Hs as [w pre h suf now r Hp _|w|w Hsd].
  - apply (run_handler_inv now h r w); [by exists pre, suf|done].
  - destruct Hi as [[] [] _]. by split; [split|split|].
  - destruct Hi as [Ht Hids _]. apply (frame_inv_idle w); auto. etrans; [apply frame_cancel|apply frame_close_clients].
Qed.

Lemma reachable_inv now w :
  rtc (step adapter_ symbol_ depth_level_) (Start adapter_ symbol_ depth_level_ now world0) w -> channel_inv w.
Proof.
  intros Hr. eapply rtc_invariant; [|exact Hr|].
  - intros w1 w2 Hi Hs. by eapply step_inv.
  - apply Start_inv; split; try done; cbn; try lia; intros; set_solver.
Qed.
End steps.

(** ** Stopping *)

Lemma close_keeps_closed c w k x :
  w_clients w !! k = Some x -> ws_open x = false -> exists x', w_clients (ws_close c w) !! k = Some x' /\ ws_open x' = false.
Proof.
  intros Hk Ho. unfold ws_close. destruct (w_clients w !! c) as [y|] eqn:E; [|by exists x]. destruct (ws_open y); [|by exists x].
  cbn. destruct (decide (c = k)) as [->|]; [rewrite lookup_insert_eq; by eexists|rewrite lookup_insert_ne by done; by exists x].
Qed.

Lemma close_closes c w x : w_clients w !! c = Some x -> exists x', w_clients (ws_close c w) !! c = Some x' /\ ws_open x' = false.
Proof.
  intros Hc. unfold ws_close. rewrite Hc. destruct (ws_open x) eqn:E; [|by exists x]. cbn. rewrite lookup_insert_eq. by eexists.
Qed.

Lemma close_all_closes l w c :
  (is_Some (w_clients w !! c) /\ Some c ∈ l) \/ (exists x, w_clients w !! c = Some x /\ ws_open x = false) ->
  exists x, w_clients (foldl (fun w c => match c with Some c => ws_close c w | None => w end) w l) !! c = Some x /\ ws_open x = false.
Proof.
  revert w. induction l as [|k l IH]; intros w H; cbn [foldl]; [destruct H as [[_ H]|H]; [by apply elem_of_nil in H|done]|].
  apply IH. destruct k as [k|].
  - destruct H as [[[x Hx] Hin]|(x & Hx & Ho)]; [|right; by eapply close_keeps_closed].
    apply elem_of_cons in Hin as [[= <-]|Hin]; [right; by eapply close_closes|left]. split; [|done]. apply (fr_dom _ _ (frame_close w k)). by exists x.
  - destruct H as [[Hs Hin]|H]; [left|by right]. split; [done|]. by apply elem_of_cons in Hin as [?|?].
Qed.

(** After [Stop] no client of the channel counts as open, so their destructors do not close the connections; the closing
    handshakes are handlers of the event loop, which [StopNetwork] stops at once. *)
Lemma stop_marks_closed w g c :
  current w g = Some (Some c) -> is_Some (w_clients w !! c) ->
  exists x, w_clients (Stop w) !! c = Some x /\ ws_open x = false.
Proof.
  intros Hg Hs. unfold Stop, close_clients. apply close_all_closes. left. split; [done|]. apply list_elem_of_lookup. by exists g.
Qed.

(** ** Executing a schedule *)

Section run.
Context {L : Simdjson} (adapter_ : ExchangeAdapter L) (symbol_ : string) (depth_level_ : Z).

(** Complete the pending handlers with the given numbers, in this order. *)
Fixpoint run_schedule (sched : list (nat * Completion)) (w : World) : option World :=
  match sched with
  | [] => Some w
  | (i, r) :: sched' =>
      match w_pending w !! i with
      | None => None
      | Some h =>
          if may_complete w h r
          then run_schedule sched' (run_handler adapter_ symbol_ depth_level_ 0 h r
                                      (with_pending (fun _ => take i (w_pending w) ++ drop (S i) (w_pending w)) w))
          else None
      end
  end.

Lemma run_schedule_reachable sched w w' :
  run_schedule sched w = Some w' -> rtc (step adapter_ symbol_ depth_level_) w w'.
Proof.
  revert w. induction sched as [|[i r] sched IH]; intros w; cbn [run_schedule]; [by intros [= ->]|].
  destruct (w_pending w !! i) as [h|] eqn:Eh; [|done]. destruct (may_complete w h r) eqn:Em; [|done].
  intros H. eapply rtc_l; [|by apply IH]. apply step_handler; [by rewrite take_drop_middle|done].
Qed.
End run.

(** What is observed of a run. *)
Definition observe (o : option World) : option (bool * bool * nat * bool) :=
  match o with
  | Some w => Some (w_shutdown w, is_reconnecting_ (w_chan w), w_bad_destroy w, w_undefined w)
  | None => None
  end.

(** The states a started channel can reach. *)
Definition reachable {L : Simdjson} (adapter : ExchangeAdapter L) (symbol : string) (depth_level now : Z) (w : World) : Prop :=
  rtc (step adapter symbol depth_level) (Start adapter symbol depth_level now world0) w.

(** ** Properties *)

(** C3: A channel never stalls and never reconnects twice at once.  In every state that [Start] followed by any
    interleaving of completions (each resolve, connect, handshake, read and write failing or succeeding in any
    order), signals and [Stop] can reach, as long as no shutdown was requested: while the channel is reconnecting
    exactly one reconnect timer is pending, armed for 1 to 60 seconds; otherwise none is, and every group has a
    client with a connection attempt under way, or an open one with a read under way whose failure will be
    reported to the channel. *)
Theorem channel_never_stalls {L : Simdjson} (adapter : ExchangeAdapter L) (symbol : string) (depth_level now : Z) (w : World) :
  reachable adapter symbol depth_level now w -> w_shutdown w = false ->
  if is_reconnecting_ (w_chan w)
  then exists d, filter (fun h => is_reconnect h = true) (w_pending w) = [HReconnect d] /\ 1 <= d <= kMaxReconnectDelaySec
  else filter (fun h => is_reconnect h = true) (w_pending w) = [] /\
       forall g, (g < length (groups_ (w_chan w)))%nat -> listening w g.
Proof.
  intros Hr Hs. destruct (reachable_inv _ _ _ _ _ Hr) as [[T1 T2 T3 T4 T5] _ Hl].
  unfold reconnects, keep in T1, T2, T3. fold (reconnecting w). destruct (reconnecting w) eqn:E.
  - specialize (T3 Hs eq_refl). destruct (filter _ (w_pending w)) as [|h [|h' l]] eqn:Ef; try done.
    assert (Hh : h ∈ filter (fun h => is_reconnect h = true) (w_pending w)) by (rewrite Ef; by apply list_elem_of_singleton).
    apply list_elem_of_filter in Hh as [Hh Hin]. destruct h; try done. eauto.
  - split; [|by apply Hl]. destruct (filter _ (w_pending w)) as [|h [|h' l]] eqn:Ef; [done|by specialize (T2 eq_refl)|cbn in T1; lia].
Qed.

(** The completion of one pending handler [h] with the outcome [r]. *)
Definition completes {L : Simdjson} (adapter : ExchangeAdapter L) (symbol : string) (depth_level : Z)
    (h : Handler) (r : Completion) (w w' : World) : Prop :=
  exists pre post, w_pending w = pre ++ h :: post /\
    w' = run_handler adapter symbol depth_level 0 h r (with_pending (fun _ => pre ++ post) w).

(** What is observed of client [c]. *)
Definition observe_client (c : nat) (w : World) : bool * bool * list Handler := (w_undefined w, bool_decide (is_Some (w_clients w !! c)), w_pending w).

Lemma run_schedule_app {L : Simdjson} (adapter : ExchangeAdapter L) symbol depth_level s1 s2 w :
  run_schedule adapter symbol depth_level (s1 ++ s2) w = run_schedule adapter symbol depth_level s1 w ≫= run_schedule adapter symbol depth_level s2.
Proof.
  revert w. induction s1 as [|[i r] s1 IH]; intros w; [done|]. cbn. destruct (w_pending w !! i); [|done]. by destruct (may_complete _ _ _); [apply IH|].
Qed.

Lemma run_schedule_one {L : Simdjson} (adapter : ExchangeAdapter L) symbol depth_level i h r w w' :
  w_pending w !! i = Some h -> run_schedule adapter symbol depth_level [(i, r)] w = Some w' -> completes adapter symbol depth_level h r w w'.
Proof.
  intros Hi. cbn. rewrite Hi. destruct (may_complete w h r); [|done]. intros [= <-].
  eexists _, _. split; [|done]. by rewrite take_drop_middle.
Qed.

Lemma dangling_read {L : Simdjson} (adapter : ExchangeAdapter L) symbol depth_level c r w w' :
  w_clients w !! c = None -> completes adapter symbol depth_level (HRead c) r w w' -> w_undefined w' = true.
Proof. intros Hc (pre & post & _ & ->). cbn. unfold on_read. cbn. by rewrite Hc. Qed.

(** C38: Reconnecting destroys clients that still have a read under way.  On Binance perpetual, whose channel has two groups, a
    state [w] is reachable (before any shutdown, with nothing undefined so far) in which a client [c] exists and is reading while
    the reconnect timer is pending, because the other group's connection has failed.  When the timer expires, [Start] destroys
    the client while the event loop runs, against the destructor's stated precondition, and its read is still under way ([w1]).
    That read does complete, and however it completes, it runs on the destroyed client ([w2]). *)
Theorem reconnect_dangling_read {L : Simdjson} (fuel : nat) (symbol : string) (depth_level : Z) :
  let adapter := kBinancePerpetualAdapter (L := L) fuel in
  exists c d w w1,
    reachable adapter symbol depth_level 0 w /\ w_shutdown w = false /\ w_undefined w = false /\ w_bad_destroy w = 0%nat /\
    is_Some (w_clients w !! c) /\ HRead c ∈ w_pending w /\
    completes adapter symbol depth_level (HReconnect d) (Done []) w w1 /\
    w_clients w1 !! c = None /\ HRead c ∈ w_pending w1 /\ w_undefined w1 = false /\ (0 < w_bad_destroy w1)%nat /\
    forall r w2, completes adapter symbol depth_level (HRead c) r w1 w2 -> w_undefined w2 = true.
Proof.
  intros adapter. set (w0 := Start adapter symbol depth_level 0 world0).
  set (sched := [(1, Done []); (1, Done []); (1, Done []); (1, Done []); (0, Failed)]%nat).
  assert (Ho : observe (run_schedule adapter symbol depth_level sched w0) = Some (false, true, 0%nat, false)) by (vm_compute; reflexivity).
  assert (Hc : observe_client 1 <$> run_schedule adapter symbol depth_level sched w0 =
    Some (false, true, [HSubscribe 2 1 0; HSubscribe 3 1 1; HRead 1; HReconnect 1])) by (vm_compute; reflexivity).
  assert (Ho1 : observe (run_schedule adapter symbol depth_level (sched ++ [(3%nat, Done [])]) w0) = Some (false, false, 2%nat, false)) by (vm_compute; reflexivity).
  assert (Hc1 : observe_client 1 <$> run_schedule adapter symbol depth_level (sched ++ [(3%nat, Done [])]) w0 =
    Some (false, false, [HSubscribe 2 1 0; HSubscribe 3 1 1; HRead 1; HConnect 4 0 Resolving; HConnect 5 1 Resolving])) by (vm_compute; reflexivity).
  rewrite run_schedule_app in Ho1, Hc1. destruct (run_schedule adapter symbol depth_level sched w0) as [w|] eqn:E; [|discriminate Ho].
  assert (Hr : reachable adapter symbol depth_level 0 w) by (by eapply run_schedule_reachable). clear E. clearbody w0. cbn in Ho, Hc. injection Ho as Hs _ Hb Hu. injection Hc as _ Hx Hp.
  cbn [mbind option_bind] in Ho1, Hc1. destruct (run_schedule adapter symbol depth_level [(3%nat, Done [])] w) as [w1|] eqn:E1; [|discriminate Ho1].
  apply (run_schedule_one _ _ _ _ (HReconnect 1)) in E1; [|by rewrite Hp].
  cbn in Ho1, Hc1. injection Ho1 as _ _ Hb1 Hu1. injection Hc1 as _ Hx1 Hp1.
  assert (Hread : forall l, HRead 1 ∈ HSubscribe 2 1 0 :: HSubscribe 3 1 1 :: HRead 1 :: l) by (intros l; apply elem_of_cons; right; apply elem_of_cons; right; by left).
  assert (Hgone : w_clients w1 !! 1%nat = None) by (apply bool_decide_eq_false in Hx1; by apply eq_None_not_Some).
  exists 1%nat, 1, w, w1. rewrite Hp, Hp1. split_and!; try done; [by apply bool_decide_eq_true in Hx|rewrite Hb1; lia|].
  intros r w2. by apply dangling_read.
Qed.

(** *** Witness *)

Lemma channel_never_stalls_witness :
  exists w, reachable (kBinancePerpetualAdapter (L := Dom) 5) "BTCUSDT" 20 0 w /\
    w_shutdown w = false /\ is_reconnecting_ (w_chan w) = true /\
    exists d, filter (fun h => is_reconnect h = true) (w_pending w) = [HReconnect d] /\ 1 <= d <= kMaxReconnectDelaySec.
Proof.
  assert (Ho : observe (run_schedule (kBinancePerpetualAdapter (L := Dom) 5) "BTCUSDT" 20 [(0%nat, Failed)]
                 (Start (kBinancePerpetualAdapter (L := Dom) 5) "BTCUSDT" 20 0 world0)) = Some (false, true, 0%nat, false))
    by (vm_compute; reflexivity).
  destruct (run_schedule _ _ _ [(0%nat, Failed)] _) as [w|] eqn:E; [|discriminate Ho]. apply run_schedule_reachable in E as Hr.
  cbn in Ho. injection Ho as Hs Hf _ _. exists w. pose proof (channel_never_stalls _ _ _ _ _ Hr Hs) as H. rewrite Hf in H. auto.
Defined.
