(* ===== verification/Ingest.v ===== *)
(** * From the connection to the parser

    [SymbolChannel::OnMessage] (src/exchange/crypto/symbol_channel.cpp) copies a
    received text into a [RawMessage], peeks at its event type and pushes it to the
    shard of its channel; [ShardParserWorker] takes it from there.  The theorem
    follows one message across the queue into the parse function. *)
From S2P Require Import Prelude Doubles Events Exchange SpscQueue ShardQueue Json OnDemand Binance Decode PubWorker Dispatcher.

Section on_message.
Context {L : Simdjson} (adapter_ : ExchangeAdapter L).
(** simdjson: its padding and [iterate buffer length allocated]; [hash] is [std::hash<std::string_view>]. *)
Context (kSimdjsonPadding : Z) (iterate : list ascii -> Z -> Z -> option (JDoc L)) (hash : string -> Z).
Context (symbol_ : list ascii) (channel_id_ : Z).
Abbreviation Msg := (RawMessage (JDoc L)).
Abbreviation Queue := (ShardQueue (JDoc L)).

(** A write to [msg.buffer()]. *)
Definition write_buffer (off : nat) (bs : list ascii) (m : Msg) : Msg :=
  match heap_ m with
  | Some h => set_heap (Some (splice off bs h)) (heap_size_ m) m
  | None => mkRaw (splice off bs (inline_ m)) None (heap_size_ m) (rm_size m) (rm_channel_id m) (recv_timestamp m) (rm_symbol m)
              (rm_event_type m) (parse_fn m)
  end.

(** [RawMessage msg;]: the inline array is not initialised. *)
Definition raw_default (garbage : list ascii) : Msg := mkRaw garbage None 0 0 0 0 (replicate 32 NUL) ET_TICK None.

(** The message as it is before its event type is known. *)
Definition build_message (garbage data : list ascii) (recv_ns : Z) (alloc_ok : bool) : option Msg :=
  let size := Z.of_nat (length data) in
  match allocate kSimdjsonPadding alloc_ok size (raw_default garbage) with
  | (false, _) => None
  | (true, msg) =>
      let msg := write_buffer 0 data msg in
      let msg := write_buffer (length data) (replicate (Z.to_nat kSimdjsonPadding) NUL) msg in
      Some (mkRaw (inline_ msg) (heap_ msg) (heap_size_ msg) size channel_id_ recv_ns
              (splice 0 (take (length (rm_symbol msg) - 1) symbol_) (rm_symbol msg)) (rm_event_type msg) (Some (ad_parse adapter_)))
  end.

Definition set_event_type (et : EventType) (m : Msg) : Msg :=
  mkRaw (inline_ m) (heap_ m) (heap_size_ m) (rm_size m) (rm_channel_id m) (recv_timestamp m) (rm_symbol m) et (parse_fn m).

(** The event type the message gets: a text that is not JSON keeps the default. *)
Definition peeked (m : Msg) : EventType :=
  match iterate (buffer m) (rm_size m) (u64 (rm_size m + kSimdjsonPadding)) with
  | Some doc => ad_peek_event_type adapter_ doc
  | None => rm_event_type m
  end.

(** [uint32_t shard = (channel_id_ ^ hash(name)) % shard_queues_.size()] *)
Definition shard_of (n : nat) : nat := Z.to_nat (u32 (Z.lxor channel_id_ (hash (ad_name adapter_)) mod Z.of_nat n)).

(** Source: src/exchange/crypto/symbol_channel.cpp:154-183, SymbolChannel::OnMessage.
    [garbage] is what the stack held, [alloc_ok] whether the heap has room; [fuel] and
    [env] are those of [Push].  [None]: still waiting for room in the queue. *)
Definition OnMessage (fuel : nat) (env : nat -> Queue -> Queue) (garbage : list ascii) (alloc_ok : bool) (recv_ns : Z)
    (data : list ascii) (shard_queues_ : list Queue) : option (list Queue) :=
  if (length data =? 0)%nat || (length shard_queues_ =? 0)%nat then Some shard_queues_
  else match build_message garbage data recv_ns alloc_ok with
       | None => Some shard_queues_
       | Some msg =>
           let et := peeked msg in
           match et with
           | ET_UNKNOWN => Some shard_queues_
           | _ =>
               let shard := shard_of (length shard_queues_) in
               match shard_queues_ !! shard with
               | None => None
               | Some q => match Push fuel env (set_event_type et msg) q with
                           | Some q' => Some (<[shard := q']> shard_queues_)
                           | None => None
                           end
               end
           end
       end.

(** ** The message *)

Lemma shard_of_lt n : (0 < n)%nat -> (shard_of n < n)%nat.
Proof.
  intros Hn. unfold shard_of. set (x := Z.lxor _ _ mod Z.of_nat n).
  assert (Hx : 0 <= x < Z.of_nat n) by (apply Z.mod_pos_bound; lia).
  assert (0 <= u32 x <= x); [|lia]. unfold wrap. split; [apply Z.mod_pos_bound; lia|apply Z.mod_le; lia].
Qed.

(** What a message must be for the parser. *)
Record message_ok (data : list ascii) (recv_ns : Z) (m : Msg) : Prop := {
  mo_size : rm_size m = Z.of_nat (length data);
  mo_data : take (length data) (buffer m) = data;
  mo_padding : take (Z.to_nat kSimdjsonPadding) (drop (length data) (buffer m)) = replicate (Z.to_nat kSimdjsonPadding) NUL;
  mo_readable : readable kSimdjsonPadding m;
  mo_channel : rm_channel_id m = channel_id_;
  mo_recv : recv_timestamp m = recv_ns;
  mo_symbol : c_str (rm_symbol m) = take 31 symbol_;
  mo_parse : parse_fn m = Some (ad_parse adapter_)
}.

Lemma write_buffer_buffer off bs m : buffer (write_buffer off bs m) = splice off bs (buffer m).
Proof. unfold write_buffer, buffer. by destruct (heap_ m). Qed.

Lemma splice_prefix (bs pad dst : list ascii) :
  (length bs + length pad <= length dst)%nat ->
  splice (length bs) pad (splice 0 bs dst) = bs ++ pad ++ drop (length bs + length pad) dst.
Proof.
  intros H. unfold splice. cbn [take app plus]. rewrite app_nil_l, take_app_length. f_equal. f_equal.
  rewrite drop_app_ge by lia. rewrite drop_drop. f_equal. lia.
Qed.

Lemma symbol_copied : no_nul symbol_ -> c_str (splice 0 (take 31 symbol_) (replicate 32 NUL)) = take 31 symbol_.
Proof.
  intros Hn. assert (Hl : (length (take 31 symbol_) <= 31)%nat) by (rewrite length_take; lia).
  unfold splice. rewrite take_0, app_nil_l, Nat.add_0_l, drop_replicate.
  destruct (32 - length (take 31 symbol_))%nat as [|k] eqn:E; [lia|]. cbn [replicate]. apply c_str_app_nul. by apply no_nul_take.
Qed.

Lemma build_message_ok garbage data recv_ns alloc_ok :
  length garbage = Z.to_nat kInlineSize -> no_nul symbol_ -> 0 <= kSimdjsonPadding ->
  Z.of_nat (length data) + kSimdjsonPadding < 2 ^ 64 ->
  (alloc_ok = true \/ Z.of_nat (length data) + kSimdjsonPadding <= kInlineSize) ->
  exists m, build_message garbage data recv_ns alloc_ok = Some m /\ message_ok data recv_ns m /\ rm_event_type m = ET_TICK.
Proof.
  intros Hg Hs Hp Hb Hor. unfold build_message.
  destruct (allocate _ _ _ _) as [ok m0] eqn:Ea.
  assert (ok = true) as ->.
  { unfold allocate in Ea. cbv zeta in Ea. rewrite wrap_small in Ea by (unfold in_range; lia).
    destruct (Z.leb_spec (Z.of_nat (length data) + kSimdjsonPadding) kInlineSize); [congruence|].
    destruct Hor as [->|]; [congruence|lia]. }
  assert (Hm0 : rm_symbol m0 = replicate 32 NUL /\ rm_event_type m0 = ET_TICK).
  { unfold allocate in Ea. cbv zeta in Ea. destruct (_ <=? _); [by simplify_eq|]. destruct alloc_ok; by simplify_eq. }
  apply allocate_readable in Ea as [Hr _]; [|done|lia|done|done].
  set (m1 := write_buffer _ _ (write_buffer 0 data m0)).
  assert (Hbuf : buffer m1 = data ++ replicate (Z.to_nat kSimdjsonPadding) NUL ++
                   drop (length data + Z.to_nat kSimdjsonPadding) (buffer m0)).
  { subst m1. rewrite !write_buffer_buffer, splice_prefix by (rewrite length_replicate; lia). by rewrite length_replicate. }
  assert (Hsym : rm_symbol m1 = replicate 32 NUL /\ rm_event_type m1 = ET_TICK).
  { subst m1. unfold write_buffer. destruct (heap_ m0) eqn:E1; cbn [set_heap heap_]; by rewrite ?E1. }
  destruct Hsym as [Hsym Het]. eexists. split; [reflexivity|]. split; [|done].
  match goal with |- message_ok _ _ ?m => assert (Hb' : buffer m = buffer m1) by done end.
  split; rewrite ?Hb', ?Hbuf; try done.
  - by rewrite take_app_length.
  - rewrite drop_app_length. rewrite <- (length_replicate (Z.to_nat kSimdjsonPadding) NUL) at 1. by rewrite take_app_length.
  - unfold readable. rewrite Hb', Hbuf. cbn [rm_size]. rewrite !length_app, length_replicate. lia.
  - cbn [rm_symbol]. rewrite Hsym, length_replicate. by apply symbol_copied.
Qed.
End on_message.

(** ** Properties *)

(** What the parser of the shard must do with the text [data] received at [recv_ns]: nothing when it is not JSON or
    the parse function throws; otherwise hand the parsed event, with the symbol of the channel (its first 31
    characters) and the receive time, to the dispatcher. *)
Definition expected_dispatch {QT QD QB : Type} `{!FifoQueue QT TickData} `{!FifoQueue QD DepthUpdateEvent} `{!FifoQueue QB BookTickerEvent}
    (K : Zmq) (reg : ChannelRegistry) {L : Simdjson} (adapter : ExchangeAdapter L) (symbol : list ascii) (channel_id recv_ns : Z)
    (now : Now) (json : option (JDoc L)) (s : DataDispatcher (JDoc L) * Sinks QT QD QB K) : option (DataDispatcher (JDoc L) * Sinks QT QD QB K) :=
  match json with
  | None => Some s
  | Some doc =>
      match ad_parse adapter (now_wall_us now) doc channel_id (ad_peek_event_type adapter doc) with
      | None => Some s
      | Some r =>
          match pr_type r with
          | PT_TICK => OnTick K reg (now_clock now) (stamp_tick (take 31 symbol) recv_ns (pr_tick r)) s
          | PT_DEPTH => OnDepth K reg (now_clock now) channel_id (stamp_depth (take 31 symbol) recv_ns (pr_depth r)) s
          | PT_BOOK_TICKER => OnBookTicker K reg (now_clock now) channel_id (stamp_ticker (take 31 symbol) recv_ns (pr_book_ticker r)) s
          | PT_NONE => Some s
          end
      end
  end.

(** A text a channel receives reaches the parser of its shard intact.  With room in the shard's queue, [OnMessage]
    terminates with one message appended to exactly that queue: its buffer holds the received bytes followed by the
    zeroed padding the JSON library needs, all of it readable; the message carries the event type the adapter peeks;
    and [ParseAndDispatch], on whatever state, does with it what the received text calls for.  A text whose event type
    is unknown leaves every queue as it was. *)
Theorem message_reaches_parser {QT QD QB : Type} `{!FifoQueue QT TickData} `{!FifoQueue QD DepthUpdateEvent} `{!FifoQueue QB BookTickerEvent}
    (K : Zmq) (reg : ChannelRegistry) {L : Simdjson} (adapter : ExchangeAdapter L) (pad : Z)
    (iterate : list ascii -> Z -> Z -> option (JDoc L)) (hash : string -> Z) (symbol : list ascii) (channel_id : Z)
    (fuel : nat) (env : nat -> ShardQueue (JDoc L) -> ShardQueue (JDoc L)) (garbage : list ascii) (alloc_ok : bool) (recv_ns : Z)
    (data : list ascii) (shards : list (ShardQueue (JDoc L))) (q : ShardQueue (JDoc L)) (k R : Z) (l : list (RawMessage (JDoc L))) :
  let shard := shard_of adapter hash channel_id (length shards) in
  let on_message := OnMessage adapter pad iterate hash symbol channel_id (S fuel) env garbage alloc_ok recv_ns data shards in
  length garbage = Z.to_nat kInlineSize -> no_nul symbol -> 0 <= pad -> data <> [] -> Z.of_nat (length data) + pad < 2 ^ 64 ->
  (alloc_ok = true \/ Z.of_nat (length data) + pad <= kInlineSize) ->
  shards !! shard = Some q -> 0 <= k <= 63 -> sq_rep k q R l -> (length l < Z.to_nat (2 ^ k))%nat -> R + Z.of_nat (length l) + 1 < 2 ^ 64 ->
  exists m, message_ok adapter pad symbol channel_id data recv_ns m /\
    let json := iterate (buffer m) (Z.of_nat (length data)) (Z.of_nat (length data) + pad) in
    rm_event_type m = match json with Some doc => ad_peek_event_type adapter doc | None => ET_TICK end /\
    (rm_event_type m = ET_UNKNOWN -> on_message = Some shards) /\
    (rm_event_type m <> ET_UNKNOWN -> exists q', on_message = Some (<[shard := q']> shards) /\ sq_rep k q' R (l ++ [m])) /\
    forall (now : Now) (s : DataDispatcher (JDoc L) * Sinks QT QD QB K),
      ParseAndDispatch K reg pad iterate now m s = expected_dispatch K reg adapter symbol channel_id recv_ns now json s.
Proof.
  intros shard on_message Hg Hs Hp Hd Hb Hor Hq Hk Hrep Hroom Htot.
  destruct (build_message_ok adapter pad symbol channel_id garbage data recv_ns alloc_ok) as (m & Hm & Hok & Het); [done..|].
  set (et := peeked adapter pad iterate m). exists (set_event_type et m).
  assert (Hok' : message_ok adapter pad symbol channel_id data recv_ns (set_event_type et m)) by (by destruct Hok).
  split; [done|]. change (buffer (set_event_type et m)) with (buffer m). cbv zeta. set (json := iterate _ _ _).
  assert (Hpe : et = match json with Some doc => ad_peek_event_type adapter doc | None => ET_TICK end).
  { subst et json. unfold peeked. rewrite (mo_size _ _ _ _ _ _ _ Hok), wrap_small by (unfold in_range; lia).
    destruct (iterate _ _ _); done. }
  assert (Hon : on_message = match et with ET_UNKNOWN => Some shards | _ =>
                  match Push (S fuel) env (set_event_type et m) q with Some q' => Some (<[shard := q']> shards) | None => None end end).
  { subst on_message. unfold OnMessage. destruct data as [|b data']; [done|]. pose proof (lookup_lt_Some _ _ _ Hq).
    destruct (Nat.eqb_spec (length shards) 0); [lia|]. cbn [length Nat.eqb orb]. rewrite Hm. fold shard. rewrite Hq. done. }
  split; [done|]. split; [|split].
  - intros E. change (et = ET_UNKNOWN) in E. rewrite Hon. by rewrite E at 1.
  - intros E. change (et <> ET_UNKNOWN) in E.
    pose proof (TryPush_rep k q R l (set_event_type et m) Hk Hrep Htot) as Ht. apply Nat.ltb_lt in Hroom. rewrite Hroom in Ht.
    destruct Ht as (q' & Ht & Hr'). exists q'. split; [|done]. rewrite Hon. cbn [Push]. rewrite Ht. by destruct et.
  - intros now s. destruct Hok' as [M1 _ _ _ M2 M3 M4 M5]. unfold ParseAndDispatch. change (buffer (set_event_type et m)) with (buffer m).
    rewrite M1, M2, M3, M4, M5, wrap_small by (unfold in_range; lia). fold json. change (rm_event_type (set_event_type et m)) with et.
    rewrite Hpe. unfold expected_dispatch. destruct json; done.
Qed.

(** *** Witness *)

#[local] Instance in_tick_queue : FifoQueue (SPSCQueue TickData) TickData := spsc_fifo 1 one_bit.
#[local] Instance in_depth_queue : FifoQueue (SPSCQueue DepthUpdateEvent) DepthUpdateEvent := spsc_fifo 1 one_bit.
#[local] Instance in_ticker_queue : FifoQueue (SPSCQueue BookTickerEvent) BookTickerEvent := spsc_fifo 1 one_bit.

(** A library that reads every text as the same trade; an empty queue for two messages. *)
Definition trade_text (b : list ascii) (size allocated : Z) : option (JDoc Dom) := Some (JObj demo_trade).
Definition empty_shard : ShardQueue (JDoc Dom) := mkShard 0 2 1 [raw0; raw0] 0.

Lemma empty_shard_rep : sq_rep 1 empty_shard 0 [].
Proof. split; [|done..]. split; done. Qed.

Lemma message_reaches_parser_witness :
  exists m q', message_ok (kBinanceSpotAdapter (L := Dom) 5) 64 (bytes "BTCUSDT") 9 (bytes "{}") 77 m /\
    OnMessage (kBinanceSpotAdapter (L := Dom) 5) 64 trade_text (fun _ => 3) (bytes "BTCUSDT") 9 1 (fun _ q => q)
      (replicate (Z.to_nat kInlineSize) "x"%char) true 77 (bytes "{}") [empty_shard] = Some [q'] /\
    sq_rep 1 q' 0 [m] /\ rm_event_type m = ET_TICK.
Proof.
  destruct (message_reaches_parser log_socket demo_reg (kBinanceSpotAdapter (L := Dom) 5) 64 trade_text (fun _ => 3) (bytes "BTCUSDT") 9
    0 (fun _ q => q) (replicate (Z.to_nat kInlineSize) "x"%char) true 77 (bytes "{}") [empty_shard] empty_shard 1 0 [])
    as (m & Hok & Het & _ & H & _);
    [by rewrite length_replicate|repeat constructor; done|lia|done|cbn; lia|by left|done|lia|apply empty_shard_rep|cbn; lia|cbn; lia|].
  assert (E : rm_event_type m = ET_TICK) by (rewrite Het; reflexivity).
  destruct H as (q' & H1 & H2); [by rewrite E|]. exists m, q'. split; [done|]. split; [exact H1|]. by split.
Defined.
