(* ===== verification/Pipeline.v ===== *)
(** * From end to end

    The two paths of an event through the process: a text of a venue that
    arrives on a connection of the network thread, goes through the queue of its
    shard to a parser; and a callback of the R|API in the gateway process, whose
    event crosses the shared-memory queues to the receiver.  Both end at a
    dispatcher, which stores the event and hands it to the publisher. *)
From S2P Require Import Prelude Doubles Events Csv SpscQueue Exchange ShardQueue TelemetrySlot Config Gateway Engine ProcessManager MpscQueue Dolphin Router PubWorker Dispatcher Receiver Json OnDemand Binance Adapters Decode Messages Ingest.

(** ** Crypto venues *)

(** The event as the parser hands it to the dispatcher: with the channel's symbol and the receive time. *)
Definition stamp (sym : list ascii) (recv : Z) (p : Payload) : Payload :=
  match p with
  | TickPayload t => TickPayload (stamp_tick sym recv t)
  | DepthPayload e => DepthPayload (stamp_depth sym recv e)
  | BookTickerPayload e => BookTickerPayload (stamp_ticker sym recv e)
  end.

(** Every topic of the channel fits the publisher's buffer; the longest suffix is [:book_ticker]. *)
Definition topic_fits (info : ChannelInfo) : Prop :=
  ci_topic_prefix info <> ""%string /\ (String.length (ci_topic_prefix info) + 12 < kMaxTopicLen)%nat.

Lemma string_length_app (s t : string) : String.length (s ++ t) = (String.length s + String.length t)%nat.
Proof. induction s as [|c s IH]; [done|]. exact (f_equal S IH). Qed.

Lemma topic_fits_routable reg p info : Lookup (payload_channel p) reg = Some info -> topic_fits info -> routable reg p.
Proof.
  intros Hl [Hne Hlen]. unfold routable, topic. rewrite Hl. rewrite (proj2 (String.eqb_neq _ _) Hne).
  assert (Hs : (String.length (event_suffix p) <= 11)%nat) by (destruct p; cbn; lia).
  assert (Hfit : (String.length (ci_topic_prefix info ++ ":" ++ event_suffix p) < kMaxTopicLen)%nat)
    by (rewrite !string_length_app; cbn [String.length]; lia).
  rewrite (proj2 (Nat.leb_gt _ _) Hfit). by eexists.
Qed.

Lemma stamp_channel sym recv p : payload_channel (stamp sym recv p) = payload_channel p.
Proof. by destruct p. Qed.

Lemma stamp_received sym recv p : received_at (stamp sym recv p) = recv.
Proof. by destruct p. Qed.

Section crypto.
Context {QT QD QB : Type} `{!FifoQueue QT TickData} `{!FifoQueue QD DepthUpdateEvent} `{!FifoQueue QB BookTickerEvent}.
Context (K : Zmq) (reg : ChannelRegistry) {L : Simdjson} `{!OnDemand L}.
Context (rounds : nat) (undefined_cast : double -> Z) (v : Venue) (symbol : list ascii) (channel_id recv_ns : Z).

(** The parser's result is what the reference decoder reads, on the given channel. *)
Lemma parsed now_us fs doc :
  in_range 32 channel_id -> at_ doc [FStart fs] -> Decode.message_ok rounds v (kind_of v fs) fs ->
  exists r, ad_parse (adapter_of rounds undefined_cast v) now_us doc channel_id (kind_of v fs) = Some r /\
    decoded r = reference undefined_cast v now_us channel_id fs (kind_of v fs) /\
    forall p, decoded r = Some p -> payload_channel p = channel_id.
Proof.
  intros Hc Hdoc Hok.
  destruct (venue_parse rounds undefined_cast v now_us channel_id fs (kind_of v fs) doc Hdoc Hok) as (r & Hr & Href).
  exists r. split; [done|]. split; [done|].
  assert (Hres : result_ok channel_id (kind_of v fs) r).
  { revert Hr. apply (adapters_ok rounds undefined_cast); [|done]. unfold crypto_adapters. destruct v; cbn [adapter_of]; set_solver. }
  unfold result_ok, decoded, tick_ok, Adapters.depth_ok, ticker_ok in *. intros p Hp. destruct (pr_type r); simplify_eq; cbn [payload_channel]; tauto.
Qed.

(** The result reaches the dispatcher. *)
Lemma expected_dispatch_decoded now fs doc (s : DataDispatcher (JDoc L) * Sinks QT QD QB K) :
  in_range 32 channel_id -> at_ doc [FStart fs] -> Decode.message_ok rounds v (kind_of v fs) fs ->
  expected_dispatch K reg (adapter_of rounds undefined_cast v) symbol channel_id recv_ns now (Some doc) s =
    match stamp (take 31 symbol) recv_ns <$> reference undefined_cast v (now_wall_us now) channel_id fs (kind_of v fs) with
    | None => Some s
    | Some p => dispatch K reg (now_clock now) p s
    end.
Proof.
  intros Hc Hdoc Hok. unfold expected_dispatch. rewrite (venue_peek rounds undefined_cast v fs doc Hdoc).
  destruct (parsed (now_wall_us now) fs doc Hc Hdoc Hok) as (r & Hr & <- & Hid). rewrite Hr. unfold decoded in *.
  destruct (pr_type r); cbn [fmap option_fmap option_map stamp dispatch]; try done; specialize (Hid _ eq_refl); cbn [payload_channel] in Hid.
  - cbn [stamp_depth dp_channel_id]. by rewrite Hid.
  - cbn [stamp_ticker bt_channel_id]. by rewrite Hid.
Qed.
End crypto.

(** C8: The whole path of a crypto message.  A non-empty text that a channel of a venue receives, which the JSON library reads as
    an object [fs] of a kind the venue sends (containers of the shape of C5), enters the queue of its shard.  The
    assumptions: the queue has room, the heap allocation succeeds when the text does not fit inline, the channel is registered
    with a topic that fits the publisher's buffer, the publisher is in a valid state, the telemetry slot is not being written, and
    the receive time is not in the future.  Then the parser dispatches what the reference decoder of C5 reads in [fs], which for
    a message of the venue is the event it stands for: stamped with the channel's symbol and the receive time it is stored
    once with its latency (or the store ends the process) and handed to the publisher or counted as dropped, and the telemetry
    slot shows the latency; a message in which the decoder reads no event changes nothing. *)
Theorem crypto_message_end_to_end {QT QD QB : Type} `{!FifoQueue QT TickData} `{!FifoQueue QD DepthUpdateEvent} `{!FifoQueue QB BookTickerEvent}
    (K : Zmq) (reg : ChannelRegistry) {L : Simdjson} `{!OnDemand L} (rounds : nat) (undefined_cast : double -> Z) (v : Venue)
    (pad : Z) (iterate : list ascii -> Z -> Z -> option (JDoc L)) (hash : string -> Z) (symbol : list ascii) (channel_id : Z)
    (fuel : nat) (env : nat -> ShardQueue (JDoc L) -> ShardQueue (JDoc L)) (garbage : list ascii) (alloc_ok : bool) (recv_ns : Z)
    (data : list ascii) (shards : list (ShardQueue (JDoc L))) (q : ShardQueue (JDoc L)) (k R : Z) (l : list (RawMessage (JDoc L)))
    (fs : list (string * json)) (doc : JDoc L) (info : ChannelInfo) (now : Now) (d : DataDispatcher (JDoc L)) (h : Sinks QT QD QB K)
    (slot : TelemetrySlot) :
  let size := Z.of_nat (length data) in
  let adapter := adapter_of (L := L) rounds undefined_cast v in
  let shard := shard_of adapter hash channel_id (length shards) in
  (* the text, the memory and the queue *)
  length garbage = Z.to_nat kInlineSize -> no_nul symbol -> 0 <= pad -> data <> [] -> size + pad < 2 ^ 64 ->
  (alloc_ok = true \/ size + pad <= kInlineSize) ->
  shards !! shard = Some q -> 0 <= k <= 63 -> sq_rep k q R l -> (length l < Z.to_nat (2 ^ k))%nat -> R + Z.of_nat (length l) + 1 < 2 ^ 64 ->
  (* what the JSON library reads in the text *)
  (forall buf, take (length data) buf = data -> iterate buf size (size + pad) = Some doc) -> at_ doc [FStart fs] ->
  kind_of v fs <> ET_UNKNOWN -> Decode.message_ok rounds v (kind_of v fs) fs ->
  (* the collector *)
  in_range 32 channel_id -> Lookup channel_id reg = Some info -> topic_fits info ->
  worker_ok reg (sk_pub h) -> (shard_idx d < num_shards_ (sk_pub h))%nat -> telemetry_slot d = Some slot -> slot_idle slot ->
  0 <= recv_ns <= steady_ns (now_clock now) -> steady_ns (now_clock now) < 2 ^ 64 ->
  (forall msg p, speaks v msg = true -> fs = encode v msg -> meaning v (now_wall_us now) channel_id msg = Some p ->
     reference undefined_cast v (now_wall_us now) channel_id fs (kind_of v fs) = Some p) /\
  exists q' m,
    OnMessage adapter pad iterate hash symbol channel_id (S fuel) env garbage alloc_ok recv_ns data shards
      = Some (<[shard := q']> shards) /\ sq_rep k q' R (l ++ [m]) /\ rm_size m <> 0 /\
    let handled := ParseAndDispatch K reg pad iterate now m (d, h) in
    match stamp (take 31 symbol) recv_ns <$> reference undefined_cast v (now_wall_us now) channel_id fs (kind_of v fs) with
    | None => handled = Some (d, h)
    | Some p =>
        let latency := steady_ns (now_clock now) - recv_ns in
        match store (now_clock now) latency (outgoing latency p) info (sk_router h) with
        | None => handled = None
        | Some r => exists d' h', handled = Some (d', h') /\ sk_router h' = r /\ worker_ok reg (sk_pub h') /\
            published_or_counted (outgoing latency p) (sk_pub h) (sk_pub h') /\
            exists slot', telemetry_slot d' = Some slot' /\ ReadTelemetrySlot 1 (fun _ => slot') =
              Some [latency; default 0 (sq_size <$> shard_queue d); 0; dropped_count K (sk_pub h')]
        end
    end.
Proof.
  intros size adapter shard Hg Hs Hp Hd Hb Hor Hq Hk Hrep Hroom Htot Hit Hdoc Hkind Hmok Hc Hl Hfit Hw Hsh Hslot Hidle Ht1 Ht2.
  split; [intros msg p Hsp -> Hme; rewrite (message_kind v msg Hsp); by apply reference_meaning|].
  destruct (message_reaches_parser K reg (adapter_of rounds undefined_cast v) pad iterate hash symbol channel_id fuel env garbage alloc_ok
    recv_ns data shards q k R l) as (m & Hm & Het & _ & Hpush & Hpd); try done.
  cbv zeta in Het, Hpd. fold size in Het, Hpd. rewrite (Hit _ (mo_data _ _ _ _ _ _ _ Hm)) in Het, Hpd.
  rewrite (venue_peek rounds undefined_cast v fs doc Hdoc) in Het. destruct Hpush as (q' & Hon & Hrep'); [congruence|].
  exists q', m. split; [done|]. split; [done|]. split; [rewrite (mo_size _ _ _ _ _ _ _ Hm); destruct data; [done|cbn; lia]|].
  cbv zeta. rewrite Hpd, (expected_dispatch_decoded K reg rounds undefined_cast v symbol channel_id recv_ns now fs doc (d, h)) by done.
  destruct (reference undefined_cast v (now_wall_us now) channel_id fs (kind_of v fs)) as [p|] eqn:Eref; [|done].
  cbn [fmap option_fmap option_map]. set (p' := stamp (take 31 symbol) recv_ns p).
  assert (Hch : payload_channel p' = channel_id).
  { unfold p'. rewrite stamp_channel. destruct (parsed rounds undefined_cast v channel_id (now_wall_us now) fs doc Hc Hdoc Hmok) as (r & _ & Hr & Hid).
    apply Hid. congruence. }
  destruct (dispatch_reaches_sinks reg (now_clock now) p' d h) as [_ Hsink]; try done.
  { unfold p'. by rewrite stamp_received. }
  specialize (Hsink (topic_fits_routable reg p' info ltac:(by rewrite Hch) Hfit) info ltac:(by rewrite Hch)). cbv zeta in Hsink.
  assert (Hrecv : received_at p' = recv_ns) by apply stamp_received. rewrite Hrecv in Hsink.
  destruct (store _ _ _ _ _) as [r|]; [|done]. destruct Hsink as (d' & h' & H1 & H2 & H3 & H4 & _ & H5).
  exists d', h'. split_and!; try done. destruct (H5 slot Hslot Hidle) as (slot' & S1 & _ & S2). by exists slot'.
Qed.

(** *** Witness *)

#[local] Instance pipe_tick_queue : FifoQueue (SPSCQueue TickData) TickData := spsc_fifo 1 one_bit.
#[local] Instance pipe_depth_queue : FifoQueue (SPSCQueue DepthUpdateEvent) DepthUpdateEvent := spsc_fifo 1 one_bit.
#[local] Instance pipe_ticker_queue : FifoQueue (SPSCQueue BookTickerEvent) BookTickerEvent := spsc_fifo 1 one_bit.

Definition pipe_disp : DataDispatcher (JDoc Dom) := mkDispatcher (Some slot0) (Some empty_shard) 0.
Definition pipe_now : Now := mkNow Dolphin.demo_clock 7.
Definition pipe_tick : Payload :=
  Eval vm_compute in default (TickPayload (tick_on 5 1)) (stamp (take 31 (bytes "BTCUSDT")) 77 <$> reference (fun _ => 0) BinanceSpot 7 5 demo_trade ET_TICK).

Lemma crypto_message_end_to_end_witness :
  exists q' m d' h',
    OnMessage (adapter_of (L := Dom) 5 (fun _ => 0) BinanceSpot) 64 trade_text (fun _ => 3) (bytes "BTCUSDT") 5 1 (fun _ q => q)
      (replicate (Z.to_nat kInlineSize) "x"%char) true 77 (bytes "{}") [empty_shard] = Some [q'] /\ sq_rep 1 q' 0 [m] /\
    ParseAndDispatch log_socket demo_reg 64 trade_text pipe_now m (pipe_disp, demo_sinks) = Some (d', h') /\
    published_or_counted (outgoing (steady_ns Dolphin.demo_clock - 77) pipe_tick) (sk_pub demo_sinks) (sk_pub h').
Proof.
  destruct (crypto_message_end_to_end log_socket demo_reg (L := Dom) 5 (fun _ => 0) BinanceSpot 64 trade_text (fun _ => 3) (bytes "BTCUSDT") 5
    0 (fun _ q => q) (replicate (Z.to_nat kInlineSize) "x"%char) true 77 (bytes "{}") [empty_shard] empty_shard 1 0 []
    demo_trade (JObj demo_trade) demo_info pipe_now pipe_disp demo_sinks slot0) as (_ & q' & m & H1 & H2 & _ & H3);
    [by rewrite length_replicate|apply (bool_decide_unpack _); vm_compute; exact I|lia|done|cbn; lia|by left|done|lia|apply empty_shard_rep|cbn; lia|cbn; lia
    |done|by repeat constructor|done|done|unfold in_range; lia|done|split; [done|cbn; unfold kMaxTopicLen; lia]|exact demo_worker_ok|cbn; lia|done|done|cbn; lia|cbn; lia|].
  assert (Href : stamp (take 31 (bytes "BTCUSDT")) 77 <$> reference (fun _ => 0) BinanceSpot 7 5 demo_trade (kind_of BinanceSpot demo_trade) = Some pipe_tick)
    by (vm_compute; reflexivity).
  cbv zeta in H3. change (now_wall_us pipe_now) with 7 in H3. change (now_clock pipe_now) with Dolphin.demo_clock in H3. rewrite Href in H3.
  change (sk_router demo_sinks) with demo_router in H3.
  assert (Hs : is_Some (store Dolphin.demo_clock (steady_ns Dolphin.demo_clock - 77) (outgoing (steady_ns Dolphin.demo_clock - 77) pipe_tick) demo_info demo_router))
    by (eexists; reflexivity).
  destruct Hs as [r Hr]. rewrite Hr in H3. destruct H3 as (d' & h' & H3 & _ & _ & H4 & _).
  exists q', m, d', h'. split; [exact H1|]. split; [exact H2|]. split; [exact H3|exact H4].
Defined.

(** ** Rithmic *)

(** A queue no producer is busy with: what it holds, and free slots behind it. *)
Section open_queue.
Context {A : Type} `{Inhabited A} (k : Z) (Hk : 1 <= k <= 62).

Record mq_open (q : MpscRithmicQueue A) (l : list A) : Prop := {
  op_holds : mq_holds k q l;
  op_write : mq_write_pos q = mq_read_pos q + Z.of_nat (length l);
  op_free : forall j, Z.of_nat (length l) <= j < Capacity k -> sequence (slot_at k q (mq_read_pos q + j)) = mq_read_pos q + j
}.

Lemma new_open : mq_open (mpsc_new k) [].
Proof using Hk.
  split; [by apply new_holds|done|]. intros j Hj. change (mq_read_pos (mpsc_new k)) with 0. cbn [length] in Hj.
  rewrite (new_slot_at k) by lia. done.
Qed.

(** With room, [TryPush] publishes the event at the end, whatever the other threads would do while it waits. *)
Lemma TryPush_open env q l x :
  mq_open q l -> Z.of_nat (length l) < Capacity k -> mq_read_pos q + Z.of_nat (length l) + 1 + Capacity k < 2 ^ 64 ->
  exists q', MpscQueue.TryPush k env x q = (true, q') /\ mq_open q' (l ++ [x]) /\ mq_read_pos q' = mq_read_pos q.
Proof using Hk.
  intros [[H1 H2 H3 H4 H5 H6] Hw Hf] Hroom Hb. pose proof (Capacity_pos k Hk) as HC.
  unfold MpscQueue.TryPush, reserve. rewrite Hw.
  set (w := mq_read_pos q + Z.of_nat (length l)) in *.
  set (q1 := mkMpsc (u64 (w + 1)) (mq_dropped q) (mq_slots q) (mq_read_pos q)).
  assert (Hfree : sequence (slot_at k q1 w) = w) by (apply (Hf (Z.of_nat (length l))); lia).
  rewrite Hfree, Z.eqb_refl. eexists. split; [reflexivity|]. rewrite wrap_small by (unfold in_range; lia).
  assert (Hlen : length (mq_slots q1) = Z.to_nat (Capacity k)) by done.
  assert (Hat : slot_at k (set_slot k w (mkMSlot (w + 1) x) q1) w = mkMSlot (w + 1) x) by (apply (slot_at_set_same k Hk q1); [done|done]).
  assert (Hother : forall j, 0 <= j < Capacity k -> j <> Z.of_nat (length l) ->
    slot_at k (set_slot k w (mkMSlot (w + 1) x) q1) (mq_read_pos q + j) = slot_at k q (mq_read_pos q + j)).
  { intros j Hj Hne. rewrite (slot_at_set_ne k q1); [done|]. intros He. apply (mslot_inj k Hk) in He; lia. }
  split; [|done]. split; [split|..]; cbn [mq_read_pos set_slot q1 mq_slots mq_write_pos]; rewrite ?length_insert, ?length_app; cbn [length]; try done; try lia.
  - intros i y Hi. apply lookup_app_Some in Hi as [Hi|[Hge Hi]].
    + pose proof (lookup_lt_Some _ _ _ Hi). rewrite Hother by lia. by apply H5.
    + apply list_lookup_singleton_Some in Hi as [Hi <-]. replace (Z.of_nat i) with (Z.of_nat (length l)) by lia. exact Hat.
  - assert (2 <= Capacity k) by (exact (Capacity_ge_2 k Hk)).
    destruct (decide (Z.of_nat (length l) + 1 = Capacity k)) as [Hfull|Hne].
    + assert (Hl : (0 < length l)%nat) by lia. destruct (lookup_lt_is_Some_2 l 0 Hl) as [y Hy].
      replace (mq_read_pos q + Z.of_nat (length l + 1)) with (mq_read_pos q + 0 + Capacity k) by lia.
      unfold slot_at at 1. rewrite (mslot_add_cap k Hk). fold (slot_at k (set_slot k w (mkMSlot (w + 1) x) q1) (mq_read_pos q + 0)).
      rewrite Hother by lia. pose proof (H5 0%nat y Hy) as Hfirst. change (Z.of_nat 0) with 0 in Hfirst. rewrite Hfirst. cbn [sequence]. lia.
    + rewrite Hother, Hf by lia. lia.
  - rewrite wrap_small by (unfold in_range; lia). lia.
  - intros j Hj. rewrite Hother by lia. apply Hf. lia.
Qed.

(** The gateway's pushes, one after the other. *)
Fixpoint push_list (env : nat -> MpscRithmicQueue A -> MpscRithmicQueue A) (l : list A) (q : MpscRithmicQueue A) : MpscRithmicQueue A :=
  match l with [] => q | x :: l => push_list env l (MpscQueue.TryPush k env x q).2 end.

Lemma push_list_open env l q l0 :
  mq_open q l0 -> Z.of_nat (length l0 + length l) <= Capacity k ->
  mq_read_pos q + Z.of_nat (length l0 + length l) + Capacity k < 2 ^ 64 -> mq_open (push_list env l q) (l0 ++ l).
Proof using Hk.
  revert q l0. induction l as [|x l IH]; intros q l0 Ho Hc Hb; cbn [push_list length] in *; [by rewrite app_nil_r|].
  destruct (TryPush_open env q l0 x Ho) as (q' & -> & Ho' & Hr); [lia|lia|]. cbn [snd].
  specialize (IH q' (l0 ++ [x]) Ho'). rewrite length_app, <- app_assoc in IH. cbn [length app] in IH. apply IH; lia.
Qed.
End open_queue.

Section rithmic.
Context {QT QD QB Doc : Type} `{!FifoQueue QT TickData} `{!FifoQueue QD DepthUpdateEvent} `{!FifoQueue QB BookTickerEvent}.
Context (K : Zmq) (reg : ChannelRegistry).

(** The latency an event has when it is handled in a round. *)
Definition latency_in (r : Round) (p : Payload) : Z := u64 (NowNs (rd_clock r) - received_at p).

(** Reference: the events stored one after the other, each with its latency and its channel... *)
Fixpoint store_all (rounds : nat -> Round) (ps : list Payload) (r : StorageRouter) : option StorageRouter :=
  match ps with
  | [] => Some r
  | p :: ps =>
      match Lookup (payload_channel p) reg with
      | None => store_all (fun n => rounds (S n)) ps r
      | Some info =>
          match store (rd_clock (rounds O)) (latency_in (rounds O) p) (outgoing (latency_in (rounds O) p) p) info r with
          | None => None
          | Some r => store_all (fun n => rounds (S n)) ps r
          end
      end
  end.

(** ... and as they are handed to the publisher. *)
Fixpoint outgoing_all (rounds : nat -> Round) (ps : list Payload) : list Payload :=
  match ps with
  | [] => []
  | p :: ps => outgoing (latency_in (rounds O) p) p :: outgoing_all (fun n => rounds (S n)) ps
  end.

(** Every event is in the publisher's queues or in the drop counter (which counts modulo [2^64]). *)
Definition accounted (evs : list Payload) (w w' : PubWorker QT QD QB K) : Prop :=
  exists kept dropped, evs ≡ₚ kept ++ dropped /\ all_items w' ≡ₚ all_items w ++ kept /\
    u64 (dropped_queue_count_ w') = u64 (dropped_queue_count_ w + Z.of_nat (length dropped)).

Lemma accounted_step p evs w w1 w2 :
  published_or_counted p w w1 -> accounted evs w1 w2 -> accounted (p :: evs) w w2.
Proof.
  intros Hp (kept & dropped & H1 & H2 & H3). destruct Hp as [[Hi Hd]|[Hi Hd]].
  - exists (p :: kept), dropped. split; [by rewrite H1|]. split; [rewrite H2, Hi; by rewrite <- Permutation_middle|]. by rewrite H3, Hd.
  - exists kept, (p :: dropped). split; [rewrite H1; by rewrite <- Permutation_middle|]. split; [by rewrite H2, Hi|].
    rewrite H3, Hd, wrap_add_l. cbn [length]. f_equal. lia.
Qed.

Lemma dispatch_all_sinks rounds ps (d : DataDispatcher Doc) (h : Sinks QT QD QB K) :
  worker_ok reg (sk_pub h) -> (shard_idx d < num_shards_ (sk_pub h))%nat ->
  Forall (fun p => routable reg p) ps ->
  match store_all rounds ps (sk_router h) with
  | None => dispatch_all K reg rounds ps (d, h) = None
  | Some r => exists d' h', dispatch_all K reg rounds ps (d, h) = Some (d', h') /\ sk_router h' = r /\ worker_ok reg (sk_pub h') /\
      accounted (outgoing_all rounds ps) (sk_pub h) (sk_pub h')
  end.
Proof.
  intros Hw Hs Hps. revert rounds d h Hw Hs. induction Hps as [|p ps Hp _ IH]; intros rounds d h Hw Hs; cbn [store_all dispatch_all outgoing_all].
  { exists d, h. split_and!; try done. exists [], []. split_and!; [done|by rewrite app_nil_r|cbn; by rewrite Z.add_0_r]. }
  assert (Hl : exists info, Lookup (payload_channel p) reg = Some info).
  { unfold routable, topic in Hp. destruct (Lookup (payload_channel p) reg) as [info|]; [by exists info|by destruct Hp]. }
  destruct Hl as [info Hl]. rewrite Hl, (dispatch_unfold K reg _ p d h info Hl). fold (latency_in (rounds O) p).
  set (out := outgoing (latency_in (rounds O) p) p).
  destruct (store _ _ out info (sk_router h)) as [r|]; [|done].
  destruct (publish_ok reg out (shard_idx d) (sk_pub h) Hw) as (P1 & P2 & P3); [by apply outgoing_routable|done|].
  cbv zeta. set (h1 := mkSinks r _). set (d1 := WriteTelemetry _ _ d h1).
  specialize (IH (fun n => rounds (S n)) d1 h1 P1). cbn [sk_router h1] in IH.
  assert (Hs1 : (shard_idx d1 < num_shards_ (sk_pub h1))%nat).
  { unfold d1. destruct (WriteTelemetry_queue K (latency_in (rounds O) p) d h1) as [_ ->]. cbn [sk_pub h1]. unfold publish in *. by rewrite P2. }
  specialize (IH Hs1). destruct (store_all _ ps r) as [r'|]; [|done].
  destruct IH as (d' & h' & I1 & I2 & I3 & I4). exists d', h'. split_and!; try done. by eapply accounted_step.
Qed.
End rithmic.

(** C11: The whole path of a Rithmic event, across the two processes.  The gateway handles any sequence of callbacks; its
    channel map and the collector's registry come from the same configuration.  When the events fit the shared-memory queues,
    the receiver hands every one of them to the dispatcher, once, each kind in the order of the callbacks; every one is on a
    channel the collector knows, is stored with its latency, and is queued for the publisher or counted as dropped; the
    queues are empty afterwards. *)
Theorem rithmic_callbacks_end_to_end {QT QD QB Doc : Type} `{!FifoQueue QT TickData} `{!FifoQueue QD DepthUpdateEvent} `{!FifoQueue QB BookTickerEvent}
    (K : Zmq) (c : RootConfig) (reg : ChannelRegistry) (r : Registration) (maxDepth : nat) (cbs : list (Gateway.Clock * callback))
    (rounds : nat -> Round) (fuel : nat) (d : DataDispatcher Doc) (h : Sinks QT QD QB K) env_t env_b env_d :
  registry_ok reg -> RegisterChannels c reg = (r, true) -> map_Forall (fun _ info => topic_fits info) (rg_registry r) ->
  Forall (fun cb => callback_ok maxDepth cb.2) cbs ->
  worker_ok (rg_registry r) (sk_pub h) -> (shard_idx d < num_shards_ (sk_pub h))%nat -> (forall n q, rd_env (rounds n) q = q) ->
  exists g, run_callbacks cbs (gateway_new (build_channel_map c).1 maxDepth) = Some g /\
    let events := in_order (m_ticks g) (m_tickers g) (m_depths g) in
    let receiver := mkReceiver (push_list tick_bits env_t (m_ticks g) (mpsc_new tick_bits))
      (push_list depth_bits env_d (m_depths g) (mpsc_new depth_bits)) (push_list ticker_bits env_b (m_tickers g) (mpsc_new ticker_bits)) false in
    (Z.of_nat (length (m_ticks g)) <= kTickQueueCapacity -> Z.of_nat (length (m_tickers g)) <= kBookTickerQueueCapacity ->
     Z.of_nat (length (m_depths g)) <= kDepthQueueCapacity -> (length events <= fuel)%nat ->
     Forall (fun p => exists info, Lookup (payload_channel p) (rg_registry r) = Some info /\ ci_type info = Futures) events /\
     let received := ReceiverRun K (rg_registry r) fuel rounds receiver (d, h) in
     match store_all (rg_registry r) rounds events (sk_router h) with
     | None => received = None
     | Some router => exists receiver' d' h', received = Some (receiver', (d', h')) /\ holds receiver' [] [] [] /\
         sk_router h' = router /\ worker_ok (rg_registry r) (sk_pub h') /\ accounted K (outgoing_all rounds events) (sk_pub h) (sk_pub h')
     end).
Proof.
  intros Hok Hr Htop Hcbs Hw Hs Henv.
  destruct (run_callbacks_ok cbs (gateway_new (build_channel_map c).1 maxDepth)) as (g & Hrun & Hg & Hmap); [apply gateway_new_ok|done|].
  exists g. split; [done|]. cbv zeta. intros Ht Hb Hd Hf. cbn [m_channelMap gateway_new] in Hmap.
  assert (Hknown : Forall (fun p => exists info, Lookup (payload_channel p) (rg_registry r) = Some info /\ ci_type info = Futures)
    (in_order (m_ticks g) (m_tickers g) (m_depths g))).
  { destruct Hg as [_ _ _ _ _ G1 G2 G3]. rewrite Hmap in *. unfold in_order. rewrite !Forall_app, !Forall_fmap. split_and!.
    - eapply Forall_impl; [exact G2|]. intros t [_ Hin]. by eapply registered_known.
    - eapply Forall_impl; [exact G3|]. intros t (_ & _ & _ & _ & Hin). by eapply registered_known.
    - eapply Forall_impl; [exact G1|]. intros t (_ & Hin & _). by eapply registered_known. }
  split; [done|].
  assert (Hroute : Forall (fun p => routable (rg_registry r) p) (in_order (m_ticks g) (m_tickers g) (m_depths g))).
  { eapply Forall_impl; [exact Hknown|]. intros p (info & Hi & _). by eapply topic_fits_routable, Htop. }
  pose proof (dispatch_all_sinks K (rg_registry r) rounds _ d h Hw Hs Hroute) as Hsinks.
  assert (Hholds : holds (mkReceiver (push_list tick_bits env_t (m_ticks g) (mpsc_new tick_bits))
      (push_list depth_bits env_d (m_depths g) (mpsc_new depth_bits)) (push_list ticker_bits env_b (m_tickers g) (mpsc_new ticker_bits)) false)
      (m_ticks g) (m_tickers g) (m_depths g)).
  { assert (1 <= tick_bits <= 62 /\ 1 <= depth_bits <= 62 /\ 1 <= ticker_bits <= 62) as (B1 & B2 & B3) by (unfold tick_bits, depth_bits, ticker_bits; lia).
    split; eapply op_holds; [apply (push_list_open _ B1 env_t _ _ [])|apply (push_list_open _ B3 env_b _ _ [])|apply (push_list_open _ B2 env_d _ _ [])];
      first [by apply new_open | unfold tick_bits, depth_bits, ticker_bits, Capacity, kTickQueueCapacity, kBookTickerQueueCapacity, kDepthQueueCapacity in *; cbn; lia]. }
  pose proof (receiver_empties_queues K (rg_registry r) rounds fuel _ (d, h) _ _ _ Hholds Henv Hf) as Hrecv.
  destruct (store_all _ _ _ _) as [router|]; [|by rewrite Hsinks in Hrecv].
  destruct Hsinks as (d' & h' & H1 & H2 & H3 & H4). rewrite H1 in Hrecv. destruct Hrecv as (rec' & R1 & R2). by exists rec', d', h'.
Qed.

(** *** Witness *)

Definition pipe_trade : TradeInfo := mkTrade (nchar "CME") (nchar "ESZ5") 5 7 (d_of_Z 2) 3 (nchar "B").
Definition pipe_reg : Registration := (RegisterChannels demo_config ∅).1.
Definition pipe_gateway : option Gateway := run_callbacks [(Gateway.demo_clock, CbTradePrint pipe_trade)] (gateway_new (build_channel_map demo_config).1 100).

Lemma pipe_registered : RegisterChannels demo_config ∅ = (pipe_reg, true).
Proof.
  unfold pipe_reg. destruct (RegisterChannels demo_config ∅) as [r b] eqn:E. f_equal.
  change (b = true). rewrite <- (f_equal snd E : (RegisterChannels demo_config ∅).2 = b). reflexivity.
Qed.

Lemma pipe_topics : map_Forall (fun _ info => topic_fits info) (rg_registry pipe_reg).
Proof. apply map_Forall_to_list. unfold topic_fits. vm_compute. repeat constructor; discriminate. Qed.

Lemma rithmic_callbacks_end_to_end_witness :
  exists g, pipe_gateway = Some g /\ length (m_ticks g) = 1%nat /\
    let events := in_order (m_ticks g) (m_tickers g) (m_depths g) in
    Forall (fun p => exists info, Lookup (payload_channel p) (rg_registry pipe_reg) = Some info /\ ci_type info = Futures) events.
Proof.
  destruct (rithmic_callbacks_end_to_end log_socket demo_config ∅ pipe_reg 100 [(Gateway.demo_clock, CbTradePrint pipe_trade)]
    (fun _ => mkRound Dolphin.demo_clock id) 1 (demo_disp two_messages) demo_sinks (fun _ q => q) (fun _ q => q) (fun _ q => q))
    as (g & Hg & H); [exact registry0_ok|exact pipe_registered|exact pipe_topics|by repeat constructor| |cbn; lia|done|].
  { split; [constructor; [|constructor]; split_and!; apply (rep_wf 1 one_bit _ 0 []), spsc0_rep, one_bit|by split|constructor]. }
  assert (Hl : option_map (fun g => (length (m_ticks g), length (m_tickers g), length (m_depths g))) pipe_gateway = Some (1, 0, 0)%nat)
    by (vm_compute; reflexivity).
  exists g. split; [exact Hg|]. change (run_callbacks _ _) with pipe_gateway in Hg. rewrite Hg in Hl. injection Hl as L1 L2 L3.
  split; [exact L1|]. apply H; unfold in_order, kTickQueueCapacity, kBookTickerQueueCapacity, kDepthQueueCapacity; rewrite ?length_app, ?length_fmap; lia.
Defined.
