(* ===== verification/Telemetry.v ===== *)
(** * Telemetry export

    [TelemetryAgent] (src/telemetry/telemetry_agent.cpp) reads every parser's
    telemetry slot and hands latency, queue depth and the count of dropped messages
    to [PrometheusExposer] (src/telemetry/prometheus_exposer.cpp), which keeps one gauge
    per channel and metric.  The Prometheus client library is a parameter; what the
    code relies on is the class [PrometheusOk]. *)
From Stdlib Require Import SpecFloat.
From S2P Require Import Prelude Doubles TelemetrySlot.

(** A family of gauges: [fam_add labels] is [Family::Add], [fam_value] what a scrape
    reports.  The labels are [{channel: i}] ([Some i]) or none ([None]). *)
Record Prometheus := mkProm {
  Family : Type;
  Gauge : Type;
  fam_empty : Family;
  fam_add : option Z -> Family -> Gauge * Family;
  gauge_set : Gauge -> double -> Family -> Family;
  fam_value : option Z -> Family -> option double
}.

(** Documented behaviour: [Add] returns a reference to the gauge of these labels, which stays valid; [Set] changes
    the value of that gauge and of no other. *)
Class PrometheusOk (P : Prometheus) := {
  owns : Family P -> option Z -> Gauge P -> Prop;
  add_owns l f : owns (fam_add P l f).2 l (fam_add P l f).1;
  add_keeps l f l' g : owns f l' g -> owns (fam_add P l f).2 l' g;
  add_value l f l' : l' <> l -> fam_value P l' (fam_add P l f).2 = fam_value P l' f;
  set_keeps g v f l' g' : owns f l' g' -> owns (gauge_set P g v f) l' g';
  set_value g v f l : owns f l g -> fam_value P l (gauge_set P g v f) = Some v;
  set_value_other g v f l l' : owns f l g -> l' <> l -> fam_value P l' (gauge_set P g v f) = fam_value P l' f
}.

Section telemetry.
Context (P : Prometheus).

(** One metric: its family, the cached gauges, and the labels [Add] was called with. *)
Record Metric := mkMetric { me_family : Family P; me_gauges : gmap (option Z) (Gauge P); me_added : list (option Z) }.
Definition metric0 : Metric := mkMetric (fam_empty P) ∅ [].

(** Source: src/telemetry/prometheus_exposer.h:44-52, PrometheusExposer (data members).
    The label-less gauge is cached under [None]. *)
Record PrometheusExposer := mkExposer { ex_latency : Metric; ex_queue_depth : Metric; ex_zmq_dropped : Metric }.

(** Find or create the cached gauge, then set it. *)
Definition set_gauge (l : option Z) (v : double) (m : Metric) : Metric :=
  match me_gauges m !! l with
  | Some g => mkMetric (gauge_set P g v (me_family m)) (me_gauges m) (me_added m)
  | None =>
      let '(g, f) := fam_add P l (me_family m) in
      mkMetric (gauge_set P g v f) (<[l := g]> (me_gauges m)) (me_added m ++ [l])
  end.

(** Source: src/telemetry/prometheus_exposer.cpp:19-39, PrometheusExposer::PrometheusExposer (metrics). *)
Definition exposer0 : PrometheusExposer := mkExposer metric0 metric0 metric0.

(** Source: src/telemetry/prometheus_exposer.cpp:49-57, PrometheusExposer::SetLatencyUs. *)
Definition SetLatencyUs (channel_id : Z) (value : double) (ex : PrometheusExposer) : PrometheusExposer :=
  mkExposer (set_gauge (Some channel_id) value (ex_latency ex)) (ex_queue_depth ex) (ex_zmq_dropped ex).

(** Source: src/telemetry/prometheus_exposer.cpp:59-67, PrometheusExposer::SetQueueDepth. *)
Definition SetQueueDepth (channel_id : Z) (value : double) (ex : PrometheusExposer) : PrometheusExposer :=
  mkExposer (ex_latency ex) (set_gauge (Some channel_id) value (ex_queue_depth ex)) (ex_zmq_dropped ex).

(** Source: src/telemetry/prometheus_exposer.cpp:69-76, PrometheusExposer::SetZmqDroppedTotal. *)
Definition SetZmqDroppedTotal (total : Z) (ex : PrometheusExposer) : PrometheusExposer :=
  mkExposer (ex_latency ex) (ex_queue_depth ex) (set_gauge None (d_of_Z total) (ex_zmq_dropped ex)).

(** Source: src/telemetry/telemetry_agent.cpp:29-29, TelemetryAgent::RegisterSlot.
    [slots_] holds pointers. *)
Definition RegisterSlot {Ptr : Type} (slot : Ptr) (slots_ : list Ptr) : list Ptr := slots_ ++ [slot].

(** [static_cast<double>(ns) / 1000.0] *)
Definition micros (ns : Z) : double := SFdiv prec64 emax64 (d_of_Z ns) (d_of_Z 1000).

Fixpoint poll_slots (fuel : nat) (i : nat) (slots : list (nat -> TelemetrySlot)) (ex : PrometheusExposer) : option PrometheusExposer :=
  match slots with
  | [] => Some ex
  | s :: slots' =>
      match ReadTelemetrySlot fuel s with
      | None => None
      | Some snapshot =>
          poll_slots fuel (S i) slots'
            (SetQueueDepth (Z.of_nat i) (d_of_Z (snapshot !!! 1%nat)) (SetLatencyUs (Z.of_nat i) (micros (snapshot !!! 0%nat)) ex))
      end
  end.

(** Source: src/telemetry/telemetry_agent.cpp:31-41, TelemetryAgent::PollAll.
    The slots behind the pointers, each as the sequence of contents that the accesses of a read find.
    [dropped] is [PubWorker::dropped_count()].  [None]: a read is still retrying after [fuel] rounds. *)
Definition PollAll (fuel : nat) (slots_ : list (nat -> TelemetrySlot)) (dropped : Z) (ex : PrometheusExposer) : option PrometheusExposer :=
  match poll_slots fuel 0 slots_ ex with
  | Some ex => Some (SetZmqDroppedTotal dropped ex)
  | None => None
  end.

(** What one round of the loop finds: the slots and the count of drops. *)
Record Round := mkRound { ro_slots : list (nat -> TelemetrySlot); ro_dropped : Z }.

(** Source: src/telemetry/telemetry_agent.cpp:50-57, TelemetryAgent::Run.
    [running n] is the flag at the [n]-th test; the sleep is not modelled.  [None]: still running after [rounds] rounds. *)
Fixpoint AgentRun (rounds fuel : nat) (running : nat -> bool) (world : nat -> Round) (ex : PrometheusExposer) : option PrometheusExposer :=
  match rounds with
  | O => None
  | S k =>
      if running O then
        match PollAll fuel (ro_slots (world O)) (ro_dropped (world O)) ex with
        | Some ex => AgentRun k fuel (fun n => running (S n)) (fun n => world (S n)) ex
        | None => None
        end
      else Some ex
  end.

(** ** Correctness *)

Context `{!PrometheusOk P}.

(** The cached gauges are the right ones, and [Add] was called once for each. *)
Record metric_ok (m : Metric) : Prop := {
  mk_owns : forall l g, me_gauges m !! l = Some g -> owns (me_family m) l g;
  mk_once : NoDup (me_added m);
  mk_cached : forall l, l ∈ me_added m <-> is_Some (me_gauges m !! l)
}.
Definition exposer_ok (ex : PrometheusExposer) : Prop :=
  metric_ok (ex_latency ex) /\ metric_ok (ex_queue_depth ex) /\ metric_ok (ex_zmq_dropped ex).

Definition value (l : option Z) (m : Metric) : option double := fam_value P l (me_family m).

Lemma metric0_ok : metric_ok metric0.
Proof.
  split; [intros l g H; change ((∅ : gmap (option Z) (Gauge P)) !! l = Some g) in H; by rewrite lookup_empty in H|constructor|].
  intros l. change (l ∈ [] <-> is_Some ((∅ : gmap (option Z) (Gauge P)) !! l)). rewrite lookup_empty. split; [by intros ?%elem_of_nil|by intros []].
Qed.

Lemma set_gauge_ok l v m :
  metric_ok m -> metric_ok (set_gauge l v m) /\ value l (set_gauge l v m) = Some v /\
  forall l', l' <> l -> value l' (set_gauge l v m) = value l' m.
Proof.
  intros [H1 H2 H3]. unfold set_gauge, value. destruct (me_gauges m !! l) as [g|] eqn:Eg.
  - cbn. split; [split; cbn; [|done|done]|].
    + intros l' g' Hg'. by apply set_keeps, H1.
    + split; [by apply set_value, H1|]. intros l' Hl. by apply (set_value_other _ _ _ l); [apply H1|].
  - pose proof (add_owns l (me_family m)) as Ho. pose proof (add_keeps l (me_family m)) as Hk. pose proof (add_value l (me_family m)) as Hv.
    destruct (fam_add P l (me_family m)) as [g f]. cbn in *. split; [split; cbn|].
    + intros l' g' Hg'. apply set_keeps. destruct (decide (l = l')) as [<-|]; [rewrite lookup_insert_eq in Hg'; by simplify_eq|].
      rewrite lookup_insert_ne in Hg' by done. by apply Hk, H1.
    + apply NoDup_app. split; [done|]. split; [|apply NoDup_singleton]. intros x Hx Hin. apply list_elem_of_singleton in Hin as ->.
      apply H3 in Hx. rewrite Eg in Hx. by destruct Hx.
    + intros l'. rewrite elem_of_app, list_elem_of_singleton, H3. destruct (decide (l = l')) as [<-|]; [rewrite lookup_insert_eq|rewrite lookup_insert_ne by done].
      * split; [done|by right].
      * split; [by intros [?|?]|by left].
    + split; [by apply set_value|]. intros l' Hl. rewrite (set_value_other _ _ _ l) by done. by apply Hv.
Qed.

Lemma poll_slots_ok fuel slots snaps k ex :
  exposer_ok ex -> Forall2 (fun s snap => ReadTelemetrySlot fuel s = Some snap) slots snaps ->
  exists ex', poll_slots fuel k slots ex = Some ex' /\ exposer_ok ex' /\ ex_zmq_dropped ex' = ex_zmq_dropped ex /\
    (forall i snap, snaps !! i = Some snap ->
       value (Some (Z.of_nat (k + i))) (ex_latency ex') = Some (micros (snap !!! 0%nat)) /\
       value (Some (Z.of_nat (k + i))) (ex_queue_depth ex') = Some (d_of_Z (snap !!! 1%nat))) /\
    (forall j, j < Z.of_nat k -> value (Some j) (ex_latency ex') = value (Some j) (ex_latency ex) /\
       value (Some j) (ex_queue_depth ex') = value (Some j) (ex_queue_depth ex)).
Proof.
  intros Hok Hf. revert k ex Hok. induction Hf as [|s snap slots snaps Hs _ IH]; intros k ex (O1 & O2 & O3); [by exists ex|].
  cbn [poll_slots]. rewrite Hs. unfold SetQueueDepth, SetLatencyUs. cbn [ex_latency ex_queue_depth ex_zmq_dropped].
  destruct (set_gauge_ok (Some (Z.of_nat k)) (micros (snap !!! 0%nat)) _ O1) as (L1 & L2 & L3).
  destruct (set_gauge_ok (Some (Z.of_nat k)) (d_of_Z (snap !!! 1%nat)) _ O2) as (Q1 & Q2 & Q3).
  destruct (IH (S k) (mkExposer _ _ (ex_zmq_dropped ex)) (conj L1 (conj Q1 O3))) as (ex' & He & Hok' & Hz & Hval & Hkeep). cbn [ex_latency ex_queue_depth ex_zmq_dropped] in *.
  exists ex'. split_and!; try done.
  - intros [|i] sn Hi; cbn in Hi.
    + simplify_eq. rewrite Nat.add_0_r. destruct (Hkeep (Z.of_nat k)) as [-> ->]; [lia|]. done.
    + rewrite Nat.add_succ_r. apply (Hval i sn Hi).
  - intros j Hj. destruct (Hkeep j) as [-> ->]; [lia|]. split; [apply L3|apply Q3]; intros [= ->]; lia.
Qed.

(** A run that sees the flag fall at test [n] has polled [n] times. *)
Lemma agent_run_stops n rounds fuel running world ex :
  (n < rounds)%nat -> (forall i, (i < n)%nat -> running i = true) -> running n = false ->
  (forall i ex, (i < n)%nat -> exposer_ok ex -> exists ex', PollAll fuel (ro_slots (world i)) (ro_dropped (world i)) ex = Some ex' /\ exposer_ok ex') ->
  exposer_ok ex -> exists ex', AgentRun rounds fuel running world ex = Some ex' /\ exposer_ok ex'.
Proof.
  revert rounds running world ex. induction n as [|n IH]; intros rounds running world ex Hr Ht Hf Hp Hok; (destruct rounds as [|rounds]; [lia|]); cbn [AgentRun].
  - rewrite Hf. by exists ex.
  - rewrite Ht by lia. destruct (Hp 0%nat ex) as (ex1 & -> & Hok1); [lia|done|]. apply IH; try done; [lia|..].
    + intros i Hi. apply Ht. lia.
    + intros i ex0 Hi. apply Hp. lia.
Qed.
End telemetry.

(** ** Properties *)

(** C21: A poll exports what the parsers wrote.  When every slot can be read, [PollAll] terminates and a scrape then reports, for every
    parser, its latency in microseconds and its queue depth as last written, and the total of dropped messages; each gauge is
    created once over any number of polls, so the client library's families never grow past one gauge per parser. *)
Theorem poll_exports_slots (P : Prometheus) `{!PrometheusOk P} (fuel : nat) (slots : list (nat -> TelemetrySlot)) (snaps : list (list Z))
    (dropped : Z) (ex : PrometheusExposer P) :
  exposer_ok P ex -> Forall2 (fun s snap => ReadTelemetrySlot fuel s = Some snap) slots snaps ->
  exists ex', PollAll P fuel slots dropped ex = Some ex' /\ exposer_ok P ex' /\
    fam_value P None (me_family P (ex_zmq_dropped P ex')) = Some (d_of_Z dropped) /\
    (forall i snap, snaps !! i = Some snap ->
       fam_value P (Some (Z.of_nat i)) (me_family P (ex_latency P ex')) = Some (micros (snap !!! 0%nat)) /\
       fam_value P (Some (Z.of_nat i)) (me_family P (ex_queue_depth P ex')) = Some (d_of_Z (snap !!! 1%nat))) /\
    NoDup (me_added P (ex_latency P ex')) /\ NoDup (me_added P (ex_queue_depth P ex')) /\ NoDup (me_added P (ex_zmq_dropped P ex')).
Proof.
  intros Hok Hf. destruct (poll_slots_ok P fuel slots snaps 0 ex Hok Hf) as (ex1 & He & (O1 & O2 & O3) & _ & Hv & _).
  unfold PollAll. rewrite He. eexists. split; [reflexivity|].
  destruct (set_gauge_ok P None (d_of_Z dropped) _ O3) as (Z1 & Z2 & _).
  split; [by split|]. split; [exact Z2|]. split; [exact Hv|]. split_and!; [apply O1|apply O2|apply Z1].
Qed.

(** *** Witness *)

(** A client library that keeps the values in a map. *)
Definition map_prometheus : Prometheus := mkProm (gmap (option Z) double) (option Z) ∅
  (fun l f => (l, match f !! l with Some _ => f | None => <[l := dzero]> f end)) (fun g v f => <[g := v]> f) (fun l f => f !! l).

#[export] Instance map_prometheus_ok : PrometheusOk map_prometheus.
Proof.
  refine (Build_PrometheusOk map_prometheus (fun f l g => g = l) _ _ _ _ _ _); cbn; try done.
  - intros l f l' Hl. destruct (f !! l); [done|]. by rewrite lookup_insert_ne.
  - intros g v f l ->. by rewrite lookup_insert_eq.
  - intros g v f l l' -> Hl. by rewrite lookup_insert_ne.
Defined.

Lemma poll_exports_slots_witness :
  exists ex', PollAll map_prometheus 1 [fun _ => WriteTelemetrySlot slot0 2500 7 0 0] 3 (exposer0 map_prometheus) = Some ex' /\
    fam_value map_prometheus (Some 0) (me_family map_prometheus (ex_queue_depth map_prometheus ex')) = Some (d_of_Z 7).
Proof.
  destruct (poll_exports_slots map_prometheus 1 [fun _ => WriteTelemetrySlot slot0 2500 7 0 0] [[2500; 7; 0; 0]] 3 (exposer0 map_prometheus))
    as (ex' & H & _ & _ & Hv & _); [split_and!; apply metric0_ok|by repeat constructor|].
  exists ex'. split; [exact H|]. apply (Hv 0%nat [2500; 7; 0; 0]). reflexivity.
Defined.
