(* ===== verification/Factory.v ===== *)
(** * Building and stopping the crypto subsystem

    [BuildCryptoSubsystem] (src/exchange/crypto/crypto_factory.cpp) reads the
    configuration, registers every enabled symbol with the channel registry and the
    storage router, creates one [SymbolChannel] per symbol and one queue, telemetry
    slot and parser per parser core; [DrainQueues] ends the parsers.  [main]
    (src/main.cpp) freezes the storage channels before the Rithmic manager
    registers its own. *)
From S2P Require Import Channel.
From S2P Require Import Prelude Doubles Events Exchange Config Timestamp SpscQueue ShardQueue TelemetrySlot Schema Dolphin ProcessManager Router Json OnDemand Binance Gateio PubWorker Dispatcher Ingest Telemetry.

Section factory.
Context {L : Simdjson} (fuel : nat) (undefined_cast : double -> Z).

(** Source: src/exchange/crypto/crypto_factory.cpp:25-30, GetAdapter. *)
Definition GetAdapter (exchange_name : string) (channel_type : ChannelType) : option (ExchangeAdapter L) :=
  if (exchange_name =? "binance")%string then
    Some (match channel_type with Spot => kBinanceSpotAdapter fuel | _ => kBinancePerpetualAdapter fuel end)
  else if (exchange_name =? "gateio")%string then
    Some (match channel_type with Spot => kGateioSpotAdapter fuel undefined_cast | _ => kGateioPerpetualAdapter fuel end)
  else None.

(** Source: src/exchange/crypto/crypto_factory.cpp:22-22, kShardQueueCapacity. *)
Definition kShardQueueCapacity : Z := 4096.

(** Source: src/exchange/crypto/symbol_channel.cpp:41-49, SymbolChannel::SymbolChannel.
    What a channel is constructed with.  Pointers to shard queues are positions in
    [shard_queues]; the channel holds a copy of that vector. *)
Record ChannelSpec := mkSpec {
  sp_adapter : ExchangeAdapter L;
  sp_symbol : string;
  sp_depth_level : Z;
  sp_channel_id : Z;
  sp_shard_queues : list nat
}.

(** What the loops of [BuildCryptoChannels] build and change. *)
Record Building := mkBuilding {
  bu_queues : list nat;
  bu_channels : list ChannelSpec;
  bu_registry : ChannelRegistry;
  bu_router : StorageRouter
}.

(** A loop whose body may throw. *)
Fixpoint loop {X St} (body : X -> St -> option St) (l : list X) (s : St) : option St :=
  match l with
  | [] => Some s
  | x :: l' => match body x s with Some s' => loop body l' s' | None => None end
  end.

Definition crypto_info (ex : ExchangeConfig) (adapter : ExchangeAdapter L) (sym : SymbolConfig) : ChannelInfo :=
  mkChannel 0 (ec_name ex) (ad_channel_type adapter) (sy_name sym) (sy_depth_level sym) "".

Definition build_symbol (ex : ExchangeConfig) (adapter : ExchangeAdapter L) (sym : SymbolConfig) (b : Building) : option Building :=
  if sy_enabled sym then
    let info := crypto_info ex adapter sym in
    match Register info (bu_registry b) with
    | None => None
    | Some (id, reg) =>
        Some (mkBuilding (bu_queues b) (bu_channels b ++ [mkSpec adapter (sy_name sym) (sy_depth_level sym) id (bu_queues b)]) reg
                (RouterRegisterChannel id info (sy_persist_to_disk sym) (bu_router b)))
    end
  else Some b.

Definition build_channel (ex : ExchangeConfig) (ch : ChannelConfig) (b : Building) : option Building :=
  match ParseChannelType (cc_type ch) with
  | None => None
  | Some t => match GetAdapter (ec_name ex) t with
              | None => Some b
              | Some adapter => loop (build_symbol ex adapter) (cc_symbols ch) b
              end
  end.

Definition build_exchange (ex : ExchangeConfig) (b : Building) : option Building :=
  if ec_enabled ex then loop (build_channel ex) (ec_channels ex) b else Some b.

(** Source: src/exchange/crypto/crypto_factory.h:29-31, CryptoChannels (data members). *)
Record CryptoChannels := mkCrypto { cr_shard_queues : list (ShardQueue (JDoc L)); cr_channels : list ChannelSpec }.

(** Source: src/exchange/crypto/crypto_factory.cpp:32-63, BuildCryptoChannels.
    [None]: an exception, of an unknown channel type or of an identifier collision. *)
Definition BuildCryptoChannels (num_parsers : nat) (c : RootConfig) (reg : ChannelRegistry) (router : StorageRouter)
    : option (CryptoChannels * ChannelRegistry * StorageRouter) :=
  match mapM (fun _ => shard_queue_new kShardQueueCapacity) (seq 0 num_parsers) with
  | None => None
  | Some queues =>
      match loop build_exchange (rc_exchanges c) (mkBuilding (seq 0 num_parsers) [] reg router) with
      | None => None
      | Some b => Some (mkCrypto queues (bu_channels b), bu_registry b, bu_router b)
      end
  end.

(** A dispatcher as the handlers capture it: pointers to a telemetry slot and a queue. *)
Record CapturedDispatcher := mkCaptured { cd_telemetry_slot : nat; cd_shard_queue : nat; cd_shard_idx : nat }.

(** Source: src/exchange/crypto/shard_parser_worker.cpp:14-20, ShardParserWorker::ShardParserWorker.
    The three handlers capture the same dispatcher. *)
Record ParserWorker := mkParser { pw_core_id : Z; pw_input_queue : nat; pw_handlers : CapturedDispatcher }.

(** Source: src/exchange/crypto/crypto_factory.h:55-61, CryptoParserPool (data members).
    The threads are in [Lifecycle]. *)
Record CryptoParserPool := mkPool { telemetry_slots : list TelemetrySlot; num_slots : nat; workers : list ParserWorker }.

(** Source: src/exchange/crypto/crypto_factory.cpp:73-81, BuildParserPool (loop body).
    The worker, and its slot registered with the telemetry agent ([slots_]). *)
Definition build_worker (parser_cores : list Z) (i : nat) (b : list ParserWorker * list nat) : option (list ParserWorker * list nat) :=
  match parser_cores !! i with
  | None => None
  | Some core =>
      let dispatcher := mkCaptured i i (parser_shard_idx i) in
      Some (b.1 ++ [mkParser core i dispatcher], RegisterSlot i b.2)
  end.

(** Source: src/exchange/crypto/crypto_factory.cpp:65-84, BuildParserPool.
    [slots_] are the pointers of the telemetry agent, positions in the pool's array.  [None]: fewer cores than queues. *)
Definition BuildParserPool (parser_cores : list Z) (crypto : CryptoChannels) (slots_ : list nat) : option (CryptoParserPool * list nat) :=
  let n := length (cr_shard_queues crypto) in
  match loop (build_worker parser_cores) (seq 0 n) ([], slots_) with
  | None => None
  | Some (ws, slots_) => Some (mkPool (replicate n slot0) n ws, slots_)
  end.

(** What a worker's dispatcher finds behind its pointers. *)
Definition worker_dispatcher (crypto : CryptoChannels) (pool : CryptoParserPool) (w : ParserWorker) : DataDispatcher (JDoc L) :=
  mkDispatcher (telemetry_slots pool !! cd_telemetry_slot (pw_handlers w)) (cr_shard_queues crypto !! cd_shard_queue (pw_handlers w))
    (cd_shard_idx (pw_handlers w)).

(** Source: src/exchange/crypto/crypto_factory.cpp:108-132, BuildCryptoSubsystem.
    [None]: the start-up ends with [EXIT_FAILURE]. *)
Definition BuildCryptoSubsystem (c : RootConfig) (reg : ChannelRegistry) (router : StorageRouter) (slots_ : list nat)
    : option (CryptoChannels * CryptoParserPool * list nat * ChannelRegistry * StorageRouter) :=
  let num_parsers := length (th_parser_cores (rc_threading c)) in
  if (num_parsers =? 0)%nat then None
  else match BuildCryptoChannels num_parsers c reg router with
       | None => None
       | Some (crypto, reg, router) =>
           match BuildParserPool (th_parser_cores (rc_threading c)) crypto slots_ with
           | None => None
           | Some (pool, slots_) => Some (crypto, pool, slots_, reg, router)
           end
       end.

(** Source: src/exchange/crypto/crypto_factory.h:41-43, CryptoChannels::DrainQueues.
    [None]: still waiting for room in a queue. *)
Definition DrainQueues (rounds : nat) (env : nat -> ShardQueue (JDoc L) -> ShardQueue (JDoc L)) (queues : list (ShardQueue (JDoc L)))
    : option (list (ShardQueue (JDoc L))) :=
  mapM (PushPoisonPill rounds env) queues.

(** Source: src/exchange/crypto/crypto_factory.h:33-35, CryptoChannels::Start.
    Every channel with its own event state; [now_sec] is the clock it reads. *)
Definition StartChannels (now_sec : Z) (channels : list (ChannelSpec * Channel.World)) : list (ChannelSpec * Channel.World) :=
  (fun cw => (cw.1, Channel.Start (sp_adapter cw.1) (sp_symbol cw.1) (sp_depth_level cw.1) now_sec cw.2)) <$> channels.

(** Source: src/exchange/crypto/crypto_factory.h:36-38, CryptoChannels::Stop. *)
Definition StopChannels (channels : list (ChannelSpec * Channel.World)) : list (ChannelSpec * Channel.World) :=
  (fun cw => (cw.1, Channel.Stop cw.2)) <$> channels.

(** ** What is built, stated without the loops *)

(** The symbols that get a channel, in the order of the configuration; [None]: an unknown channel type. *)
Definition planned_channel (ex : ExchangeConfig) (ch : ChannelConfig) : option (list (ExchangeConfig * ExchangeAdapter L * SymbolConfig)) :=
  match ParseChannelType (cc_type ch) with
  | None => None
  | Some t => Some (match GetAdapter (ec_name ex) t with
                    | None => []
                    | Some adapter => (fun s => (ex, adapter, s)) <$> filter (fun s => sy_enabled s = true) (cc_symbols ch)
                    end)
  end.

Definition enabled_channels (exs : list ExchangeConfig) : list (ExchangeConfig * ChannelConfig) :=
  concat ((fun ex => (fun ch => (ex, ch)) <$> ec_channels ex) <$> filter (fun ex => ec_enabled ex = true) exs).

Definition planned (c : RootConfig) : option (list (ExchangeConfig * ExchangeAdapter L * SymbolConfig)) :=
  match mapM (fun x => planned_channel x.1 x.2) (enabled_channels (rc_exchanges c)) with
  | Some ls => Some (concat ls)
  | None => None
  end.

Definition info_of (p : ExchangeConfig * ExchangeAdapter L * SymbolConfig) : ChannelInfo := crypto_info p.1.1 p.1.2 p.2.
Definition spec_of (queues : list nat) (p : ExchangeConfig * ExchangeAdapter L * SymbolConfig) : ChannelSpec :=
  mkSpec p.1.2 (sy_name p.2) (sy_depth_level p.2) (channel_id_of (info_of p)) queues.
Definition storage_of (p : ExchangeConfig * ExchangeAdapter L * SymbolConfig) : Z * ChannelInfo * bool :=
  (channel_id_of (info_of p), info_of p, sy_persist_to_disk p.2).

(** Building a list of planned channels. *)
Definition build_planned (l : list (ExchangeConfig * ExchangeAdapter L * SymbolConfig)) (b : Building) : option Building :=
  match Exchange.register_all (info_of <$> l) (bu_registry b) with
  | None => None
  | Some reg => Some (mkBuilding (bu_queues b) (bu_channels b ++ (spec_of (bu_queues b) <$> l)) reg (Router.register_all (storage_of <$> l) (bu_router b)))
  end.

Lemma mapM_cons {A B} (f : A -> option B) x l :
  mapM f (x :: l) = f x ≫= fun y => mapM f l ≫= fun ys => Some (y :: ys).
Proof. done. Qed.

Lemma register_all_app l1 l2 reg :
  Exchange.register_all (l1 ++ l2) reg = match Exchange.register_all l1 reg with Some reg' => Exchange.register_all l2 reg' | None => None end.
Proof.
  revert reg. induction l1 as [|i l1 IH]; intros reg; [done|]. cbn [app Exchange.register_all].
  destruct (Register i reg) as [[id reg']|]; [apply IH|done].
Qed.

Lemma build_planned_app l1 l2 b :
  build_planned (l1 ++ l2) b = match build_planned l1 b with Some b' => build_planned l2 b' | None => None end.
Proof.
  unfold build_planned. rewrite fmap_app, register_all_app. destruct (Exchange.register_all (info_of <$> l1) _) as [reg|]; [|done].
  cbn [bu_registry bu_channels bu_router]. destruct (Exchange.register_all (info_of <$> l2) reg); [|done].
  unfold Router.register_all. by rewrite !fmap_app, foldl_app, app_assoc.
Qed.

Lemma build_planned_nil b : build_planned [] b = Some b.
Proof. unfold build_planned. cbn. rewrite app_nil_r. by destruct b. Qed.

Lemma Register_id info reg id reg' : Register info reg = Some (id, reg') -> id = channel_id_of info.
Proof. unfold Register. intros H. repeat case_match; by simplify_eq. Qed.

Lemma loop_symbols ex adapter syms b :
  loop (build_symbol ex adapter) syms b =
  build_planned ((fun s => (ex, adapter, s)) <$> filter (fun s => sy_enabled s = true) syms) b.
Proof.
  revert b. induction syms as [|s syms IH]; intros b; [by rewrite build_planned_nil|]. cbn [loop]. rewrite filter_cons.
  unfold build_symbol at 1. destruct (sy_enabled s) eqn:E; case_decide; try done.
  rewrite fmap_cons. change (?x :: ?l) with ([x] ++ l). rewrite build_planned_app. unfold build_planned at 1. cbn [fmap list_fmap Exchange.register_all].
  destruct (Register (info_of (ex, adapter, s)) (bu_registry b)) as [[id reg]|] eqn:Er; unfold info_of in Er; cbn in Er; rewrite Er; [|done].
  rewrite IH. apply Register_id in Er as ->. done.
Qed.

Lemma loop_app {X St} (body : X -> St -> option St) l1 l2 s :
  loop body (l1 ++ l2) s = match loop body l1 s with Some s' => loop body l2 s' | None => None end.
Proof. revert s. induction l1 as [|x l1 IH]; intros s; [done|]. cbn. destruct (body x s); [apply IH|done]. Qed.

Lemma loop_fmap {X Y St} (body : X -> St -> option St) (f : Y -> X) l s : loop body (f <$> l) s = loop (fun y => body (f y)) l s.
Proof. revert s. induction l as [|x l IH]; intros s; [done|]. cbn. destruct (body (f x) s); [apply IH|done]. Qed.

Lemma loop_exchanges exs b :
  loop build_exchange exs b = loop (fun x => build_channel x.1 x.2) (enabled_channels exs) b.
Proof.
  revert b. induction exs as [|ex exs IH]; intros b; [done|]. cbn [loop]. unfold enabled_channels. rewrite filter_cons.
  unfold build_exchange at 1. destruct (ec_enabled ex); case_decide; try done.
  rewrite fmap_cons. cbn [concat]. rewrite loop_app, loop_fmap. cbn [fst snd]. destruct (loop (build_channel ex) (ec_channels ex) b); [apply IH|done].
Qed.

Lemma build_channel_planned ex ch b :
  build_channel ex ch b = match planned_channel ex ch with Some l => build_planned l b | None => None end.
Proof.
  unfold build_channel, planned_channel. destruct (ParseChannelType (cc_type ch)) as [t|]; [|done].
  destruct (GetAdapter (ec_name ex) t); [apply loop_symbols|symmetry; apply build_planned_nil].
Qed.

Lemma loop_planned l b :
  loop (fun x => build_channel x.1 x.2) l b =
  match mapM (fun x => planned_channel x.1 x.2) l with Some ls => build_planned (concat ls) b | None => None end.
Proof.
  revert b. induction l as [|[ex ch] l IH]; intros b; [symmetry; apply build_planned_nil|]. cbn [loop]. rewrite mapM_cons. cbn [fst snd].
  rewrite build_channel_planned. destruct (planned_channel ex ch) as [here|]; [|done]. cbn [mbind option_bind].
  destruct (mapM _ l) as [ls|] eqn:El; cbn [mbind option_bind concat]; rewrite ?build_planned_app; destruct (build_planned here b); done.
Qed.

Lemma loop_build c b :
  loop build_exchange (rc_exchanges c) b = match planned c with Some l => build_planned l b | None => None end.
Proof. rewrite loop_exchanges, loop_planned. unfold planned. by destruct (mapM _ _). Qed.

(** ** Queues and workers *)

Lemma shard_queue_4096 : exists q : ShardQueue (JDoc L), shard_queue_new kShardQueueCapacity = Some q /\ sq_rep 12 q 0 [].
Proof.
  destruct (shard_queue_new_rep (Doc := JDoc L) kShardQueueCapacity) as (q & e & Hq & He & Hb & Hm & Hr); [unfold kShardQueueCapacity; lia|].
  assert (e = 12) as ->; [|by exists q]. unfold kShardQueueCapacity in *. change 4096 with (2 ^ 12) in Hb, Hm.
  apply Z.pow_le_mono_r_iff in Hb; [|lia..]. destruct Hm as [->|Hm]; [lia|]. apply Z.pow_lt_mono_r_iff in Hm; lia.
Qed.

Lemma queues_built n :
  exists qs, mapM (fun _ : nat => shard_queue_new (Doc := JDoc L) kShardQueueCapacity) (seq 0 n) = Some qs /\ length qs = n /\
    Forall (fun q => sq_rep 12 q 0 []) qs.
Proof.
  destruct shard_queue_4096 as (q & Hq & Hr). generalize 0%nat. induction n as [|n IH]; intros i; [by exists []|]. cbn [seq].
  destruct (IH (S i)) as (qs & Hqs & Hl & Hf). exists (q :: qs). rewrite mapM_cons. cbv beta. rewrite Hqs, Hq.
  split; [done|]. split; [cbn; by rewrite Hl|by constructor].
Qed.

Lemma workers_built (cores : list Z) n k ws slots_ :
  (k + n <= length cores)%nat ->
  loop (build_worker cores) (seq k n) (ws, slots_) =
    Some (ws ++ imap (fun i core => mkParser core (k + i)%nat (mkCaptured (k + i) (k + i) (k + i))) (take n (drop k cores)), slots_ ++ seq k n).
Proof.
  revert k ws slots_. induction n as [|n IH]; intros k ws slots_ Hl; [cbn; by rewrite !app_nil_r|]. cbn [seq loop].
  destruct (lookup_lt_is_Some_2 cores k) as [core Hc]; [lia|]. unfold build_worker at 1. rewrite Hc. cbn [fst snd].
  rewrite IH by lia. unfold RegisterSlot, parser_shard_idx. rewrite <- !app_assoc. rewrite (drop_S _ _ _ Hc). cbn [take imap app].
  rewrite Nat.add_0_r. do 4 f_equal. apply imap_ext. intros i x _. cbn. by rewrite Nat.add_succ_r.
Qed.

Lemma pool_built cores crypto slots_ :
  length (cr_shard_queues crypto) = length cores ->
  BuildParserPool cores crypto slots_ =
    Some (mkPool (replicate (length cores) slot0) (length cores) (imap (fun i core => mkParser core i (mkCaptured i i i)) cores),
          slots_ ++ seq 0 (length cores)).
Proof.
  intros Hl. unfold BuildParserPool. rewrite Hl, workers_built by done. cbn [app]. by rewrite drop_0, take_ge by done.
Qed.
End factory.

(** ** Properties *)

(** C9: What start-up builds from the configuration.  [BuildCryptoSubsystem] fails exactly when no parser core is
    configured, when an enabled exchange has a channel of an unknown type, or when registering the planned channels
    hits an identifier collision.  Otherwise it creates one channel per enabled symbol of every known, enabled
    exchange, in the order of the configuration, under the identifier of its exchange, type and symbol, with all shard
    queues; each is found in the registry and handed to the storage router in the same order with its persistence flag.  There
    is one empty queue of 4096 messages, one telemetry slot and one parser per core: the [i]-th parser has the [i]-th core, reads
    the [i]-th queue, reports that queue's depth in the [i]-th slot and publishes to shard [i], and the telemetry agent got
    the slots in this order.  Every message of every channel goes to one of these queues. *)
Theorem crypto_subsystem_built {L : Simdjson} (fuel : nat) (undefined_cast : double -> Z) (c : RootConfig) (reg : ChannelRegistry)
    (router : StorageRouter) (slots_ : list nat) (hash : string -> Z) :
  registry_ok reg ->
  let cores := th_parser_cores (rc_threading c) in
  match BuildCryptoSubsystem (L := L) fuel undefined_cast c reg router slots_ with
  | None => cores = [] \/ planned (L := L) fuel undefined_cast c = None \/
      exists l, planned (L := L) fuel undefined_cast c = Some l /\ Exchange.register_all (info_of <$> l) reg = None
  | Some (crypto, pool, slots', reg', router') =>
      exists l, planned fuel undefined_cast c = Some l /\ cr_channels crypto = spec_of (seq 0 (length cores)) <$> l /\
        Exchange.register_all (info_of <$> l) reg = Some reg' /\ router' = Router.register_all (storage_of <$> l) router /\
        (forall p, p ∈ l -> exists e, Lookup (channel_id_of (info_of p)) reg' = Some e /\ same_channel e (info_of p) = true) /\
        length (cr_shard_queues crypto) = length cores /\ Forall (fun q => sq_rep 12 q 0 []) (cr_shard_queues crypto) /\
        telemetry_slots pool = replicate (length cores) slot0 /\ slots' = slots_ ++ seq 0 (length cores) /\
        length (workers pool) = length cores /\
        (forall i core, cores !! i = Some core -> workers pool !! i = Some (mkParser core i (mkCaptured i i i))) /\
        (forall p, p ∈ l -> (shard_of p.1.2 hash (channel_id_of (info_of p)) (length (cr_shard_queues crypto)) < length (workers pool))%nat)
  end.
Proof.
  intros Hok cores. unfold BuildCryptoSubsystem, BuildCryptoChannels. fold cores.
  destruct (Nat.eqb_spec (length cores) 0) as [H0|Hpos]; [left; by apply nil_length_inv|].
  destruct (queues_built (L := L) (length cores)) as (qs & Hqs & Hl & Hf). rewrite Hqs, loop_build.
  destruct (planned fuel undefined_cast c) as [l|]; [|by right; left]. unfold build_planned. cbn [bu_registry bu_channels bu_router bu_queues].
  destruct (Exchange.register_all (info_of <$> l) reg) as [reg'|] eqn:Er; [|right; right; by exists l].
  cbn [bu_channels bu_registry bu_router app]. rewrite pool_built by done.
  destruct (Exchange.register_all_ok _ _ _ Hok Er) as (_ & _ & Hall).
  exists l. cbn [cr_channels cr_shard_queues telemetry_slots workers]. rewrite length_imap. split_and!; try done.
  - intros p Hp. apply (Hall (info_of p)). by apply list_elem_of_fmap_2.
  - intros i core Hc. by rewrite list_lookup_imap, Hc.
  - intros p _. rewrite Hl. apply shard_of_lt. lia.
Qed.

(** One poison pill at the end of every queue that has room. *)
Lemma drain_pushes {L : Simdjson} rounds env (queues : list (ShardQueue (JDoc L))) (contents : list (Z * list (RawMessage (JDoc L)))) k :
  0 <= k <= 63 ->
  Forall2 (fun q c => sq_rep k q c.1 c.2 /\ (length c.2 < Z.to_nat (2 ^ k))%nat /\ c.1 + Z.of_nat (length c.2) + 1 < 2 ^ 64) queues contents ->
  exists queues', DrainQueues (S rounds) env queues = Some queues' /\
    Forall2 (fun q c => sq_rep k q c.1 (c.2 ++ [raw0])) queues' contents.
Proof.
  intros Hk Hf. induction Hf as [|q [R l] queues contents (Hr & Hroom & Ht) _ (queues' & IH1 & IH2)]; [by exists []|].
  cbn [fst snd] in *. unfold DrainQueues in *. rewrite mapM_cons, IH1. unfold PushPoisonPill at 1. cbn [Push].
  pose proof (TryPush_rep k q R l raw0 Hk Hr Ht) as Hp. apply Nat.ltb_lt in Hroom. rewrite Hroom in Hp. destruct Hp as (q' & -> & Hr').
  eexists. split; [reflexivity|]. by constructor.
Qed.

(** C14: Draining ends every parser without losing a message.  With room in each queue, [DrainQueues] appends one poison pill
    to every queue; a parser that then runs on its queue (nothing else arriving) handles exactly the messages that were
    queued, each once and in order, and returns with the queue empty, within one round per message and one for the
    pill (or ends the process, exactly when handling one of these messages does). *)
Theorem drain_stops_parsers {QT QD QB} {L : Simdjson} `{!FifoQueue QT TickData} `{!FifoQueue QD DepthUpdateEvent} `{!FifoQueue QB BookTickerEvent}
    (K : Zmq) (reg : ChannelRegistry) (pad : Z) (iterate : list ascii -> Z -> Z -> option (JDoc L)) (k : Z) (rounds spins : nat)
    (env : nat -> ShardQueue (JDoc L) -> ShardQueue (JDoc L)) (turns : nat -> Turn (Doc := JDoc L))
    (queues : list (ShardQueue (JDoc L))) (contents : list (Z * list (RawMessage (JDoc L)))) :
  0 <= k <= 63 -> (forall n q, tn_arrive (turns n) q = q) ->
  Forall2 (fun q c => sq_rep k q c.1 c.2 /\ (length c.2 < Z.to_nat (2 ^ k))%nat /\ c.1 + Z.of_nat (length c.2) + 1 < 2 ^ 64) queues contents ->
  Forall (fun c => Forall (fun m => rm_size m <> 0) c.2) contents ->
  exists queues', DrainQueues (S rounds) env queues = Some queues' /\
    forall i q R ms (s : DataDispatcher (JDoc L) * Sinks QT QD QB K) fuel,
      queues' !! i = Some q -> contents !! i = Some (R, ms) -> shard_queue s.1 = Some q -> (length ms < fuel)%nat ->
      Run K reg pad iterate fuel (S spins) turns s = handle_all K reg pad iterate turns ms s /\
      forall s', handle_all K reg pad iterate turns ms s = Some s' ->
        exists q', shard_queue s'.1 = Some q' /\ sq_rep k q' (R + Z.of_nat (length ms) + 1) [].
Proof.
  intros Hk Ha Hf Hms. destruct (drain_pushes rounds env queues contents k Hk Hf) as (queues' & Hd & Hf').
  exists queues'. split; [done|]. intros i q R ms s fuel Hq Hc Hs Hl.
  pose proof (Forall2_lookup_lr _ _ _ _ _ _ Hf' Hq Hc) as Hr. pose proof (Forall_lookup_1 _ _ _ _ Hms Hc) as Hm.
  by apply (run_handles K reg pad iterate k ms raw0 [] turns fuel spins s q R).
Qed.

(** ** Start-up order

    [main] freezes the storage channels before the Rithmic manager registers the futures. *)

(** Source: src/main.cpp:33-44, main (registrations).
    The registrations of the crypto subsystem, the freeze, the registrations of the Rithmic manager. *)
Definition startup_registrations {L : Simdjson} (fuel : nat) (undefined_cast : double -> Z) (c : RootConfig) (reg : ChannelRegistry)
    (router : StorageRouter) : option (ChannelRegistry * StorageRouter) :=
  match BuildCryptoSubsystem (L := L) fuel undefined_cast c reg router [] with
  | None => None
  | Some (_, _, _, reg, router) =>
      let router := RouterFreezeChannels router in
      let r := (RegisterChannels c reg).1 in
      Some (rg_registry r, Router.register_all ((fun x => (sr_id x, sr_info x, sr_persist x)) <$> rg_storage r) router)
  end.

(** A registration after the freeze changes nothing with the DolphinDB engine. *)
Lemma register_frozen E dd p id info persist (s : DState (env_lib E) (MmapSink (env_os E))) :
  frozen_ (registry_ (dolphindb_ s.1.1)) = true ->
  RouterRegisterChannel id info persist (mkRouter p (existT (DolphinBackendI E dd) s)) = mkRouter p (existT (DolphinBackendI E dd) s).
Proof.
  intros Hf. unfold RouterRegisterChannel. destruct (_ || _); [done|]. unfold update. cbn -[DolphinRegisterChannel].
  destruct s as [[b w] f]. unfold DolphinRegisterChannel, ClientRegisterChannel, StorageRegister. cbn in Hf |- *. rewrite Hf.
  destruct b as [? ? [] ? ? ? ? ? ? ? ?]. reflexivity.
Qed.

Lemma register_all_frozen E dd p l (s : DState (env_lib E) (MmapSink (env_os E))) :
  frozen_ (registry_ (dolphindb_ s.1.1)) = true ->
  Router.register_all l (mkRouter p (existT (DolphinBackendI E dd) s)) = mkRouter p (existT (DolphinBackendI E dd) s).
Proof.
  intros Hf. unfold Router.register_all. induction l as [|[[id info] persist] l IH]; [done|]. cbn [foldl fst snd].
  by rewrite register_frozen.
Qed.

(** The channels the DolphinDB engine of a router knows. *)
Definition known {E} (s : DState (env_lib E) (MmapSink (env_os E))) (id : Z) : option ChannelMeta := Find id (registry_ (dolphindb_ s.1.1)).

(** Registering keeps the engine and adds the channel alone. *)
Lemma register_dolphin E dd p id info persist (s : DState (env_lib E) (MmapSink (env_os E))) :
  exists s' : DState (env_lib E) (MmapSink (env_os E)),
    RouterRegisterChannel id info persist (mkRouter p (existT (DolphinBackendI E dd) s)) = mkRouter p (existT (DolphinBackendI E dd) s') /\
    forall id', is_Some (known s' id') -> id' = id \/ is_Some (known s id').
Proof.
  unfold RouterRegisterChannel. destruct (_ || _); [exists s; by eauto|]. unfold update. cbn -[DolphinRegisterChannel].
  eexists. split; [reflexivity|]. intros id'. destruct s as [[b w] f]. unfold known, Find. cbn. unfold StorageRegister.
  destruct (frozen_ _); [by right|]. cbn. destruct (decide (id' = id)) as [->|Hne]; [by left|]. rewrite lookup_insert_ne by done. by right.
Qed.

Lemma register_all_dolphin E dd p l (s : DState (env_lib E) (MmapSink (env_os E))) :
  exists s' : DState (env_lib E) (MmapSink (env_os E)), Router.register_all l (mkRouter p (existT (DolphinBackendI E dd) s)) = mkRouter p (existT (DolphinBackendI E dd) s') /\
    forall id, is_Some (known s' id) -> id ∈ (fun x => x.1.1) <$> l \/ is_Some (known s id).
Proof.
  unfold Router.register_all. revert s. induction l as [|[[id info] persist] l IH]; intros s; [exists s; by eauto|]. cbn [foldl fst snd].
  destruct (register_dolphin E dd p id info persist s) as (s1 & -> & H1). destruct (IH s1) as (s2 & -> & H2). exists s2. split; [done|].
  intros id' [Hin|[->|Hk]%H1]%H2; [left; by right|left; left|by right].
Qed.

(** A crypto channel is never a futures channel. *)
Lemma planned_not_futures {L : Simdjson} fuel undefined_cast c l p :
  planned (L := L) fuel undefined_cast c = Some l -> p ∈ l -> ci_type (info_of p) <> Futures.
Proof.
  unfold planned. destruct (mapM _ _) as [ls|] eqn:Em; [|done]. intros [= <-] Hp. apply mapM_Some in Em.
  apply list_elem_of_In, in_concat in Hp as (l1 & Hl1 & Hp%list_elem_of_In). apply list_elem_of_In, list_elem_of_lookup in Hl1 as [i Hi].
  destruct (Forall2_lookup_r _ _ _ _ _ Em Hi) as ([ex ch] & _ & Hc). unfold planned_channel in Hc. cbn [fst snd] in Hc.
  destruct (ParseChannelType _) as [t|]; [|done]. injection Hc as <-. unfold GetAdapter in Hp.
  destruct (_ =? "binance")%string; [|destruct (_ =? "gateio")%string; [|by apply elem_of_nil in Hp]];
    apply list_elem_of_fmap in Hp as (sy & -> & _); by destruct t.
Qed.

Lemma crypto_router {L : Simdjson} fuel undefined_cast c reg router slots_ crypto pool slots' reg1 router1 :
  BuildCryptoSubsystem (L := L) fuel undefined_cast c reg router slots_ = Some (crypto, pool, slots', reg1, router1) ->
  exists l, planned (L := L) fuel undefined_cast c = Some l /\ Exchange.register_all (info_of <$> l) reg = Some reg1 /\
    router1 = Router.register_all (storage_of <$> l) router.
Proof.
  unfold BuildCryptoSubsystem, BuildCryptoChannels. rewrite loop_build. intros H. repeat case_match; simplify_eq.
  unfold build_planned in *. cbn [bu_router bu_registry bu_channels] in *. repeat case_match; simplify_eq. eauto.
Qed.

(** The storage after start-up: what the crypto subsystem left, frozen. *)
Lemma frozen_router {L : Simdjson} fuel undefined_cast c reg E dd p (s : DState (env_lib E) (MmapSink (env_os E))) reg' router' :
  startup_registrations (L := L) fuel undefined_cast c reg (mkRouter p (existT (DolphinBackendI E dd) s)) = Some (reg', router') ->
  exists l reg1 s', planned (L := L) fuel undefined_cast c = Some l /\ Exchange.register_all (info_of <$> l) reg = Some reg1 /\
    reg' = rg_registry (RegisterChannels c reg1).1 /\ router' = mkRouter p (existT (DolphinBackendI E dd) s') /\
    forall id, is_Some (known s' id) -> (exists q, q ∈ l /\ id = channel_id_of (info_of q)) \/ is_Some (known s id).
Proof.
  unfold startup_registrations. destruct (BuildCryptoSubsystem _ _ _ _ _ _) as [[[[[crypto pool] slots'] reg1] router1]|] eqn:Eb; [|done].
  destruct (crypto_router _ _ _ _ _ _ _ _ _ _ _ Eb) as (l & Hp & Hreg & ->). intros [= <- <-].
  destruct (register_all_dolphin E dd p (storage_of <$> l) s) as (s1 & -> & Hk).
  exists l, reg1, (DolphinFreezeChannels _ _ s1). split_and!; [done|done|done| |].
  - unfold RouterFreezeChannels, update. cbn -[DolphinFreezeChannels Router.register_all]. apply register_all_frozen.
    by destruct s1 as [[b w] f].
  - intros id Hid. destruct (Hk id) as [Hin|?]; [by destruct s1 as [[b w] f]|left|by right].
    rewrite <- list_fmap_compose in Hin. apply list_elem_of_fmap in Hin as (q & -> & Hq). by exists q.
Qed.

(** C39: The futures are registered too late for the DolphinDB engine: after start-up the engine, which knew no channel before, knows
    no channels but those of the crypto subsystem; and when the registration of the futures met no identifier collision, each
    enabled futures symbol of the configuration is found in the channel registry but unknown to the engine,
    whatever its persistence flag. *)
Theorem futures_registered_after_freeze {L : Simdjson} (fuel : nat) (undefined_cast : double -> Z) (c : RootConfig) (reg : ChannelRegistry)
    (E : Environment) (dd : DolphinDBConfig) (p : bool) (s : DState (env_lib E) (MmapSink (env_os E))) reg' router' :
  registry_ok reg -> (forall id, known s id = None) ->
  startup_registrations (L := L) fuel undefined_cast c reg (mkRouter p (existT (DolphinBackendI E dd) s)) = Some (reg', router') ->
  exists l reg1 s', planned (L := L) fuel undefined_cast c = Some l /\ Exchange.register_all (info_of <$> l) reg = Some reg1 /\
    router' = mkRouter p (existT (DolphinBackendI E dd) s') /\
    (forall id, is_Some (known s' id) -> exists q, q ∈ l /\ id = channel_id_of (info_of q)) /\
    ((RegisterChannels c reg1).2 = true -> forall e sy, (e, sy) ∈ futures_symbols c -> sy_enabled sy = true ->
       let id := channel_id_of (futures_info e sy) in
       (exists i, Lookup id reg' = Some i /\ same_channel i (futures_info e sy) = true) /\ known s' id = None).
Proof.
  intros Hok Hnone Hst. destruct (frozen_router _ _ _ _ _ _ _ _ _ _ Hst) as (l & reg1 & s' & Hp & Hreg & -> & -> & Hk).
  destruct (Exchange.register_all_ok _ _ _ Hok Hreg) as (Hok1 & _ & Hall).
  assert (Hk' : forall id, is_Some (known s' id) -> exists q, q ∈ l /\ id = channel_id_of (info_of q)).
  { intros id [?|[m Hm]]%Hk; [done|]. by rewrite Hnone in Hm. }
  exists l, reg1, s'. split_and!; try done. intros Hb e sy Hin Hen id.
  destruct (RegisterChannels c reg1) as [r b] eqn:Er. cbn [fst snd] in *. subst b.
  destruct (register_loop_ok _ (mkRegistration reg1 channel_map0 []) _ Hok1 Er) as (_ & Hsub & _ & Hfut). cbn [rg_registry] in Hsub.
  destruct (Hfut e sy Hin Hen) as (i & Hi & Hsame). split; [by exists i|].
  destruct (known s' id) as [m|] eqn:Em; [|done]. destruct (Hk' id) as (q & Hq & Hid); [by eexists|].
  destruct (Hall (info_of q)) as (j & Hj & Hsj); [by apply list_elem_of_fmap_2|]. rewrite <- Hid in Hj.
  assert (Hij : Lookup id (rg_registry r) = Some j) by (unfold Lookup in *; by eapply lookup_weaken). unfold id in Hij. rewrite Hi in Hij. injection Hij as ->.
  apply same_channel_spec in Hsame as (_ & Ht & _). apply same_channel_spec in Hsj as (_ & Hq' & _).
  destruct (planned_not_futures _ _ _ _ _ Hp Hq). by rewrite <- Hq', Ht.
Qed.

(** *** Witnesses *)

(** One enabled symbol, one disabled, an exchange without an adapter, and a futures exchange. *)
Definition demo_exchanges : list ExchangeConfig :=
  [mkExchangeCfg "binance" true [mkChannelCfg "spot" [mkSymbolCfg "BTCUSDT" true 20 true true; mkSymbolCfg "ETHUSDT" false 20 true true]];
   mkExchangeCfg "CME" true [mkChannelCfg "futures" [mkSymbolCfg "ESZ5" true 10 true true]]].
Definition factory_config : RootConfig :=
  mkRoot global0 threading0 telemetry_cfg0 pub_cfg0 storage_cfg0 rithmic_cfg0 demo_exchanges.
Definition demo_plan : list (ExchangeConfig * ExchangeAdapter OnDemand.Dom * SymbolConfig) :=
  [(mkExchangeCfg "binance" true [mkChannelCfg "spot" [mkSymbolCfg "BTCUSDT" true 20 true true; mkSymbolCfg "ETHUSDT" false 20 true true]],
    kBinanceSpotAdapter 5, mkSymbolCfg "BTCUSDT" true 20 true true)].

Lemma demo_planned : planned (L := OnDemand.Dom) 5 (fun _ => 0) factory_config = Some demo_plan.
Proof. reflexivity. Qed.
Lemma demo_registers : Exchange.register_all (info_of <$> demo_plan) ∅ <> None.
Proof. vm_compute. discriminate. Qed.

Lemma crypto_subsystem_built_witness :
  exists crypto pool slots' reg' router',
    BuildCryptoSubsystem (L := OnDemand.Dom) 5 (fun _ => 0) factory_config ∅ demo_router [] = Some (crypto, pool, slots', reg', router') /\
    cr_channels crypto = spec_of [0; 1]%nat <$> demo_plan /\ slots' = [0; 1]%nat /\
    workers pool !! 1%nat = Some (mkParser 4 1 (mkCaptured 1 1 1)).
Proof.
  pose proof (crypto_subsystem_built (L := OnDemand.Dom) 5 (fun _ => 0) factory_config ∅ demo_router [] (fun _ => 0) registry0_ok) as H.
  cbv zeta in H. destruct (BuildCryptoSubsystem _ _ _ _ _ _) as [[[[[crypto pool] slots'] reg'] router']|].
  - destruct H as (l & Hp & Hc & _ & _ & _ & _ & _ & _ & Hs & _ & Hw & _). rewrite demo_planned in Hp. injection Hp as <-.
    exists crypto, pool, slots', reg', router'. split; [reflexivity|]. split; [exact Hc|]. split; [exact Hs|]. apply Hw. reflexivity.
  - exfalso. destruct H as [H|[H|(l & Hp & Hr)]]; [discriminate H|by rewrite demo_planned in H|].
    rewrite demo_planned in Hp. injection Hp as <-. by apply demo_registers.
Defined.

#[local] Instance fac_tick_queue : FifoQueue (SPSCQueue TickData) TickData := spsc_fifo 1 one_bit.
#[local] Instance fac_depth_queue : FifoQueue (SPSCQueue DepthUpdateEvent) DepthUpdateEvent := spsc_fifo 1 one_bit.
#[local] Instance fac_ticker_queue : FifoQueue (SPSCQueue BookTickerEvent) BookTickerEvent := spsc_fifo 1 one_bit.

Definition still_turn : Turn (Doc := JDoc OnDemand.Dom) := mkTurn (mkNow demo_clock 0) (fun q => q) (fun _ q => q).

Definition waiting_raw : RawMessage (JDoc OnDemand.Dom) :=
  mkRaw (bytes "{}") None 0 2 5 77 (bytes "BTCUSDT") ET_TICK None.
Definition waiting_shard : ShardQueue (JDoc OnDemand.Dom) := mkShard 1 2 1 [waiting_raw; raw0] 0.

Lemma waiting_shard_rep : sq_rep 1 waiting_shard 0 [waiting_raw].
Proof. split; [|done..]. split; try done. intros [|i] x Hx; [exact Hx|done]. Qed.

(** One message is waiting when the pill is pushed. *)
Lemma drain_stops_parsers_witness :
  exists q, DrainQueues 1 (fun _ q => q) [waiting_shard] = Some [q] /\
    Run log_socket demo_reg 64 trade_text 2 1 (fun _ => still_turn) (mkDispatcher None (Some q) 0, demo_sinks) =
      handle_all log_socket demo_reg 64 trade_text (fun _ => still_turn) [waiting_raw] (mkDispatcher None (Some q) 0, demo_sinks).
Proof.
  destruct (drain_stops_parsers log_socket demo_reg 64 trade_text 1 0 0 (fun _ q => q) (fun _ => still_turn) [waiting_shard] [(0, [waiting_raw])])
    as (queues' & Hd & Hrun);
    [lia|done|constructor; [|constructor]; split; [apply waiting_shard_rep|cbn; lia]|repeat constructor; discriminate|].
  destruct queues' as [|q [|q' rest]]; [discriminate Hd| |discriminate Hd]. exists q. split; [exact Hd|].
  apply (Hrun 0%nat q 0 [waiting_raw] (mkDispatcher None (Some q) 0, demo_sinks) 2%nat); (reflexivity || (cbn; lia)).
Defined.

(** Start-up of that configuration with the DolphinDB engine. *)
Definition frozen_demo : option (ChannelRegistry * StorageRouter) :=
  startup_registrations (L := OnDemand.Dom) 5 (fun _ => 0) factory_config ∅
    (mkRouter true (existT (DolphinBackendI demo_env (st_dolphindb unpersisted_cfg)) unpersisted_state)).
Definition demo_future : ExchangeConfig * SymbolConfig :=
  (mkExchangeCfg "CME" true [mkChannelCfg "futures" [mkSymbolCfg "ESZ5" true 10 true true]], mkSymbolCfg "ESZ5" true 10 true true).

Lemma frozen_demo_starts : exists x, frozen_demo = Some x.
Proof.
  unfold frozen_demo, startup_registrations, BuildCryptoSubsystem, BuildCryptoChannels. rewrite loop_build, demo_planned.
  change (length (th_parser_cores (rc_threading factory_config))) with 2%nat. cbn [Nat.eqb].
  destruct (queues_built (L := OnDemand.Dom) 2) as (qs & -> & Hl & _). unfold build_planned. cbn [bu_registry].
  destruct (Exchange.register_all (info_of <$> demo_plan) ∅) eqn:Er; [|by apply demo_registers in Er].
  cbn [bu_channels bu_registry bu_router]. rewrite pool_built by exact Hl. by eexists.
Qed.

Lemma demo_future_no_collision reg1 :
  Exchange.register_all (info_of <$> demo_plan) ∅ = Some reg1 -> (RegisterChannels factory_config reg1).2 = true.
Proof. intros H. vm_compute in H. injection H as <-. vm_compute. reflexivity. Qed.

Lemma futures_registered_after_freeze_witness :
  exists reg' router', frozen_demo = Some (reg', router') /\
    exists s', router' = mkRouter true (existT (DolphinBackendI demo_env (st_dolphindb unpersisted_cfg)) s') /\
      let id := channel_id_of (futures_info demo_future.1 demo_future.2) in is_Some (Lookup id reg') /\ known s' id = None.
Proof.
  destruct frozen_demo_starts as [[reg' router'] H]. exists reg', router'. split; [exact H|].
  destruct (futures_registered_after_freeze (L := OnDemand.Dom) 5 (fun _ => 0) factory_config ∅ demo_env (st_dolphindb unpersisted_cfg) true unpersisted_state reg' router')
    as (l & reg1 & s' & Hp & Hr & Hs & _ & Hf); [exact registry0_ok|intros id; reflexivity|exact H|].
  rewrite demo_planned in Hp. injection Hp as <-. exists s'. split; [exact Hs|].
  destruct (Hf (demo_future_no_collision reg1 Hr) demo_future.1 demo_future.2) as [(i & Hi & _) Hk]; [left|reflexivity|].
  cbv zeta. split; [exists i; exact Hi|exact Hk].
Defined.
