(* ===== verification/Lifecycle.v ===== *)
(** * The life of the process

    [main] (src/main.cpp) creates the threads of the collector, waits for a
    signal and takes the threads down again.  Here the whole process is one
    transition system: the main thread runs a script of actions (thread
    creations, stores to stop flags, poison pills, joins), and the network
    thread, the parsers, the publisher, the telemetry agent and the two threads of
    the Rithmic manager take their steps in between, in any order.  What a round
    of a thread does to its data is in the files of the components; here a round is
    a few steps that other threads can come between.

    A shard queue is seen through its two positions and the messages stored at
    each position.  [Push] is two steps, the loads and the stores, because
    [main] pushes the poison pills while the network thread may still be pushing.
    [AWait] may pass at any moment: that is when the signal arrives. *)
From stdpp Require Import functions.
From S2P Require Import Prelude Doubles Events Csv SpscQueue Exchange ShardQueue TelemetrySlot Dolphin Router PubWorker Dispatcher Factory.

(** ** Threads and their phases *)

Inductive Thread := Network | Parser (i : nat) | Publisher | Telemetry | Receiver | Monitor.
#[export] Instance Thread_eq_dec : EqDecision Thread.
Proof. solve_decision. Defined.

(** Whether a message leads to an event: a text the library rejects, a message
    without event and an unknown channel lead to none. *)
Class Parsing (Doc : Type) := handled : RawMessage Doc -> bool.

(** What the parser worker does; [now m] are the clocks when it handles [m]. *)
Definition worker_parsing {Doc} (reg : ChannelRegistry) (pad : Z) (iterate : list ascii -> Z -> Z -> option Doc)
    (now : RawMessage Doc -> Now) : Parsing Doc :=
  fun m => dispatches reg pad iterate (now m) m.

Section lifecycle.
Context {Doc : Type} `{!Parsing Doc}.

(** What a handler of a dispatcher works on. *)
Inductive Job := JMessage (m : RawMessage Doc) | JEvent (p : Payload).

Inductive Phase :=
  | Idle                                    (* not created *)
  | Spawned                                 (* created, nothing done yet *)
  | Looping                                 (* at the head of its loop *)
  | Working                                 (* inside a round *)
  | Storing (x : Job)                       (* in a handler, before the storage call returned *)
  | Publishing (x : Job)                    (* in a handler, before the publish call returned *)
  | Pushing (i : nat) (m : RawMessage Doc)  (* in [ShardQueue::Push] *)
  | Writing (i : nat) (m : RawMessage Doc) (w : nat)  (* in [TryPush], room found, [write_pos_] read *)
  | Ending                                  (* left its loop *)
  | Done.

(** Source: src/exchange/shard_queue.h:78-82, ShardQueue (state).
    The slot of each position. *)
Record Ring := mkRing { rg_w : nat; rg_r : nat; rg_slots : nat -> RawMessage Doc }.

(** The three shared-memory queues the gateway process fills. *)
Record Pending := mkPending { pd_ticks : list TickData; pd_tickers : list BookTickerEvent; pd_depths : list DepthUpdateEvent }.

(** What the main thread does, one visible action at a time. *)
Inductive Act :=
  | ACreate (t : Thread)
  | ASetFlag (t : Thread) (b : bool)        (* [running_], [monitor_running_] *)
  | AWait | AStopChannels | AStopIo
  | APill (i : nat) | APillWrite (i w : nat)
  | AJoin (t : Thread)
  | AStopChild | AFlushAndClose | AStopExposer.
#[global] Instance Act_eq_dec : EqDecision Act.
Proof. solve_decision. Defined.

Inductive Event :=
  | EvPush (i : nat) (m : RawMessage Doc)   (* the network thread enqueued a message *)
  | EvStore (t : Thread) (x : Job) | EvPublish (t : Thread) (x : Job)
  | EvClose                                 (* [StorageRouter::FlushAndClose] *)
  | EvLeft (t : Thread)                     (* the thread saw its stop flag *)
  | EvDrained.                              (* [PubWorker::DrainAll] *)

Record St := mkSt {
  shards : nat;                             (* number of shard queues *)
  script : list Act;
  phase : Thread -> Phase;
  flag : Thread -> bool;
  io_stopped : bool;
  ring : nat -> Ring;
  shm : Pending;
  trace : list Event
}.

(** ** The main thread *)

(** Source: src/exchange/rithmic/rithmic_process_manager.cpp:207-221, RithmicProcessManager::StartThreads. *)
Definition StartThreads : list Act := [ASetFlag Monitor true; ACreate Receiver; ACreate Monitor].
(** Source: src/exchange/rithmic/rithmic_process_manager.cpp:227-261, RithmicProcessManager::Shutdown. *)
Definition ManagerShutdown : list Act :=
  [ASetFlag Monitor false; ASetFlag Receiver false; AJoin Receiver; AStopChild; AJoin Monitor].
(** Source: src/telemetry/telemetry_agent.cpp:43-48, TelemetryAgent::Start. *)
Definition TelemetryStart : list Act := [ACreate Telemetry].
(** Source: src/telemetry/telemetry_agent.cpp:59-63, TelemetryAgent::Stop. *)
Definition TelemetryStop : list Act := [ASetFlag Telemetry false; AJoin Telemetry; AStopExposer].
(** Source: src/pubsub/pub_worker.cpp:180-185, PubWorker::Start. *)
Definition PublisherStart : list Act := [ACreate Publisher].
(** Source: src/pubsub/pub_worker.cpp:187-190, PubWorker::Stop. *)
Definition PublisherStop : list Act := [ASetFlag Publisher false; AJoin Publisher].
(** Source: src/exchange/crypto/crypto_factory.cpp:86-96, CryptoParserPool::Run. *)
Definition PoolRun (n : nat) : list Act := (fun i => ACreate (Parser i)) <$> seq 0 n.
(** Source: src/exchange/crypto/crypto_factory.cpp:98-102, CryptoParserPool::Shutdown. *)
Definition PoolShutdown (n : nat) : list Act := (fun i => AJoin (Parser i)) <$> seq 0 n.
(** Source: src/exchange/crypto/crypto_factory.cpp:134-134, CryptoSubsystem::RunParsers. *)
Definition RunParsers (n : nat) : list Act := PoolRun n.
(** Source: src/exchange/crypto/crypto_factory.cpp:136-143, CryptoSubsystem::RunNetwork. *)
Definition RunNetwork : list Act := [ACreate Network].
(** Source: src/exchange/crypto/crypto_factory.cpp:145-148, CryptoSubsystem::StopNetwork. *)
Definition StopNetwork : list Act := [AStopChannels; AStopIo].
(** Source: src/exchange/crypto/crypto_factory.cpp:150-150, CryptoSubsystem::DrainQueues. *)
Definition PushPills (n : nat) : list Act := APill <$> seq 0 n.
(** Source: src/exchange/crypto/crypto_factory.cpp:152-155, CryptoSubsystem::Shutdown. *)
Definition CryptoShutdown (n : nat) : list Act := AJoin Network :: PoolShutdown n.

(** Source: src/main.cpp:42-73, main.
    [n] parsers; [rithmic] tells whether [CreateRithmicManager] returned a manager. *)
Definition main_script (n : nat) (rithmic : bool) : list Act :=
  (if rithmic then StartThreads else []) ++
  TelemetryStart ++ RunParsers n ++ RunNetwork ++ PublisherStart ++
  [AWait] ++ StopNetwork ++ (if rithmic then ManagerShutdown else []) ++
  PushPills n ++ CryptoShutdown n ++ [AFlushAndClose] ++ TelemetryStop ++ PublisherStop.

Definition set_script (l : list Act) (s : St) : St :=
  mkSt (shards s) l (phase s) (flag s) (io_stopped s) (ring s) (shm s) (trace s).
Definition set_phase (t : Thread) (p : Phase) (s : St) : St :=
  mkSt (shards s) (script s) (<[t := p]> (phase s)) (flag s) (io_stopped s) (ring s) (shm s) (trace s).
Definition set_flag (t : Thread) (b : bool) (s : St) : St :=
  mkSt (shards s) (script s) (phase s) (<[t := b]> (flag s)) (io_stopped s) (ring s) (shm s) (trace s).
Definition set_io_stopped (s : St) : St :=
  mkSt (shards s) (script s) (phase s) (flag s) true (ring s) (shm s) (trace s).
Definition set_ring (i : nat) (q : Ring) (s : St) : St :=
  mkSt (shards s) (script s) (phase s) (flag s) (io_stopped s) (<[i := q]> (ring s)) (shm s) (trace s).
Definition set_shm (p : Pending) (s : St) : St :=
  mkSt (shards s) (script s) (phase s) (flag s) (io_stopped s) (ring s) p (trace s).
Definition emit (e : Event) (s : St) : St :=
  mkSt (shards s) (script s) (phase s) (flag s) (io_stopped s) (ring s) (shm s) (trace s ++ [e]).

Definition cap : nat := Z.to_nat kShardQueueCapacity.

(** Source: src/exchange/shard_queue.cpp:23-25, ShardQueue::TryPush (loads).
    Positions are [size_t]: when [write_pos_] is behind [read_pos_] the difference wraps and the ring looks full. *)
Definition has_room (q : Ring) : bool := Nat.leb (rg_r q) (rg_w q) && Nat.ltb (rg_w q - rg_r q) cap.
(** Source: src/exchange/shard_queue.cpp:26-27, ShardQueue::TryPush (stores). *)
Definition ring_write (w : nat) (m : RawMessage Doc) (q : Ring) : Ring :=
  mkRing (S w) (rg_r q) (<[w := m]> (rg_slots q)).
(** Source: src/exchange/shard_queue.cpp:35-42, ShardQueue::TryPop. *)
Definition ring_pop (q : Ring) : option (RawMessage Doc * Ring) :=
  if Nat.leb (rg_w q) (rg_r q) then None
  else Some (rg_slots q (rg_r q), mkRing (rg_w q) (S (rg_r q)) (rg_slots q)).

Definition is_done (p : Phase) : bool := match p with Done => true | _ => false end.

(** One action of the main thread; [None]: it waits, or has returned. *)
Definition exec_main (s : St) : option St :=
  match script s with
  | [] => None
  | a :: rest =>
      let s' := set_script rest s in
      match a with
      | ACreate t => Some (set_phase t Spawned s')
      | ASetFlag t b => Some (set_flag t b s')
      | AWait | AStopChannels | AStopChild | AStopExposer => Some s'
      | AStopIo => Some (set_io_stopped s')
      | APill i => if has_room (ring s i) then Some (set_script (APillWrite i (rg_w (ring s i)) :: rest) s) else None
      | APillWrite i w => Some (set_ring i (ring_write w (raw0 (Doc := Doc)) (ring s i)) s')
      | AJoin t => if is_done (phase s t) then Some s' else None
      | AFlushAndClose => Some (emit EvClose s')
      end
  end.

(** ** The other threads *)

(** Source: src/exchange/crypto/shard_parser_worker.cpp:22-37, ShardParserWorker::Run.
    [ParseAndDispatch] stores and publishes the event of a message, if it leads to one. *)
Definition exec_parser (i : nat) (s : St) : option St :=
  match phase s (Parser i) with
  | Spawned => Some (set_phase (Parser i) Looping s)
  | Looping =>
      match ring_pop (ring s i) with
      | None => None
      | Some (m, q) =>
          let s := set_ring i q s in
          Some (set_phase (Parser i) (if rm_size m =? 0 then Done else if handled m then Storing (JMessage m) else Looping) s)
      end
  | Storing x => Some (emit (EvStore (Parser i) x) (set_phase (Parser i) (Publishing x) s))
  | Publishing x => Some (emit (EvPublish (Parser i) x) (set_phase (Parser i) Looping s))
  | _ => None
  end.

(** Source: src/exchange/crypto/crypto_factory.cpp:136-143, CryptoSubsystem::RunNetwork (thread body).
    Between two handlers [io_context::run] returns when the context was stopped;
    [Push] tries again with what the failed [TryPush] left of the message. *)
Definition exec_network (s : St) : option St :=
  match phase s Network with
  | Spawned => Some (set_phase Network Looping s)
  | Looping => if io_stopped s then Some (set_phase Network Done s) else None
  | Pushing i m =>
      Some (set_phase Network (if has_room (ring s i) then Writing i m (rg_w (ring s i)) else Pushing i (moved_from m)) s)
  | Writing i m w => Some (emit (EvPush i m) (set_phase Network Looping (set_ring i (ring_write w m (ring s i)) s)))
  | _ => None
  end.

(** Source: src/exchange/rithmic/rithmic_receiver.cpp:30-55, RithmicReceiver::Run (poll). *)
Definition poll (p : Pending) : option (Payload * Pending) :=
  match pd_ticks p, pd_tickers p, pd_depths p with
  | x :: l, b, d => Some (TickPayload x, mkPending l b d)
  | [], x :: l, d => Some (BookTickerPayload x, mkPending [] l d)
  | [], [], x :: l => Some (DepthPayload x, mkPending [] [] l)
  | [], [], [] => None
  end.

(** Source: src/exchange/rithmic/rithmic_receiver.cpp:24-60, RithmicReceiver::Run. *)
Definition exec_receiver (s : St) : option St :=
  match phase s Receiver with
  | Spawned => Some (set_phase Receiver Looping (set_flag Receiver true s))
  | Looping => if flag s Receiver then Some (set_phase Receiver Working s) else Some (emit (EvLeft Receiver) (set_phase Receiver Ending s))
  | Working =>
      match poll (shm s) with
      | None => Some (set_phase Receiver Looping s)
      | Some (p, rest) => Some (set_phase Receiver (Storing (JEvent p)) (set_shm rest s))
      end
  | Storing x => Some (emit (EvStore Receiver x) (set_phase Receiver (Publishing x) s))
  | Publishing x => Some (emit (EvPublish Receiver x) (set_phase Receiver Looping s))
  | Ending => Some (set_phase Receiver Done s)
  | _ => None
  end.

(** Source: src/pubsub/pub_worker.cpp:194-237, PubWorker::Run.
    A round is [DispatchCycle]; the end is [DrainAll]. *)
Definition exec_publisher (s : St) : option St :=
  match phase s Publisher with
  | Spawned => Some (set_phase Publisher Looping (set_flag Publisher true s))
  | Looping => if flag s Publisher then Some (set_phase Publisher Working s) else Some (emit (EvLeft Publisher) (set_phase Publisher Ending s))
  | Working => Some (set_phase Publisher Looping s)
  | Ending => Some (emit EvDrained (set_phase Publisher Done s))
  | _ => None
  end.

(** Source: src/telemetry/telemetry_agent.cpp:50-57, TelemetryAgent::Run. *)
Definition exec_telemetry (s : St) : option St :=
  match phase s Telemetry with
  | Spawned => Some (set_phase Telemetry Looping (set_flag Telemetry true s))
  | Looping => if flag s Telemetry then Some (set_phase Telemetry Working s) else Some (emit (EvLeft Telemetry) (set_phase Telemetry Ending s))
  | Working => Some (set_phase Telemetry Looping s)
  | Ending => Some (set_phase Telemetry Done s)
  | _ => None
  end.

(** Source: src/exchange/rithmic/rithmic_process_manager.cpp:215-220, RithmicProcessManager::StartThreads (monitor thread).
    [gives_up]: this health check reached the restart limit. *)
Definition exec_monitor (gives_up : bool) (s : St) : option St :=
  match phase s Monitor with
  | Spawned => Some (set_phase Monitor Looping s)
  | Looping => if flag s Monitor then Some (set_phase Monitor Working s) else Some (emit (EvLeft Monitor) (set_phase Monitor Ending s))
  | Working => Some (set_phase Monitor Looping (if gives_up then set_flag Monitor false s else s))
  | Ending => Some (set_phase Monitor Done s)
  | _ => None
  end.

(** ** The process *)

Inductive Label :=
  | LMain
  | LThread (t : Thread) (gives_up : bool)
  | LMessage (i : nat) (m : RawMessage Doc)   (* a handler of the event loop reaches [Push] on queue [i] *)
  | LGateway (p : Payload).                   (* the gateway process enqueues an event *)

Definition enqueue (p : Payload) (q : Pending) : Pending :=
  match p with
  | TickPayload t => mkPending (pd_ticks q ++ [t]) (pd_tickers q) (pd_depths q)
  | BookTickerPayload e => mkPending (pd_ticks q) (pd_tickers q ++ [e]) (pd_depths q)
  | DepthPayload e => mkPending (pd_ticks q) (pd_tickers q) (pd_depths q ++ [e])
  end.

Definition exec (l : Label) (s : St) : option St :=
  match l with
  | LMain => exec_main s
  | LThread Network _ => exec_network s
  | LThread (Parser i) _ => exec_parser i s
  | LThread Receiver _ => exec_receiver s
  | LThread Publisher _ => exec_publisher s
  | LThread Telemetry _ => exec_telemetry s
  | LThread Monitor g => exec_monitor g s
  (* [OnMessage] drops empty messages, and its shard is a remainder modulo the number of queues *)
  | LMessage i m =>
      match phase s Network with
      | Looping => if io_stopped s || (rm_size m =? 0) || negb (Nat.ltb i (shards s)) then None else Some (set_phase Network (Pushing i m) s)
      | _ => None
      end
  | LGateway p => Some (set_shm (enqueue p (shm s)) s)
  end.

Definition step (s s' : St) : Prop := exists l, exec l s = Some s'.

Fixpoint run (ls : list Label) (s : St) : option St :=
  match ls with [] => Some s | l :: ls => match exec l s with Some s => run ls s | None => None end end.

Definition init (n : nat) (rithmic : bool) : St :=
  mkSt n (main_script n rithmic) (fun _ => Idle) (fun _ => false) false (fun _ => mkRing 0 0 (fun _ => raw0))
    (mkPending [] [] []) [].

Lemma run_steps ls s s' : run ls s = Some s' -> rtc step s s'.
Proof.
  revert s. induction ls as [|l ls IH]; intros s; cbn [run]; [intros [= <-]; constructor|].
  destruct (exec l s) as [s1|] eqn:E; [|done]. intros H. eapply rtc_l; [by exists l|eauto].
Qed.

(** ** Invariants of every interleaving *)

Definition producer (t : Thread) : bool := match t with Network | Parser _ | Receiver => true | _ => false end.
Definition resting (p : Phase) : Prop := p = Idle \/ p = Done.

(** No thread that stores or publishes is joined any more. *)
Definition no_join (l : list Act) : Prop := forall t, producer t = true -> AJoin t ∉ l.

(** What must follow an action in a script: a created thread is joined later; the
    storage is closed and the publisher told to stop behind the joins of the producers. *)
Definition followed (a : Act) (rest : list Act) : Prop :=
  match a with
  | ACreate t => AJoin t ∈ rest /\ (t = Publisher \/ t = Telemetry \/ t = Receiver -> ASetFlag t false ∈ rest)
  | AFlushAndClose | ASetFlag Publisher false => no_join rest
  | _ => True
  end.

Fixpoint suffixes (P : Act -> list Act -> Prop) (l : list Act) : Prop :=
  match l with [] => True | a :: rest => P a rest /\ suffixes P rest end.

Lemma suffixes_app P l1 l2 :
  (forall a l, a ∈ l1 -> P a (l ++ l2)) -> suffixes P l2 -> suffixes P (l1 ++ l2).
Proof.
  intros H H2. induction l1 as [|a l1 IH]; [done|]. split; [apply H; left|]. apply IH. intros b l Hb. apply H. by right.
Qed.

Lemma no_join_cons a l : no_join (a :: l) -> no_join l.
Proof. intros H t Ht. specialize (H t Ht). set_solver. Qed.

Definition parser_joins (n : nat) (l : list Act) : Prop := forall i, (i < n)%nat -> AJoin (Parser i) ∈ l.

Lemma closing_followed : suffixes followed ([AFlushAndClose] ++ TelemetryStop ++ PublisherStop).
Proof. cbn. unfold no_join. split_and!; try done; intros [] Ht; try done; set_solver. Qed.

Lemma joins_followed n l : suffixes followed l -> suffixes followed (PushPills n ++ CryptoShutdown n ++ l).
Proof.
  intros H. apply suffixes_app.
  { intros a k (i & -> & _)%list_elem_of_fmap. done. }
  apply suffixes_app; [|done]. intros a k [->|(i & -> & _)%list_elem_of_fmap]%elem_of_cons; done.
Qed.

Lemma joins_of_tail n t :
  t = Network \/ t = Telemetry \/ t = Publisher \/ (exists i, t = Parser i /\ (i < n)%nat) ->
  AJoin t ∈ PushPills n ++ CryptoShutdown n ++ [AFlushAndClose] ++ TelemetryStop ++ PublisherStop.
Proof.
  rewrite !elem_of_app. intros [->|[->|[->|(i & -> & Hi)]]]; [set_solver| | |].
  - right; right; right; left. unfold TelemetryStop. set_solver.
  - right; right; right; right. unfold PublisherStop. set_solver.
  - right; left; right. apply list_elem_of_fmap. exists i. split; [done|]. apply elem_of_seq. lia.
Qed.

Lemma stops_of_tail n t :
  t = Telemetry \/ t = Publisher -> ASetFlag t false ∈ PushPills n ++ CryptoShutdown n ++ [AFlushAndClose] ++ TelemetryStop ++ PublisherStop.
Proof. rewrite !elem_of_app. unfold TelemetryStop, PublisherStop. intros [->| ->]; set_solver. Qed.

Lemma main_followed n rithmic : suffixes followed (main_script n rithmic).
Proof.
  unfold main_script. generalize (joins_of_tail n), (stops_of_tail n), (joins_followed n _ closing_followed).
  generalize (PushPills n ++ CryptoShutdown n ++ [AFlushAndClose] ++ TelemetryStop ++ PublisherStop). intros tail Hj Hf Ht.
  assert (Hw : suffixes followed ([AWait] ++ StopNetwork ++ (if rithmic then ManagerShutdown else []) ++ tail)).
  { destruct rithmic; cbn; tauto. }
  assert (Hin : forall a l, a ∈ tail -> a ∈ l ++ [AWait] ++ StopNetwork ++ (if rithmic then ManagerShutdown else []) ++ tail).
  { intros a l H. rewrite !elem_of_app. tauto. }
  assert (Hp : suffixes followed (RunParsers n ++ RunNetwork ++ PublisherStart ++
    [AWait] ++ StopNetwork ++ (if rithmic then ManagerShutdown else []) ++ tail)).
  { apply suffixes_app.
    - intros a l (i & -> & Hi%elem_of_seq)%list_elem_of_fmap. cbn [followed].
      assert (AJoin (Parser i) ∈ tail) by (apply Hj; do 3 right; exists i; split; [done|lia]). rewrite !elem_of_app. split; [tauto|naive_solver].
    - cbn [RunNetwork PublisherStart app suffixes followed].
      split; [|split]; [split; [apply (Hin (AJoin Network) [ACreate Publisher]); auto|naive_solver]|split; [apply (Hin (AJoin Publisher) []); auto|]|exact Hw].
      intros _. apply (Hin (ASetFlag Publisher false) []). auto. }
  assert (Hq : suffixes followed (TelemetryStart ++ RunParsers n ++ RunNetwork ++ PublisherStart ++
    [AWait] ++ StopNetwork ++ (if rithmic then ManagerShutdown else []) ++ tail)).
  { split; [|exact Hp]. cbn [followed]. assert (AJoin Telemetry ∈ tail) by (apply Hj; auto). assert (ASetFlag Telemetry false ∈ tail) by (apply Hf; auto).
    rewrite !elem_of_app. split; [tauto|]. intros _. tauto. }
  destruct rithmic; [|exact Hq]. cbn [StartThreads app suffixes followed]. split; [done|]. unfold ManagerShutdown in *.
  split; [|split; [|exact Hq]]; (split; [|intros Hx]); rewrite ?elem_of_cons, ?elem_of_app, ?elem_of_cons; try set_solver; naive_solver.
Qed.

(** A thread that is still to be created is still to be told to stop. *)
Lemma create_then_stop t l :
  suffixes followed l -> ACreate t ∈ l -> t = Publisher \/ t = Telemetry \/ t = Receiver -> ASetFlag t false ∈ l.
Proof.
  induction l as [|a l IH]; intros Hs Hc Ht; [by apply elem_of_nil in Hc|]. destruct Hs as [Ha Hs].
  apply elem_of_cons in Hc as [<-|Hc]; [|right; by apply IH]. destruct Ha as [_ Ha]. right. by apply Ha.
Qed.

Definition is_store (e : Event) : bool := match e with EvStore _ _ => true | _ => false end.
Definition is_publish (e : Event) : bool := match e with EvPublish _ _ => true | _ => false end.

(** Nothing of a kind comes behind [e]. *)
Definition quiet_after (e : Event) (bad : Event -> bool) (tr : list Event) : Prop :=
  forall pre post, tr = pre ++ e :: post -> Forall (fun x => bad x = false) post.

Lemma quiet_after_snoc e bad tr x :
  quiet_after e bad tr -> (e ∈ tr -> bad x = false) -> quiet_after e bad (tr ++ [x]).
Proof.
  intros Hq Hx pre post Heq. destruct post as [|y post _] using rev_ind; [constructor|].
  rewrite app_comm_cons, app_assoc in Heq. apply app_inj_tail in Heq as [-> ->].
  apply Forall_app. split; [by apply (Hq pre)|]. constructor; [|done]. apply Hx. set_solver.
Qed.

(** The publisher is on its way out. *)
Definition leaving (s : St) : Prop :=
  flag s Publisher = false /\ (phase s Publisher = Looping \/ phase s Publisher = Working) \/
  phase s Publisher = Ending \/ phase s Publisher = Done.

(** What a step of another thread than the main thread changes. *)
Record thread_moved (s s' : St) : Prop := {
  tm_script : script s' = script s;
  tm_phase : phase s' = phase s \/ exists t p, ~ resting (phase s t) /\ phase s' = <[t := p]> (phase s);
  tm_leaving : leaving s' -> leaving s;
  tm_trace : trace s' = trace s \/ exists e, trace s' = trace s ++ [e] /\ e <> EvClose /\ (e = EvLeft Publisher -> leaving s) /\
    (is_store e || is_publish e = true -> exists t, producer t = true /\ ~ resting (phase s t))
}.

Lemma exec_thread_moved l s s' : l <> LMain -> exec l s = Some s' -> thread_moved s s'.
Proof.
  intros Hl He. destruct l as [|[] g|i m|p]; [done|..]; cbn [exec] in He;
    unfold exec_network, exec_parser, exec_publisher, exec_telemetry, exec_receiver, exec_monitor in He;
    repeat case_match; simplify_eq; split; cbn; try done; unfold leaving, resting; cbn;
    rewrite ?fn_lookup_insert, ?fn_lookup_insert_ne by done.
  all: try tauto.
  all: try (by right; eexists _, _; split; [|done]; intros [?|?]; congruence).
  all: try (by intuition congruence).
  all: right; eexists; split_and!; [reflexivity|done|intros; first [done | tauto]|cbn; try done].
  all: intros _; first [exists (Parser i); split; [done|intuition congruence] | exists Receiver; split; [done|intuition congruence]].
Qed.

Record Inv (s : St) : Prop := {
  inv_script : suffixes followed (script s);
  inv_rest : forall t, AJoin t ∉ script s -> resting (phase s t);
  inv_leaving : leaving s -> no_join (script s);
  inv_closed : EvClose ∈ trace s \/ EvLeft Publisher ∈ trace s -> no_join (script s);
  inv_quiet : quiet_after EvClose is_store (trace s) /\ quiet_after (EvLeft Publisher) is_publish (trace s)
}.

Lemma thread_keeps_Inv s s' : Inv s -> thread_moved s s' -> Inv s'.
Proof.
  intros [I1 I2 I3 I4 [I5 I6]] [T1 T2 T3 T4]. split; rewrite ?T1; auto.
  - intros t Ht. destruct T2 as [->|(u & p & Hu & ->)]; [auto|]. destruct (decide (t = u)) as [->|Hne].
    + exfalso. auto.
    + rewrite fn_lookup_insert_ne by done. auto.
  - destruct T4 as [->|(e & -> & Hc & Hl & _)]; [done|]. rewrite !elem_of_app, !list_elem_of_singleton.
    intros [[?|<-]|[?|Heq]]; [tauto|done|tauto|auto].
  - destruct T4 as [->|(e & -> & _ & _ & Hp)]; [done|].
    assert (Hno : no_join (script s) -> is_store e || is_publish e = false).
    { intros Hn. apply not_true_iff_false. intros (t & Ht & Hr)%Hp. apply Hr, I2, Hn, Ht. }
    split; apply quiet_after_snoc; try done; intros Hin; [assert (Hn : no_join (script s)) by tauto..];
      apply Hno, orb_false_iff in Hn; tauto.
Qed.

Lemma main_keeps_Inv s s' : Inv s -> exec_main s = Some s' -> Inv s'.
Proof.
  intros [I1 I2 I3 I4 [I5 I6]] He. unfold exec_main in He. destruct (script s) as [|a rest] eqn:Es; [done|].
  destruct I1 as [Ha Hrest].
  assert (Hcl : EvClose ∈ trace s \/ EvLeft Publisher ∈ trace s -> no_join rest) by (intros H; eapply no_join_cons, I4, H).
  assert (Hle : leaving s -> no_join rest) by (intros H; eapply no_join_cons, I3, H).
  assert (Hre : forall t, a <> AJoin t -> AJoin t ∉ rest -> resting (phase s t)) by (intros t Hne Ht; apply I2; set_solver).
  destruct a; cbn [followed] in Ha; repeat case_match; simplify_eq; split; cbn [script phase flag trace set_script set_phase set_flag set_io_stopped set_ring emit]; try done.
  all: try (by intros u Hu; apply Hre).
  - intros u Hu. destruct (decide (u = t)) as [->|Hne]; [by destruct Ha|]. rewrite fn_lookup_insert_ne by done. by apply Hre.
  - intros Hx. apply Hle. revert Hx. unfold leaving. cbn. destruct (decide (t = Publisher)) as [->|Hne].
    + rewrite fn_lookup_insert. intuition discriminate.
    + by rewrite fn_lookup_insert_ne by done.
  - unfold leaving. cbn. rewrite fn_lookup_insert. intros [[? _]|Hx]; [done|]. apply Hle. by right.
  - intros u Hu. apply Hre; [done|]. set_solver.
  - intros Hx%Hle u Hu. specialize (Hx u Hu). set_solver.
  - intros Hx%Hcl u Hu. specialize (Hx u Hu). set_solver.
  - intros u Hu. destruct (decide (u = t)) as [->|Hne]; [right; by destruct (phase s t)|]. apply Hre; congruence.
  - split; by apply quiet_after_snoc.
Qed.

Lemma reachable_Inv n rithmic s : rtc step (init n rithmic) s -> Inv s.
Proof.
  intros H. apply (rtc_invariant step Inv (init n rithmic)); [|done|].
  - intros a b Ha [l Hl]. assert (l = LMain \/ l <> LMain) as [->|Hne] by (destruct l; naive_solver).
    + by apply (main_keeps_Inv a).
    + apply (thread_keeps_Inv a); [done|]. by apply (exec_thread_moved l).
  - split; cbn; [apply main_followed|by left| |by intros [?%not_elem_of_nil|?%not_elem_of_nil]|split; intros [|? ?] post; discriminate].
    unfold leaving. cbn. intuition discriminate.
Qed.

(** Threads never go back to not being created. *)
Definition started (l : list Act) (s : St) : Prop := forall t, ACreate t ∈ l -> ACreate t ∈ script s \/ phase s t <> Idle.

Lemma step_started l s s' : started l s -> step s s' -> started l s'.
Proof.
  intros Hs [lab He] t Ht. specialize (Hs t Ht).
  assert (lab = LMain \/ lab <> LMain) as [->|Hne] by (destruct lab; naive_solver).
  - cbn [exec] in He. unfold exec_main in He. destruct (script s) as [|a rest]; [done|]. rewrite elem_of_cons in Hs.
    destruct a; repeat case_match; simplify_eq; cbn; rewrite ?elem_of_cons; try (destruct Hs as [[?|?]|?]; simplify_eq; tauto).
    destruct (decide (t = t0)) as [->|Hne]; [right; by rewrite fn_lookup_insert|].
    rewrite fn_lookup_insert_ne by done. destruct Hs as [[?|?]|?]; simplify_eq; tauto.
  - destruct lab as [|[] g|i m|p]; [done|..]; cbn [exec] in He;
      unfold exec_network, exec_parser, exec_publisher, exec_telemetry, exec_receiver, exec_monitor in He;
      repeat case_match; simplify_eq; cbn; try done;
      (destruct Hs as [Hs|Hs]; [by left|right]; unfold insert, fn_insert; case_decide; congruence).
Qed.

Lemma reachable_started n rithmic s : rtc step (init n rithmic) s -> started (main_script n rithmic) s.
Proof.
  intros H. apply (rtc_invariant step (started (main_script n rithmic)) (init n rithmic)); [|done|by left].
  intros a b Ha Hb. by apply (step_started _ a).
Qed.

(** In no continuation of a state does [main] get past the join of [t]. *)
Definition hangs_at (t : Thread) (s : St) : Prop := forall s', rtc step s s' -> AJoin t ∈ script s'.

Lemma hangs_by (P : St -> Prop) t s :
  (forall a b, P a -> step a b -> P b) -> (forall a, P a -> AJoin t ∈ script a) -> P s -> hangs_at t s.
Proof. intros Hs Hn Hp s' Hr. apply Hn. by apply (rtc_invariant step P s). Qed.

(** A thread that sets its flag after the main thread has cleared it: the main
    thread is going to join it and never touches the flag again. *)
Definition in_loop (p : Phase) : bool := match p with Looping | Working | Storing _ | Publishing _ => true | _ => false end.
Definition overwritten (t : Thread) (s : St) : Prop :=
  AJoin t ∈ script s /\ (forall b, ASetFlag t b ∉ script s) /\ ACreate t ∉ script s /\
  (phase s t = Spawned \/ flag s t = true /\ in_loop (phase s t) = true).

(** What an action of the main thread leaves alone. *)
Lemma exec_main_shape s s' :
  exec_main s = Some s' -> exists a rest, script s = a :: rest /\
    (script s' = rest \/ exists i, a = APill i /\ script s' = APillWrite i (rg_w (ring s i)) :: rest) /\
    (forall t, a <> ACreate t -> phase s' t = phase s t) /\ (forall t, a = AJoin t -> phase s t = Done) /\
    (forall t, (forall b, a <> ASetFlag t b) -> flag s' t = flag s t) /\
    (forall i, (forall w, a <> APillWrite i w) -> ring s' i = ring s i).
Proof.
  unfold exec_main. destruct (script s) as [|a rest] eqn:Es; [done|]. intros He. exists a, rest. split; [done|].
  destruct a; repeat case_match; simplify_eq; cbn; split_and!; try tauto; try (by right; eexists); try done.
  - intros u Hu. by rewrite fn_lookup_insert_ne by naive_solver.
  - intros u Hu. rewrite fn_lookup_insert_ne; [done|]. intros ->. by eapply Hu.
  - intros j Hj. rewrite fn_lookup_insert_ne; [done|]. intros ->. by eapply Hj.
  - intros u [= <-]. by destruct (phase s t).
Qed.

(** The thread a step belongs to. *)
Definition label_thread (l : Label) : option Thread :=
  match l with LThread t _ => Some t | LMessage _ _ => Some Network | _ => None end.

Lemma exec_other l s s' t :
  l <> LMain -> exec l s = Some s' -> label_thread l <> Some t -> phase s' t = phase s t /\ flag s' t = flag s t.
Proof.
  intros Hl He Ht. destruct l as [|[] g|i m|p]; [done|..]; cbn [exec label_thread] in *;
    unfold exec_network, exec_parser, exec_publisher, exec_telemetry, exec_receiver, exec_monitor in He;
    repeat case_match; simplify_eq; cbn; rewrite ?fn_lookup_insert_ne by congruence; done.
Qed.

(** The three threads that begin by setting their own flag. *)
Definition self_starting (t : Thread) : bool := match t with Publisher | Telemetry | Receiver => true | _ => false end.

Lemma overwritten_alive t s : overwritten t s -> phase s t <> Done.
Proof. intros (_ & _ & _ & [->|[_ H]]); [done|]. by intros Hd; rewrite Hd in H. Qed.

Lemma overwritten_step t s s' : self_starting t = true -> overwritten t s -> step s s' -> overwritten t s'.
Proof.
  intros Ht Ho [l He]. pose proof (overwritten_alive t s Ho) as Hal. destruct Ho as (H1 & H2 & H3 & H4). unfold overwritten.
  assert (l = LMain \/ l <> LMain) as [->|Hne] by (destruct l; naive_solver).
  - destruct (exec_main_shape s s' He) as (a & rest & Es & Hs & Hp & Hj & Hf & _). rewrite Es in *.
    assert (Hd : a <> AJoin t) by (intros ->; by destruct Hal; apply Hj).
    rewrite Hp, Hf by (try intros b ->; set_solver).
    assert (Hr : AJoin t ∈ rest /\ (forall b, ASetFlag t b ∉ rest) /\ ACreate t ∉ rest).
    { split_and!; [set_solver|intros b; specialize (H2 b); set_solver|set_solver]. }
    destruct Hs as [->|(i & -> & ->)]; [tauto|]. destruct Hr as (R1 & R2 & R3).
    split_and!; [set_solver|intros b; specialize (R2 b); set_solver|set_solver|done].
  - destruct (exec_thread_moved l s s' Hne He) as [T1 _ _ _]. rewrite T1.
    enough (phase s' t = Spawned \/ flag s' t = true /\ in_loop (phase s' t) = true) by tauto.
    assert (label_thread l <> Some t \/ label_thread l = Some t) as [Hl|Hl] by (destruct l as [|u ?|? ?|?]; cbn; try destruct (decide (u = t)); naive_solver).
    { destruct (exec_other l s s' t Hne He Hl) as [-> ->]. done. }
    destruct l as [|u g|i m|p]; cbn in Hl; simplify_eq.
    destruct t; try done; cbn [exec] in He; unfold exec_publisher, exec_telemetry, exec_receiver in He;
      (destruct H4 as [H4|[H4 H5]]; [rewrite H4 in He|destruct (phase s _); try done; rewrite ?H4 in He]);
      repeat case_match; simplify_eq; cbn; rewrite ?fn_lookup_insert; by right.
Qed.

Lemma overwritten_steps t s s' : self_starting t = true -> overwritten t s -> rtc step s s' -> overwritten t s'.
Proof. intros Ht Ho Hr. apply (rtc_invariant step (overwritten t) s); [intros a b; by apply overwritten_step|done|done]. Qed.

(** A parser that waits on a queue in which no pill is left, after the last push. *)
Definition pill_lost (i : nat) (s : St) : Prop :=
  AJoin (Parser i) ∈ script s /\ ACreate (Parser i) ∉ script s /\ ACreate Network ∉ script s /\
  APill i ∉ script s /\ (forall w, APillWrite i w ∉ script s) /\ phase s Network = Done /\
  in_loop (phase s (Parser i)) = true /\
  (forall k, (rg_r (ring s i) <= k < rg_w (ring s i))%nat -> rm_size (rg_slots (ring s i) k) <> 0).

Lemma pill_lost_step i s s' : pill_lost i s -> step s s' -> pill_lost i s'.
Proof.
  intros (H1 & H2 & H3 & H4 & H5 & H6 & H7 & H8) [l He]. unfold pill_lost.
  assert (l = LMain \/ l <> LMain) as [->|Hne] by (destruct l; naive_solver).
  - destruct (exec_main_shape s s' He) as (a & rest & Es & Hs & Hp & Hj & _ & Hr). rewrite Es in *.
    assert (Hd : a <> AJoin (Parser i)) by (intros ->; by rewrite (Hj (Parser i)) in H7).
    rewrite !Hp, Hr by (try intros b ->; set_solver).
    assert (Hx : AJoin (Parser i) ∈ rest /\ ACreate (Parser i) ∉ rest /\ ACreate Network ∉ rest /\ APill i ∉ rest /\ (forall w, APillWrite i w ∉ rest)).
    { split_and!; [set_solver..|intros w; specialize (H5 w); set_solver]. }
    destruct Hs as [->|(j & -> & ->)]; [tauto|]. destruct Hx as (R1 & R2 & R3 & R4 & R5).
    split_and!; try done; [set_solver..|]. intros w. specialize (R5 w). set_solver.
  - destruct (exec_thread_moved l s s' Hne He) as [T1 _ _ _]. rewrite T1.
    enough (phase s' Network = Done /\ in_loop (phase s' (Parser i)) = true /\
      (forall k, (rg_r (ring s' i) <= k < rg_w (ring s' i))%nat -> rm_size (rg_slots (ring s' i) k) <> 0)) by tauto.
    destruct l as [|[] g|j m|p]; [done|..]; cbn [exec] in *; unfold exec_network, exec_parser, exec_publisher, exec_telemetry, exec_receiver, exec_monitor in He;
      rewrite ?H6 in He; repeat case_match; simplify_eq; cbn; rewrite ?fn_lookup_insert_ne by done; try done.
    all: rename i0 into j; destruct (decide (j = i)) as [->|Hji]; [rewrite ?fn_lookup_insert|by rewrite !fn_lookup_insert_ne by congruence].
    all: try done; unfold ring_pop in *; case_match eqn:Hle; simplify_eq; apply Nat.leb_gt in Hle; cbn.
    1: by destruct (H8 (rg_r (ring s i)) ltac:(lia)); apply Z.eqb_eq.
    all: split_and!; [done|done|]; intros k Hk; apply H8; lia.
Qed.
End lifecycle.

(** ** The order of shutdown *)

(** C13: The shutdown order is safe in every interleaving: once the storage is closed no thread stores an event, once
    the publisher left its loop for the final drain no thread publishes one, and when [main] returns every thread that
    was created has ended and was joined. *)
Theorem shutdown_order_safe {Doc : Type} `{!Parsing Doc} (n : nat) (rithmic : bool) (s : St (Doc := Doc)) :
  rtc step (init n rithmic) s ->
  quiet_after EvClose is_store (trace s) /\ quiet_after (EvLeft Publisher) is_publish (trace s) /\
  (script s = [] -> forall t, resting (phase s t) /\ (ACreate t ∈ main_script n rithmic -> phase s t = Done)).
Proof.
  intros H. destruct (reachable_Inv n rithmic s H) as [_ Hr _ _ [Hc Hl]]. split_and!; [done|done|].
  intros Hs t. assert (Ht : resting (phase s t)) by (apply Hr; rewrite Hs; apply not_elem_of_nil). split; [done|].
  intros Hm. destruct (reachable_started n rithmic s H t Hm) as [Hx|Hx]; [by rewrite Hs in Hx; apply not_elem_of_nil in Hx|].
  by destruct Ht.
Qed.

(** ** Races of start and stop *)

Section races.
Context {Doc : Type} `{!Parsing Doc}.
Abbreviation state := (St (Doc := Doc)).
Abbreviation label := (Label (Doc := Doc)).

(** A message of seven bytes. *)
Definition seven_bytes : RawMessage Doc := mkRaw (replicate 7 NUL) None 0 7 0 0 (replicate 32 NUL) ET_TICK None.

Definition mains (k : nat) : list label := replicate k LMain.
Definition turns (t : Thread) (k : nat) : list label := replicate k (LThread t false).

Definition pill_lostb (i : nat) (s : state) : bool :=
  bool_decide (AJoin (Parser i) ∈ script s) && bool_decide (ACreate (Parser i) ∉ script s) && bool_decide (ACreate Network ∉ script s) &&
  bool_decide (APill i ∉ script s) && forallb (fun a => match a with APillWrite j _ => negb (i =? j)%nat | _ => true end) (script s) &&
  is_done (phase s Network) && in_loop (phase s (Parser i)) &&
  forallb (fun k => negb (rm_size (rg_slots (ring s i) k) =? 0)) (seq (rg_r (ring s i)) (rg_w (ring s i) - rg_r (ring s i))).

Lemma pill_lostb_spec i s : pill_lostb i s = true -> pill_lost i s.
Proof.
  unfold pill_lostb, pill_lost. rewrite !andb_true_iff, !bool_decide_eq_true, !forallb_forall.
  intros (((((((? & ?) & ?) & ?) & Hw) & Hd) & ?) & Hs). split_and!; try done.
  - intros w Hin%list_elem_of_In%Hw. by rewrite Nat.eqb_refl in Hin.
  - by destruct (phase s Network).
  - intros k Hk Hz. specialize (Hs k). rewrite in_seq, Hz in Hs. discriminate Hs. lia.
Qed.

(** The prefix of a run up to the point where the thread is told to stop. *)
Definition to_receiver_stop : list label := mains 12.
Definition to_telemetry_stop : list label :=
  mains 11 ++ turns Receiver 1 ++ mains 1 ++ turns Receiver 2 ++ mains 2 ++ turns Monitor 3 ++ mains 3 ++ turns Network 2 ++
  mains 1 ++ turns (Parser 0) 2 ++ mains 3.
Definition to_publisher_stop : list label :=
  mains 11 ++ turns Receiver 1 ++ turns Telemetry 1 ++ mains 1 ++ turns Receiver 2 ++ mains 2 ++ turns Monitor 3 ++ mains 3 ++
  turns Network 2 ++ mains 1 ++ turns (Parser 0) 2 ++ mains 3 ++ turns Telemetry 2 ++ mains 3.

Definition reaches (ls : list label) (s0 : state) (check : state -> bool) : Prop :=
  match run ls s0 with Some s => check s = true | None => False end.

Lemma reaches_rtc ls s0 check : reaches ls s0 check -> exists s, rtc step s0 s /\ check s = true.
Proof. unfold reaches. destruct (run ls s0) as [s|] eqn:E; [|done]. exists s. split; [by eapply run_steps|done]. Qed.

(** The thread was created and has not begun, and main is past its last store to the flag, at the join. *)
Definition told_too_early (t : Thread) (s : state) : bool :=
  match phase s t with Spawned => true | _ => false end && bool_decide (head (script s) = Some (AJoin t)) &&
  bool_decide (ASetFlag t true ∉ script s) && bool_decide (ASetFlag t false ∉ script s).

(** The first turn of such a thread. *)
Lemma spawned_turn t s : self_starting t = true -> phase s t = Spawned -> exists s', rtc step s s' /\ script s' = script s.
Proof.
  intros Ht Hp. assert (He : exists s', exec (LThread t false) s = Some s' /\ script s' = script s).
  { destruct t; try done; cbn [exec]; unfold exec_publisher, exec_telemetry, exec_receiver; rewrite Hp; by eexists. }
  destruct He as (s' & He & Hs). exists s'. split; [|done]. apply rtc_once. by exists (LThread t false).
Qed.

(** The network thread is inside [TryPush] when [main] pushes the pill. *)
Definition to_pill_race : list label :=
  mains 4 ++ turns Network 1 ++ [LMessage 0 seven_bytes] ++ turns Network 1 ++ turns (Parser 0) 1 ++ mains 5 ++ turns Network 2.
(** The network thread pushes behind the pill. *)
Definition to_late_push : list label :=
  mains 4 ++ turns Network 1 ++ turns Telemetry 1 ++ turns Publisher 1 ++ [LMessage 0 seven_bytes] ++ mains 5 ++ turns Network 3 ++
  turns (Parser 0) 2 ++ mains 4 ++ turns Telemetry 2 ++ mains 3 ++ turns Publisher 2 ++ mains 1.

Definition pushed_not_stored (s : state) : bool :=
  match script s with [] => true | _ => false end &&
  existsb (fun e => match e with EvPush _ _ => true | _ => false end) (trace s) && forallb (fun e => negb (is_store e)) (trace s).
End races.

(** C36: A thread that has not yet begun when it is told to stop is never stopped.  In every reachable state in which the
    publisher, the telemetry agent or the Rithmic receiver was created but has not begun and [main] has made its last store to the
    thread's flag, whatever the threads do from there: the thread never ends (it is still to begin, or in its loop with the
    flag set, because it begins by setting the flag), and [main] never gets past the join of this thread. *)
Theorem stop_before_start_hangs {Doc : Type} `{!Parsing Doc} (n : nat) (rithmic : bool) (t : Thread) (s s' : St (Doc := Doc)) :
  self_starting t = true -> rtc step (init n rithmic) s -> phase s t = Spawned -> (forall b, ASetFlag t b ∉ script s) ->
  rtc step s s' ->
  (phase s' t = Spawned \/ flag s' t = true /\ in_loop (phase s' t) = true) /\ AJoin t ∈ script s' /\
  (head (script s') = Some (AJoin t) -> exec_main s' = None).
Proof.
  intros Ht Hr Hp Hf Hs. destruct (reachable_Inv n rithmic s Hr) as [Hfol Hrest _ _ _].
  assert (Ho : overwritten t s).
  { split_and!; [|done| |by left].
    - destruct (decide (AJoin t ∈ script s)) as [?|Hn]; [done|]. destruct (Hrest t Hn); congruence.
    - intros Hc. destruct (Hf false). apply (create_then_stop t (script s)); [done|done|]. by destruct t; auto. }
  pose proof (overwritten_steps t s s' Ht Ho Hs) as Ho'. pose proof (overwritten_alive t s' Ho') as Hal.
  destruct Ho' as (H1 & _ & _ & H4). split_and!; [done|done|]. intros Hh. unfold exec_main.
  destruct (script s') as [|a rest]; [done|]. injection Hh as ->. by destruct (phase s' t).
Qed.

(** C37: [main] pushes the poison pills before it joins the network thread, the other producer of the shard queues.  If
    that thread is inside [TryPush], its message can replace the pill, and [main] waits for the parser for ever; if it
    pushes right after the pill, [main] returns and the message was accepted but is never stored. *)
Theorem pill_races_network {Doc : Type} `{!Parsing Doc} :
  (exists s, rtc step (init (Doc := Doc) 1 false) s /\ hangs_at (Parser 0) s) /\
  (exists s, rtc step (init (Doc := Doc) 1 false) s /\ script s = [] /\ exists i m, EvPush i m ∈ trace s /\
     forall t x, EvStore t x ∉ trace s).
Proof.
  split.
  - destruct (reaches_rtc to_pill_race (init (Doc := Doc) 1 false) (pill_lostb 0)) as (s & Hs & Hp%pill_lostb_spec); [by vm_compute|].
    exists s. split; [done|]. apply (hangs_by (pill_lost 0)); [intros a b Ha Hb; by apply (pill_lost_step 0 a)|by intros a [Ha _]|done].
  - destruct (reaches_rtc to_late_push (init (Doc := Doc) 1 false) pushed_not_stored) as (s & Hs & Hp); [by vm_compute|].
    exists s. split; [done|]. unfold pushed_not_stored in Hp. rewrite !andb_true_iff in Hp. destruct Hp as [[H1 H2] H3].
    split; [by destruct (script s)|]. apply existsb_exists in H2 as (e & Hin & He). rewrite forallb_forall in H3.
    destruct e as [i m| | | | |]; try done. exists i, m. split; [by apply list_elem_of_In|].
    intros t x Hx%list_elem_of_In%H3. done.
Qed.

#[local] Instance all_handled : Parsing unit := fun _ => true.

Lemma shutdown_order_safe_witness :
  exists s : St (Doc := unit), rtc step (init 1 false) s /\ script s = [] /\ phase s Publisher = Done /\ phase s (Parser 0) = Done /\
    quiet_after EvClose is_store (trace s).
Proof.
  destruct (reaches_rtc to_late_push (init (Doc := unit) 1 false) pushed_not_stored) as (s & Hs & Hp); [vm_compute; reflexivity|].
  destruct (shutdown_order_safe 1 false s Hs) as (Hq & _ & Hd).
  assert (He : script s = []) by (unfold pushed_not_stored in Hp; destruct (script s); [reflexivity|discriminate]).
  exists s. split; [exact Hs|]. split; [exact He|].
  split; [apply (Hd He Publisher)|split; [apply (Hd He (Parser 0))|exact Hq]]; apply (bool_decide_unpack _); vm_compute; exact I.
Defined.

(** For each of the three threads, the run that reaches the join before the thread has begun, and then the thread's first turn. *)
Lemma stop_before_start_hangs_witness :
  Forall (fun t => exists s s' : St (Doc := unit), rtc step (init 1 true) s /\ phase s t = Spawned /\
    rtc step s s' /\ head (script s') = Some (AJoin t) /\ exec_main s' = None)
    [Receiver; Telemetry; Publisher].
Proof.
  apply Forall_cons_2; [|apply Forall_cons_2; [|apply Forall_cons_2; [|apply Forall_nil_2]]]; match goal with |- exists s s', _ /\ phase s ?t = _ /\ _ =>
    let ls := lazymatch t with Receiver => constr:(to_receiver_stop (Doc := unit)) | Telemetry => constr:(to_telemetry_stop (Doc := unit)) | Publisher => constr:(to_publisher_stop (Doc := unit)) end in
    destruct (reaches_rtc ls (init (Doc := unit) 1 true) (told_too_early t)) as (s & Hs & Hc); [vm_compute; reflexivity|];
    destruct (spawned_turn t s eq_refl) as (s' & Hs' & Hsc);
      [unfold told_too_early in Hc; destruct (phase s t); (reflexivity || discriminate Hc)|];
    exists s, s'; unfold told_too_early in Hc; rewrite !andb_true_iff, !bool_decide_eq_true in Hc; destruct Hc as [[[Hp Hh] H1] H2];
    assert (Hp' : phase s t = Spawned) by (destruct (phase s t); (reflexivity || discriminate Hp));
    assert (Hhead : head (script s') = Some (AJoin t)) by (rewrite Hsc; exact Hh);
    split; [exact Hs|]; split; [exact Hp'|]; split; [exact Hs'|]; split; [exact Hhead|];
    apply (stop_before_start_hangs 1 true t s s' eq_refl Hs Hp'); [intros []; assumption|exact Hs'|exact Hhead] end.
Defined.
