(* ===== verification/Shutdown.v ===== *)
(** * Shutdown completes

    The races of the previous file need a signal that arrives while threads are
    still starting, or a message that arrives while the pills are pushed.  Without
    them (a run is then called calm) the process can always be shut down, and
    nothing that entered a shard queue is lost.  The main thread's script is
    sorted by a rank, so what is still to do says how far the shutdown is. *)
From stdpp Require Import functions sorting.
From S2P Require Import Prelude Doubles Events Csv SpscQueue Exchange ShardQueue TelemetrySlot Dolphin Router PubWorker Dispatcher Factory Lifecycle.

(** ** The order of the script *)

Definition rank (a : Act) : nat :=
  match a with
  | ASetFlag Monitor true => 0 | ACreate Receiver => 1 | ACreate Monitor => 2 | ACreate Telemetry => 3
  | ACreate (Parser _) => 4 | ACreate Network => 5 | ACreate Publisher => 6 | AWait => 7 | AStopChannels => 8
  | AStopIo => 9 | ASetFlag Monitor false => 10 | ASetFlag Receiver false => 11 | AJoin Receiver => 12
  | AStopChild => 13 | AJoin Monitor => 14 | APill _ | APillWrite _ _ => 15 | AJoin Network => 16
  | AJoin (Parser _) => 17 | AFlushAndClose => 18 | ASetFlag Telemetry false => 19 | AJoin Telemetry => 20
  | AStopExposer => 21 | ASetFlag Publisher false => 22 | AJoin Publisher => 23 | ASetFlag _ _ => 24
  end.
Definition index (a : Act) : nat :=
  match a with ACreate (Parser i) | AJoin (Parser i) | APill i | APillWrite i _ => i | _ => 0 end.
Definition before (a b : Act) : Prop := (rank a < rank b \/ rank a = rank b /\ index a < index b)%nat.

Lemma before_asym a b : before a b -> ~ before b a.
Proof. unfold before. lia. Qed.

Lemma sorted_app_rank k l1 l2 :
  Forall (fun a => (rank a < k)%nat) l1 -> Forall (fun b => (k <= rank b)%nat) l2 ->
  StronglySorted before l1 -> StronglySorted before l2 -> StronglySorted before (l1 ++ l2).
Proof.
  rewrite !Forall_forall. intros H1 H2 S1 S2. apply StronglySorted_app_2; [|done|done].
  intros a b Ha%H1 Hb%H2. left. lia.
Qed.

Lemma sorted_family (f : nat -> Act) r j n :
  (forall i, rank (f i) = r /\ index (f i) = i) -> StronglySorted before (f <$> seq j n).
Proof.
  intros Hf. revert j. induction n as [|n IH]; intros j; [constructor|]. cbn. constructor; [apply IH|].
  apply Forall_forall. intros a (i & -> & Hi%elem_of_seq)%list_elem_of_fmap. right.
  destruct (Hf i) as [-> ->], (Hf j) as [-> ->]. lia.
Qed.

Lemma Forall_family (f : nat -> Act) (Q : Act -> Prop) j n : (forall i, Q (f i)) -> Forall Q (f <$> seq j n).
Proof. intros H. apply Forall_forall. intros a (i & -> & _)%list_elem_of_fmap. apply H. Qed.

Ltac ranked :=
  repeat first [apply Forall_nil_2 | apply Forall_cons_2; [cbn; lia|] | apply Forall_app_2 | apply Forall_family; intros; cbn; lia].
Ltac sorted_script :=
  repeat first
    [ apply (sorted_app_rank 5 (_ <$> seq 0 _)); [solve [ranked]|solve [ranked]|by eapply sorted_family|]
    | apply (sorted_app_rank 16 (_ <$> seq 0 _)); [solve [ranked]|solve [ranked]|by eapply sorted_family|]
    | apply (sorted_app_rank 18 (_ <$> seq 0 _)); [solve [ranked]|solve [ranked]|by eapply sorted_family|]
    | match goal with |- StronglySorted before (?a :: ?l) => apply (sorted_app_rank (S (rank a)) [a] l); [solve [ranked]|solve [ranked]|repeat constructor|] end
    | constructor ].

Lemma main_sorted n rithmic : StronglySorted before (main_script n rithmic).
Proof.
  assert (Hc : forall i, rank (ACreate (Parser i)) = 4%nat /\ index (ACreate (Parser i)) = i) by done.
  assert (Hp : forall i, rank (APill i) = 15%nat /\ index (APill i) = i) by done.
  assert (Hj : forall i, rank (AJoin (Parser i)) = 17%nat /\ index (AJoin (Parser i)) = i) by done.
  unfold main_script, CryptoShutdown, RunParsers, PoolRun, PushPills, PoolShutdown.
  destruct rithmic; cbn [app StartThreads TelemetryStart RunNetwork PublisherStart StopNetwork ManagerShutdown TelemetryStop PublisherStop];
    sorted_script.
Qed.

(** *** What is still to do *)

Definition norm (a : Act) : Act := match a with APillWrite i _ => APill i | a => a end.

Section order.
Context (n : nat) (rithmic : bool) (l : list Act).
Context (Hl : l `suffix_of` main_script n rithmic).

Lemma suffix_sorted : StronglySorted before l.
Proof. destruct Hl as [pre E]. eapply StronglySorted_app_1_r. rewrite <- E. apply main_sorted. Qed.

Lemma later_todo a b : a ∈ l -> b ∈ main_script n rithmic -> before a b -> b ∈ l.
Proof.
  intros Ha Hb Hab. destruct Hl as [pre E]. rewrite E in Hb. apply elem_of_app in Hb as [Hb|Hb]; [|done].
  pose proof (main_sorted n rithmic) as Hs. rewrite E in Hs.
  destruct (before_asym a b Hab). by eapply StronglySorted_app_1_elem_of.
Qed.

Lemma earlier_done a b rest : l = b :: rest -> before a b \/ a = b -> a ∉ rest /\ (a <> b -> a ∉ l).
Proof.
  intros E Hab. pose proof suffix_sorted as Hs. rewrite E in *. apply StronglySorted_inv in Hs as [_ Hf].
  rewrite Forall_forall in Hf.
  assert (Hr : a ∉ rest).
  { intros Hin%Hf. destruct Hab as [Hab| ->]; [by apply (before_asym a b)|by apply (before_asym b b)]. }
  split; [done|]. intros Hne. set_solver.
Qed.
End order.

(** ** One shard: queue, parser and what was recorded *)

Section shard.
Context {Doc : Type} `{!Parsing Doc}.
Abbreviation Ring := (Ring (Doc := Doc)).
Abbreviation Phase := (Phase (Doc := Doc)).
Abbreviation Event := (Event (Doc := Doc)).
Abbreviation Job := (Job (Doc := Doc)).

Definition pushes (i : nat) (tr : list Event) : list (RawMessage Doc) :=
  omap (fun e => match e with EvPush j m => if decide (j = i) then Some m else None | _ => None end) tr.
Definition stores (t : Thread) (tr : list Event) : list Job :=
  omap (fun e => match e with EvStore u x => if decide (u = t) then Some x else None | _ => None end) tr.
Definition publishes (t : Thread) (tr : list Event) : list Job :=
  omap (fun e => match e with EvPublish u x => if decide (u = t) then Some x else None | _ => None end) tr.

(** The messages among [ms] that lead to an event, as jobs; a pill leads to none. *)
Definition fruitful (m : RawMessage Doc) : bool := negb (rm_size m =? 0) && handled m.
Definition jobs (ms : list (RawMessage Doc)) : list Job := JMessage <$> filter (fun m => fruitful m = true) ms.

Lemma jobs_app l1 l2 : jobs (l1 ++ l2) = jobs l1 ++ jobs l2.
Proof. unfold jobs. by rewrite filter_app, fmap_app. Qed.
Lemma jobs_one m : jobs [m] = if fruitful m then [JMessage m] else [].
Proof. unfold jobs. rewrite filter_cons, filter_nil. by destruct (fruitful m). Qed.

(** Messages that are not pills. *)
Lemma jobs_sized ms : Forall (fun m => rm_size m <> 0) ms -> jobs ms = JMessage <$> filter (fun m => handled m = true) ms.
Proof.
  intros Hf. unfold jobs. f_equal. induction Hf as [|m ms Hm _ IH]; [done|]. rewrite !filter_cons, IH.
  assert (fruitful m = handled m) by (unfold fruitful; by rewrite (proj2 (Z.eqb_neq _ _) Hm)).
  repeat case_decide; congruence.
Qed.

(** What a parser took from its queue and has not published. *)
Definition in_hand (p : Phase) : list Job := match p with Storing x | Publishing x => [x] | _ => [] end.
Definition half_done (p : Phase) : list Job := match p with Publishing x => [x] | _ => [] end.

Definition slots_upto (q : Ring) (k : nat) : list (RawMessage Doc) := rg_slots q <$> seq 0 k.

(** [pilled]: the poison pill was pushed. *)
Record ShardInv (i : nat) (pilled : bool) (q : Ring) (p : Phase) (tr : list Event) : Prop := {
  sh_le : (rg_r q <= rg_w q)%nat;
  sh_pushes : slots_upto q (rg_w q) = pushes i tr ++ (if pilled then [raw0] else []);
  sh_sizes : Forall (fun m => rm_size m <> 0) (pushes i tr);
  sh_done : p = Done <-> pilled = true /\ rg_r q = rg_w q;
  sh_taken : jobs (slots_upto q (rg_r q)) = publishes (Parser i) tr ++ in_hand p;
  sh_stored : stores (Parser i) tr = publishes (Parser i) tr ++ half_done p
}.

Lemma slots_upto_write q m k : (k <= rg_w q)%nat -> slots_upto (ring_write (rg_w q) m q) k = slots_upto q k.
Proof.
  intros Hk. apply list_fmap_ext. intros j x Hj%lookup_seq. cbn. by rewrite fn_lookup_insert_ne by lia.
Qed.

Lemma slots_upto_S q k : slots_upto q (S k) = slots_upto q k ++ [rg_slots q k].
Proof. unfold slots_upto. by rewrite seq_S, fmap_app. Qed.

Lemma slots_written q m : slots_upto (ring_write (rg_w q) m q) (S (rg_w q)) = slots_upto q (rg_w q) ++ [m].
Proof. rewrite slots_upto_S, slots_upto_write by done. cbn. by rewrite fn_lookup_insert. Qed.

Lemma shard_push i q p tr m :
  rm_size m <> 0 -> ShardInv i false q p tr -> ShardInv i false (ring_write (rg_w q) m q) p (tr ++ [EvPush i m]).
Proof.
  intros Hm [H1 H2 H3 H4 H5 H6]. rewrite app_nil_r in H2.
  assert (Hp : pushes i (tr ++ [EvPush i m]) = pushes i tr ++ [m]).
  { unfold pushes. rewrite omap_app. cbn. by rewrite decide_True by done. }
  split; unfold stores, publishes in *; rewrite ?omap_app, ?app_nil_r, ?Hp; cbn [rg_w rg_r ring_write omap list_omap]; rewrite ?app_nil_r.
  - lia.
  - by rewrite slots_written, H2.
  - apply Forall_app_2; [done|by repeat constructor].
  - naive_solver.
  - by rewrite slots_upto_write.
  - done.
Qed.

Lemma shard_pill i q p tr :
  ShardInv i false q p tr -> ShardInv i true (ring_write (rg_w q) raw0 q) p tr.
Proof.
  intros [H1 H2 H3 H4 H5 H6]. rewrite app_nil_r in H2. split; cbn [rg_w rg_r ring_write]; try done.
  - lia.
  - by rewrite slots_written, H2.
  - split; [intros Hd%H4; naive_solver|lia].
  - by rewrite slots_upto_write.
Qed.

Lemma shard_start i b q tr p : (p = Idle \/ p = Spawned) -> ShardInv i b q p tr -> forall p', (p' = Spawned \/ p' = Looping) -> ShardInv i b q p' tr.
Proof. intros Hp [H1 H2 H3 H4 H5 H6] p' Hp'. destruct Hp as [->| ->], Hp' as [->| ->]; split; try done; naive_solver. Qed.

(** The message at the head is the pill exactly when it is the last one and the pill was pushed. *)
Lemma shard_inv_pop i b q tr m q' :
  ring_pop q = Some (m, q') -> ShardInv i b q Looping tr ->
  ShardInv i b q' (if rm_size m =? 0 then Done else if handled m then Storing (JMessage m) else Looping) tr.
Proof.
  unfold ring_pop. intros Hq [H1 H2 H3 H4 H5 H6]. destruct (rg_w q <=? rg_r q)%nat eqn:Hle; [done|]. apply Nat.leb_gt in Hle.
  injection Hq as <- <-.
  set (m := rg_slots q (rg_r q)) in *. rewrite app_nil_r in H5, H6.
  assert (Hm : (rg_slots q <$> seq 0 (rg_w q)) !! rg_r q = Some m).
  { rewrite list_lookup_fmap, lookup_seq_lt by done. done. }
  fold (slots_upto q (rg_w q)) in Hm. rewrite H2 in Hm.
  assert (Hlen : length (pushes i tr ++ (if b then [raw0] else [])) = rg_w q) by (rewrite <- H2; unfold slots_upto; by rewrite length_fmap, length_seq).
  rewrite length_app in Hlen.
  assert (Hcase : rm_size m <> 0 /\ ~ (b = true /\ S (rg_r q) = rg_w q) \/ m = raw0 /\ b = true /\ S (rg_r q) = rg_w q).
  { apply lookup_app_Some in Hm as [Hm|[Hge Hm]].
    - left. split; [by eapply Forall_lookup_1 in H3|]. apply lookup_lt_Some in Hm. destruct b; cbn in Hlen; naive_solver lia.
    - right. destruct b; [|done]. cbn in Hlen. apply list_lookup_singleton_Some in Hm as [? <-]. split_and!; [done|done|lia]. }
  assert (Ht : jobs (slots_upto q (S (rg_r q))) = publishes (Parser i) tr ++ if fruitful m then [JMessage m] else []).
  { by rewrite slots_upto_S, jobs_app, jobs_one, H5. }
  destruct Hcase as [[Hz Hn]|(Hz & Hb & Hr)].
  - unfold fruitful in Ht. rewrite (proj2 (Z.eqb_neq _ _) Hz) in *. cbn [negb andb] in Ht.
    destruct (handled m); (split; cbn [rg_w rg_r half_done in_hand]; rewrite ?app_nil_r in *; first [done | lia | naive_solver]).
  - rewrite Hz in *. cbn [rm_size raw0 Z.eqb]. cbn in Ht. rewrite app_nil_r in Ht.
    split; cbn [rg_w rg_r half_done in_hand]; rewrite ?app_nil_r; first [done | lia | naive_solver].
Qed.

Lemma shard_store i b q tr x : ShardInv i b q (Storing x) tr -> ShardInv i b q (Publishing x) (tr ++ [EvStore (Parser i) x]).
Proof.
  intros [H1 H2 H3 H4 H5 H6]. split; unfold pushes, stores, publishes in *; rewrite ?omap_app; cbn [omap list_omap];
    rewrite ?app_nil_r, ?decide_True by done; try done; [naive_solver|]. cbn in H6. rewrite app_nil_r in H6. by rewrite H6.
Qed.

Lemma shard_publish i b q tr x : ShardInv i b q (Publishing x) tr -> ShardInv i b q Looping (tr ++ [EvPublish (Parser i) x]).
Proof.
  intros [H1 H2 H3 H4 H5 H6]. split; unfold pushes, stores, publishes in *; rewrite ?omap_app; cbn [omap list_omap];
    rewrite ?app_nil_r, ?decide_True by done; try done. naive_solver.
Qed.

(** Events of other shards and threads. *)
Definition elsewhere (i : nat) (e : Event) : Prop :=
  match e with EvPush j _ => j <> i | EvStore t _ | EvPublish t _ => t <> Parser i | _ => True end.

Lemma shard_frame i b q p tr e : elsewhere i e -> ShardInv i b q p tr -> ShardInv i b q p (tr ++ [e]).
Proof.
  intros He [H1 H2 H3 H4 H5 H6].
  assert (pushes i (tr ++ [e]) = pushes i tr /\ stores (Parser i) (tr ++ [e]) = stores (Parser i) tr /\
    publishes (Parser i) (tr ++ [e]) = publishes (Parser i) tr) as (E1 & E2 & E3).
  { unfold pushes, stores, publishes. rewrite !omap_app.
    destruct e; cbn in *; rewrite ?decide_False by done; by rewrite !app_nil_r. }
  split; rewrite ?E1, ?E2, ?E3; done.
Qed.

Lemma shard_inv_empty i : ShardInv i false (mkRing 0 0 (fun _ => raw0)) Idle [].
Proof. by split; cbn; try done; try lia; naive_solver. Qed.
End shard.

(** ** Calm runs *)

Section calm.
Context {Doc : Type} `{!Parsing Doc} (n : nat) (rithmic : bool).
Abbreviation state := (St (Doc := Doc)).

(** The next action of the main thread does not race with a thread: a pill is
    pushed when the network thread has ended, and a thread is told to stop when it
    has begun (the monitor's flag is set before the thread is created). *)
Definition calm (s : state) : Prop :=
  match script s with
  | APill _ :: _ => phase s Network = Done
  | ASetFlag t false :: _ => phase s t = Spawned -> t = Monitor
  | _ => True
  end.

Definition calm_step (s s' : state) : Prop := exists l, exec l s = Some s' /\ (l = LMain -> calm s).

Lemma calm_step_step s s' : calm_step s s' -> step s s'.
Proof. intros (l & H & _). by exists l. Qed.

Lemma calm_steps s s' : rtc calm_step s s' -> rtc step s s'.
Proof. apply rtc_subrel. intros ? ?. apply calm_step_step. Qed.

Abbreviation todo s := (norm <$> script s).

(** The phases a thread can be in. *)
Definition allowed (t : Thread) (p : Phase (Doc := Doc)) : bool :=
  match t, p with
  | _, Idle | _, Spawned | _, Looping | _, Done => true
  | Network, Pushing _ _ | Network, Writing _ _ _ => true
  | (Parser _ | Receiver), (Storing _ | Publishing _) => true
  | (Publisher | Telemetry | Receiver | Monitor), (Working | Ending) => true
  | _, _ => false
  end.

(** The network thread pushes to an existing queue, and nobody else does. *)
Definition push_ok (s : state) : Prop :=
  match phase s Network with
  | Pushing i m => (i < n)%nat /\ rm_size m <> 0
  | Writing i m w => (i < n)%nat /\ rm_size m <> 0 /\ w = rg_w (ring s i)
  | _ => True
  end.

Record Calm (s : state) : Prop := {
  k_shards : shards s = n;
  k_todo : todo s `suffix_of` main_script n rithmic;
  k_tail : norm <$> tail (script s) = tail (script s);
  k_allowed : forall t, allowed t (phase s t) = true;
  k_idle : forall t, ACreate t ∈ todo s -> phase s t = Idle;
  k_flag : forall t, ASetFlag t false ∈ main_script n rithmic -> ASetFlag t false ∉ todo s ->
    flag s t = false /\ (phase s t = Spawned -> t = Monitor);
  k_io : AStopIo ∉ todo s -> io_stopped s = true;
  k_net : (exists i, (i < n)%nat /\ APill i ∉ todo s) \/ (exists i w rest, script s = APillWrite i w :: rest) -> phase s Network = Done;
  k_push : push_ok s;
  k_write : forall i w rest, script s = APillWrite i w :: rest -> w = rg_w (ring s i);
  k_ring : forall i, (i < n)%nat -> ShardInv i (bool_decide (APill i ∉ todo s)) (ring s i) (phase s (Parser i)) (trace s)
}.

Lemma main_has_pill i : (i < n)%nat <-> APill i ∈ main_script n rithmic.
Proof.
  split.
  - intros Hi. unfold main_script. rewrite !elem_of_app. do 8 right. left. apply list_elem_of_fmap. exists i. split; [done|]. apply elem_of_seq. lia.
  - unfold main_script, RunParsers, PoolRun, CryptoShutdown, PoolShutdown, PushPills. rewrite !elem_of_app, elem_of_cons, !list_elem_of_fmap.
    intros Hi. destruct rithmic; set_unfold; naive_solver lia.
Qed.

Lemma main_creates_parser i : (i < n)%nat -> ACreate (Parser i) ∈ main_script n rithmic.
Proof.
  intros Hi. unfold main_script. rewrite !elem_of_app. do 2 right. left. apply list_elem_of_fmap. exists i. split; [done|]. apply elem_of_seq. lia.
Qed.

(** A thread that is joined was created and, unless it has no flag, told to stop. *)
Lemma main_joins t :
  AJoin t ∈ main_script n rithmic -> ACreate t ∈ main_script n rithmic /\
    match t with Network => True | Parser i => (i < n)%nat | _ => ASetFlag t false ∈ main_script n rithmic end.
Proof.
  unfold main_script, RunParsers, PoolRun, CryptoShutdown, PoolShutdown, PushPills. rewrite !elem_of_app, !elem_of_cons, !list_elem_of_fmap.
  intros Hi. destruct rithmic, t; set_unfold; naive_solver lia.
Qed.

Lemma only_monitor t : ASetFlag t true ∈ main_script n rithmic -> t = Monitor.
Proof.
  unfold main_script, RunParsers, PoolRun, CryptoShutdown, PoolShutdown, PushPills. rewrite !elem_of_app, elem_of_cons, !list_elem_of_fmap.
  intros Hi. destruct rithmic; set_unfold; naive_solver.
Qed.

Lemma list_elem_of_suffix (a : Act) l k : a ∈ l -> l `suffix_of` k -> a ∈ k.
Proof. intros Ha [pre ->]. set_solver. Qed.

Lemma norm_plain (l : list Act) : norm <$> l = l -> forall i w, APillWrite i w ∉ l.
Proof.
  intros H i w Hin. assert (norm (APillWrite i w) ∈ norm <$> l) as Hx by (by apply list_elem_of_fmap_2).
  rewrite <- H in Hin. apply list_elem_of_fmap in Hin as (a & E & _). by destruct a.
Qed.

(** What an action of the main thread does. *)
Lemma exec_main_effect (s s' : state) a rest :
  script s = a :: rest -> exec_main s = Some s' ->
    shards s' = shards s /\ (trace s' = trace s \/ trace s' = trace s ++ [EvClose]) /\
    (forall t, a = ACreate t -> phase s' t = Spawned) /\ (forall t b, a = ASetFlag t b -> flag s' t = b) /\
    io_stopped s' = bool_decide (a = AStopIo) || io_stopped s /\
    (forall i w, a = APillWrite i w -> ring s' i = ring_write w raw0 (ring s i)) /\
    ((exists i, a = APill i /\ script s' = APillWrite i (rg_w (ring s i)) :: rest) \/ (forall i, a <> APill i) /\ script s' = rest).
Proof.
  intros Es He. unfold exec_main in He. rewrite Es in He.
  destruct a; repeat case_match; simplify_eq; cbn; split_and!; try tauto; try done; try (by intros; simplify_eq; rewrite fn_lookup_insert);
    try (by right; split); by left; eexists.
Qed.

Lemma calm_pill_load s i rest :
  Calm s -> script s = APill i :: rest -> phase s Network = Done ->
  Calm (set_script (APillWrite i (rg_w (ring s i)) :: rest) s).
Proof.
  intros [K1 K2 K3 K4 K5 K6 K7 K8 K9 K10 K11] Es Hn. rewrite Es in *. split; cbn; try done.
  by intros j w l [= <- <- <-].
Qed.

Lemma next_flag s s' a rest t :
  Calm s -> calm s -> script s = a :: rest -> exec_main s = Some s' ->
  ASetFlag t false ∈ main_script n rithmic -> ASetFlag t false ∉ rest ->
  flag s' t = false /\ (phase s' t = Spawned -> t = Monitor).
Proof.
  intros [_ K2 K3 _ _ K6 _ _ _ _ _] Hcalm Es He Hm Ht.
  destruct (exec_main_shape s s' He) as (a' & rest' & Es' & _ & Hp & _ & Hf & _). rewrite Es in Es'. injection Es' as <- <-.
  destruct (exec_main_effect s s' a rest Es He) as (_ & _ & _ & E4 & _ & _ & _).
  unfold calm in Hcalm. rewrite Es in *. cbn [tail] in K3. rewrite fmap_cons, K3 in *.
  destruct (decide (a = ASetFlag t false)) as [->|Hx]; [by rewrite (E4 t false), Hp|].
  assert (Hlater : before (norm a) (ASetFlag t false) -> False).
  { intros Hb. apply Ht. pose proof (later_todo n rithmic _ K2 _ _ (list_elem_of_here _ _) Hm Hb) as [Hy|?]%elem_of_cons; [|done]. by destruct a. }
  rewrite Hp, Hf.
  - apply K6; [done|]. apply not_elem_of_cons. split; [by destruct a|done].
  - intros [] ->; [|done]. apply Hlater. assert (t = Monitor) as -> by (eapply only_monitor, list_elem_of_suffix; [|exact K2]; left).
    left. cbn. lia.
  - intros ->. apply Hlater. left. destruct t; cbn; lia.
Qed.

Lemma calm_next s s' a rest :
  Calm s -> calm s -> script s = a :: rest -> exec_main s = Some s' -> script s' = rest -> (forall i, a <> APill i) -> Calm s'.
Proof.
  intros HC Hcalm Es He E7 Hnp. pose proof HC as [K1 K2 K3 K4 K5 K6 K7 K8 K9 K10 K11].
  destruct (exec_main_shape s s' He) as (a' & rest' & Es' & _ & Hp & Hj & Hf & Hr). rewrite Es in Es'. injection Es' as <- <-.
  destruct (exec_main_effect s s' a rest Es He) as (E1 & E2 & E3 & E4 & E5 & E6 & _).
  rewrite Es in K2, K3, K5, K6, K7, K8, K10, K11. cbn [tail] in K3. rewrite fmap_cons, K3 in *.
  pose proof (earlier_done n rithmic _ K2 (norm a) (norm a) rest eq_refl (or_intror eq_refl)) as [Hdone _].
  assert (Hpill : forall i, a <> APillWrite i (rg_w (ring s i)) -> APill i ∉ rest <-> APill i ∉ norm a :: rest).
  { intros i Hi. rewrite not_elem_of_cons. split; [|tauto]. intros Hx. split; [|done]. intros Hy.
    destruct a as [| | | | |j|j w| | | |]; try done; cbn in Hy; injection Hy as ->; [by eapply Hnp|]. by rewrite (K10 j w rest eq_refl) in Hi. }
  assert (Hne : forall t, phase s t <> Idle -> a <> ACreate t).
  { intros t Ht ->. apply Ht, K5. left. }
  split; rewrite ?E1, ?E7, ?K3; try done.
  - by eapply suffix_cons_l.
  - destruct rest; [done|]. cbn in *. by injection K3.
  - intros t. destruct (decide (a = ACreate t)) as [->|Hx]; [by rewrite E3; destruct t|by rewrite Hp].
  - intros t Ht. rewrite Hp by (intros ->; done). apply K5. by right.
  - intros t Hm Ht. by eapply next_flag.
  - intros Hx. rewrite E5. destruct (decide (a = AStopIo)) as [->|Hy]; [done|]. rewrite K7; [by rewrite orb_true_r|].
    apply not_elem_of_cons. split; [|done]. by destruct a.
  - intros Hx. assert (Hn : phase s Network = Done); [|by rewrite Hp by (apply Hne; congruence)].
    apply K8. destruct Hx as [(i & Hi & Hx)|(i & w & l & Hx)]; [|destruct (norm_plain _ K3 i w); rewrite Hx; left].
    destruct (decide (a = APillWrite i (rg_w (ring s i)))) as [->|Hd]; [right; by eexists _, _, _|]. left. exists i. split; [done|]. by apply Hpill.
  - unfold push_ok in *. destruct (decide (a = ACreate Network)) as [->|Hx]; [by rewrite E3|]. rewrite Hp by done.
    destruct (phase s Network) as [| | | | | | |i m w| |] eqn:En; try done. rewrite Hr; [done|]. intros w' ->.
    discriminate K8. right. by eexists _, _, _.
  - intros i w l ->. destruct (norm_plain _ K3 i w). left.
  - intros i Hi. specialize (K11 i Hi).
    assert (Hs : ShardInv i (bool_decide (APill i ∉ rest)) (ring s' i) (phase s' (Parser i)) (trace s)).
    { destruct (decide (a = APillWrite i (rg_w (ring s i)))) as [->|Hd].
      - rewrite (E6 _ _ eq_refl), Hp by done. rewrite bool_decide_false in K11 by (cbn; set_solver).
        rewrite bool_decide_true by done. by apply shard_pill.
      - rewrite (bool_decide_ext _ _ (Hpill i Hd)), Hr; [|intros w ->; by rewrite (K10 i w rest eq_refl) in Hd].
        destruct (decide (a = ACreate (Parser i))) as [->|Hx]; [|by rewrite Hp].
        rewrite E3 by done. eapply shard_start; [|exact K11|by left]. left. apply K5. left. }
    destruct E2 as [->| ->]; [done|]. by apply shard_frame.
Qed.

Lemma calm_main s s' : Calm s -> calm s -> exec_main s = Some s' -> Calm s'.
Proof.
  intros HC Hcalm He. destruct (exec_main_shape s s' He) as (a & rest & Es & _).
  destruct (exec_main_effect s s' a rest Es He) as (_ & _ & _ & _ & _ & _ & [(i & -> & E7)|[Hnp E7]]).
  - unfold exec_main in He. unfold calm in Hcalm. rewrite Es in *. case_match; simplify_eq. by apply calm_pill_load.
  - by eapply calm_next.
Qed.

(** A step of thread [t]. *)
Record thread_effect (t : Thread) (s s' : state) : Prop := {
  te_awake : ~ resting (phase s t);
  te_shards : shards s' = shards s;
  te_script : script s' = script s;
  te_io : io_stopped s' = io_stopped s;
  te_phase : exists p, phase s' = <[t := p]> (phase s) /\ allowed t p = true /\ p <> Spawned;
  te_flag : forall u, flag s' u = flag s u \/ flag s' u = false \/ u = t /\ u <> Monitor /\ phase s u = Spawned
}.

Lemma calm_thread t s s' :
  Calm s -> thread_effect t s s' -> push_ok s' ->
  (forall i w rest, script s = APillWrite i w :: rest -> rg_w (ring s' i) = rg_w (ring s i)) ->
  (forall i, (i < n)%nat -> ShardInv i (bool_decide (APill i ∉ todo s)) (ring s' i) (phase s' (Parser i)) (trace s')) -> Calm s'.
Proof.
  intros [K1 K2 K3 K4 K5 K6 K7 K8 K9 K10 K11] [T1 T2 T3 T4 (p & T5 & T6 & T7) T8] Hpush Hw Hring.
  assert (Hother : forall u, u <> t -> phase s' u = phase s u) by (intros u Hu; by rewrite T5, fn_lookup_insert_ne).
  assert (Hself : phase s' t = p) by (by rewrite T5, fn_lookup_insert).
  split; rewrite ?T2, ?T3, ?T4; try done.
  - intros u. destruct (decide (u = t)) as [->|Hu]; [by rewrite Hself|by rewrite Hother].
  - intros u Hu. rewrite Hother; [auto|]. intros ->. apply T1. left. auto.
  - intros u Hm Hu. destruct (K6 u Hm Hu) as [Hf Hs]. split.
    + destruct (T8 u) as [->|[->|(-> & Hn & Hsp)]]; [done|done|]. by destruct Hn; apply Hs.
    + destruct (decide (u = t)) as [->|Hne]; [by rewrite Hself|by rewrite Hother].
  - intros Hx. specialize (K8 Hx). rewrite Hother; [done|]. intros <-. apply T1. by right.
  - intros i w rest Hs. rewrite (Hw i w rest Hs). by eapply K10.
Qed.

(** Threads that touch neither the queues nor the parsers. *)
Lemma calm_bystander t s s' :
  Calm s -> thread_effect t s s' -> t <> Network -> (forall i, t <> Parser i) -> ring s' = ring s ->
  (trace s' = trace s \/ exists e, trace s' = trace s ++ [e] /\ forall i, elsewhere i e) -> Calm s'.
Proof.
  intros HC HT Hn Hp Hr Htr. destruct (te_phase _ _ _ HT) as (p & Hph & _). apply (calm_thread t s); try done.
  - unfold push_ok. rewrite Hph, fn_lookup_insert_ne, Hr by done. apply HC.
  - intros i w rest Hs. by rewrite Hr.
  - intros i Hi. rewrite Hr, Hph, fn_lookup_insert_ne by done. pose proof (k_ring _ HC i Hi) as Hk.
    destruct Htr as [->|(e & -> & He)]; [done|]. by apply shard_frame.
Qed.

Lemma calm_network_phase s p :
  Calm s -> ~ resting (phase s Network) -> allowed Network p = true -> p <> Spawned -> push_ok (set_phase Network p s) ->
  Calm (set_phase Network p s).
Proof.
  intros HC Ha Hp Hs Hok. apply (calm_thread Network s); try done.
  - split; try done; [by exists p|by left].
  - intros i Hi. cbn. rewrite fn_lookup_insert_ne by done. by apply HC.
Qed.

Lemma calm_write s i m w :
  Calm s -> phase s Network = Writing i m w ->
  Calm (emit (EvPush i m) (set_phase Network Looping (set_ring i (ring_write w m (ring s i)) s))).
Proof.
  intros HC En. pose proof (k_push _ HC) as Hok. unfold push_ok in Hok. rewrite En in Hok. destruct Hok as (Hi & Hm & ->).
  apply (calm_thread Network s); [done| | | |].
  - split; try done; [rewrite En; by intros [|]|by exists Looping|by left].
  - unfold push_ok. cbn. by rewrite fn_lookup_insert.
  - intros j w rest Hs. rewrite (k_net _ HC) in En; [done|]. right. by eexists _, _, _.
  - intros j Hj. cbn. rewrite (fn_lookup_insert_ne (phase s)) by done. pose proof (k_ring _ HC j Hj) as Hk.
    destruct (decide (j = i)) as [->|Hne]; [|rewrite fn_lookup_insert_ne by done; by apply shard_frame].
    assert (Hb : bool_decide (APill i ∉ todo s) = false).
    { apply bool_decide_false. intros Hx. rewrite (k_net _ HC) in En; [done|]. left. by exists i. }
    rewrite fn_lookup_insert, Hb in *. by apply shard_push.
Qed.

Lemma calm_network s s' : Calm s -> exec_network s = Some s' -> Calm s'.
Proof.
  intros HC He. pose proof (k_push _ HC) as Hok. unfold exec_network in He. unfold push_ok in Hok.
  destruct (phase s Network) as [| | | | | |i m|i m w| |] eqn:En; try done;
    [..|injection He as <-; by apply calm_write]; repeat case_match; simplify_eq; apply calm_network_phase; try done.
  all: try (by rewrite En; intros [|]).
  all: unfold push_ok; cbn; rewrite fn_lookup_insert; naive_solver.
Qed.

Lemma calm_message s i m :
  Calm s -> phase s Network = Looping -> (i < n)%nat -> rm_size m <> 0 -> Calm (set_phase Network (Pushing i m) s).
Proof.
  intros HC En Hi Hm. apply calm_network_phase; try done. rewrite En. by intros [|].
Qed.

(** A step of parser [i], which may move in its queue and record what it did. *)
Lemma calm_parser_effect i s s' evs :
  Calm s -> thread_effect (Parser i) s s' -> (forall j, j <> i -> ring s' j = ring s j) -> rg_w (ring s' i) = rg_w (ring s i) ->
  trace s' = trace s ++ evs -> (evs = [] \/ exists e, evs = [e] /\ forall j, j <> i -> elsewhere j e) ->
  (forall b, ShardInv i b (ring s i) (phase s (Parser i)) (trace s) -> ShardInv i b (ring s' i) (phase s' (Parser i)) (trace s ++ evs)) ->
  Calm s'.
Proof.
  intros HC HT Hr Hw Htr Hev Hinv. destruct (te_phase _ _ _ HT) as (p & Hph & _).
  assert (Hrw : forall j, rg_w (ring s' j) = rg_w (ring s j)) by (intros j; destruct (decide (j = i)) as [->|Hne]; [done|by rewrite Hr]).
  apply (calm_thread (Parser i) s); try done.
  - pose proof (k_push _ HC) as Hok. unfold push_ok in *. rewrite Hph, fn_lookup_insert_ne by done.
    destruct (phase s Network); try done. by rewrite Hrw.
  - intros j Hj. pose proof (k_ring _ HC j Hj) as Hk. rewrite Htr. destruct (decide (j = i)) as [->|Hne]; [auto|].
    rewrite Hr, Hph, fn_lookup_insert_ne by congruence. destruct Hev as [->|(e & -> & He)]; [by rewrite app_nil_r|]. apply shard_frame; auto.
Qed.

Ltac parser_effect Ep p :=
  split; try done; [rewrite Ep; by intros [|]|by exists p|by left].

Lemma calm_parser i s s' : Calm s -> exec_parser i s = Some s' -> Calm s'.
Proof.
  intros HC He. unfold exec_parser in He.
  destruct (phase s (Parser i)) as [| | | |x|x| | | |] eqn:Ep; try done.
  - injection He as <-. apply (calm_parser_effect i s _ []); try done; rewrite ?app_nil_r; [parser_effect Ep (Looping (Doc := Doc))|done|by left|].
    intros b Hb. cbn. rewrite fn_lookup_insert, Ep in *. eapply shard_start; [|exact Hb|by right]. by right.
  - destruct (ring_pop (ring s i)) as [[m q]|] eqn:Eq; [|done]. injection He as <-.
    apply (calm_parser_effect i s _ []); rewrite ?app_nil_r; [done| | | |done|by left|].
    + split; try done; [rewrite Ep; by intros [|]|eexists; split; [done|by repeat case_match]|by left].
    + intros j Hj. cbn. by rewrite fn_lookup_insert_ne.
    + cbn. rewrite fn_lookup_insert. unfold ring_pop in Eq. case_match; by simplify_eq.
    + intros b Hb. cbn. rewrite !fn_lookup_insert, Ep in *. by eapply shard_inv_pop.
  - injection He as <-. apply (calm_parser_effect i s _ [EvStore (Parser i) x]); try done; [parser_effect Ep (Publishing x)| |].
    + right. eexists. split; [done|]. intros j Hj. cbn. congruence.
    + intros b Hb. cbn. rewrite fn_lookup_insert, Ep in *. by apply shard_store.
  - injection He as <-. apply (calm_parser_effect i s _ [EvPublish (Parser i) x]); try done; [parser_effect Ep (Looping (Doc := Doc))| |].
    + right. eexists. split; [done|]. intros j Hj. cbn. congruence.
    + intros b Hb. cbn. rewrite fn_lookup_insert, Ep in *. by apply shard_publish.
Qed.

Lemma calm_others t g s s' :
  t <> Network -> (forall i, t <> Parser i) -> Calm s -> exec (LThread t g) s = Some s' -> Calm s'.
Proof.
  intros Hn Hp HC He. apply (calm_bystander t s); try done.
  - destruct t; try done; try (by destruct (Hp i)); cbn [exec] in He; unfold exec_publisher, exec_telemetry, exec_receiver, exec_monitor in He;
      repeat case_match; simplify_eq; split; cbn; try done.
    all: first [by intros [Hx|Hx]; congruence | by eexists; split; [reflexivity|] | intros u; first [by left | unfold insert, fn_insert; case_decide; naive_solver]].
  - destruct t; try done; try (by destruct (Hp i)); cbn [exec] in He; unfold exec_publisher, exec_telemetry, exec_receiver, exec_monitor in He;
      repeat case_match; by simplify_eq.
  - destruct t; try done; try (by destruct (Hp i)); cbn [exec] in He; unfold exec_publisher, exec_telemetry, exec_receiver, exec_monitor in He;
      repeat case_match; simplify_eq; first [by left | right; eexists; split; [reflexivity|done]].
Qed.

Lemma calm_preserved s s' : Calm s -> calm_step s s' -> Calm s'.
Proof.
  intros HC (l & He & Hl). destruct l as [|t g|i m|p].
  - apply (calm_main s); auto.
  - destruct t; [by apply (calm_network s)|by apply (calm_parser i s)|eapply calm_others; [| |exact HC|exact He]; done..].
  - cbn in He. destruct (phase s Network) eqn:En; try done. case_match eqn:Eg; [done|]. injection He as <-.
    rewrite !orb_false_iff, negb_false_iff, (k_shards _ HC) in Eg.
    destruct Eg as [[_ Eg] Hi]. apply Nat.ltb_lt in Hi.
    apply calm_message; [done|done|done|]. by apply Z.eqb_neq.
  - injection He as <-. by destruct HC as [K1 K2 K3 K4 K5 K6 K7 K8 K9 K10 K11]; split.
Qed.

Lemma norm_main : norm <$> main_script n rithmic = main_script n rithmic.
Proof.
  assert (H : Forall (fun a => norm a = a) (main_script n rithmic)).
  { unfold main_script, CryptoShutdown, RunParsers, PoolRun, PushPills, PoolShutdown.
    destruct rithmic; repeat first [apply Forall_nil_2 | apply Forall_cons_2; [done|] | apply Forall_app_2 | by apply Forall_family]. }
  induction H as [|a l Ha _ IH]; [done|]. cbn. by rewrite Ha, IH.
Qed.

Lemma calm_init : Calm (init n rithmic).
Proof.
  pose proof norm_main as Hn. split; cbn; rewrite ?Hn; try done.
  - destruct (main_script n rithmic); cbn in *; [done|by injection Hn].
  - by intros [].
  - intros Ht. destruct Ht. unfold main_script. rewrite !elem_of_app. do 6 right. left. unfold StopNetwork. set_solver.
  - intros [(i & Hi & Hx)|(i & w & rest & Hs)]; [by apply main_has_pill in Hi|].
    destruct (norm_plain _ Hn i w). rewrite Hs. left.
  - intros i w rest Hs. destruct (norm_plain _ Hn i w). rewrite Hs. left.
  - intros i Hi. rewrite bool_decide_false by (intros Hx; apply Hx; by apply main_has_pill). apply shard_inv_empty.
Qed.

Lemma calm_reachable s : rtc calm_step (init n rithmic) s -> Calm s.
Proof. intros H. apply (rtc_invariant calm_step Calm (init n rithmic)); [intros ? ?; apply calm_preserved|done|apply calm_init]. Qed.

(** *** Progress *)

Record Ready (s : state) : Prop := { rd_calm : Calm s; rd_started : started (main_script n rithmic) s }.

(** A step that is not the main thread's. *)
Definition tstep (s s' : state) : Prop := exists l, l <> LMain /\ exec l s = Some s'.

Lemma tstep_calm s s' : tstep s s' -> calm_step s s'.
Proof. intros (l & Hl & He). by exists l. Qed.

Lemma ready_step s s' : Ready s -> calm_step s s' -> Ready s'.
Proof. intros [H1 H2] H. split; [by apply (calm_preserved s)|]. by eapply step_started, calm_step_step. Qed.

Lemma ready_steps s s' : rtc calm_step s s' -> Ready s -> Ready s'.
Proof. intros H Hs. apply (rtc_invariant calm_step Ready s); [intros ? ?; apply ready_step|done|done]. Qed.

Lemma tsteps_calm s s' : rtc tstep s s' -> rtc calm_step s s'.
Proof. apply rtc_subrel. intros ? ?. apply tstep_calm. Qed.

Lemma tsteps_script s s' : rtc tstep s s' -> script s' = script s.
Proof.
  induction 1 as [|a b c (l & Hl & He) _ IH]; [done|]. rewrite IH. by apply (tm_script _ _ (exec_thread_moved l a b Hl He)).
Qed.

Lemma ready_tsteps s s' : rtc tstep s s' -> Ready s -> Ready s'.
Proof. intros H. by apply ready_steps, tsteps_calm. Qed.

Lemma created_not_idle s t : Ready s -> ACreate t ∈ main_script n rithmic -> ACreate t ∉ todo s -> phase s t <> Idle.
Proof.
  intros HR Hm Ht. destruct (rd_started _ HR t Hm) as [Hx|Hx]; [|done]. destruct Ht. by apply (list_elem_of_fmap_2' norm _ (ACreate t)).
Qed.

(** A thread with a stop flag that was told to stop comes to its end. *)
Definition flagged (t : Thread) : bool := match t with Network | Parser _ => false | _ => true end.
Definition way_out (p : Phase (Doc := Doc)) : nat :=
  match p with Done => 0 | Ending => 1 | Looping => 2 | Publishing _ => 3 | Storing _ => 4 | Working => 5 | _ => 6 end.

Lemma flagged_moves s t :
  flagged t = true -> allowed t (phase s t) = true -> flag s t = false -> (phase s t = Spawned -> t = Monitor) ->
  phase s t <> Idle -> phase s t <> Done ->
  exists s', tstep s s' /\ flag s' t = false /\ phase s' t <> Spawned /\ phase s' t <> Idle /\ (way_out (phase s' t) < way_out (phase s t))%nat.
Proof.
  intros Ht Ha Hf Hs Hi Hd.
  assert (He : exists s', exec (LThread t false) s = Some s' /\ flag s' t = false /\ phase s' t <> Spawned /\ phase s' t <> Idle /\
    (way_out (phase s' t) < way_out (phase s t))%nat).
  { destruct t; try done; cbn [exec]; unfold exec_publisher, exec_telemetry, exec_receiver, exec_monitor;
      destruct (phase s _) as [| | | |x|x| | | |] eqn:Ep; try done; try (by specialize (Hs eq_refl)); rewrite ?Hf;
      try destruct (poll (shm s)) as [[? ?]|]; eexists; (split; [reflexivity|]); cbn; rewrite ?fn_lookup_insert; cbn; split_and!; try done; lia. }
  destruct He as (s' & He & Hrest). exists s'. split; [by exists (LThread t false)|done].
Qed.

Lemma flagged_ends s t :
  Ready s -> flagged t = true -> flag s t = false -> (phase s t = Spawned -> t = Monitor) -> phase s t <> Idle ->
  exists s', rtc tstep s s' /\ phase s' t = Done.
Proof.
  intros HR Ht. remember (way_out (phase s t)) as k eqn:Ek. revert s HR Ek.
  induction k as [k IH] using lt_wf_ind. intros s HR -> Hf Hs Hi.
  destruct (decide (is_done (phase s t) = true)) as [Hd|Hd]; [exists s; split; [constructor|by destruct (phase s t)]|].
  destruct (flagged_moves s t) as (s1 & H1 & F1 & F2 & F3 & F4); try done; [apply HR|by intros Hx; rewrite Hx in Hd|].
  assert (HR1 : Ready s1) by (by eapply ready_step, tstep_calm).
  destruct (IH _ F4 s1 HR1 eq_refl F1) as (s2 & H2 & H3); [done|done|].
  exists s2. split; [by eapply rtc_l|done].
Qed.

(** A parser with something in its queue takes the next message. *)
Record popped (i : nat) (s s' : state) : Prop := {
  pp_steps : rtc tstep s s';
  pp_r : rg_r (ring s' i) = S (rg_r (ring s i));
  pp_w : rg_w (ring s' i) = rg_w (ring s i);
  pp_awake : phase s' (Parser i) <> Idle;
  pp_network : phase s' Network = phase s Network;
  pp_io : io_stopped s' = io_stopped s
}.

Definition to_pop (p : Phase (Doc := Doc)) : nat := match p with Looping => 0 | Spawned | Publishing _ => 1 | _ => 2 end.

Lemma ring_pop_ready (q : Ring (Doc := Doc)) :
  (rg_r q < rg_w q)%nat -> ring_pop q = Some (rg_slots q (rg_r q), mkRing (rg_w q) (S (rg_r q)) (rg_slots q)).
Proof. intros H. unfold ring_pop. by rewrite (proj2 (Nat.leb_gt _ _) H). Qed.

Lemma parser_pops i s :
  allowed (Parser i) (phase s (Parser i)) = true -> phase s (Parser i) <> Idle -> phase s (Parser i) <> Done ->
  (rg_r (ring s i) < rg_w (ring s i))%nat -> exists s', popped i s s'.
Proof.
  remember (to_pop (phase s (Parser i))) as k eqn:Ek. revert s Ek. induction k as [k IH] using lt_wf_ind.
  intros s -> Ha Hi Hd Hlt.
  assert (Hgo : forall s1, exec_parser i s = Some s1 -> (to_pop (phase s1 (Parser i)) < to_pop (phase s (Parser i)))%nat ->
    allowed (Parser i) (phase s1 (Parser i)) = true -> phase s1 (Parser i) <> Idle -> phase s1 (Parser i) <> Done ->
    ring s1 = ring s -> phase s1 Network = phase s Network -> io_stopped s1 = io_stopped s -> exists s', popped i s s').
  { intros s1 He Hk H1 H2 H3 Hr Hn Hio. destruct (IH _ Hk s1 eq_refl H1 H2 H3) as (s' & [P1 P2 P3 P4 P5 P6]); [by rewrite Hr|].
    exists s'. split; [eapply rtc_l; [by exists (LThread (Parser i) false)|done]|by rewrite P2, Hr|by rewrite P3, Hr|done|congruence|congruence]. }
  unfold exec_parser in Hgo. destruct (phase s (Parser i)) as [| | | |x|x| | | |] eqn:Ep; try done.
  - eapply Hgo; [reflexivity|..]; cbn; rewrite ?fn_lookup_insert; cbn; try done; lia.
  - pose proof (ring_pop_ready _ Hlt) as Hq. set (m := rg_slots (ring s i) (rg_r (ring s i))) in *.
    exists (set_phase (Parser i) (if rm_size m =? 0 then Done else if handled m then Storing (JMessage m) else Looping)
      (set_ring i (mkRing (rg_w (ring s i)) (S (rg_r (ring s i))) (rg_slots (ring s i))) s)).
    split; cbn; rewrite ?fn_lookup_insert; try done; [|by destruct (rm_size m =? 0), (handled m)].
    eapply rtc_once. exists (LThread (Parser i) false). split; [done|]. cbn. unfold exec_parser. by rewrite Ep, Hq.
  - eapply Hgo; [reflexivity|..]; cbn; rewrite ?fn_lookup_insert; cbn; try done; lia.
  - eapply Hgo; [reflexivity|..]; cbn; rewrite ?fn_lookup_insert; cbn; try done; lia.
Qed.

(** A parser whose pill was pushed ends; before that, it makes room. *)
Lemma parser_ends i s :
  Ready s -> (i < n)%nat -> APill i ∉ todo s -> phase s (Parser i) <> Idle -> exists s', rtc tstep s s' /\ phase s' (Parser i) = Done.
Proof.
  intros HR Hi. remember (rg_w (ring s i) - rg_r (ring s i))%nat as k eqn:Ek. revert s HR Ek.
  induction k as [k IH] using lt_wf_ind. intros s HR -> Hp Hid.
  destruct (k_ring _ (rd_calm _ HR) i Hi) as [Hle _ _ Hd _ _]. rewrite bool_decide_true in Hd by done.
  destruct (decide (rg_r (ring s i) = rg_w (ring s i))) as [Heq|Hne]; [exists s; split; [constructor|by apply Hd]|].
  destruct (parser_pops i s) as (s1 & [P1 P2 P3 P4 P5 _]); [apply HR|done|by intros [_ ?]%Hd|lia|].
  destruct (IH (rg_w (ring s1 i) - rg_r (ring s1 i))%nat) with (s := s1) as (s2 & H2 & H3); try done.
  - lia.
  - by eapply ready_tsteps.
  - by rewrite (tsteps_script s s1).
  - exists s2. split; [by etransitivity|done].
Qed.

Lemma makes_room i s :
  Ready s -> (i < n)%nat -> APill i ∈ todo s -> phase s (Parser i) <> Idle ->
  exists s', rtc tstep s s' /\ has_room (ring s' i) = true /\ phase s' Network = phase s Network /\ io_stopped s' = io_stopped s.
Proof.
  intros HR Hi. remember (rg_w (ring s i) - rg_r (ring s i))%nat as k eqn:Ek. revert s HR Ek.
  induction k as [k IH] using lt_wf_ind. intros s HR -> Hp Hid.
  destruct (has_room (ring s i)) eqn:Hroom; [exists s; split_and!; [constructor|done..]|].
  assert (Hfull : (rg_r (ring s i) < rg_w (ring s i))%nat).
  { pose proof (sh_le _ _ _ _ _ (k_ring _ (rd_calm _ HR) i Hi)) as Hle. unfold has_room in Hroom. rewrite (proj2 (Nat.leb_le _ _) Hle) in Hroom.
    apply Nat.ltb_ge in Hroom. assert (0 < cap)%nat by (unfold cap, kShardQueueCapacity; lia). lia. }
  destruct (k_ring _ (rd_calm _ HR) i Hi) as [_ _ _ Hd _ _]. rewrite bool_decide_false in Hd by tauto.
  destruct (parser_pops i s) as (s1 & [P1 P2 P3 P4 P5 P6]); [apply HR|done|by intros [? _]%Hd|lia|].
  destruct (IH (rg_w (ring s1 i) - rg_r (ring s1 i))%nat) with (s := s1) as (s2 & H2 & H3 & H4 & H5); try done.
  - lia.
  - by eapply ready_tsteps.
  - by rewrite (tsteps_script s s1).
  - exists s2. split_and!; [by etransitivity|done|congruence|congruence].
Qed.

(** The network thread ends once the event loop was stopped. *)
Definition net_out (p : Phase (Doc := Doc)) : nat :=
  match p with Done => 0 | Looping => 1 | Writing _ _ _ => 2 | Pushing _ _ => 3 | _ => 4 end.

Lemma network_moves s :
  Ready s -> io_stopped s = true -> phase s Network <> Idle -> phase s Network <> Done ->
  (forall i, (i < n)%nat -> phase s (Parser i) <> Idle) ->
  exists s', rtc tstep s s' /\ io_stopped s' = true /\ phase s' Network <> Idle /\ (net_out (phase s' Network) < net_out (phase s Network))%nat.
Proof.
  intros HR Hio Hi Hd Hpar. pose proof (k_allowed _ (rd_calm _ HR) Network) as Ha.
  assert (Hgo : forall s1, exec_network s = Some s1 -> io_stopped s1 = true -> phase s1 Network <> Idle ->
    (net_out (phase s1 Network) < net_out (phase s Network))%nat ->
    exists s', rtc tstep s s' /\ io_stopped s' = true /\ phase s' Network <> Idle /\ (net_out (phase s' Network) < net_out (phase s Network))%nat).
  { intros s1 He H1 H2 H3. exists s1. split; [|done]. eapply rtc_once. by exists (LThread Network false). }
  unfold exec_network in Hgo. destruct (phase s Network) as [| | | | | |i m|i m w| |] eqn:En; try done.
  - eapply Hgo; [reflexivity|..]; cbn; rewrite ?fn_lookup_insert; cbn; try done; lia.
  - rewrite Hio in Hgo. eapply Hgo; [reflexivity|..]; cbn; rewrite ?fn_lookup_insert; cbn; try done; lia.
  - pose proof (k_push _ (rd_calm _ HR)) as Hok. unfold push_ok in Hok. rewrite En in Hok. destruct Hok as [Hin Hm].
    assert (Hpill : APill i ∈ todo s).
    { destruct (decide (APill i ∈ todo s)) as [?|Hx]; [done|]. rewrite (k_net _ (rd_calm _ HR)) in En; [done|]. left. by exists i. }
    destruct (makes_room i s HR Hin Hpill (Hpar i Hin)) as (s1 & H1 & H2 & H3 & H4).
    exists (set_phase Network (Writing i m (rg_w (ring s1 i))) s1). cbn. rewrite fn_lookup_insert, H4. split_and!; try done; [|cbn; lia].
    eapply rtc_r; [done|]. exists (LThread Network false). split; [done|]. cbn. unfold exec_network. by rewrite H3, En, H2.
  - eapply Hgo; [reflexivity|..]; cbn; rewrite ?fn_lookup_insert; cbn; try done; lia.
Qed.

Lemma network_ends s :
  Ready s -> io_stopped s = true -> phase s Network <> Idle ->
  (forall i, (i < n)%nat -> ACreate (Parser i) ∉ todo s) -> exists s', rtc tstep s s' /\ phase s' Network = Done.
Proof.
  remember (net_out (phase s Network)) as k eqn:Ek. revert s Ek.
  induction k as [k IH] using lt_wf_ind. intros s -> HR Hio Hi Hpar.
  destruct (decide (is_done (phase s Network) = true)) as [Hd|Hd]; [exists s; split; [constructor|by destruct (phase s Network)]|].
  destruct (network_moves s) as (s1 & H1 & H2 & H3 & H4); try done.
  { by intros Hx; rewrite Hx in Hd. }
  { intros i Hin. apply created_not_idle; [done| |by apply Hpar]. by apply main_creates_parser. }
  destruct (IH _ H4 s1 eq_refl) as (s2 & H5 & H6); try done.
  - by eapply ready_tsteps.
  - by rewrite (tsteps_script s s1).
  - exists s2. split; [by etransitivity|done].
Qed.

(** Whatever the main thread is about to do, the other threads can let it. *)
Definition advances (s : state) (rest : list Act) : Prop := exists s', rtc calm_step s s' /\ script s' = rest.

Lemma advance_now s s' rest : calm s -> exec_main s = Some s' -> script s' = rest -> advances s rest.
Proof. intros Hc He Hs. exists s'. split; [|done]. eapply rtc_once. by exists LMain. Qed.

Lemma advance_after s s1 rest : rtc calm_step s s1 -> advances s1 rest -> advances s rest.
Proof. intros H1 (s2 & H2 & H3). exists s2. split; [by etransitivity|done]. Qed.

Lemma threads_end s t rest :
  Ready s -> script s = AJoin t :: rest -> exists s', rtc tstep s s' /\ phase s' t = Done.
Proof.
  intros HR Es. pose proof (k_todo _ (rd_calm _ HR)) as Hsuf. rewrite Es, fmap_cons in Hsuf. cbn [norm] in Hsuf.
  destruct (main_joins t) as [Hc Hm]; [eapply list_elem_of_suffix; [|exact Hsuf]; left|].
  assert (Hdone : forall a, before a (AJoin t) -> a ∉ todo s).
  { intros a Ha. rewrite Es, fmap_cons. cbn [norm]. destruct (earlier_done n rithmic _ Hsuf a (AJoin t) _ eq_refl (or_introl Ha)) as [_ Hx].
    apply Hx. intros ->. by apply (before_asym (AJoin t) (AJoin t)). }
  assert (Hi : phase s t <> Idle) by (apply created_not_idle; [done|done|]; apply Hdone; left; destruct t; cbn; lia).
  destruct t.
  - apply network_ends; [done| |done|].
    + apply HR. apply Hdone. left. cbn. lia.
    + intros i _. apply Hdone. left. cbn. lia.
  - apply parser_ends; [done|done| |done]. apply Hdone. left. cbn. lia.
  - destruct (k_flag _ (rd_calm _ HR) _ Hm) as [Hf Hs]; [apply Hdone; left; cbn; lia|]. by apply flagged_ends.
  - destruct (k_flag _ (rd_calm _ HR) _ Hm) as [Hf Hs]; [apply Hdone; left; cbn; lia|]. by apply flagged_ends.
  - destruct (k_flag _ (rd_calm _ HR) _ Hm) as [Hf Hs]; [apply Hdone; left; cbn; lia|]. by apply flagged_ends.
  - destruct (k_flag _ (rd_calm _ HR) _ Hm) as [Hf Hs]; [apply Hdone; left; cbn; lia|]. by apply flagged_ends.
Qed.

Lemma pill_pushed s i rest : Ready s -> script s = APill i :: rest -> advances s rest.
Proof.
  intros HR Es. pose proof (k_todo _ (rd_calm _ HR)) as Hsuf. rewrite Es, fmap_cons in Hsuf. cbn [norm] in Hsuf.
  assert (Hin : (i < n)%nat) by (apply main_has_pill; eapply list_elem_of_suffix; [|exact Hsuf]; left).
  assert (Hdone : forall a, before a (APill i) -> a ∉ todo s).
  { intros a Ha. rewrite Es, fmap_cons. cbn [norm]. destruct (earlier_done n rithmic _ Hsuf a (APill i) _ eq_refl (or_introl Ha)) as [_ Hx].
    apply Hx. intros ->. by apply (before_asym (APill i) (APill i)). }
  assert (Hcreated : forall j, (j < n)%nat -> ACreate (Parser j) ∉ todo s) by (intros j _; apply Hdone; left; cbn; lia).
  destruct (network_ends s HR) as (s1 & H1 & N1); [apply HR, Hdone; left; cbn; lia| |done|].
  { apply created_not_idle; [done| |apply Hdone; left; cbn; lia]. unfold main_script. rewrite !elem_of_app. unfold RunNetwork. set_solver. }
  assert (HR1 : Ready s1) by (by eapply ready_tsteps). assert (Es1 : script s1 = APill i :: rest) by (by rewrite (tsteps_script s s1)).
  destruct (makes_room i s1 HR1 Hin) as (s2 & H2 & Hroom & N2 & _); [rewrite Es1; left| |].
  { apply created_not_idle; [done|by apply main_creates_parser|]. rewrite (tsteps_script s s1) by done. by apply Hcreated. }
  apply (advance_after s s2); [apply tsteps_calm; by etransitivity|].
  assert (Es2 : script s2 = APill i :: rest) by (by rewrite (tsteps_script s1 s2)).
  apply (advance_after s2 (set_script (APillWrite i (rg_w (ring s2 i)) :: rest) s2)).
  - eapply rtc_once. exists LMain. split; [cbn; unfold exec_main; by rewrite Es2, Hroom|]. intros _. unfold calm. rewrite Es2. congruence.
  - by eapply advance_now.
Qed.

Lemma spawned_begins s t : phase s t = Spawned -> exists s', tstep s s' /\ phase s' t = Looping.
Proof.
  intros Ep. assert (He : exists s', exec (LThread t false) s = Some s' /\ phase s' t = Looping).
  { destruct t; cbn [exec]; unfold exec_network, exec_parser, exec_publisher, exec_telemetry, exec_receiver, exec_monitor;
      rewrite Ep; eexists; (split; [reflexivity|]); cbn; by rewrite fn_lookup_insert. }
  destruct He as (s' & He & Hp). exists s'. split; [by exists (LThread t false)|done].
Qed.

Lemma main_advances s a rest : Ready s -> script s = a :: rest -> advances s rest.
Proof.
  intros HR Es.
  assert (Hnow : (forall i, a <> APill i) -> calm s -> (forall t, a = AJoin t -> phase s t = Done) -> advances s rest).
  { intros Hnp Hc Hj. unfold advances. destruct (exec_main s) as [s'|] eqn:He.
    - destruct (exec_main_effect s s' a rest Es He) as (_ & _ & _ & _ & _ & _ & [(i & -> & _)|[_ ?]]); [by destruct (Hnp i)|]. by eapply advance_now.
    - unfold exec_main in He. rewrite Es in He. destruct a; try done; [by destruct (Hnp i)|]. by rewrite Hj in He. }
  destruct a as [t|t []| | | |i|i w|t| | |]; try (by apply Hnow; [|unfold calm; rewrite Es|]).
  - destruct (phase s t) eqn:Ep; try (by apply Hnow; [done|unfold calm; rewrite Es; congruence|done]).
    destruct (spawned_begins s t Ep) as (s1 & H1 & H2). apply (advance_after s s1); [by apply rtc_once, tstep_calm|].
    assert (Es1 : script s1 = ASetFlag t false :: rest) by (by rewrite (tsteps_script s s1 (rtc_once _ _ H1))).
    eapply advance_now; [unfold calm; rewrite Es1; congruence|unfold exec_main; by rewrite Es1|done].
  - by apply (pill_pushed s i).
  - destruct (threads_end s t rest HR Es) as (s1 & H1 & H2). apply (advance_after s s1); [by apply tsteps_calm|].
    eapply advance_now; [unfold calm; by rewrite (tsteps_script s s1), Es| |]; [unfold exec_main; by rewrite (tsteps_script s s1), Es, H2|done].
Qed.

Lemma main_finishes s : Ready s -> exists s', rtc calm_step s s' /\ script s' = [].
Proof.
  remember (script s) as l eqn:El. revert s El. induction l as [|a rest IH]; intros s El HR; [by exists s|].
  destruct (main_advances s a rest HR (eq_sym El)) as (s1 & H1 & H2).
  destruct (IH s1 (eq_sym H2)) as (s2 & H3 & H4); [by eapply ready_steps|]. exists s2. split; [by etransitivity|done].
Qed.
End calm.

(** C12: Shutdown completes and loses nothing.  In a run whose stop requests do not race with starting threads and whose pills
    do not race with the network thread, [main] can return from every state, and when it has returned each parser has emptied
    its queue (all that was pushed, then the pill, was taken) and has stored and published exactly those of the pushed messages that
    lead to an event (the library accepts the text, the parse function returns an event and its channel is known: [dispatches]),
    each once and in the order of the pushes; the others it dropped. *)
Theorem shutdown_completes {Doc : Type} (reg : ChannelRegistry) (pad : Z) (iterate : list ascii -> Z -> Z -> option Doc)
    (now : RawMessage Doc -> Now) (n : nat) (rithmic : bool) (s : St (Doc := Doc)) :
  let parsing := worker_parsing reg pad iterate now in
  rtc (calm_step (Parsing0 := parsing)) (init n rithmic) s ->
  (exists s', rtc (calm_step (Parsing0 := parsing)) s s' /\ script s' = []) /\
  (script s = [] -> forall i, (i < n)%nat ->
     let events := JMessage <$> filter (fun m => dispatches reg pad iterate (now m) m = true) (pushes i (trace s)) in
     rg_r (ring s i) = rg_w (ring s i) /\ slots_upto (ring s i) (rg_w (ring s i)) = pushes i (trace s) ++ [raw0] /\
     stores (Parser i) (trace s) = events /\ publishes (Parser i) (trace s) = events).
Proof.
  intros parsing H. pose proof (calm_reachable n rithmic s H) as HC.
  assert (HR : Ready n rithmic s) by (split; [done|]; by apply reachable_started, calm_steps).
  split; [by apply (main_finishes n rithmic)|]. intros Es i Hi.
  destruct (k_ring _ _ _ HC i Hi) as [H1 H2 H3 H4 H5 H6]. rewrite Es in *. rewrite bool_decide_true in * by apply not_elem_of_nil.
  assert (Hd : phase s (Parser i) = Done).
  { destruct (reachable_Inv n rithmic s (calm_steps _ _ H)) as [_ Hr _ _ _].
    destruct (Hr (Parser i)) as [Hx|Hx]; [rewrite Es; apply not_elem_of_nil| |done].
    by destruct (created_not_idle n rithmic s (Parser i) HR (main_creates_parser n rithmic i Hi)); [rewrite Es; apply not_elem_of_nil|]. }
  destruct (proj1 H4 Hd) as [_ Hrw]. rewrite Hd, Hrw, H2, jobs_app, jobs_one in *. cbn in H5, H6. rewrite !app_nil_r in *.
  split_and!; [done|done|..]; rewrite ?H6, <- H5; by apply jobs_sized.
Qed.

(** ** A calm run *)

Section demo.
Context {Doc : Type} `{!Parsing Doc}.

Definition calmb (s : St (Doc := Doc)) : bool :=
  match script s with
  | APill _ :: _ => is_done (phase s Network)
  | ASetFlag t false :: _ => match phase s t with Spawned => bool_decide (t = Monitor) | _ => true end
  | _ => true
  end.

Fixpoint calm_run (ls : list (Label (Doc := Doc))) (s : St (Doc := Doc)) : option St :=
  match ls with
  | [] => Some s
  | l :: ls => match (if match l with LMain => calmb s | _ => true end then exec l s else None) with Some s => calm_run ls s | None => None end
  end.

Lemma calmb_spec s : calmb s = true -> calm s.
Proof.
  unfold calmb, calm. destruct (script s) as [|[t|t []| | | |i|i w|t| | |] rest]; try done.
  - intros H Hs. rewrite Hs in H. by apply bool_decide_eq_true in H.
  - by destruct (phase s Network).
Qed.

Lemma calm_run_steps ls s s' : calm_run ls s = Some s' -> rtc calm_step s s'.
Proof.
  revert s. induction ls as [|l ls IH]; intros s; cbn [calm_run]; [intros [= <-]; constructor|].
  destruct (if match l with LMain => calmb s | _ => true end then exec l s else None) as [s1|] eqn:E; [|done].
  intros H. apply (rtc_l _ _ s1); [|auto]. exists l. destruct l; try (split; [exact E|done]).
  destruct (calmb s) eqn:Ec; [|done]. split; [exact E|]. intros _. by apply calmb_spec.
Qed.

Lemma calm_run_reaches ls s0 check :
  match calm_run ls s0 with Some s => check s | None => false end = true -> exists s, rtc calm_step s0 s /\ check s = true.
Proof. destruct (calm_run ls s0) as [s|] eqn:E; [|done]. intros H. exists s. split; [by eapply calm_run_steps|done]. Qed.

(** A message that leads to a trade on channel 5. *)
Definition trade_message : RawMessage Doc :=
  mkRaw (replicate 7 NUL) None 0 7 5 0 (replicate 32 NUL) ET_TICK
    (Some (fun _ _ ch _ => Some (mkParse PT_TICK (tick_on ch 1) depth0 book_ticker0))).

(** One message without a parse function and one that leads to a trade, then the signal. *)
Definition two_message_run : list (Label (Doc := Doc)) :=
  mains 7 ++ turns Receiver 1 ++ turns Telemetry 1 ++ turns Publisher 1 ++ turns Network 1 ++
  [LMessage 0 seven_bytes] ++ turns Network 2 ++ [LMessage 0 trade_message] ++ turns Network 2 ++
  mains 3 ++ turns Network 1 ++ mains 2 ++ turns Receiver 2 ++ mains 2 ++ turns Monitor 3 ++ mains 4 ++ turns (Parser 0) 6 ++ mains 3 ++
  turns Telemetry 2 ++ mains 3 ++ turns Publisher 2 ++ mains 1.

Definition two_message_check (s : St (Doc := Doc)) : bool :=
  match script s with [] => true | _ => false end &&
  (length (pushes 0 (trace s)) =? 2)%nat && (length (filter (fun m => handled m = true) (pushes 0 (trace s))) =? 1)%nat.
End demo.

Definition demo_now : RawMessage unit -> Now := fun _ => mkNow demo_clock 0.
#[local] Instance demo_parsing : Parsing unit := worker_parsing demo_reg 64 (fun _ _ _ => Some tt) demo_now.

Lemma two_message_reachable :
  exists s : St (Doc := unit), rtc calm_step (init 1 true) s /\ two_message_check s = true.
Proof.
  apply (calm_run_reaches two_message_run). vm_compute. reflexivity.
Qed.

Lemma shutdown_completes_witness :
  exists s : St (Doc := unit), rtc calm_step (init 1 true) s /\ script s = [] /\ length (pushes 0 (trace s)) = 2%nat /\
    length (stores (Parser 0) (trace s)) = 1%nat /\ length (publishes (Parser 0) (trace s)) = 1%nat.
Proof.
  destruct two_message_reachable as (s & Hs & Hc). apply andb_true_iff in Hc as [[He Hl]%andb_true_iff Hf]. apply Nat.eqb_eq in Hl, Hf.
  assert (Es : script s = []) by (destruct (script s); [reflexivity|discriminate]).
  destruct (shutdown_completes demo_reg 64 (fun _ _ _ => Some tt) demo_now 1 true s Hs) as [_ Hall].
  destruct (Hall Es 0%nat) as (_ & _ & Hst & Hpb); [lia|].
  exists s. split; [exact Hs|]. split; [exact Es|]. split; [exact Hl|]. rewrite Hst, Hpb, length_fmap. split; exact Hf.
Defined.
