(* ===== verification/Startup.v ===== *)
(** * Start-up of the collector

    The first half of [main] (src/main.cpp): the configuration, the logger, the signal
    mask, the storage router, the crypto subsystem, the publisher, the freeze and the Rithmic
    manager, ending in the initial state of the transition system of Lifecycle.  The
    lemmas say when start-up gives up, and that the parts are built to fit each other: one
    publishing shard, one shard queue and one parser thread per configured core. *)
From S2P Require Import Prelude Doubles Events Csv SpscQueue Exchange ShardQueue TelemetrySlot Config Process ProcessManager Mmap Schema Dolphin Router PubWorker PubRun Dispatcher Json OnDemand Factory Lifecycle.

Section startup.
Context {L : Simdjson} (fuel : nat) (undefined_cast : double -> Z) (Y : Yaml) (K : Zmq).
Context {QT QD QB : Type} `{!FifoQueue QT TickData} `{!FifoQueue QD DepthUpdateEvent} `{!FifoQueue QB BookTickerEvent}.

(** What the outside world answers during start-up. *)
Record Machine := mkMachine {
  mc_env : Environment;                      (* DolphinDB library, file system, permissions *)
  mc_clock : Clock;
  mc_server : World (env_lib mc_env);
  mc_files : gmap string MFile;
  mc_csv : FileSystem;
  mc_mask_ok : bool;                         (* [pthread_sigmask] succeeds *)
  mc_shm_ok : bool;                          (* the shared memory could be created *)
  mc_spawned : option Z;                     (* the pid of the gateway, if it was spawned *)
  mc_now : Z;
  mc_queues : QT * QD * QB;                  (* new publisher queues *)
  mc_socket : Sock K
}.

(** Everything [main] holds when it reaches the first thread. *)
Record Collector := mkCollector {
  co_config : RootConfig;
  co_logging : Logging;
  co_signals : SignalState;
  co_registry : ChannelRegistry;
  co_router : StorageRouter;
  co_crypto : CryptoChannels (L := L);
  co_pool : CryptoParserPool;
  co_slots : list nat;                       (* of the telemetry agent *)
  co_publisher : PubWorker QT QD QB K;
  co_manager : option Manager;
  co_threads : St (Doc := JDoc L)
}.

(** Source: src/main.cpp:14-44, main (start-up).
    [args] are the command line arguments, [read] what [YAML::LoadFile] returns for a path. [None]: the process ends
    before any thread is created, because the configuration cannot be loaded or the crypto subsystem not built. *)
Definition collector_start (args : list string) (read : string -> option (Node Y)) (m : Machine) (log : Logging) (sig : SignalState)
    : option Collector :=
  let config_path := default "config/config.yaml" (head args) in
  c ← LoadConfig Y (read config_path);
  let log := InitLogger (rc_global c) log in
  let sig := Install (mc_mask_ok m) sig in
  let router := router_new (mc_env m) (rc_storage c) (mc_clock m) (mc_server m) (mc_files m) (mc_csv m) in
  match BuildCryptoSubsystem (L := L) fuel undefined_cast c ∅ router [] with
  | None => None
  | Some (crypto, pool, slots_, reg, router) =>
      let '(qt, qd, qb) := mc_queues m in
      let publisher := pub_worker_new K c qt qd qb (mc_socket m) in
      let router := RouterFreezeChannels router in
      let '(r, manager) := CreateRithmicManager config_path c reg (mc_shm_ok m) (mc_spawned m) (mc_now m) in
      let router := Router.register_all ((fun x => (sr_id x, sr_info x, sr_persist x)) <$> rg_storage r) router in
      Some (mkCollector c log sig (rg_registry r) router crypto pool slots_ publisher manager
              (init (length (workers pool)) (bool_decide (is_Some manager))))
  end.

(** ** The parts fit each other *)

Lemma crypto_sizes c reg router slots_ (crypto : CryptoChannels (L := L)) pool slots' reg' router' :
  BuildCryptoSubsystem (L := L) fuel undefined_cast c reg router slots_ = Some (crypto, pool, slots', reg', router') ->
  let cores := th_parser_cores (rc_threading c) in
  cores <> [] /\ length (workers pool) = length cores /\ length (cr_shard_queues crypto) = length cores /\
  telemetry_slots pool = replicate (length cores) slot0 /\
  forall i w, workers pool !! i = Some w -> cores !! i = Some (pw_core_id w) /\ pw_input_queue w = i /\ pw_handlers w = mkCaptured i i i.
Proof.
  intros H cores. unfold BuildCryptoSubsystem, BuildCryptoChannels in H. fold cores in H.
  destruct (Nat.eqb_spec (length cores) 0) as [|Hc]; [done|].
  destruct (queues_built (L := L) (length cores)) as (qs & Hqs & Hl & _). rewrite Hqs in H.
  destruct (loop _ _ _) as [b|]; [|done]. rewrite pool_built in H by done. simplify_eq. cbn [workers cr_shard_queues telemetry_slots].
  rewrite length_imap. split_and!; [by intros ->|done|done|done|]. intros i w Hi. rewrite list_lookup_imap in Hi.
  destruct (cores !! i) as [core|] eqn:Ec; [|done]. cbn in Hi. by simplify_eq.
Qed.

(** Start-up gives up exactly when the configuration cannot be loaded or the crypto subsystem cannot be built; a
    missing gateway never stops it. *)
Lemma start_fails args read m log sig :
  collector_start args read m log sig = None <->
  match LoadConfig Y (read (default "config/config.yaml" (head args))) with
  | None => True
  | Some c => BuildCryptoSubsystem (L := L) fuel undefined_cast c ∅
      (router_new (mc_env m) (rc_storage c) (mc_clock m) (mc_server m) (mc_files m) (mc_csv m)) [] = None
  end.
Proof.
  unfold collector_start. destruct (LoadConfig Y _) as [c|]; cbn [mbind option_bind]; [|done].
  destruct (BuildCryptoSubsystem _ _ _ _ _ _) as [[[[[crypto pool] slots_] reg] router]|]; [|done].
  destruct (mc_queues m) as [[qt qd] qb]. by destruct (CreateRithmicManager _ _ _ _ _ _).
Qed.

(** One parser thread, one shard queue and one publishing shard per core: parser [i] reads queue [i] and publishes to
    shard [i], which the publisher has, so [PublishTick] and the others never drop its events for a shard out of range; and so
    is the shard of the Rithmic receiver. *)
Lemma collector_fits args read m log sig co :
  collector_start args read m log sig = Some co ->
  let n := length (th_parser_cores (rc_threading (co_config co))) in
  (0 < n)%nat /\ length (workers (co_pool co)) = n /\ num_shards_ (co_publisher co) = n /\ shards (co_threads co) = n /\
  (rithmic_shard_idx < num_shards_ (co_publisher co))%nat /\
  (forall i w, workers (co_pool co) !! i = Some w ->
     let d := worker_dispatcher (co_crypto co) (co_pool co) w in
     pw_input_queue w = i /\ (shard_idx d < num_shards_ (co_publisher co))%nat /\ telemetry_slot d = Some slot0 /\
     shard_queue d = cr_shard_queues (co_crypto co) !! i /\ is_Some (cr_shard_queues (co_crypto co) !! i)).
Proof.
  unfold collector_start. destruct (LoadConfig Y _) as [c|]; cbn [mbind option_bind]; [|done].
  destruct (BuildCryptoSubsystem _ _ _ _ _ _) as [[[[[crypto pool] slots_] reg] router]|] eqn:Eb; [|done].
  destruct (mc_queues m) as [[qt qd] qb]. destruct (CreateRithmicManager _ _ _ _ _ _) as [r manager]. intros [= <-].
  destruct (crypto_sizes _ _ _ _ _ _ _ _ _ Eb) as (Hc & Hw & Hq & Hs & Hall). cbn [co_config co_pool co_publisher co_threads co_crypto].
  assert (Hn : num_shards_ (pub_worker_new K c qt qd qb (mc_socket m)) = length (th_parser_cores (rc_threading c)))
    by (unfold num_shards_, pub_worker_new; cbn; apply length_replicate).
  assert (0 < length (th_parser_cores (rc_threading c)))%nat by (destruct (th_parser_cores (rc_threading c)); cbn; [done|lia]).
  rewrite Hn. split_and!; [done|done|done|done|done|]. intros i w Hi.
  destruct (Hall i w Hi) as (_ & H1 & H2). pose proof (lookup_lt_Some _ _ _ Hi). unfold worker_dispatcher. rewrite H2, Hs. cbn.
  split_and!; [done|lia|by apply lookup_replicate_2; lia|done|]. apply lookup_lt_is_Some_2. lia.
Qed.
End startup.

(** ** A run of start-up *)

#[local] Instance start_tick_queue : FifoQueue (SPSCQueue TickData) TickData := spsc_fifo 1 one_bit.
#[local] Instance start_depth_queue : FifoQueue (SPSCQueue DepthUpdateEvent) DepthUpdateEvent := spsc_fifo 1 one_bit.
#[local] Instance start_ticker_queue : FifoQueue (SPSCQueue BookTickerEvent) BookTickerEvent := spsc_fifo 1 one_bit.

(** A machine on which the gateway is spawned, or not. *)
Definition demo_machine (spawned : option Z)
    : Machine log_socket (QT := SPSCQueue TickData) (QD := SPSCQueue DepthUpdateEvent) (QB := SPSCQueue BookTickerEvent) :=
  mkMachine _ demo_env demo_clock (mkMemDB [] [] [] [] [] [] []) ∅ ∅ true true spawned 0
    (spsc0 1, spsc0 1, spsc0 1) (pub_socket_ demo_worker).

Definition demo_start (spawned : option Z) (file : option (Node tree_yaml)) : option (bool * bool * nat * nat) :=
  (fun co => (bool_decide (is_Some (co_manager _ co)), IsShutdownRequested (co_signals _ co), length (workers (co_pool _ co)), shards (co_threads _ co))) <$>
  collector_start (L := OnDemand.Dom) 5 (fun _ => 0) tree_yaml log_socket ["conf.yaml"%string] (fun p => if (p =? "conf.yaml")%string then file else None)
    (demo_machine spawned) logging0 (mkSignals true []).

(** A futures configuration with its default of two parser cores starts with a manager, and without one when the gateway
    cannot be spawned; a configuration that cannot be read ends the process. *)
Example start_examples :
  demo_start (Some 77) (Some demo_yaml) = Some (true, false, 2%nat, 2%nat) /\
  demo_start None (Some demo_yaml) = Some (false, false, 2%nat, 2%nat) /\
  demo_start (Some 77) None = None.
Proof. split_and!; vm_compute; reflexivity. Qed.
